(** * hono-autopenapi: static route and schema extraction

    A shallow embedding of the analyzer ([src/analyzer.ts]), the document
    assembler ([src/schema.ts]) and the two folder conventions
    ([src/autorouter.ts], [src/autoroutes.ts]), with the properties of the
    specification stated and settled against it.

    Conventions of the embedding.
    - JavaScript strings are Rocq strings (sequences of code units below
      256); numbers are integers ([Z]), printed in decimal, which covers
      HTTP status codes.
    - Values typed [any] in the source (schemas, header tables) are
      [JsValue]s; an object keeps its own properties in insertion order
      (names that are array indices, which JavaScript lists first, are not
      set apart).
    - The TypeScript compiler API (type checker, binder, source text) and
      Node's [path]/[fs] modules are external: they appear as records of
      functions the code queries.
    - A [ts.Type] is identified by a number, so that the identity-based
      [Set<ts.Type>] of the synthesizer is a [gset].
    - Recursion that the source does not bound ([typeToSchema], the
      initializer chase of [resolveToStringLiteralText], the upward walk of
      [findMiddlewareScopes]) takes a fuel argument; [None] means the fuel
      ran out. *)

From stdpp Require Import base option list gmap strings sorting.
From Stdlib Require Import ZArith Ascii String DecimalString DecimalZ DecimalPos Lia.

Set Warnings "-register-all".

Local Open Scope string_scope.
Local Open Scope Z_scope.
Local Open Scope list_scope.

(* ===================================================================== *)
(** ** JavaScript strings *)
(* ===================================================================== *)

Module Str.

Definition isEmpty (s : string) : bool :=
  match s with EmptyString => true | _ => false end.

(** [s.startsWith(p)] *)
Definition startsWith (s p : string) : bool := String.prefix p s.

Fixpoint revApp (s acc : string) : string :=
  match s with
  | EmptyString => acc
  | String c s' => revApp s' (String c acc)
  end.

Definition reverse (s : string) : string := revApp s EmptyString.

(** [s.endsWith(p)] *)
Definition endsWith (s p : string) : bool :=
  String.prefix (reverse p) (reverse s).

(** [s.slice(from, to)], negative indices counting from the end. *)
Definition slice (s : string) (from to : Z) : string :=
  let len := Z.of_nat (String.length s) in
  let norm (k : Z) : Z :=
    if (k <? 0)%Z then Z.max (len + k) 0 else Z.min k len in
  let a := norm from in
  let b := norm to in
  String.substring (Z.to_nat a) (Z.to_nat (b - a)) s.

(** [s.slice(from)] *)
Definition sliceFrom (s : string) (from : Z) : string :=
  slice s from (Z.of_nat (String.length s)).

(** [s.split(sep)] for a one-character separator. *)
Fixpoint split (sep : ascii) (s : string) : list string :=
  match s with
  | EmptyString => [EmptyString]
  | String c s' =>
      if Ascii.eqb c sep then EmptyString :: split sep s'
      else match split sep s' with
           | [] => [String c EmptyString]
           | h :: t => String c h :: t
           end
  end.

(** [xs.join(sep)] *)
Definition join (sep : string) (xs : list string) : string :=
  String.concat sep xs.

(** [xs.filter(Boolean)] on strings: the non-empty ones. *)
Definition filterBoolean (xs : list string) : list string :=
  List.filter (fun s => negb (isEmpty s)) xs.

(** Is [p] a substring of [s]? (an unanchored literal regex test) *)
Fixpoint contains (s p : string) : bool :=
  String.prefix p s ||
  match s with
  | EmptyString => false
  | String _ s' => contains s' p
  end.

Definition lowerChar (c : ascii) : ascii :=
  let n := Ascii.nat_of_ascii c in
  if ((65 <=? n)%nat && (n <=? 90)%nat)
     || ((192 <=? n)%nat && (n <=? 222)%nat && negb (n =? 215)%nat)
  then Ascii.ascii_of_nat (n + 32) else c.

(** [s.toLowerCase()] *)
Fixpoint toLowerCase (s : string) : string :=
  match s with
  | EmptyString => EmptyString
  | String c s' => String (lowerChar c) (toLowerCase s')
  end.

(** [String(n)] for an integer. *)
Definition ofNumber (n : Z) : string := NilZero.string_of_int (Z.to_int n).

(** The line terminators, which [.] of a regular expression skips. *)
Definition isLineTerminator (c : ascii) : bool :=
  let n := Ascii.nat_of_ascii c in (n =? 10)%nat || (n =? 13)%nat.

Fixpoint noLineTerminator (s : string) : bool :=
  match s with
  | EmptyString => true
  | String c s' => negb (isLineTerminator c) && noLineTerminator s'
  end.

Definition isDigit (c : ascii) : bool :=
  let n := Ascii.nat_of_ascii c in (48 <=? n)%nat && (n <=? 57)%nat.

(** [/^\d+$/.test(s)] *)
Fixpoint allDigits (s : string) : bool :=
  match s with
  | EmptyString => true
  | String c s' => isDigit c && allDigits s'
  end.

Definition isDigits (s : string) : bool := negb (isEmpty s) && allDigits s.

(** [parseInt(s, 10)] on a string of decimal digits. *)
Fixpoint parseDigits (s : string) (acc : Z) : Z :=
  match s with
  | EmptyString => acc
  | String c s' =>
      parseDigits s' (10 * acc + (Z.of_nat (Ascii.nat_of_ascii c) - 48))
  end.

(** [[A-Za-z0-9_]] *)
Definition isWordChar (c : ascii) : bool :=
  let n := Ascii.nat_of_ascii c in
  ((65 <=? n)%nat && (n <=? 90)%nat)
  || ((97 <=? n)%nat && (n <=? 122)%nat)
  || isDigit c || (n =? 95)%nat.

End Str.

(* ===================================================================== *)
(** ** JavaScript values and [JSON.stringify] *)
(* ===================================================================== *)

Inductive JsValue : Type :=
| JsUndefined
| JsNull
| JsBool (b : bool)
| JsNumber (n : Z)
| JsString (s : string)
| JsArray (elems : list JsValue)
| JsObject (props : list (string * JsValue)).

Module Js.

(** Truthiness, as [if (v)], [v || d] and [!!v] test it. *)
Definition truthy (v : JsValue) : bool :=
  match v with
  | JsUndefined | JsNull => false
  | JsBool b => b
  | JsNumber n => negb (n =? 0)%Z
  | JsString s => negb (Str.isEmpty s)
  | JsArray _ | JsObject _ => true
  end.

(** [o[k] = v] on a property list: an existing key keeps its place. *)
Fixpoint assign (props : list (string * JsValue)) (k : string) (v : JsValue)
  : list (string * JsValue) :=
  match props with
  | [] => [(k, v)]
  | (k', v') :: rest =>
      if String.eqb k' k then (k, v) :: rest else (k', v') :: assign rest k v
  end.

(** [o.k = v] on a value; a no-op on primitives. *)
Definition setProp (o : JsValue) (k : string) (v : JsValue) : JsValue :=
  match o with
  | JsObject props => JsObject (assign props k v)
  | _ => o
  end.

Fixpoint lookup (props : list (string * JsValue)) (k : string) : JsValue :=
  match props with
  | [] => JsUndefined
  | (k', v) :: rest => if String.eqb k' k then v else lookup rest k
  end.

(** [o.k] *)
Definition getProp (o : JsValue) (k : string) : JsValue :=
  match o with
  | JsObject props => lookup props k
  | _ => JsUndefined
  end.

Definition hexDigit (n : nat) : ascii :=
  Ascii.ascii_of_nat (if (n <? 10)%nat then 48 + n else 87 + n).

Definition doubleQuote : ascii := Ascii.ascii_of_nat 34.
Definition backslash : ascii := Ascii.ascii_of_nat 92.

(** One character of [QuoteJSONString]. *)
Definition escapeChar (c : ascii) : string :=
  let n := Ascii.nat_of_ascii c in
  if (n =? 34)%nat then String backslash (String doubleQuote EmptyString)
  else if (n =? 92)%nat then String backslash (String backslash EmptyString)
  else if (n =? 8)%nat then String backslash "b"
  else if (n =? 9)%nat then String backslash "t"
  else if (n =? 10)%nat then String backslash "n"
  else if (n =? 12)%nat then String backslash "f"
  else if (n =? 13)%nat then String backslash "r"
  else if (n <? 32)%nat then
    String backslash
      ("u00" +:+ String (hexDigit (n / 16))
                  (String (hexDigit (n mod 16)) EmptyString))
  else String c EmptyString.

Fixpoint escape (s : string) : string :=
  match s with
  | EmptyString => EmptyString
  | String c s' => escapeChar c +:+ escape s'
  end.

Definition quote (s : string) : string :=
  String doubleQuote (escape s +:+ String doubleQuote EmptyString).

(** [JSON.stringify(v)]: [None] is the result [undefined]; a property
    whose value serializes to [undefined] is left out, an array element
    that does so is written [null]. *)
Fixpoint stringify (v : JsValue) : option string :=
  match v with
  | JsUndefined => None
  | JsNull => Some "null"
  | JsBool b => Some (if b then "true" else "false")
  | JsNumber n => Some (Str.ofNumber n)
  | JsString s => Some (quote s)
  | JsArray elems =>
      let items :=
        (fix go (xs : list JsValue) : list string :=
           match xs with
           | [] => []
           | x :: xs' => default "null" (stringify x) :: go xs'
           end) elems in
      Some ("[" +:+ Str.join "," items +:+ "]")
  | JsObject props =>
      let members :=
        (fix go (ps : list (string * JsValue)) : list string :=
           match ps with
           | [] => []
           | (k, x) :: ps' =>
               match stringify x with
               | Some sx => (quote k +:+ ":" +:+ sx) :: go ps'
               | None => go ps'
               end
           end) props in
      Some ("{" +:+ Str.join "," members +:+ "}")
  end.

End Js.

(** Schema literals of the source. *)
Definition schemaOfType (ty : string) : JsValue :=
  JsObject [("type", JsString ty)].

Definition schemaBinary : JsValue :=
  JsObject [("type", JsString "string"); ("format", JsString "binary")].

Definition schemaDescription (text : string) : JsValue :=
  JsObject [("description", JsString text)].

Definition recursiveMarker : JsValue := schemaDescription "...recursive...".

(* ===================================================================== *)
(** ** The type oracle *)
(* ===================================================================== *)

(** [ts.TypeFlags] (TypeScript 5), the members the analyzer tests. *)
Module TypeFlags.
Definition String : Z := Z.shiftl 1 2.
Definition Number : Z := Z.shiftl 1 3.
Definition Boolean : Z := Z.shiftl 1 4.
Definition Enum : Z := Z.shiftl 1 5.
Definition StringLiteral : Z := Z.shiftl 1 7.
Definition NumberLiteral : Z := Z.shiftl 1 8.
Definition BooleanLiteral : Z := Z.shiftl 1 9.
Definition Undefined : Z := Z.shiftl 1 15.
Definition Null : Z := Z.shiftl 1 16.
Definition Object : Z := Z.shiftl 1 19.
Definition Union : Z := Z.shiftl 1 20.
Definition TemplateLiteral : Z := Z.shiftl 1 27.
Definition StringMapping : Z := Z.shiftl 1 28.
Definition StringLike : Z :=
  Z.lor String (Z.lor StringLiteral (Z.lor TemplateLiteral StringMapping)).
Definition NumberLike : Z := Z.lor Number (Z.lor NumberLiteral Enum).
Definition BooleanLike : Z := Z.lor Boolean BooleanLiteral.
End TypeFlags.

(** A [ts.Type], by identity. *)
Definition TsType : Type := nat.

(** A property symbol of an object type: [sym.getName()], whether its
    declaration is a parameter, property signature or property declaration
    carrying a question token, and [checker.getTypeOfSymbol(sym)]. *)
Record PropertySymbol : Type := mkPropertySymbol {
  symName : string;
  symOptional : bool;
  symType : TsType
}.

(** What the synthesizer asks of a type and of the checker. *)
Record TypeChecker : Type := mkTypeChecker {
  typeFlags : TsType -> Z;                      (* type.flags *)
  unionTypes : TsType -> list TsType;           (* type.types *)
  typeSymbolName : TsType -> option string;     (* type.getSymbol()?.getName() *)
  literalValue : TsType -> option Z;            (* type.value, when a number *)
  typeToString : TsType -> string;
  getIndexTypeOfType : TsType -> option TsType; (* for ts.IndexKind.Number *)
  getPropertiesOfType : TsType -> list PropertySymbol
}.

Section Synthesizer.

Variable checker : TypeChecker.

(** [(t.flags & mask) !== 0] *)
Definition hasFlags (t : TsType) (mask : Z) : bool :=
  negb (Z.land (typeFlags checker t) mask =? 0)%Z.

(** [type.isUnion()] *)
Definition isUnion (t : TsType) : bool := hasFlags t TypeFlags.Union.

Definition isBooleanType (t : TsType) : bool :=
  hasFlags t (Z.lor TypeFlags.Boolean TypeFlags.BooleanLike).
Definition isNumberType (t : TsType) : bool :=
  hasFlags t (Z.lor TypeFlags.Number TypeFlags.NumberLike).
Definition isStringType (t : TsType) : bool :=
  hasFlags t (Z.lor TypeFlags.String TypeFlags.StringLike).

Definition isNullishType (t : TsType) : bool :=
  hasFlags t (Z.lor TypeFlags.Undefined TypeFlags.Null).

(** The de-duplication loop of the union case: [seenKeys] is the
    [Set<string>] of serializations met so far, [uniq] the variants kept. *)
Fixpoint uniqueByKey (raw : list JsValue) (seenKeys : gset (option string))
  (uniq : list JsValue) : list JsValue :=
  match raw with
  | [] => uniq
  | s :: rest =>
      let key := Js.stringify s in
      if decide (key ∈ seenKeys) then uniqueByKey rest seenKeys uniq
      else uniqueByKey rest ({[key]} ∪ seenKeys) (uniq ++ [s])
  end.

(** A synthesis step returns the schema together with the [seen] set,
    which the source shares by reference among all recursive calls. *)
Definition Synth : Type := option (JsValue * gset TsType).

(** [nonNullish.map((t) => typeToSchema(checker, t, seen))] *)
Fixpoint synthAll (rec : TsType -> gset TsType -> Synth) (ts : list TsType)
  (seen : gset TsType) : option (list JsValue * gset TsType) :=
  match ts with
  | [] => Some ([], seen)
  | t :: rest =>
      '(s, seen1) ← rec t seen;
      '(ss, seen2) ← synthAll rec rest seen1;
      Some (s :: ss, seen2)
  end.

(** The loop over the property symbols of an object type. *)
Fixpoint synthProps (rec : TsType -> gset TsType -> Synth)
  (props : list PropertySymbol) (properties : list (string * JsValue))
  (required : list string) (seen : gset TsType)
  : option (list (string * JsValue) * list string * gset TsType) :=
  match props with
  | [] => Some (properties, required, seen)
  | sym :: rest =>
      '(s, seen1) ← rec (symType sym) seen;
      synthProps rec rest
        (Js.assign properties (symName sym) s)
        (if symOptional sym then required else required ++ [symName sym])
        seen1
  end.

Fixpoint typeToSchema (fuel : nat) (type : TsType) (seen : gset TsType)
  : Synth :=
  match fuel with
  | O => None
  | S fuel =>
      if isUnion type then
        let parts := unionTypes checker type in
        let nullish := existsb isNullishType parts in
        let nonNullish := List.filter (fun t => negb (isNullishType t)) parts in
        match nonNullish with
        | [only] =>
            '(s, seen1) ← typeToSchema fuel only seen;
            Some (if nullish && Js.truthy s
                  then Js.setProp s "nullable" (JsBool true) else s, seen1)
        | _ =>
            '(anyOfRaw, seen1) ← synthAll (typeToSchema fuel) nonNullish seen;
            let uniq := uniqueByKey anyOfRaw ∅ [] in
            Some (JsObject [("anyOf", JsArray uniq);
                            ("nullable",
                             if nullish then JsBool true else JsUndefined)],
                  seen1)
        end
      else if isStringType type then Some (schemaOfType "string", seen)
      else if isNumberType type then Some (schemaOfType "number", seen)
      else if isBooleanType type then Some (schemaOfType "boolean", seen)
      else
        match getIndexTypeOfType checker type with
        | Some arrayType =>
            '(items, seen1) ← typeToSchema fuel arrayType seen;
            Some (JsObject [("type", JsString "array"); ("items", items)],
                  seen1)
        | None =>
            if hasFlags type TypeFlags.Object then
              if decide (type ∈ seen) then Some (recursiveMarker, seen)
              else
                '(properties, required, seen1) ←
                  synthProps (typeToSchema fuel)
                    (getPropertiesOfType checker type) [] []
                    ({[type]} ∪ seen);
                let schema :=
                  JsObject [("type", JsString "object");
                            ("properties", JsObject properties)] in
                Some (match required with
                      | [] => schema
                      | _ => Js.setProp schema "required"
                               (JsArray (map JsString required))
                      end, seen1)
            else
              Some (schemaDescription
                      ("Unparsed type: " +:+ typeToString checker type), seen)
        end
  end.

End Synthesizer.

(* ===================================================================== *)
(** ** Concrete type graphs *)
(* ===================================================================== *)

(** A checker given by a table: type [i] is described by entry [i]. *)
Record TypeDesc : Type := mkTypeDesc {
  descFlags : Z;
  descTypes : list TsType;
  descIndex : option TsType;
  descProps : list PropertySymbol;
  descValue : option Z;
  descText : string
}.

Definition noType : TypeDesc := mkTypeDesc 0 [] None [] None "never".

Definition checkerOfTable (table : list TypeDesc) : TypeChecker :=
  let at_ (t : TsType) := nth t table noType in
  {| typeFlags t := descFlags (at_ t);
     unionTypes t := descTypes (at_ t);
     typeSymbolName _ := None;
     literalValue t := descValue (at_ t);
     typeToString t := descText (at_ t);
     getIndexTypeOfType t := descIndex (at_ t);
     getPropertiesOfType t := descProps (at_ t) |}.

Definition primitiveDesc (flags : Z) (text : string) : TypeDesc :=
  mkTypeDesc flags [] None [] None text.
Definition unionDesc (members : list TsType) (text : string) : TypeDesc :=
  mkTypeDesc TypeFlags.Union members None [] None text.
Definition arrayDesc (elem : TsType) (text : string) : TypeDesc :=
  mkTypeDesc TypeFlags.Object [] (Some elem) [] None text.
Definition objectDesc (props : list PropertySymbol) (text : string) : TypeDesc :=
  mkTypeDesc TypeFlags.Object [] None props None text.
Definition numberLiteralDesc (v : Z) : TypeDesc :=
  mkTypeDesc TypeFlags.NumberLiteral [] None [] (Some v) (Str.ofNumber v).

Definition stringDesc : TypeDesc := primitiveDesc TypeFlags.String "string".
Definition numberDesc : TypeDesc := primitiveDesc TypeFlags.Number "number".
Definition undefinedDesc : TypeDesc :=
  primitiveDesc TypeFlags.Undefined "undefined".
Definition nullDesc : TypeDesc := primitiveDesc TypeFlags.Null "null".

(** [type Json = string | Json[]]: type 0 is the union, 1 is [string],
    2 is [Json[]], whose element type is type 0 again. *)
Definition jsonTypes : TypeChecker :=
  checkerOfTable [unionDesc [1; 2]%nat "Json"; stringDesc; arrayDesc 0%nat "Json[]"].

(** [type List = { value: number; next: List }]: type 0 is the object. *)
Definition linkedListTypes : TypeChecker :=
  checkerOfTable
    [objectDesc [mkPropertySymbol "value" false 1%nat;
                 mkPropertySymbol "next" false 0%nat] "List";
     numberDesc].

(** [{ a: Point; b: Point }] with [type Point = { x: number }]: no type
    refers to itself. Type 0 is the outer object, 1 is [Point]. *)
Definition sharedTypes : TypeChecker :=
  checkerOfTable
    [objectDesc [mkPropertySymbol "a" false 1%nat;
                 mkPropertySymbol "b" false 1%nat] "{ a: Point; b: Point }";
     objectDesc [mkPropertySymbol "x" false 2%nat] "Point";
     numberDesc].

(** [string | undefined]: type 0 is the union. *)
Definition optionalStringTypes : TypeChecker :=
  checkerOfTable [unionDesc [1; 2]%nat "string | undefined"; stringDesc; undefinedDesc].

(* ===================================================================== *)
(** ** Syntax trees *)
(* ===================================================================== *)

(** The node kinds the analyzer inspects, each with the fields it reads;
    every other kind is [Other], with its children in source order. The
    first field identifies the node. Punctuation tokens, modifiers and
    template heads, which no recognizer looks at, are not represented. *)
Inductive Node : Type :=
| Identifier (id : nat) (text : string)
| StringLiteral (id : nat) (text : string)
| NoSubstitutionTemplateLiteral (id : nat) (text : string)
| NumericLiteral (id : nat) (value : Z)         (* Number(node.text) *)
| TemplateExpression (id : nat) (headText : string) (templateSpans : list Node)
| PropertyAccessExpression (id : nat) (expression name : Node)
| CallExpression (id : nat) (expression : Node)
    (typeArguments arguments : list Node)
| NewExpression (id : nat) (expression : Node)
    (typeArguments : list Node) (arguments : option (list Node))
| ParenthesizedExpression (id : nat) (expression : Node)
| AsExpression (id : nat) (expression type : Node)
| TypeAssertionExpression (id : nat) (type expression : Node)
| NonNullExpression (id : nat) (expression : Node)
| PrefixUnaryExpression (id : nat) (isMinus : bool) (operand : Node)
| ReturnStatement (id : nat) (expression : option Node)
| ObjectLiteralExpression (id : nat) (properties : list Node)
| PropertyAssignment (id : nat) (name initializer : Node)
| ArrowFunction (id : nat) (typeParameters parameters : list Node)
    (type : option Node) (body : Node)
| FunctionExpression (id : nat) (name : option Node)
    (typeParameters parameters : list Node) (type : option Node) (body : Node)
| ParameterDeclaration (id : nat) (name : Node) (type initializer : option Node)
| VariableDeclaration (id : nat) (name : Node) (type initializer : option Node)
| EnumMember (id : nat) (name : Node) (initializer : option Node)
| Other (id : nat) (kind : string) (children : list Node).

Definition nodeId (n : Node) : nat :=
  match n with
  | Identifier i _ | StringLiteral i _ | NoSubstitutionTemplateLiteral i _
  | NumericLiteral i _ | TemplateExpression i _ _
  | PropertyAccessExpression i _ _ | CallExpression i _ _ _
  | NewExpression i _ _ _ | ParenthesizedExpression i _ | AsExpression i _ _
  | TypeAssertionExpression i _ _ | NonNullExpression i _
  | PrefixUnaryExpression i _ _ | ReturnStatement i _
  | ObjectLiteralExpression i _ | PropertyAssignment i _ _
  | ArrowFunction i _ _ _ _ | FunctionExpression i _ _ _ _ _
  | ParameterDeclaration i _ _ _ | VariableDeclaration i _ _ _ | EnumMember i _ _
  | Other i _ _ => i
  end.

(** The children [ts.forEachChild] hands to its callback, in order. *)
Definition childrenOf (n : Node) : list Node :=
  match n with
  | Identifier _ _ | StringLiteral _ _ | NoSubstitutionTemplateLiteral _ _
  | NumericLiteral _ _ => []
  | TemplateExpression _ _ spans => spans
  | PropertyAccessExpression _ e name => [e; name]
  | CallExpression _ e targs args => e :: targs ++ args
  | NewExpression _ e targs args => e :: targs ++ default [] args
  | ParenthesizedExpression _ e => [e]
  | AsExpression _ e t => [e; t]
  | TypeAssertionExpression _ t e => [t; e]
  | NonNullExpression _ e => [e]
  | PrefixUnaryExpression _ _ e => [e]
  | ReturnStatement _ e => option_list e
  | ObjectLiteralExpression _ props => props
  | PropertyAssignment _ name init => [name; init]
  | ArrowFunction _ tps ps t body => tps ++ ps ++ option_list t ++ [body]
  | FunctionExpression _ name tps ps t body =>
      option_list name ++ tps ++ ps ++ option_list t ++ [body]
  | ParameterDeclaration _ name t init => name :: option_list t ++ option_list init
  | VariableDeclaration _ name t init =>
      name :: option_list t ++ option_list init
  | EnumMember _ name init => name :: option_list init
  | Other _ _ cs => cs
  end.

(** [const visit = (node) => { handle(node); ts.forEachChild(node, visit) }]
    with the state the closure updates passed along. *)
Fixpoint walk {S : Type} (handle : Node -> S -> S) (node : Node) (s : S) : S :=
  let each := foldl (fun s n => walk handle n s) in
  let opt (s : S) (o : option Node) :=
    match o with Some n => walk handle n s | None => s end in
  let s := handle node s in
  match node with
  | Identifier _ _ | StringLiteral _ _ | NoSubstitutionTemplateLiteral _ _
  | NumericLiteral _ _ => s
  | TemplateExpression _ _ spans => each s spans
  | PropertyAccessExpression _ e name => walk handle name (walk handle e s)
  | CallExpression _ e targs args => each (each (walk handle e s) targs) args
  | NewExpression _ e targs args =>
      let s := each (walk handle e s) targs in
      match args with Some args => each s args | None => s end
  | ParenthesizedExpression _ e => walk handle e s
  | AsExpression _ e t => walk handle t (walk handle e s)
  | TypeAssertionExpression _ t e => walk handle e (walk handle t s)
  | NonNullExpression _ e => walk handle e s
  | PrefixUnaryExpression _ _ e => walk handle e s
  | ReturnStatement _ e => opt s e
  | ObjectLiteralExpression _ props => each s props
  | PropertyAssignment _ name init => walk handle init (walk handle name s)
  | ArrowFunction _ tps ps t body =>
      walk handle body (opt (each (each s tps) ps) t)
  | FunctionExpression _ name tps ps t body =>
      walk handle body (opt (each (each (opt s name) tps) ps) t)
  | ParameterDeclaration _ name t init => opt (opt (walk handle name s) t) init
  | VariableDeclaration _ name t init => opt (opt (walk handle name s) t) init
  | EnumMember _ name init => opt (walk handle name s) init
  | Other _ _ cs => each s cs
  end.

(** [ts.forEachChild(root, visit)]: the walk of every child of [root]. *)
Definition walkChildren {S : Type} (handle : Node -> S -> S) (root : Node)
  (s : S) : S :=
  foldl (fun s n => walk handle n s) s (childrenOf root).

(** The nodes of a subtree in document order (depth first, a node before
    its children). *)
Definition preorder (n : Node) : list Node :=
  walk (fun n acc => acc ++ [n]) n [].

(** The nodes strictly below [root], in document order. *)
Definition descendants (root : Node) : list Node :=
  walkChildren (fun n acc => acc ++ [n]) root [].

Definition isStringLiteralLike (n : Node) : option string :=
  match n with
  | StringLiteral _ t | NoSubstitutionTemplateLiteral _ t => Some t
  | _ => None
  end.

Fixpoint stripParensAndCasts (e : Node) : Node :=
  match e with
  | ParenthesizedExpression _ e' => stripParensAndCasts e'
  | AsExpression _ e' _ => stripParensAndCasts e'
  | TypeAssertionExpression _ _ e' => stripParensAndCasts e'
  | NonNullExpression _ e' => stripParensAndCasts e'
  | _ => e
  end.

(* ===================================================================== *)
(** ** The analyzer ([src/analyzer.ts]) *)
(* ===================================================================== *)

(** What the analyzer asks of the program besides the types themselves. *)
Record Program : Type := mkProgram {
  getTypeChecker : TypeChecker;
  getTypeAtLocation : Node -> TsType;
  (** [node.getText()] *)
  getText : Node -> string;
  (** [(node as any).symbol?.declarations?.[0]] *)
  firstDeclaration : Node -> option Node;
  (** [checker.getSymbolAtLocation(node)], as the symbol's
      [declarations ?? []]; [None] when there is no symbol. *)
  declarationsAtLocation : Node -> option (list Node)
}.

(** An entry of the list [findResponses] builds. *)
Record FoundResponse : Type := mkFound {
  foundText : option string;
  foundSchema : JsValue;
  foundStatus : option Z;
  foundMediaType : option string;
  foundHeaders : JsValue
}.

(** An element of [RouteInfo.responses]. *)
Record ResponseItem : Type := mkResponseItem {
  status : Z;
  schema : JsValue;
  mediaType : option string;
  headers : JsValue
}.

Record RouteInfo : Type := mkRouteInfo {
  method : string;
  path : string;
  responseTypeText : option string;
  responseSchema : JsValue;
  requestBodySchema : JsValue;
  querySchema : JsValue;
  pathParams : option (list string);
  responses : option (list ResponseItem);
  middlewareScopes : option (list string)
}.

Definition httpMethods : list string :=
  ["get"; "post"; "put"; "patch"; "delete"; "options"; "head"].

(** [!s] for [s : string | undefined] *)
Definition falsyStr (s : option string) : bool :=
  match s with Some s => Str.isEmpty s | None => true end.

(** [a || b] for [a, b : string | undefined] *)
Definition orStr (a b : option string) : option string :=
  if falsyStr a then b else a.

(** [a || d] with a string literal [d] *)
Definition orDefault (a : option string) (d : string) : string :=
  match a with Some s => if Str.isEmpty s then d else s | None => d end.

(** [Array.from(new Set(out))]: the first occurrence of each value. *)
Fixpoint dedupFirst (xs : list Z) (seen : list Z) : list Z :=
  match xs with
  | [] => []
  | x :: rest =>
      if existsb (Z.eqb x) seen then dedupFirst rest seen
      else x :: dedupFirst rest (x :: seen)
  end.

(** The names a [:name] segment may have, and [extractPathParams]. *)
Fixpoint takeWord (s : string) : string :=
  match s with
  | String c s' => if Str.isWordChar c then String c (takeWord s') else EmptyString
  | EmptyString => EmptyString
  end.

Definition startsWord (s : string) : bool :=
  match s with String c _ => Str.isWordChar c | EmptyString => false end.

(** [/:([A-Za-z0-9_]+)/g]: [inName] is set while the scan is inside the
    name of a match. *)
Fixpoint extractPathParamsFrom (s : string) (inName : bool) : list string :=
  match s with
  | EmptyString => []
  | String c s' =>
      if inName && Str.isWordChar c then extractPathParamsFrom s' true
      else if Ascii.eqb c ":" && startsWord s'
      then takeWord s' :: extractPathParamsFrom s' true
      else extractPathParamsFrom s' false
  end.

Definition extractPathParams (path : string) : list string :=
  extractPathParamsFrom path false.

Section Analyzer.

Variable prog : Program.

(** [findRequestData(checker, cb, paramName)], as the pair of
    [bodySchema] and [querySchema]. No property below depends on what it
    finds, so the analysis is stated for any such extractor. *)
Variable findRequestData :
  nat -> option Node -> option string -> option (JsValue * JsValue).

Let checker : TypeChecker := getTypeChecker prog.

Definition isHonoRouteCall (node : Node) : option (string * string) :=
  match node with
  | CallExpression _ (PropertyAccessExpression _ _ name) _ args =>
      let methodName := getText prog name in
      if existsb (String.eqb methodName) httpMethods then
        match args with
        | firstArg :: _ =>
            match isStringLiteralLike firstArg with
            | Some text => Some (methodName, text)
            | None => None
            end
        | [] => None
        end
      else None
  | _ => None
  end.

Definition getTypeName (t : TsType) : option string :=
  typeSymbolName checker t.

Definition binaryTypeNames : list string :=
  ["ArrayBuffer"; "SharedArrayBuffer"; "Uint8Array"; "Uint8ClampedArray";
   "Int8Array"; "Int16Array"; "Uint16Array"; "Int32Array"; "Uint32Array";
   "BigInt64Array"; "BigUint64Array"; "Float32Array"; "Float64Array";
   "ReadableStream"; "Blob"; "File"; "FormData"].

(** [/^ReadableStream(<.*>)?$/.test(str)] *)
Definition isReadableStreamText (str : string) : bool :=
  String.eqb str "ReadableStream"
  || (Str.startsWith str "ReadableStream<" && Str.endsWith str ">"
      && (16 <=? String.length str)%nat
      && Str.noLineTerminator (Str.slice str 15 (-1))).

Fixpoint isBinaryLikeType (fuel : nat) (type : TsType) : option bool :=
  match fuel with
  | O => None
  | S fuel =>
      if isUnion checker type then
        (fix some (ts : list TsType) : option bool :=
           match ts with
           | [] => Some false
           | t :: rest =>
               b ← isBinaryLikeType fuel t;
               if b : bool then Some true else some rest
           end) (unionTypes checker type)
      else
        let name := getTypeName type in
        if falsyStr name && negb (hasFlags checker type TypeFlags.Object)
        then Some false
        else
          let str := typeToString checker type in
          Some (match name with
                | Some n => negb (Str.isEmpty n)
                            && existsb (String.eqb n) binaryTypeNames
                | None => false
                end
                || isReadableStreamText str
                || Str.contains str "ArrayBuffer"
                || existsb (Str.contains str)
                     ["Uint8Array"; "Int8Array"; "Float32Array";
                      "Float64Array"; "Big64Array"; "BigUint64Array"])
  end.

(** The initializer of the variable an identifier is declared by. What
    stands as initializer of a declaration or of a property assignment is
    an expression, so the [ts.isExpression] tests on initializers hold. *)
Definition resolveIdentifierToInit (expr : Node) : option Node :=
  match stripParensAndCasts expr with
  | Identifier _ _ as base =>
      match firstDeclaration prog base with
      | Some (VariableDeclaration _ _ _ (Some init)) => Some init
      | _ => None
      end
  | _ => None
  end.

(** [/^".*"$/.test(s)] *)
Definition isQuotedText (s : string) : bool :=
  let dq := String Js.doubleQuote EmptyString in
  Str.startsWith s dq && Str.endsWith s dq && (2 <=? String.length s)%nat
  && Str.noLineTerminator (Str.slice s 1 (-1)).

(** The loop of [resolveToStringLiteralText]; [seen] holds the nodes
    already visited, [withChecker] tells whether a checker was passed. *)
Fixpoint resolveLoop (fuel : nat) (withChecker : bool) (e : Node)
  (seen : gset nat) : option (option string) :=
  match fuel with
  | O => None
  | S fuel =>
      if decide (nodeId e ∈ seen) then Some None
      else
        let seen := {[nodeId e]} ∪ seen in
        match e with
        | StringLiteral _ text | NoSubstitutionTemplateLiteral _ text =>
            Some (Some text)
        | TemplateExpression _ head spans =>
            Some (match spans with [] => Some head | _ => None end)
        | Identifier _ _ =>
            match resolveIdentifierToInit e with
            | Some init =>
                resolveLoop fuel withChecker (stripParensAndCasts init) seen
            | None =>
                if withChecker then
                  let s := typeToString checker (getTypeAtLocation prog e) in
                  Some (if isQuotedText s then Some (Str.slice s 1 (-1))
                        else None)
                else Some None
            end
        | _ => Some None
        end
  end.

Definition resolveToStringLiteralText (fuel : nat) (withChecker : bool)
  (expr : Node) : option (option string) :=
  resolveLoop fuel withChecker (stripParensAndCasts expr) ∅.

Definition tryGetEnumMemberValue (name : Node) : option Z :=
  match declarationsAtLocation prog name with
  | None => None
  | Some decls =>
      (fix each (ds : list Node) : option Z :=
         match ds with
         | [] => None
         | EnumMember _ _ init :: rest =>
             match init with
             | None => None
             | Some (NumericLiteral _ v) => Some v
             | Some (PrefixUnaryExpression _ true (NumericLiteral _ v)) =>
                 Some (- v)
             | Some _ => each rest
             end
         | _ :: rest => each rest
         end) decls
  end.

Definition numbersFromType (type : TsType) : list Z :=
  let fromText (tt : TsType) (out : list Z) :=
    let s := typeToString checker tt in
    if Str.isDigits s then out ++ [Str.parseDigits s 0] else out in
  let addFrom (out : list Z) (tt : TsType) :=
    if hasFlags checker tt TypeFlags.NumberLiteral then
      match literalValue checker tt with
      | Some v => out ++ [v]
      | None => fromText tt out
      end
    else fromText tt out in
  let out :=
    if isUnion checker type then foldl addFrom [] (unionTypes checker type)
    else addFrom [] type in
  dedupFirst out [].

Definition extractStatuses (expr : Node) : list Z :=
  let e := stripParensAndCasts expr in
  match e with
  | NumericLiteral _ v => [v]
  | _ =>
      match match e with
            | PropertyAccessExpression _ _ name => tryGetEnumMemberValue name
            | _ => None
            end with
      | Some val => [val]
      | None => numbersFromType (getTypeAtLocation prog e)
      end
  end.

(** [!paramName || (ts.isIdentifier(base) && base.text === paramName)] *)
Definition isParamIdentifier (paramName : option string) (base : Node) : bool :=
  falsyStr paramName
  || match base, paramName with
     | Identifier _ text, Some p => String.eqb text p
     | _, _ => false
     end.

(** The callback of [findExplicitContentType] at one node. *)
Definition contentTypeAt (fuel : nat) (paramName : option string)
  (node : Node) (found : option string) : option (option string) :=
  match node with
  | CallExpression _ (PropertyAccessExpression _ base name) _ (k :: v :: _) =>
      if String.eqb (getText prog name) "header"
         && isParamIdentifier paramName base then
        match isStringLiteralLike k with
        | Some ktext =>
            val ← resolveToStringLiteralText fuel true v;
            Some (if String.eqb (Str.toLowerCase ktext) "content-type"
                     && negb (falsyStr val)
                  then val else found)
        | None => Some found
        end
      else Some found
  | _ => Some found
  end.

(** A callback that may run out of fuel, as a [walk] handler. *)
Definition guarded {S : Type} (f : Node -> S -> option S)
  (node : Node) (s : option S) : option S :=
  s ≫= f node.

Definition findExplicitContentType (fuel : nat) (cb : Node)
  (paramName : option string) : option (option string) :=
  walkChildren (guarded (contentTypeAt fuel paramName)) cb (Some None).

(** The loop over [optionsArg.properties] in
    [inferMediaTypeFromExpression]. *)
Fixpoint mediaTypeOfOptions (fuel : nat) (props : list Node)
  : option (option string) :=
  match props with
  | [] => Some None
  | PropertyAssignment _ (Identifier _ "type") init :: rest =>
      match isStringLiteralLike init with
      | Some text => Some (Some text)
      | None =>
          v ← resolveToStringLiteralText fuel true init;
          if falsyStr v then mediaTypeOfOptions fuel rest else Some v
      end
  | _ :: rest => mediaTypeOfOptions fuel rest
  end.

Definition inferMediaTypeFromExpression (fuel : nat) (expr : option Node)
  : option (option string) :=
  match expr with
  | None => Some None
  | Some expr =>
      match stripParensAndCasts expr with
      | NewExpression _ callee _ args =>
          let name := getText prog callee in
          if String.eqb name "Blob" || String.eqb name "File" then
            let optionsArg :=
              args ≫= fun args =>
                if String.eqb name "File" then args !! 2%nat
                else args !! 1%nat in
            match optionsArg with
            | Some (ObjectLiteralExpression _ props) =>
                mediaTypeOfOptions fuel props
            | _ => Some None
            end
          else Some None
      | _ => Some None
      end
  end.

(** The loop over [headers.properties] in
    [inferMediaTypeFromResponseInit]. *)
Fixpoint contentTypeOfHeaders (fuel : nat) (hs : list Node)
  : option (option string) :=
  match hs with
  | [] => Some None
  | PropertyAssignment _ hname init :: rest =>
      let key :=
        match hname with
        | Identifier _ text => Some text
        | _ => isStringLiteralLike hname
        end in
      if negb (falsyStr key)
         && String.eqb (Str.toLowerCase (default EmptyString key))
              "content-type" then
        match isStringLiteralLike init with
        | Some text => Some (Some text)
        | None =>
            v ← resolveToStringLiteralText fuel false init;
            if falsyStr v then contentTypeOfHeaders fuel rest else Some v
        end
      else contentTypeOfHeaders fuel rest
  | _ :: rest => contentTypeOfHeaders fuel rest
  end.

Fixpoint mediaTypeOfInitProps (fuel : nat) (props : list Node)
  : option (option string) :=
  match props with
  | [] => Some None
  | PropertyAssignment _ (Identifier _ "headers")
      (ObjectLiteralExpression _ hs) :: rest =>
      r ← contentTypeOfHeaders fuel hs;
      match r with
      | Some v => Some (Some v)
      | None => mediaTypeOfInitProps fuel rest
      end
  | _ :: rest => mediaTypeOfInitProps fuel rest
  end.

Definition inferMediaTypeFromResponseInit (fuel : nat) (init : option Node)
  : option (option string) :=
  match init with
  | Some (ObjectLiteralExpression _ props) => mediaTypeOfInitProps fuel props
  | _ => Some None
  end.

Fixpoint statusOfInitProps (props : list Node) : list Z :=
  match props with
  | [] => []
  | PropertyAssignment _ (Identifier _ "status") init :: _ =>
      extractStatuses init
  | _ :: rest => statusOfInitProps rest
  end.

Definition extractStatusFromResponseInit (init : option Node) : list Z :=
  match init with
  | Some (ObjectLiteralExpression _ props) => statusOfInitProps props
  | _ => []
  end.

(** [typeToSchema(checker, t)], with the default, empty [seen]. *)
Definition schemaOf (fuel : nat) (t : TsType) : option JsValue :=
  fst <$> typeToSchema checker fuel t ∅.

(** [if (statuses.length) for (const s of statuses) results.push(...)
     else results.push(... status: undefined ...)] *)
Definition pushPerStatus (statuses : list Z)
  (record : option Z -> FoundResponse) : list FoundResponse :=
  match statuses with
  | [] => [record None]
  | _ => map (fun s => record (Some s)) statuses
  end.

(** [statuses.length ? statuses : [code]] *)
Definition statusesOr (statuses : list Z) (code : Z) : list Z :=
  match statuses with [] => [code] | _ => statuses end.

(** The receiver test [isCtx] of [findResponses]. *)
Definition isCtxReceiver (paramName : option string) (base : Node) : bool :=
  if falsyStr paramName then true
  else match base with
       | Identifier _ text => String.eqb text (default EmptyString paramName)
       | PropertyAccessExpression _ (Identifier _ text) _ =>
           String.eqb text (default EmptyString paramName)
       | _ => false
       end.

Definition locationHeaders : JsValue :=
  JsObject
    [("Location",
      JsObject [("schema",
                 JsObject [("type", JsString "string");
                           ("format", JsString "uri")])])].

(** The records a context call pushes: [callName] is the member called,
    [a0] and [statuses] its first argument and resolved status list. *)
Definition ctxCallResponses (fuel : nat) (explicitContentType : option string)
  (callName : string) (a0 : option Node) (statuses : list Z)
  : option (list FoundResponse) :=
  if String.eqb callName "json" then
    match a0 with
    | Some a0 =>
        let t := getTypeAtLocation prog a0 in
        let text := typeToString checker t in
        schema ← schemaOf fuel t;
        let mt := orDefault explicitContentType "application/json" in
        Some (pushPerStatus statuses (fun s =>
                mkFound (Some text) schema s (Some mt) JsUndefined))
    | None => Some []
    end
  else if String.eqb callName "text" then
    let mt := orDefault explicitContentType "text/plain" in
    Some (pushPerStatus statuses (fun s =>
            mkFound None (schemaOfType "string") s (Some mt) JsUndefined))
  else if String.eqb callName "body" then
    inferred ←
      (if falsyStr explicitContentType
       then inferMediaTypeFromExpression fuel a0 else Some None);
    let mediaType :=
      orDefault (orStr explicitContentType inferred)
        "application/octet-stream" in
    '(mediaType, schema) ←
      match a0 with
      | Some a0 =>
          let t := getTypeAtLocation prog a0 in
          if isStringType checker t then
            Some (orDefault explicitContentType "text/plain",
                  schemaOfType "string")
          else
            binary ← isBinaryLikeType fuel t;
            if binary : bool then
              Some (orDefault (orStr explicitContentType (Some mediaType))
                      "application/octet-stream", schemaBinary)
            else Some (mediaType, schemaBinary)
      | None => Some (mediaType, schemaBinary)
      end;
    Some (pushPerStatus statuses (fun s =>
            mkFound None schema s (Some mediaType) JsUndefined))
  else if String.eqb callName "html" then
    let mt := orDefault explicitContentType "text/html" in
    Some (pushPerStatus statuses (fun s =>
            mkFound None (schemaOfType "string") s (Some mt) JsUndefined))
  else if String.eqb callName "notFound" then
    Some (map (fun s => mkFound None JsUndefined (Some s) None JsUndefined)
            (statusesOr statuses 404))
  else if String.eqb callName "redirect" then
    Some (map (fun s =>
                 mkFound None JsUndefined (Some s) None locationHeaders)
            (statusesOr statuses 302))
  else Some [].

(** The records [return new Response(a0, init)] pushes. *)
Definition newResponseResponses (fuel : nat)
  (explicitContentType : option string) (args : option (list Node))
  : option (list FoundResponse) :=
  let a0 := args ≫= fun args => args !! 0%nat in
  let init := args ≫= fun args => args !! 1%nat in
  fromInit ← inferMediaTypeFromResponseInit fuel init;
  let mediaType := orStr fromInit explicitContentType in
  let statuses := extractStatusFromResponseInit init in
  schema ←
    match a0 with
    | Some a0 =>
        let t := getTypeAtLocation prog a0 in
        if isStringType checker t then Some (schemaOfType "string")
        else
          binary ← isBinaryLikeType fuel t;
          if binary : bool then Some schemaBinary
          else
            inferred ← inferMediaTypeFromExpression fuel (Some a0);
            Some (if falsyStr inferred then JsUndefined else schemaBinary)
    | None => Some JsUndefined
    end;
  Some (map (fun s => mkFound None schema (Some s) mediaType JsUndefined)
          (statusesOr statuses 200)).

(** The records the callback of [findResponses] pushes at one node. *)
Definition responsesAt (fuel : nat) (explicitContentType paramName : option string)
  (node : Node) : option (list FoundResponse) :=
  match node with
  | CallExpression _ (PropertyAccessExpression _ receiver name) _ args =>
      let callName := getText prog name in
      let base := stripParensAndCasts receiver in
      if isCtxReceiver paramName base then
        let a0 := args !! 0%nat in
        let statuses :=
          match args !! 1%nat with
          | Some statusArg => extractStatuses statusArg
          | None => []
          end in
        ctxCallResponses fuel explicitContentType callName a0 statuses
      else Some []
  | ReturnStatement _ (Some (NewExpression _ callee _ args)) =>
      if String.eqb (getText prog callee) "Response" then
        newResponseResponses fuel explicitContentType args
      else Some []
  | _ => Some []
  end.

Definition findResponses (fuel : nat) (cb : option Node)
  (paramName : option string) : option (list FoundResponse) :=
  match cb with
  | None => Some []
  | Some cb =>
      explicitContentType ← findExplicitContentType fuel cb paramName;
      walkChildren
        (guarded (fun node results =>
                    found ← responsesAt fuel explicitContentType paramName node;
                    Some (results ++ found)))
        cb (Some [])
  end.

Definition toResponseItem (f : FoundResponse) : ResponseItem :=
  {| status := default 200 (foundStatus f);
     schema := foundSchema f;
     mediaType := foundMediaType f;
     headers := foundHeaders f |}.

(** The handler body and the name of its first parameter, when the second
    argument of the registration is an arrow function or a function
    expression. *)
Definition handlerParts (args : list Node) : option Node * option string :=
  let firstParamName (ps : list Node) : option string :=
    match ps with
    | ParameterDeclaration _ (Identifier _ text) _ _ :: _ => Some text
    | _ => None
    end in
  match args !! 1%nat with
  | Some (ArrowFunction _ _ ps _ body) => (Some body, firstParamName ps)
  | Some (FunctionExpression _ _ _ ps _ body) => (Some body, firstParamName ps)
  | _ => (None, None)
  end.

Definition callArguments (node : Node) : list Node :=
  match node with CallExpression _ _ _ args => args | _ => [] end.

(** The callback of [analyzeSource] at one node. *)
Definition routeAt (fuel : nat) (node : Node) (routes : list RouteInfo)
  : option (list RouteInfo) :=
  match isHonoRouteCall node with
  | Some (routeMethod, routePath) =>
      let '(bodyNode, paramName) := handlerParts (callArguments node) in
      foundList ← findResponses fuel bodyNode paramName;
      let first := head foundList in
      '(bodySchema, querySchemaFound) ←
        findRequestData fuel bodyNode paramName;
      let params := extractPathParams routePath in
      Some (routes ++
            [{| method := routeMethod;
                path := routePath;
                responseTypeText := first ≫= foundText;
                responseSchema :=
                  match first with
                  | Some f => foundSchema f
                  | None => JsUndefined
                  end;
                requestBodySchema := bodySchema;
                querySchema := querySchemaFound;
                pathParams := Some params;
                responses := Some (map toResponseItem foundList);
                middlewareScopes := None |}])
  | None => Some routes
  end.

Definition analyzeSource (fuel : nat) (sourceFile : Node)
  : option (list RouteInfo) :=
  walk (guarded (routeAt fuel)) sourceFile (Some []).

End Analyzer.

(* ===================================================================== *)
(** ** The document assembler ([src/schema.ts]) *)
(* ===================================================================== *)

Record ResponseObject : Type := mkResponseObject {
  roDescription : string;
  roHeaders : JsValue;
  (** [{ [mt]: { schema } }]: the media type and its schema. *)
  roContent : option (string * JsValue)
}.

Record ParameterObject : Type := mkParameterObject {
  paramName : string;
  paramIn : string;
  paramRequired : bool;
  paramSchema : JsValue
}.

Record Operation : Type := mkOperation {
  opParameters : option (list ParameterObject);
  opTags : option (list string);
  opDescription : option string;
  (** The schema of the required [application/json] request body. *)
  opRequestBody : option JsValue;
  opResponses : gmap string ResponseObject
}.

(** [paths]: path, then method, to operation. Keys are own properties of
    plain objects; a key that names a member of [Object.prototype] is
    outside this model. *)
Record Document : Type := mkDocument {
  openapi : string;
  infoTitle : string;
  infoVersion : string;
  paths : gmap string (gmap string Operation)
}.

(** [honoPath.replace(/:([A-Za-z0-9_]+)/g, '{$1}')] *)
Fixpoint toOpenApiPathFrom (s : string) (inName : bool) : string :=
  match s with
  | EmptyString => if inName then "}" else EmptyString
  | String c s' =>
      if inName && Str.isWordChar c then String c (toOpenApiPathFrom s' true)
      else
        (if inName then "}" else EmptyString) +:+
        (if Ascii.eqb c ":" && startsWord s'
         then String "{" (toOpenApiPathFrom s' true)
         else String c (toOpenApiPathFrom s' false))
  end.

Definition toOpenApiPath (honoPath : string) : string :=
  toOpenApiPathFrom honoPath false.

(** [a ?? b] *)
Definition nullish (v : JsValue) : bool :=
  match v with JsUndefined | JsNull => true | _ => false end.

Definition coalesce (a b : JsValue) : JsValue := if nullish a then b else a.

(** [Object.entries(o)]: the own properties of an object, the indexed
    elements of an array, the characters of a string. *)
Definition entries (o : JsValue) : list (string * JsValue) :=
  match o with
  | JsObject props => props
  | JsArray xs => imap (fun i x => (Str.ofNumber (Z.of_nat i), x)) xs
  | JsString s =>
      imap (fun i c => (Str.ofNumber (Z.of_nat i), JsString (String c EmptyString)))
        (list_ascii_of_string s)
  | _ => []
  end.

(** The strings of [new Set<string>(Array.isArray(r) ? r : [])]. *)
Definition requiredNames (r : JsValue) : list JsValue :=
  match r with JsArray xs => xs | _ => [] end.

Definition isRequired (req : list JsValue) (name : string) : bool :=
  existsb (fun v => match v with
                    | JsString s => String.eqb s name
                    | _ => false
                    end) req.

Section Assembler.

(** [typeTextToSchema], the textual synthesizer, [JsUndefined] standing
    for its result [undefined]. The assembler only passes its result on,
    so assembly is stated for any such function. *)
Variable typeTextToSchema : option string -> JsValue.

(** One iteration of the loop over [collected]. *)
Definition renderResponse (respItem : ResponseItem) : ResponseObject :=
  {| roDescription := "OK";
     roHeaders :=
       if Js.truthy (headers respItem) then headers respItem
       else JsUndefined;
     roContent :=
       if Js.truthy (schema respItem)
       then Some (orDefault (mediaType respItem) "application/json",
                  schema respItem)
       else None |}.

(** [String(respItem.status || 200)] *)
Definition responseCode (respItem : ResponseItem) : string :=
  Str.ofNumber (if (status respItem =? 0)%Z then 200 else status respItem).

Definition collectResponses (collected : list ResponseItem)
  : gmap string ResponseObject :=
  foldl (fun responses respItem =>
           <[responseCode respItem := renderResponse respItem]> responses)
    ∅ collected.

(** The legacy single-response schema of a record. *)
Definition legacySchema (r : RouteInfo) : JsValue :=
  coalesce (responseSchema r) (typeTextToSchema (responseTypeText r)).

Definition defaultResponses (legacy : JsValue) : gmap string ResponseObject :=
  {[ "200" :=
       {| roDescription := "OK";
          roHeaders := JsUndefined;
          roContent :=
            if Js.truthy legacy then Some ("application/json", legacy)
            else None |} ]}.

(** The operation the loop body builds for one record. *)
Definition operationOf (r : RouteInfo) : Operation :=
  let pathParameters :=
    match pathParams r with
    | Some ps =>
        map (fun p => mkParameterObject p "path" true (schemaOfType "string"))
          ps
    | None => []
    end in
  let queryParameters :=
    let props := Js.getProp (querySchema r) "properties" in
    if Js.truthy (querySchema r) && Js.truthy props then
      let req := requiredNames (Js.getProp (querySchema r) "required") in
      map (fun '(name, s) => mkParameterObject name "query" (isRequired req name) s)
        (entries props)
    else [] in
  let parameters := pathParameters ++ queryParameters in
  let scopes :=
    match middlewareScopes r with
    | Some ((_ :: _) as scopes) => Some scopes
    | _ => None
    end in
  {| opParameters :=
       match parameters with [] => None | _ => Some parameters end;
     opTags := scopes;
     opDescription :=
       (fun scopes => "Middleware applied from: " +:+ Str.join ", " scopes)
         <$> scopes;
     opRequestBody :=
       if Js.truthy (requestBodySchema r) then Some (requestBodySchema r)
       else None;
     opResponses :=
       match responses r with
       | Some ((_ :: _) as collected) => collectResponses collected
       | _ => defaultResponses (legacySchema r)
       end |}.

(** [paths[path] ??= {}; paths[path][method] = op] *)
Definition addOperation (paths : gmap string (gmap string Operation))
  (r : RouteInfo) : gmap string (gmap string Operation) :=
  let path := toOpenApiPath (path r) in
  <[path := <[method r := operationOf r]> (default ∅ (paths !! path))]> paths.

Definition routesToOpenAPI (routes : list RouteInfo) : Document :=
  {| openapi := "3.0.1";
     infoTitle := "hono-autopenapi";
     infoVersion := "0.1.0";
     paths := foldl addOperation ∅ routes |}.

End Assembler.

(* ===================================================================== *)
(** ** Folder conventions ([src/autorouter.ts], [src/autoroutes.ts]) *)
(* ===================================================================== *)

(** [path.parse(p)], the two fields the code reads. *)
Record ParsedPath : Type := mkParsedPath {
  parsedDir : string;
  parsedName : string
}.

(** Node's [path] module and [fs.existsSync]. *)
Record FileSystem : Type := mkFileSystem {
  sep : ascii;
  dirname : string -> string;
  relative : string -> string -> string;
  resolve : string -> string;
  join : string -> string -> string;
  parse : string -> ParsedPath;
  existsSync : string -> bool
}.

(** [isMethodFile(baseName)] *)
Definition isMethodFile (baseName : string) : option string :=
  let lower := Str.toLowerCase baseName in
  if existsb (String.eqb lower) httpMethods then Some lower else None.

Definition convertSegment (s : string) : string :=
  if Str.startsWith s "[" && Str.endsWith s "]" then
    let name := Str.slice s 1 (-1) in
    let name := if Str.startsWith name "..." then Str.sliceFrom name 3 else name in
    let name :=
      if Str.startsWith name "[" && Str.endsWith name "]"
      then Str.slice name 1 (-1) else name in
    ":" +:+ name
  else s.

(** [text.split(path.sep).filter(Boolean)] *)
Definition segmentsOf (fs : FileSystem) (text : string) : list string :=
  Str.filterBoolean (Str.split (sep fs) text).

Definition computeAutorouterPath (fs : FileSystem) (rootDirAbs fileAbs : string)
  : option string :=
  let rel := relative fs rootDirAbs fileAbs in
  if Str.startsWith rel ".." then None
  else
    let parsed := parse fs rel in
    let segs := segmentsOf fs (parsedDir parsed) in
    let base := parsedName parsed in
    let methodInName := isMethodFile base in
    let segs :=
      if falsyStr methodInName && negb (String.eqb base "index")
      then segs ++ [base] else segs in
    let pathSegs := map convertSegment segs in
    let joined := "/" +:+ Str.join "/" (Str.filterBoolean pathSegs) in
    Some (if Str.isEmpty joined then "/" else joined).

(** [xs.sort((a, b) => key(a) - key(b))]: the sort is stable, so elements
    of equal key keep their order. *)
Fixpoint insertByKey (key : string -> nat) (x : string) (sorted : list string)
  : list string :=
  match sorted with
  | [] => [x]
  | y :: rest =>
      if (key x <? key y)%nat then x :: y :: rest
      else y :: insertByKey key x rest
  end.

Definition sortByKey (key : string -> nat) (xs : list string) : list string :=
  foldl (fun sorted x => insertByKey key x sorted) [] xs.

(** [a.split('/').length] *)
Definition slashParts (a : string) : nat := List.length (Str.split "/" a).

(** The prefix a directory contributes to the scope list. *)
Definition scopePrefix (fs : FileSystem) (rootDirAbs cur : string) : string :=
  let rel := relative fs rootDirAbs cur in
  if Str.isEmpty rel then "/"
  else "/" +:+ Str.join "/" (segmentsOf fs rel).

(** The [while (true)] loop of [findMiddlewareScopes]. *)
Fixpoint walkUp (fuel : nat) (fs : FileSystem) (rootDirAbs stop cur : string)
  (scopes : list string) : option (list string) :=
  match fuel with
  | O => None
  | S fuel =>
      let mid := join fs cur "middleware.ts" in
      let scopes :=
        if existsSync fs mid then scopes ++ [scopePrefix fs rootDirAbs cur]
        else scopes in
      if String.eqb cur stop then Some scopes
      else
        let parent := dirname fs cur in
        if String.eqb parent cur then Some scopes
        else if Str.startsWith (relative fs stop parent) ".." then Some scopes
        else walkUp fuel fs rootDirAbs stop parent scopes
  end.

Definition findMiddlewareScopes (fuel : nat) (fs : FileSystem)
  (filePath rootDirAbs : string) : option (list string) :=
  scopes ← walkUp fuel fs rootDirAbs (resolve fs rootDirAbs)
              (dirname fs filePath) [];
  Some (sortByKey slashParts scopes).

(** *** POSIX paths

    [path.posix] on absolute, normalized paths (no [.] or [..] segment, no
    doubled or trailing slash), over a given set of existing files. *)
Module Posix.

Definition segments (p : string) : list string :=
  Str.filterBoolean (Str.split "/" p).

Definition ofSegments (segs : list string) : string :=
  "/" +:+ Str.join "/" segs.

Definition dirname (p : string) : string :=
  ofSegments (removelast (segments p)).

Fixpoint dropCommon (from to : list string) : list string * list string :=
  match from, to with
  | a :: from', b :: to' =>
      if String.eqb a b then dropCommon from' to' else (from, to)
  | _, _ => (from, to)
  end.

Definition relative (from to : string) : string :=
  let '(up, down) := dropCommon (segments from) (segments to) in
  Str.join "/" (map (fun _ => "..") up ++ down).

Definition join (a b : string) : string :=
  ofSegments (segments a ++ segments b).

(** The base name without its extension: the extension starts at the
    last dot, unless that dot is the first character. *)
Fixpoint stripExtension (base : string) (first : bool) : string :=
  match base with
  | EmptyString => EmptyString
  | String c rest =>
      if Ascii.eqb c "." && negb first && negb (Str.contains rest ".")
      then EmptyString
      else String c (stripExtension rest false)
  end.

(** [path.parse] of a relative path. *)
Definition parse (p : string) : ParsedPath :=
  let segs := Str.split "/" p in
  {| parsedDir := Str.join "/" (removelast segs);
     parsedName := stripExtension (List.last segs EmptyString) true |}.

Definition fileSystem (files : list string) : FileSystem :=
  mkFileSystem "/" dirname relative (fun p => p) join parse
    (fun p => existsb (String.eqb p) files).

End Posix.

(* ===================================================================== *)
(** ** Sample programs *)
(* ===================================================================== *)

Module Sample.

(** The types of the samples: 0 is a type no rule matches, 1 [string],
    2 [number], 3 [{ id: number }], 4 [undefined], 5 [{ error: string }],
    6 the literal type [400], 7 the literal type [422], 8 the union
    [400 | 422]. *)
Definition types : TypeChecker :=
  checkerOfTable
    [primitiveDesc 1 "any"; stringDesc; numberDesc;
     objectDesc [mkPropertySymbol "id" false 2%nat] "{ id: number; }";
     undefinedDesc;
     objectDesc [mkPropertySymbol "error" false 1%nat] "{ error: string; }";
     numberLiteralDesc 400; numberLiteralDesc 422;
     unionDesc [6; 7]%nat "ErrStatus"].

(** An identifier named [ok], [err] or [status] has type 3, 5 or 8; a
    string literal type 1, a numeric literal type 2; any other node
    type 0. An identifier's text is its source text; no identifier has a
    recorded declaration. *)
Definition program : Program :=
  {| getTypeChecker := types;
     getTypeAtLocation n :=
       match n with
       | StringLiteral _ _ | NoSubstitutionTemplateLiteral _ _ => 1%nat
       | NumericLiteral _ _ => 2%nat
       | Identifier _ "ok" => 3%nat
       | Identifier _ "err" => 5%nat
       | Identifier _ "status" => 8%nat
       | _ => 0%nat
       end;
     getText n := match n with Identifier _ t => t | _ => EmptyString end;
     firstDeclaration _ := None;
     declarationsAtLocation _ := None |}.

(** A request-data extractor that finds nothing. *)
Definition noRequestData (fuel : nat) (cb : option Node) (p : option string)
  : option (JsValue * JsValue) :=
  Some (JsUndefined, JsUndefined).

(** A textual synthesizer consulted on no text only. *)
Definition noTypeText (typeText : option string) : JsValue := JsUndefined.

(** [recv.name(args)], the call being node [i], its callee [i + 1], the
    receiver identifier [i + 2] and the member name [i + 3]. *)
Definition callOn (i : nat) (recv name : string) (args : list Node) : Node :=
  CallExpression i
    (PropertyAccessExpression (i + 1) (Identifier (i + 2) recv)
       (Identifier (i + 3) name))
    [] args.

Definition block (i : nat) (statements : list Node) : Node :=
  Other i "Block" statements.
Definition expressionStatement (i : nat) (e : Node) : Node :=
  Other i "ExpressionStatement" [e].
Definition returning (i : nat) (e : Node) : Node :=
  ReturnStatement i (Some e).

(** [(c) => body] *)
Definition handler (i : nat) (body : Node) : Node :=
  ArrowFunction i []
    [ParameterDeclaration (i + 1) (Identifier (i + 2) "c") None None]
    None body.

(** [{ c.header('content-type', 'text/csv');
       c.header('content-type', 'application/xml');
       return c.text('x') }] *)
Definition csvHeader : Node :=
  callOn 12 "c" "header"
    [StringLiteral 16 "content-type"; StringLiteral 17 "text/csv"].
Definition xmlHeader : Node :=
  callOn 22 "c" "header"
    [StringLiteral 26 "content-type"; StringLiteral 27 "application/xml"].
Definition textCall : Node := callOn 32 "c" "text" [StringLiteral 36 "x"].
Definition twoHeadersBody : Node :=
  block 10
    [expressionStatement 11 csvHeader;
     expressionStatement 21 xmlHeader;
     returning 31 textCall].

(** [{ if (bad) return c.json(err, 422); return c.json(ok, 200) }] *)
Definition errorCall : Node :=
  callOn 53 "c" "json" [Identifier 57 "err"; NumericLiteral 58 422].
Definition okCall : Node :=
  callOn 61 "c" "json" [Identifier 65 "ok"; NumericLiteral 66 200].
Definition twoStatusBody : Node :=
  block 50
    [Other 51 "IfStatement" [Identifier 52 "bad"; returning 59 errorCall];
     returning 60 okCall].

(** [app.post('/users/:id', (c) => { ... })] with the body above. *)
Definition twoStatusRoute : Node :=
  callOn 40 "app" "post"
    [StringLiteral 44 "/users/:id"; handler 45 twoStatusBody].

(** [{ return c.json(err, status) }], with [status] of type
    [ErrStatus], that is [400 | 422]. *)
Definition narrowedCall : Node :=
  callOn 72 "c" "json" [Identifier 76 "err"; Identifier 77 "status"].
Definition narrowedBody : Node := block 70 [returning 71 narrowedCall].

(** A file whose only statement is [app.get('/fail', (c) => body)]. *)
Definition failRouteFile (body : Node) : Node :=
  Other 0 "SourceFile"
    [expressionStatement 1
       (callOn 2 "app" "get" [StringLiteral 6 "/fail"; handler 7 body])].

(** [app.get('/ping', (c) => c.json(ok))]: the handler's body is the
    call itself. *)
Definition pingRoute : Node :=
  callOn 80 "app" "get"
    [StringLiteral 84 "/ping";
     handler 85 (callOn 88 "c" "json" [Identifier 92 "ok"])].

Definition sourceFile : Node :=
  Other 0 "SourceFile"
    [expressionStatement 1 twoStatusRoute; expressionStatement 2 pingRoute].

(** [{ c.header('content-type', 'text/csv'); return c.redirect('/x') }] *)
Definition redirectCall : Node :=
  callOn 112 "c" "redirect" [StringLiteral 116 "/x"].
Definition redirectBody : Node :=
  block 100
    [expressionStatement 101
       (callOn 102 "c" "header"
          [StringLiteral 106 "content-type"; StringLiteral 107 "text/csv"]);
     returning 111 redirectCall].

(** [{ if (a) return c.text('a'); return c.text('b') }] *)
Definition twoTextsBody : Node :=
  block 120
    [Other 121 "IfStatement"
       [Identifier 122 "a";
        returning 123 (callOn 124 "c" "text" [StringLiteral 128 "a"])];
     returning 129 (callOn 130 "c" "text" [StringLiteral 134 "b"])].

(** A record with two responses of status 404. *)
Definition plainNotFound : ResponseItem :=
  mkResponseItem 404 (schemaOfType "string") (Some "text/plain") JsUndefined.
Definition jsonNotFound : ResponseItem :=
  mkResponseItem 404 (schemaOfType "object") (Some "application/json")
    JsUndefined.
Definition twiceNotFound : RouteInfo :=
  mkRouteInfo "get" "/items/:id" None JsUndefined JsUndefined JsUndefined
    (Some ["id"]) (Some [plainNotFound; jsonNotFound]) None.

End Sample.

(* ===================================================================== *)
(** ** Predicates used in the statements *)
(* ===================================================================== *)

(** The oracles answer within [fuel] steps: the synthesizer on every type,
    the string resolver on every expression, the binary-type test on every
    type, and the request-data extractor on every handler. *)
Definition Converges (prog : Program)
  (findRequestData : nat -> option Node -> option string -> option (JsValue * JsValue))
  (fuel : nat) : Prop :=
  (forall t, is_Some (typeToSchema (getTypeChecker prog) fuel t ∅))
  /\ (forall withChecker e,
        is_Some (resolveToStringLiteralText prog fuel withChecker e))
  /\ (forall t, is_Some (isBinaryLikeType prog fuel t))
  /\ (forall cb p, is_Some (findRequestData fuel cb p)).

(** The header value in force after the updates [us], none being [init]. *)
Definition lastUpdate (init : option string) (us : list (option string))
  : option string :=
  match last (omap id us) with Some v => Some v | None => init end.

(** [node] is a call [recv.name(args)] whose receiver passes the context
    test of [findResponses] for the parameter name [p]. *)
Definition CtxCall (prog : Program) (p : option string) (node : Node)
  (name : string) (args : list Node) : Prop :=
  exists i j receiver member typeArgs,
    node = CallExpression i (PropertyAccessExpression j receiver member)
             typeArgs args
    /\ getText prog member = name
    /\ isCtxReceiver p (stripParensAndCasts receiver) = true.

(** [node] is [ctx.json(a0, <numeric literal v>)]. *)
Definition JsonCallWithStatus (prog : Program) (p : option string)
  (node : Node) (v : Z) : Prop :=
  exists a0 statusArg rest k,
    CtxCall prog p node "json" (a0 :: statusArg :: rest)
    /\ stripParensAndCasts statusArg = NumericLiteral k v.

(** The status argument is resolved through its type: it is not a numeric
    literal, nor a property access that names an enum member with a
    numeric initializer. *)
Definition ResolvedByType (prog : Program) (statusArg : Node) : Prop :=
  match stripParensAndCasts statusArg with
  | NumericLiteral _ _ => False
  | PropertyAccessExpression _ _ name => tryGetEnumMemberValue prog name = None
  | _ => True
  end.

(** The type of the status argument is a union whose members are the
    numeric literal types of the values [vs]. *)
Definition NarrowedTo (prog : Program) (statusArg : Node) (vs : list Z) : Prop :=
  let t := getTypeAtLocation prog (stripParensAndCasts statusArg) in
  isUnion (getTypeChecker prog) t = true
  /\ Forall2 (fun m v =>
                hasFlags (getTypeChecker prog) m TypeFlags.NumberLiteral = true
                /\ literalValue (getTypeChecker prog) m = Some v)
       (unionTypes (getTypeChecker prog) t) vs
  /\ NoDup vs.

(** What a record says of the responses of its handler. *)
Definition RecordsResponses (prog : Program) (fuel : nat)
  (bodyNode : option Node) (paramName : option string) (r : RouteInfo) : Prop :=
  exists foundList,
    findResponses prog fuel bodyNode paramName = Some foundList
    /\ match bodyNode with
       | Some cb =>
           exists ect perNode,
             findExplicitContentType prog fuel cb paramName = Some ect
             /\ mapM (responsesAt prog fuel ect paramName) (descendants cb)
                = Some perNode
             /\ foundList = List.concat perNode
       | None => foundList = []
       end
    /\ responseTypeText r = head foundList ≫= foundText
    /\ responseSchema r
       = match head foundList with
         | Some f => foundSchema f
         | None => JsUndefined
         end
    /\ (foundList = [] -> responseTypeText r = None /\ responseSchema r = JsUndefined)
    /\ exists items,
         responses r = Some items
         /\ Forall2 (fun f item =>
                       status item = default 200 (foundStatus f)
                       /\ (foundStatus f = None -> status item = 200)
                       /\ schema item = foundSchema f
                       /\ mediaType item = foundMediaType f
                       /\ headers item = foundHeaders f)
              foundList items.


(** A fuel that suffices for [t] under [seen], when the types of [objects]
    are the object types and [rank], at most [bound], decreases from a
    union to its members and from an array to its elements. *)
Definition fuelFor (rank : TsType -> nat) (bound : nat) (objects : gset TsType)
  (seen : gset TsType) (t : TsType) : nat :=
  (bound + 2) * size (objects ∖ seen) + rank t.

(** The directories the upward walk of [findMiddlewareScopes] passes
    through, deepest first. *)
Fixpoint walkedDirectories (fuel : nat) (fs : FileSystem) (stop cur : string)
  : option (list string) :=
  match fuel with
  | O => None
  | S fuel =>
      if String.eqb cur stop then Some [cur]
      else
        let parent := dirname fs cur in
        if String.eqb parent cur then Some [cur]
        else if Str.startsWith (relative fs stop parent) ".." then Some [cur]
        else (fun dirs => cur :: dirs) <$> walkedDirectories fuel fs stop parent
  end.

(** The scopes of the directories [dirs] that hold a middleware file. *)
Definition scopesOf (fs : FileSystem) (rootDirAbs : string) (dirs : list string)
  : list string :=
  map (scopePrefix fs rootDirAbs)
    (List.filter (fun d => existsSync fs (join fs d "middleware.ts")) dirs).


(* ===================================================================== *)
(** ** Grouped routes ([src/autoroutes.ts]) *)
(* ===================================================================== *)

(** [s.replace(/^\/+/, '')] *)
Fixpoint stripLeadingSlashes (s : string) : string :=
  match s with
  | EmptyString => EmptyString
  | String c s' => if Ascii.eqb c "/" then stripLeadingSlashes s' else s
  end.

(** [s.replace(/\/+$/, '')] *)
Fixpoint stripTrailingSlashes (s : string) : string :=
  match s with
  | EmptyString => EmptyString
  | String c s' =>
      let rest := stripTrailingSlashes s' in
      if Ascii.eqb c "/" && Str.isEmpty rest then EmptyString
      else String c rest
  end.

(** [isRouteFile(filePath)]; [basename] is [path.basename]. *)
Definition isRouteFile (basename : string -> string) (filePath : string) : bool :=
  String.eqb (basename filePath) "route.ts"
  || String.eqb (basename filePath) "route.tsx".

Definition computeAutoroutePrefix (fs : FileSystem)
  (filePath rootDirAbs : string) : option string :=
  let dir := dirname fs filePath in
  let rel := relative fs rootDirAbs dir in
  if Str.startsWith rel ".." then None
  else if Str.isEmpty rel then Some "/"
  else Some ("/" +:+ Str.join "/" (segmentsOf fs rel)).

Definition normalizeLocal (local : string) : string :=
  if Str.isEmpty local then "/"
  else if Str.startsWith local "/" then local
  else "/" +:+ local.

Definition joinRoutePaths (prefix : option string) (local : string) : string :=
  match prefix with
  | None => normalizeLocal local
  | Some prefix =>
      if Str.isEmpty prefix || String.eqb prefix "/" then normalizeLocal local
      else
        let p := stripTrailingSlashes prefix in
        let l := stripLeadingSlashes local in
        if Str.isEmpty l || String.eqb l "/" then p
        else p +:+ "/" +:+ l
  end.

(** [path.posix.basename] on an absolute, normalized path. *)
Definition posixBasename (p : string) : string :=
  List.last (Posix.segments p) EmptyString.

(** *** Paths by segments

    A route path written segment by segment, each segment after a slash:
    a static text, or a parameter [:name]. *)
Inductive PathSegment : Type :=
| StaticSegment (text : string)
| ParamSegment (name : string).

(** A static text holds no colon; a parameter name is a non-empty word. *)
Definition segmentOk (seg : PathSegment) : bool :=
  match seg with
  | StaticSegment text => negb (Str.contains text ":")
  | ParamSegment name =>
      negb (Str.isEmpty name) && forallb Str.isWordChar (list_ascii_of_string name)
  end.

(** Moreover a static text is not empty and holds no slash. *)
Definition segmentClean (seg : PathSegment) : bool :=
  segmentOk seg
  && match seg with
     | StaticSegment text =>
         negb (Str.isEmpty text) && negb (Str.contains text "/")
     | ParamSegment _ => true
     end.

Definition honoSegment (seg : PathSegment) : string :=
  match seg with
  | StaticSegment text => text
  | ParamSegment name => ":" +:+ name
  end.

Definition openApiSegment (seg : PathSegment) : string :=
  match seg with
  | StaticSegment text => text
  | ParamSegment name => "{" +:+ name +:+ "}"
  end.

Fixpoint pathOfSegments (render : PathSegment -> string)
  (segs : list PathSegment) : string :=
  match segs with
  | [] => EmptyString
  | seg :: rest => "/" +:+ render seg +:+ pathOfSegments render rest
  end.

(** A text at which a parameter name ends: the empty text, or one that
    starts with a character that is not of a word. *)
Definition endsName (rest : string) : Prop :=
  match rest with
  | EmptyString => True
  | String c _ => Str.isWordChar c = false
  end.

Definition paramNames (segs : list PathSegment) : list string :=
  omap (fun seg => match seg with
                   | ParamSegment name => Some name
                   | StaticSegment _ => None
                   end) segs.

(* ===================================================================== *)
(** ** Routes of a file set ([src/index.ts], [src/cli.ts], [src/docs.ts]) *)
(* ===================================================================== *)

(** [{ ...r, path, middlewareScopes: scopes }] *)
Definition withPathAndScopes (r : RouteInfo) (newPath : string)
  (scopes : list string) : RouteInfo :=
  {| method := method r;
     path := newPath;
     responseTypeText := responseTypeText r;
     responseSchema := responseSchema r;
     requestBodySchema := requestBodySchema r;
     querySchema := querySchema r;
     pathParams := pathParams r;
     responses := responses r;
     middlewareScopes := Some scopes |}.

(** [{ ...r, path }] *)
Definition withPath (r : RouteInfo) (newPath : string) : RouteInfo :=
  {| method := method r;
     path := newPath;
     responseTypeText := responseTypeText r;
     responseSchema := responseSchema r;
     requestBodySchema := requestBodySchema r;
     querySchema := querySchema r;
     pathParams := pathParams r;
     responses := responses r;
     middlewareScopes := middlewareScopes r |}.

(** The first rewriting of the records of the file [f]: under a grouped
    routes root, the records of a route file get the folder prefix and the
    middleware scopes. The root is the empty string when none is given. *)
Definition applyAutoroutes (fuel : nat) (fs : FileSystem)
  (basename : string -> string) (rootAbsAutoroutes f : string)
  (rs : list RouteInfo) : option (list RouteInfo) :=
  if negb (Str.isEmpty rootAbsAutoroutes) && isRouteFile basename f then
    match computeAutoroutePrefix fs f rootAbsAutoroutes with
    | Some prefix =>
        if Str.isEmpty prefix then Some rs
        else
          scopes ← findMiddlewareScopes fuel fs f rootAbsAutoroutes;
          Some (map (fun r =>
                       withPathAndScopes r
                         (joinRoutePaths (Some prefix) (path r)) scopes)
                  rs)
    | None => Some rs
    end
  else Some rs.

(** The second rewriting: under a folder router root, the records get the
    path composed from the folders and the file name as prefix. *)
Definition applyAutorouter (fs : FileSystem) (rootAbsAutorouter f : string)
  (rs : list RouteInfo) : list RouteInfo :=
  if negb (Str.isEmpty rootAbsAutorouter) then
    match computeAutorouterPath fs rootAbsAutorouter f with
    | Some base =>
        if Str.isEmpty base then rs
        else map (fun r => withPath r (joinRoutePaths (Some base) (path r))) rs
    | None => rs
    end
  else rs.

Section FileSet.

Variable prog : Program.
Variable findRequestData :
  nat -> option Node -> option string -> option (JsValue * JsValue).
Variable typeTextToSchema : option string -> JsValue.
Variable fs : FileSystem.
Variable basename : string -> string.

(** [program.getSourceFile(file)] *)
Variable getSourceFile : string -> option Node.

(** The callback of [files.flatMap] in [analyzeToOpenAPI] and in the
    command line's [main]. *)
Definition routesOfFile (fuel : nat)
  (rootAbsAutoroutes rootAbsAutorouter f : string) : option (list RouteInfo) :=
  match getSourceFile f with
  | None => Some []
  | Some sf =>
      rs ← analyzeSource prog findRequestData fuel sf;
      rs ← applyAutoroutes fuel fs basename rootAbsAutoroutes f rs;
      Some (applyAutorouter fs rootAbsAutorouter f rs)
  end.

(** [analyzeToOpenAPI], from the list of matched files on; the two roots
    are given resolved. *)
Definition analyzeToOpenAPI (fuel : nat)
  (rootAbsAutoroutes rootAbsAutorouter : string) (files : list string)
  : option Document :=
  routes ← mapM (routesOfFile fuel rootAbsAutoroutes rootAbsAutorouter) files;
  Some (routesToOpenAPI typeTextToSchema (List.concat routes)).

(** [analyzeFilesToOpenAPI], from the list of matched files on. *)
Definition analyzeFilesToOpenAPI (fuel : nat) (files : list string)
  : option Document :=
  routes ← mapM (fun file =>
                   match getSourceFile file with
                   | None => Some []
                   | Some sf => analyzeSource prog findRequestData fuel sf
                   end) files;
  Some (routesToOpenAPI typeTextToSchema (List.concat routes)).

End FileSet.

(* ===================================================================== *)
(** ** Command line arguments ([src/cli.ts]) *)
(* ===================================================================== *)

(** A value of the argument map: a string, or [true]. *)
Inductive ArgValue : Type :=
| ArgString (s : string)
| ArgTrue.

(** The loop of [parseArgs] from position [i] on, [rest] being
    [argv.slice(i)]. Keys are own properties of a plain object; a key that
    names a member of [Object.prototype] is outside this model. *)
Fixpoint parseArgsFrom (rest : list string) (args : gmap string ArgValue)
  : gmap string ArgValue :=
  match rest with
  | [] => args
  | a :: rest' =>
      if Str.startsWith a "--" then
        let parts := Str.split "=" a in
        let k := Str.sliceFrom (default EmptyString (head parts)) 2 in
        match parts !! 1%nat with
        | Some vRaw => parseArgsFrom rest' (<[k := ArgString vRaw]> args)
        | None =>
            match rest' with
            | next :: rest'' =>
                if negb (Str.startsWith next "--")
                then parseArgsFrom rest'' (<[k := ArgString next]> args)
                else parseArgsFrom rest' (<[k := ArgTrue]> args)
            | [] => parseArgsFrom rest' (<[k := ArgTrue]> args)
            end
        end
      else parseArgsFrom rest' args
  end.

Definition parseArgs (argv : list string) : gmap string ArgValue :=
  parseArgsFrom (drop 2 argv) ∅.

(** [(v as string) || d], where [v] may be absent or [true]. *)
Definition argOr (v : option ArgValue) (d : ArgValue) : ArgValue :=
  match v with
  | Some (ArgString s) => if Str.isEmpty s then d else ArgString s
  | Some ArgTrue => ArgTrue
  | None => d
  end.

(** A value inside a template literal. *)
Definition argText (v : ArgValue) : string :=
  match v with ArgString s => s | ArgTrue => "true" end.

Definition argTruthy (v : ArgValue) : bool :=
  match v with ArgString s => negb (Str.isEmpty s) | ArgTrue => true end.

(** The settings [main] derives from the argument map: the pattern of the
    files to read, the output file and the grouped routes root. *)
Record CliSettings : Type := mkCliSettings {
  cliEntries : ArgValue;
  cliOut : ArgValue;
  cliRootDir : ArgValue
}.

Definition cliSettings (args : gmap string ArgValue) : CliSettings :=
  let rootDir :=
    argOr (args !! "root") (argOr (args !! "autoroutes") (ArgString EmptyString)) in
  let entries :=
    match args !! "entries" with
    | Some v => v
    | None =>
        if argTruthy rootDir
        then ArgString (argText rootDir +:+ "/**/route.ts")
        else ArgString "src/**/*.ts"
    end in
  {| cliEntries := entries;
     cliOut := argOr (args !! "out") (ArgString "openapi.json");
     cliRootDir := rootDir |}.

(* ===================================================================== *)
(** ** The documentation page ([src/docs.ts]) *)
(* ===================================================================== *)

(** [normalizePath(p)] *)
Definition normalizePath (p : string) : string :=
  if Str.startsWith p "/" then p else "/" +:+ p.

(** The replacement of one character in [escapeHtml]. *)
Definition escapeHtmlChar (c : ascii) : string :=
  let n := Ascii.nat_of_ascii c in
  if (n =? 38)%nat then "&amp;"
  else if (n =? 60)%nat then "&lt;"
  else if (n =? 62)%nat then "&gt;"
  else if (n =? 34)%nat then "&quot;"
  else if (n =? 39)%nat then "&#39;"
  else String c EmptyString.

(** [escapeHtml(s)]: every ampersand, angle bracket, double quote and
    single quote is replaced by its entity. *)
Fixpoint escapeHtml (s : string) : string :=
  match s with
  | EmptyString => EmptyString
  | String c s' => escapeHtmlChar c +:+ escapeHtml s'
  end.

(** The five characters [escapeHtml] replaces. *)
Definition htmlSpecial (c : ascii) : bool :=
  let n := nat_of_ascii c in
  (n =? 38)%nat || (n =? 60)%nat || (n =? 62)%nat || (n =? 34)%nat
  || (n =? 39)%nat.

(** The entities after their ampersand, first character apart, each with
    the code of the character it stands for. *)
Definition htmlEntities : list (ascii * string * nat) :=
  [("a"%char, "mp;", 38%nat); ("l"%char, "t;", 60%nat); ("g"%char, "t;", 62%nat);
   ("q"%char, "uot;", 34%nat); ("#"%char, "39;", 39%nat)].

(* ===================================================================== *)
(** ** Request data ([findRequestData] and the Zod reader of
       [src/analyzer.ts]) *)
(* ===================================================================== *)

(** [await e] is the node [Other _ "AwaitExpression" [e]]. *)
Definition isAwaitExpression (n : Node) : option Node :=
  match n with
  | Other _ "AwaitExpression" [e] => Some e
  | _ => None
  end.

Definition isCallExpression (n : Node) : bool :=
  match n with CallExpression _ _ _ _ => true | _ => false end.

(** [String(v)] *)
Fixpoint stringOf (v : JsValue) : string :=
  match v with
  | JsUndefined => "undefined"
  | JsNull => "null"
  | JsBool b => if b then "true" else "false"
  | JsNumber n => Str.ofNumber n
  | JsString s => s
  | JsArray elems =>
      Str.join ","
        ((fix go (xs : list JsValue) : list string :=
            match xs with
            | [] => []
            | x :: xs' =>
                (if nullish x then EmptyString else stringOf x) :: go xs'
            end) elems)
  | JsObject _ => "[object Object]"
  end.

(** [set.add(k)] on a set of strings kept in insertion order. *)
Definition setAdd (set : list string) (k : string) : list string :=
  if existsb (String.eqb k) set then set else set ++ [k].

(** [mergeQuerySchemaFromObjectSchema(props, required, objSchema)]: the
    two collections after the call. *)
Definition mergeQuerySchemaFromObjectSchema (props : list (string * JsValue))
  (required : list string) (objSchema : JsValue)
  : list (string * JsValue) * list string :=
  let properties := Js.getProp objSchema "properties" in
  if negb (Js.truthy objSchema)
     || negb (match Js.getProp objSchema "type" with
              | JsString t => String.eqb t "object"
              | _ => false
              end)
     || negb (Js.truthy properties)
  then (props, required)
  else
    (foldl (fun ps '(k, v) => Js.assign ps k v) props (entries properties),
     match Js.getProp objSchema "required" with
     | JsArray ks => foldl (fun req k => setAdd req (stringOf k)) required ks
     | _ => required
     end).

(** The properties the loop of [zodObjectCallToSchema] reads: the property
    assignments named by an identifier, as key and initializer. *)
Definition zodFields (props : list Node) : list (string * Node) :=
  omap (fun p =>
          match p with
          | PropertyAssignment _ (Identifier _ key) init => Some (key, init)
          | _ => None
          end) props.

(** What the closure [visit] of [findRequestData] updates. *)
Record RequestState : Type := mkRequestState {
  bodySchema : JsValue;
  queryProps : list (string * JsValue);
  requiredQuery : list string
}.

Definition withBodySchema (st : RequestState) (s : JsValue) : RequestState :=
  mkRequestState s (queryProps st) (requiredQuery st).

Section RequestData.

Variable prog : Program.

(** [checker.getTypeFromTypeNode(typeNode)] *)
Variable getTypeFromTypeNode : Node -> TsType.

Definition isCtxMember (base : Node) (ctxName : option string)
  (member : string) : bool :=
  match stripParensAndCasts base with
  | PropertyAccessExpression _ e name =>
      let obj := stripParensAndCasts e in
      if negb (String.eqb (getText prog name) member) then false
      else if falsyStr ctxName then true
      else match obj with
           | Identifier _ text =>
               String.eqb text (default EmptyString ctxName)
           | _ => false
           end
  | _ => false
  end.

Definition isZodObjectCall (call : Node) : bool :=
  match call with
  | CallExpression _ (PropertyAccessExpression _ e name) _ _ =>
      let obj := getText prog e in
      (String.eqb obj "z" || Str.endsWith obj ".z")
      && String.eqb (getText prog name) "object"
  | _ => false
  end.

Definition unparsedZod : JsValue := schemaDescription "Unparsed Zod schema".

(** The loop of [zodTypeExprToSchema] that unwraps chained [.optional()]
    calls: the expression it ends on and the flag. *)
Fixpoint unwrapOptional (cur : Node) (optional : bool) : Node * bool :=
  match cur with
  | CallExpression _ (PropertyAccessExpression _ e name) _ _ =>
      if String.eqb (getText prog name) "optional" then unwrapOptional e true
      else (cur, optional)
  | _ => (cur, optional)
  end.

(** The loop over [arg.properties] in [zodObjectCallToSchema], [rec]
    standing for [zodTypeExprToSchema]. *)
Fixpoint zodProps (rec : Node -> option (JsValue * bool)) (props : list Node)
  (properties : list (string * JsValue)) (required : list string)
  : option (list (string * JsValue) * list string) :=
  match props with
  | [] => Some (properties, required)
  | PropertyAssignment _ (Identifier _ key) init :: rest =>
      '(schema, optional) ← rec init;
      zodProps rec rest (Js.assign properties key schema)
        (if optional : bool then required else required ++ [key])
  | _ :: rest => zodProps rec rest properties required
  end.

Definition zodObjectWith (rec : Node -> option (JsValue * bool))
  (call : Node) : option JsValue :=
  match callArguments call !! 0%nat with
  | Some (ObjectLiteralExpression _ props) =>
      '(properties, required) ← zodProps rec props [] [];
      let out :=
        JsObject [("type", JsString "object");
                  ("properties", JsObject properties)] in
      Some (match required with
            | [] => out
            | _ => Js.setProp out "required" (JsArray (map JsString required))
            end)
  | _ => Some JsUndefined
  end.

Fixpoint zodTypeExprToSchema (fuel : nat) (expr : Node)
  : option (JsValue * bool) :=
  match fuel with
  | O => None
  | S fuel =>
      let '(cur, optional) := unwrapOptional expr false in
      match stripParensAndCasts cur with
      | CallExpression _ (PropertyAccessExpression _ e nameNode) _ args as cur =>
          let recv := getText prog e in
          let name := getText prog nameNode in
          if String.eqb recv "z" then
            if String.eqb name "string" then
              Some (schemaOfType "string", optional)
            else if String.eqb name "number" then
              Some (schemaOfType "number", optional)
            else if String.eqb name "boolean" then
              Some (schemaOfType "boolean", optional)
            else if String.eqb name "array" then
              innerSchema ←
                match args !! 0%nat with
                | Some inner => fst <$> zodTypeExprToSchema fuel inner
                | None => Some (JsObject [])
                end;
              Some (JsObject [("type", JsString "array");
                              ("items", innerSchema)], optional)
            else if String.eqb name "object" then
              s ← zodObjectWith (zodTypeExprToSchema fuel) cur;
              Some (coalesce s (JsObject []), optional)
            else Some (unparsedZod, optional)
          else Some (unparsedZod, optional)
      | _ => Some (unparsedZod, optional)
      end
  end.

Definition zodObjectCallToSchema (fuel : nat) (call : Node) : option JsValue :=
  zodObjectWith (zodTypeExprToSchema fuel) call.

(** [considerTyped] of [visit], for a declaration with the type
    annotation [type]. *)
Definition considerTyped (fuel : nat) (type : option Node) : option JsValue :=
  match type with
  | Some typeNode => schemaOf prog fuel (getTypeFromTypeNode typeNode)
  | None => Some JsUndefined
  end.

(** [ts.isPropertyAccessExpression(call.expression) &&
     call.expression.name.getText() === member &&
     isCtxMember(call.expression.expression, paramName, 'req')] *)
Definition isReqCall (paramName : option string) (call : Node)
  (member : string) : bool :=
  match call with
  | CallExpression _ (PropertyAccessExpression _ e name) _ _ =>
      String.eqb (getText prog name) member && isCtxMember e paramName "req"
  | _ => false
  end.

(** The call a declaration's initializer is read as: the initializer
    itself, or what it awaits. *)
Definition awaitedCall (init : Node) : option Node :=
  match isAwaitExpression init with
  | Some e => if isCallExpression e then Some e else None
  | None => if isCallExpression init then Some init else None
  end.

(** The first statement of [visit]: a variable declaration with an
    initializer. *)
Definition declarationAt (fuel : nat) (paramName : option string)
  (node : Node) (st : RequestState) : option RequestState :=
  match node with
  | VariableDeclaration _ _ type (Some initializer) =>
      let init := stripParensAndCasts initializer in
      match awaitedCall init with
      | Some call =>
          st ←
            (if isReqCall paramName call "json" then
               if Js.truthy (bodySchema st) then Some st
               else
                 typed ← considerTyped fuel type;
                 if Js.truthy typed then Some (withBodySchema st typed)
                 else
                   withBodySchema st
                     <$> schemaOf prog fuel (getTypeAtLocation prog init)
             else Some st);
          if isReqCall paramName call "query" then
            typed ← considerTyped fuel type;
            if Js.truthy typed then
              let '(props, required) :=
                mergeQuerySchemaFromObjectSchema (queryProps st)
                  (requiredQuery st) typed in
              Some (mkRequestState (bodySchema st) props required)
            else Some st
          else Some st
      | None => Some st
      end
  | _ => Some st
  end.

(** The second statement of [visit]: a call expression. *)
Definition callAt (fuel : nat) (paramName : option string)
  (node : Node) (st : RequestState) : option RequestState :=
  match node with
  | CallExpression _ (PropertyAccessExpression _ e name) _ args =>
      st ←
        (if String.eqb (getText prog name) "parse" then
           match args !! 0%nat ≫= isAwaitExpression with
           | Some innerCall =>
               if isCallExpression innerCall
                  && isReqCall paramName innerCall "json" then
                 match resolveIdentifierToInit prog e with
                 | Some schemaInit =>
                     if isCallExpression schemaInit
                        && isZodObjectCall schemaInit then
                       s ← zodObjectCallToSchema fuel schemaInit;
                       Some (if Js.truthy s && negb (Js.truthy (bodySchema st))
                             then withBodySchema st s else st)
                     else Some st
                 | None => Some st
                 end
               else Some st
           | None => Some st
           end
         else Some st);
      if String.eqb (getText prog name) "query" && isCtxMember e paramName "req"
      then
        match args !! 0%nat ≫= isStringLiteralLike with
        | Some k =>
            Some (mkRequestState (bodySchema st)
                    (Js.assign (queryProps st) k (schemaOfType "string"))
                    (requiredQuery st))
        | None => Some st
        end
      else Some st
  | _ => Some st
  end.

(** The closure [visit], before it goes on to the children. *)
Definition requestAt (fuel : nat) (paramName : option string)
  (node : Node) (st : RequestState) : option RequestState :=
  st ← declarationAt fuel paramName node st;
  callAt fuel paramName node st.

Definition querySchemaOf (st : RequestState) : JsValue :=
  match queryProps st with
  | [] => JsUndefined
  | _ =>
      JsObject [("type", JsString "object");
                ("properties", JsObject (queryProps st));
                ("required", JsArray (map JsString (requiredQuery st)))]
  end.

Definition findRequestData (fuel : nat) (cb : option Node)
  (paramName : option string) : option (JsValue * JsValue) :=
  match cb with
  | None => Some (JsUndefined, JsUndefined)
  | Some cb =>
      st ← walkChildren (guarded (requestAt fuel paramName)) cb
             (Some (mkRequestState JsUndefined [] []));
      Some (bodySchema st, querySchemaOf st)
  end.

End RequestData.

(** [node] is [ctx.req.query('k')], a call of [query] on the request of the
    context with a string literal as first argument. *)
Definition QueryCall (prog : Program) (p : option string) (node : Node)
  (k : string) : Prop :=
  exists i j e name typeArgs a0 rest,
    node = CallExpression i (PropertyAccessExpression j e name) typeArgs
             (a0 :: rest)
    /\ getText prog name = "query"
    /\ isCtxMember prog e p "req" = true
    /\ isStringLiteralLike a0 = Some k.

(** The nodes at which [visit] may set the body schema: a declaration
    initialized by a [json] call on the request, awaited or not, and a
    call of a member named [parse]. *)
Definition readsBody (prog : Program) (p : option string) (node : Node) : bool :=
  match node with
  | VariableDeclaration _ _ _ (Some initializer) =>
      match awaitedCall (stripParensAndCasts initializer) with
      | Some call => isReqCall prog p call "json"
      | None => false
      end
  | CallExpression _ (PropertyAccessExpression _ _ name) _ _ =>
      String.eqb (getText prog name) "parse"
  | _ => false
  end.

(** A declaration with a type annotation and an initializer. *)
Definition isTypedDeclaration (node : Node) : bool :=
  match node with
  | VariableDeclaration _ _ (Some _) (Some _) => true
  | _ => false
  end.



(** [node] declares a variable with the type annotation [typeNode],
    initialized by [ctx.req.query()], awaited or not. *)
Definition QueryDeclaration (prog : Program) (p : option string) (node : Node)
  (typeNode : Node) : Prop :=
  exists i name initializer call,
    node = VariableDeclaration i name (Some typeNode) (Some initializer)
    /\ awaitedCall (stripParensAndCasts initializer) = Some call
    /\ isReqCall prog p call "query" = true.

(** A type the synthesizer reads as an object with properties: no union,
    no primitive, no array, and flagged as an object. *)
Definition PlainObjectType (checker : TypeChecker) (type : TsType) : Prop :=
  isUnion checker type = false
  /\ isStringType checker type = false
  /\ isNumberType checker type = false
  /\ isBooleanType checker type = false
  /\ getIndexTypeOfType checker type = None
  /\ hasFlags checker type TypeFlags.Object = true.

(* ===================================================================== *)
(** ** The textual synthesizer ([typeTextToSchema] of [src/schema.ts]) *)
(* ===================================================================== *)

(** White space and line terminators, as [trim] strips them and [\s]
    matches them: the code units 9 to 13, 32 and 160. *)
Definition isWhiteSpace (c : ascii) : bool :=
  let n := Ascii.nat_of_ascii c in
  ((9 <=? n)%nat && (n <=? 13)%nat) || (n =? 32)%nat || (n =? 160)%nat.

Fixpoint trimStart (s : string) : string :=
  match s with
  | EmptyString => EmptyString
  | String c s' => if isWhiteSpace c then trimStart s' else s
  end.

Fixpoint trimEnd (s : string) : string :=
  match s with
  | EmptyString => EmptyString
  | String c s' =>
      let rest := trimEnd s' in
      if isWhiteSpace c && Str.isEmpty rest then EmptyString else String c rest
  end.

(** [s.trim()] *)
Definition trim (s : string) : string := trimEnd (trimStart s).

Fixpoint lastChar (s : string) : option ascii :=
  match s with
  | EmptyString => None
  | String c EmptyString => Some c
  | String _ s' => lastChar s'
  end.

(** The match of [\s*(.+)$] against the whole of [x]: its group. The
    white space is taken greedily; when nothing is left for the group, one
    character of it is given back. The group holds no line terminator. *)
Definition matchSpacesThenText (x : string) : option string :=
  let g := trimStart x in
  if negb (Str.isEmpty g) then
    if Str.noLineTerminator g then Some g else None
  else
    match lastChar x with
    | Some c =>
        if Str.isLineTerminator c then None else Some (String c EmptyString)
    | None => None
    end.

(** The group of the match of [t] against any text followed by the two
    brackets at the end: the text before them, free of line terminators. *)
Definition matchArraySuffix (t : string) : option string :=
  let inner := Str.slice t 0 (-2) in
  if Str.endsWith t "[]" && Str.noLineTerminator inner then Some inner
  else None.

(** The group of [t.match(/^Array<(.+)>$/)] *)
Definition matchArrayGeneric (t : string) : option string :=
  let inner := Str.slice t 6 (-1) in
  if Str.startsWith t "Array<" && Str.endsWith t ">"
     && (8 <=? String.length t)%nat && Str.noLineTerminator inner
  then Some inner else None.

(** [s] without the prefix [p], when it starts with it. *)
Definition stripPrefix (p s : string) : option string :=
  if Str.startsWith s p
  then Some (Str.sliceFrom s (Z.of_nat (String.length p))) else None.

(** The group of [t.match(/^Record<\s*string\s*,\s*(.+)>$/)] *)
Definition matchRecordGeneric (t : string) : option string :=
  rest ← stripPrefix "Record<" t;
  rest ← stripPrefix "string" (trimStart rest);
  rest ← stripPrefix "," (trimStart rest);
  if Str.endsWith rest ">" then matchSpacesThenText (Str.slice rest 0 (-1))
  else None.

(** [[;,]] *)
Definition isFieldSeparator (c : ascii) : bool :=
  Ascii.eqb c ";" || Ascii.eqb c ",".

(** [inner.split(/[;,]\s*/)]: [skip] tells that a separator was just
    read, whose white space is still being taken. *)
Fixpoint splitFields (skip : bool) (s : string) : list string :=
  match s with
  | EmptyString => [EmptyString]
  | String c s' =>
      if skip && isWhiteSpace c then splitFields true s'
      else if isFieldSeparator c then
        EmptyString :: splitFields true s'
      else
        match splitFields false s' with
        | h :: t => String c h :: t
        | [] => [String c EmptyString]
        end
  end.

(** The longest prefix of word characters, and the rest. *)
Fixpoint spanWord (s : string) : string * string :=
  match s with
  | EmptyString => (EmptyString, EmptyString)
  | String c s' =>
      if Str.isWordChar c then
        let '(w, rest) := spanWord s' in (String c w, rest)
      else (EmptyString, s)
  end.

(** The groups of [part.match(/^(\w+)(\?)?:\s*(.+)$/)]: the name, whether
    the question mark is there, and the type text. *)
Definition matchField (part : string) : option (string * bool * string) :=
  let '(name, rest) := spanWord part in
  if Str.isEmpty name then None
  else
    let '(opt, rest) :=
      match rest with
      | String "?" (String ":" rest') => (true, Some rest')
      | String ":" rest' => (false, Some rest')
      | _ => (false, None)
      end in
    rest ← rest;
    vtype ← matchSpacesThenText rest;
    Some (name, opt, vtype).

(** The loop over [parts] in [typeTextToSchema], [rec] standing for the
    function itself. *)
Fixpoint fieldsOfParts (rec : option string -> option JsValue)
  (parts : list string) (props : list (string * JsValue))
  (required : list string) : option (list (string * JsValue) * list string) :=
  match parts with
  | [] => Some (props, required)
  | part :: rest =>
      match matchField part with
      | Some (name, opt, vtype) =>
          s ← rec (Some vtype);
          fieldsOfParts rec rest
            (Js.assign props name (coalesce s (JsObject [])))
            (if opt then required else required ++ [name])
      | None => fieldsOfParts rec rest props required
      end
  end.

(** The schema of an array or record text: [key] is [items] or
    [additionalProperties], [group] the text of the element type. *)
Definition containerSchema (rec : option string -> option JsValue)
  (key group type : string) : option JsValue :=
  items ← rec (Some (trim group));
  Some (JsObject [("type", JsString type);
                  (key, coalesce items (JsObject []))]).

(** The schema of an object literal text [t], which starts and ends with a
    brace. *)
Definition objectLiteralSchema (rec : option string -> option JsValue)
  (t : string) : option JsValue :=
  let inner := trim (Str.slice t 1 (-1)) in
  let parts := Str.filterBoolean (splitFields false inner) in
  '(props, required) ← fieldsOfParts rec parts [] [];
  let schema :=
    JsObject [("type", JsString "object"); ("properties", JsObject props)] in
  Some (match required with
        | [] => schema
        | _ => Js.setProp schema "required" (JsArray (map JsString required))
        end).

(** Is [t] one of the texts read as a primitive? *)
Definition primitiveSchema (t : string) : option JsValue :=
  if String.eqb t "string" || String.eqb t "String" then
    Some (schemaOfType "string")
  else if String.eqb t "number" || String.eqb t "Number" then
    Some (schemaOfType "number")
  else if String.eqb t "boolean" || String.eqb t "Boolean" then
    Some (schemaOfType "boolean")
  else if String.eqb t "null" then Some (schemaOfType "null")
  else if String.eqb t "undefined" || String.eqb t "void" then
    Some (JsObject [("nullable", JsBool true)])
  else None.

(** What [typeTextToSchema] returns for a trimmed text [t] that is not a
    primitive, [rec] standing for the function itself. *)
Definition compositeSchema (rec : option string -> option JsValue)
  (t : string) : option JsValue :=
  match matchArraySuffix t with
  | Some (String _ _ as group) => containerSchema rec "items" group "array"
  | _ =>
      match matchArrayGeneric t with
      | Some (String _ _ as group) => containerSchema rec "items" group "array"
      | _ =>
          match matchRecordGeneric t with
          | Some (String _ _ as group) =>
              containerSchema rec "additionalProperties" group "object"
          | _ =>
              if Str.startsWith t "{" && Str.endsWith t "}" then
                objectLiteralSchema rec t
              else Some (schemaDescription ("Unparsed type: " +:+ t))
          end
      end
  end.

(** [typeTextToSchema]; [None] means that the fuel ran out, the result
    [undefined] is [Some JsUndefined]. *)
Fixpoint typeTextToSchema (fuel : nat) (typeText : option string)
  : option JsValue :=
  match fuel with
  | O => None
  | S fuel =>
      if falsyStr typeText then Some JsUndefined
      else
        let t := trim (default EmptyString typeText) in
        match primitiveSchema t with
        | Some s => Some s
        | None => compositeSchema (typeTextToSchema fuel) t
        end
  end.

(** A field of an object type, and the text TypeScript prints for the
    type: [{ a: T; b?: U; }]. *)
Record TypeField : Type := mkTypeField {
  fieldName : string;
  fieldOptional : bool;
  fieldType : string
}.

Definition printField (f : TypeField) : string :=
  fieldName f +:+ (if fieldOptional f then "?" else EmptyString)
  +:+ ": " +:+ fieldType f.

Fixpoint printFields (fields : list TypeField) : string :=
  match fields with
  | [] => EmptyString
  | f :: rest => printField f +:+ "; " +:+ printFields rest
  end.

Definition printObjectType (fields : list TypeField) : string :=
  "{ " +:+ printFields fields +:+ "}".

(** A field with a word for name and a type text that starts with no
    white space and holds no separator and no line terminator. *)
Definition fieldOk (f : TypeField) : bool :=
  negb (Str.isEmpty (fieldName f))
  && forallb Str.isWordChar (list_ascii_of_string (fieldName f))
  && match fieldType f with
     | String c _ => negb (isWhiteSpace c)
     | EmptyString => false
     end
  && Str.noLineTerminator (fieldType f)
  && forallb (fun c => negb (isFieldSeparator c))
       (list_ascii_of_string (fieldType f)).

(** [typeTextToSchema] with the fuel the length of its text asks for. *)
Definition typeTextSchema (typeText : option string) : JsValue :=
  default JsUndefined
    (typeTextToSchema (S (String.length (default EmptyString typeText)))
       typeText).

(* ===================================================================== *)
(** ** More sample programs *)
(* ===================================================================== *)

Module Cases.

(** [return new Response('<x/>', { status: 201,
      headers: { 'Content-Type': 'application/xml' } })] *)
Definition xmlResponse : Node :=
  ReturnStatement 300
    (Some (NewExpression 301 (Identifier 302 "Response") []
             (Some [StringLiteral 303 "<x/>";
                    ObjectLiteralExpression 304
                      [PropertyAssignment 305 (Identifier 306 "status")
                         (NumericLiteral 307 201);
                       PropertyAssignment 308 (Identifier 309 "headers")
                         (ObjectLiteralExpression 310
                            [PropertyAssignment 311
                               (StringLiteral 312 "Content-Type")
                               (StringLiteral 313 "application/xml")])]]))).

(** [type A = { b: B }] and [type B = { a?: A }]: type 0 is [A], 1 is [B],
    2 is the type [A | undefined] of the property [a], 3 is [undefined]. *)
Definition mutualTypes : TypeChecker :=
  checkerOfTable
    [objectDesc [mkPropertySymbol "b" false 1%nat] "A";
     objectDesc [mkPropertySymbol "a" true 2%nat] "B";
     unionDesc [3; 0]%nat "A | undefined";
     undefinedDesc].


(** [const a = b; const b = a]: each identifier is declared with the
    other as initializer. Identifiers named [a] are node 1, those named
    [b] node 2. *)
Definition cyclicConstants : Program :=
  {| getTypeChecker := Sample.types;
     getTypeAtLocation _ := 0%nat;
     getText n := match n with Identifier _ t => t | _ => EmptyString end;
     firstDeclaration n :=
       match n with
       | Identifier _ "a" =>
           Some (VariableDeclaration 10 (Identifier 11 "a") None
                   (Some (Identifier 2 "b")))
       | Identifier _ "b" =>
           Some (VariableDeclaration 20 (Identifier 21 "b") None
                   (Some (Identifier 1 "a")))
       | _ => None
       end;
     declarationsAtLocation _ := None |}.

(** [z.<member>(args)] at node [id]. *)
Definition zodCall (id : nat) (member : string) (args : list Node) : Node :=
  CallExpression id
    (PropertyAccessExpression (id + 1) (Identifier (id + 2) "z")
       (Identifier (id + 3) member))
    [] args.

(** [e.optional()] *)
Definition optionalCall (id : nat) (e : Node) : Node :=
  CallExpression id
    (PropertyAccessExpression (id + 1) e (Identifier (id + 2) "optional"))
    [] [].

(** [z.object({ name: z.string(), age: z.number().optional() })] *)
Definition userSchema : Node :=
  zodCall 400 "object"
    [ObjectLiteralExpression 404
       [PropertyAssignment 405 (Identifier 406 "name") (zodCall 410 "string" []);
        PropertyAssignment 415 (Identifier 416 "age")
          (optionalCall 420 (zodCall 430 "number" []))]].

(** [c.req.<member>(args)] at node [id]. *)
Definition reqCall (id : nat) (member : string) (args : list Node) : Node :=
  CallExpression id
    (PropertyAccessExpression (id + 1)
       (PropertyAccessExpression (id + 2) (Identifier (id + 3) "c")
          (Identifier (id + 4) "req"))
       (Identifier (id + 5) member))
    [] args.

(** [schema.parse(await c.req.json())] *)
Definition parseCall : Node :=
  Sample.callOn 510 "schema" "parse"
    [Other 514 "AwaitExpression" [reqCall 515 "json" []]].

(** [c.req.query('page')] *)
Definition pageQuery : Node := reqCall 532 "query" [StringLiteral 538 "page"].

Definition declaration (id : nat) (name : string) (init : Node) : Node :=
  Other id "VariableStatement"
    [Other (id + 1) "VariableDeclarationList"
       [VariableDeclaration (id + 2) (Identifier (id + 3) name) None
          (Some init)]].

(** [{ const input = schema.parse(await c.req.json());
       const page = c.req.query('page') }] *)
Definition requestBody : Node :=
  Sample.block 500 [declaration 501 "input" parseCall;
                    declaration 526 "page" pageQuery].

(** The program of [requestBody]: the identifier [schema] is declared by
    [const schema = z.object({ ... })], with [userSchema] as initializer. *)
Definition requestProgram : Program :=
  {| getTypeChecker := Sample.types;
     getTypeAtLocation _ := 0%nat;
     getText n := match n with Identifier _ t => t | _ => EmptyString end;
     firstDeclaration n :=
       match n with
       | Identifier _ "schema" =>
           Some (VariableDeclaration 540 (Identifier 541 "schema") None
                   (Some userSchema))
       | _ => None
       end;
     declarationsAtLocation _ := None |}.

(** [{ const q: Paging = c.req.query() }] *)
Definition typedQueryBody : Node :=
  Sample.block 600
    [Other 601 "VariableStatement"
       [Other 602 "VariableDeclarationList"
          [VariableDeclaration 603 (Identifier 604 "q")
             (Some (Other 605 "TypeReference" [Identifier 606 "Paging"]))
             (Some (reqCall 610 "query" []))]]].

End Cases.

(* ===================================================================== *)
(** ** Traversal *)
(* ===================================================================== *)

Section NodeInduction.

Variable P : Node -> Prop.
Hypothesis step : forall n, Forall P (childrenOf n) -> P n.

(** Induction on a node, with the property assumed of its children. *)
Lemma Node_ind_children : forall n, P n.
Proof.
  fix IH 1. intros n. apply step.
  destruct n; simpl;
    repeat first
      [ apply Forall_nil_2
      | apply Forall_cons_2; [apply IH|]
      | apply Forall_app_2
      | match goal with
        | |- Forall _ (default [] ?a) => destruct a; simpl
        | |- Forall _ (option_list ?a) => destruct a; simpl
        | |- Forall _ ?l =>
            is_var l;
            exact ((fix all (xs : list Node) : Forall P xs :=
                      match xs with
                      | [] => Forall_nil_2 P
                      | x :: xs' => Forall_cons_2 P x xs' (IH x) (all xs')
                      end) l)
        end ].
Qed.

End NodeInduction.

(** A walk handles the node, then walks its children in order. *)
Lemma walk_children {S : Type} (h : Node -> S -> S) n s :
  walk h n s = foldl (fun s c => walk h c s) (h n s) (childrenOf n).
Proof.
  destruct n; simpl; rewrite ?foldl_app; simpl;
    repeat match goal with
           | |- context [match ?o with Some _ => _ | None => _ end] =>
               destruct o; simpl
           end; reflexivity.
Qed.

Lemma foldl_walk_collect (l : list Node) :
  Forall (fun c => forall acc, walk (fun n acc => acc ++ [n]) c acc = acc ++ preorder c) l ->
  forall acc,
    foldl (fun s c => walk (fun n acc => acc ++ [n]) c s) acc l
    = acc ++ flat_map preorder l.
Proof.
  induction 1 as [|c l Hc _ IHl]; intros acc; simpl.
  - by rewrite app_nil_r.
  - rewrite Hc, IHl, <- app_assoc. reflexivity.
Qed.

Lemma walk_collect n :
  forall acc, walk (fun n acc => acc ++ [n]) n acc = acc ++ preorder n.
Proof.
  induction n as [n IH] using Node_ind_children. intros acc.
  unfold preorder. rewrite !(walk_children _ n).
  rewrite !(foldl_walk_collect _ IH). simpl. by rewrite <- app_assoc.
Qed.

Lemma preorder_unfold n : preorder n = n :: flat_map preorder (childrenOf n).
Proof.
  unfold preorder at 1. rewrite walk_children, foldl_walk_collect; [reflexivity|].
  apply Forall_forall. intros c _. apply walk_collect.
Qed.

Lemma descendants_unfold root : descendants root = flat_map preorder (childrenOf root).
Proof.
  unfold descendants, walkChildren. rewrite foldl_walk_collect; [reflexivity|].
  apply Forall_forall. intros c _. apply walk_collect.
Qed.

Lemma foldl_walk_preorder {S : Type} (h : Node -> S -> S) (l : list Node) :
  Forall (fun c => forall s, walk h c s = foldl (fun s m => h m s) s (preorder c)) l ->
  forall s, foldl (fun s c => walk h c s) s l
            = foldl (fun s m => h m s) s (flat_map preorder l).
Proof.
  induction 1 as [|c l Hc _ IHl]; intros s; simpl; [reflexivity|].
  by rewrite foldl_app, Hc, IHl.
Qed.

Lemma walk_preorder {S : Type} (h : Node -> S -> S) n :
  forall s, walk h n s = foldl (fun s m => h m s) s (preorder n).
Proof.
  induction n as [n IH] using Node_ind_children. intros s.
  rewrite walk_children, preorder_unfold. simpl.
  by apply foldl_walk_preorder.
Qed.

Lemma walkChildren_descendants {S : Type} (h : Node -> S -> S) root s :
  walkChildren h root s = foldl (fun s m => h m s) s (descendants root).
Proof.
  unfold walkChildren. rewrite descendants_unfold.
  apply foldl_walk_preorder, Forall_forall. intros c _. apply walk_preorder.
Qed.

Lemma foldl_guarded_None {S : Type} (f : Node -> S -> option S) l :
  foldl (fun s m => guarded f m s) None l = None.
Proof. induction l; simpl; auto. Qed.

(** A handler that appends what it finds at each node computes the
    concatenation of the finds, in order. *)
Lemma foldl_guarded_append {A : Type} (g : Node -> option (list A)) l :
  forall acc,
    foldl (fun s m => guarded (fun n acc => x ← g n; Some (acc ++ x)) m s)
      (Some acc) l
    = (fun xss => acc ++ List.concat xss) <$> mapM g l.
Proof.
  induction l as [|n l IH]; intros acc; simpl.
  - by rewrite app_nil_r.
  - destruct (g n) as [x|]; simpl.
    + rewrite IH. destruct (mapM g l); simpl; [|reflexivity].
      by rewrite app_assoc.
    + apply foldl_guarded_None.
Qed.

Lemma foldl_handler_ext {S : Type} (h1 h2 : Node -> S -> S) l :
  (forall n s, h1 n s = h2 n s) ->
  forall s, foldl (fun s m => h1 m s) s l = foldl (fun s m => h2 m s) s l.
Proof.
  intros Heq. induction l as [|n l IH]; intros s; simpl; [reflexivity|].
  by rewrite Heq, IH.
Qed.

Lemma omap_concat_option_list {A B : Type} (f : A -> option B) (l : list A) :
  omap f l = List.concat (map (fun x => option_list (f x)) l).
Proof.
  induction l as [|x l IH]; simpl; [reflexivity|].
  rewrite <- IH. unfold omap at 1. simpl. destruct (f x); reflexivity.
Qed.

Section AnalyzerFacts.

Variable prog : Program.
Variable findRequestData :
  nat -> option Node -> option string -> option (JsValue * JsValue).

Lemma isHonoRouteCall_iff node m p :
  isHonoRouteCall prog node = Some (m, p) <->
  exists i j receiver name typeArgs firstArg rest,
    node = CallExpression i (PropertyAccessExpression j receiver name)
             typeArgs (firstArg :: rest)
    /\ getText prog name = m
    /\ In m httpMethods
    /\ isStringLiteralLike firstArg = Some p.
Proof.
  split.
  - destruct node as [| | | | | |i callee targs args| | | | | | | | | | | | | | |];
      cbn -[existsb In]; try discriminate.
    destruct callee as [| | | | |j receiver name| | | | | | | | | | | | | | | |];
      try discriminate.
    destruct (existsb (String.eqb (getText prog name)) httpMethods) eqn:Hm;
      [|discriminate].
    destruct args as [|firstArg rest]; [discriminate|].
    destruct (isStringLiteralLike firstArg) as [text|] eqn:Hlit; [|discriminate].
    intros [= <- <-].
    exists i, j, receiver, name, targs, firstArg, rest.
    repeat split; [|assumption].
    apply existsb_exists in Hm as (x & Hin & Heq).
    apply String.eqb_eq in Heq. by subst.
  - intros (i & j & receiver & name & targs & firstArg & rest
            & -> & <- & Hin & Hlit).
    cbn -[existsb In]. rewrite Hlit.
    replace (existsb (String.eqb (getText prog name)) httpMethods) with true;
      [reflexivity|].
    symmetry. apply existsb_exists. exists (getText prog name).
    split; [assumption | apply String.eqb_refl].
Qed.

Lemma routeAt_append fuel node routes :
  routeAt prog findRequestData fuel node routes
  = (found ← routeAt prog findRequestData fuel node []; Some (routes ++ found)).
Proof.
  unfold routeAt. destruct (isHonoRouteCall prog node) as [[m p]|]; simpl.
  - destruct (handlerParts _) as [bodyNode paramName].
    destruct (findResponses _ _ _ _) as [foundList|]; simpl; [|reflexivity].
    destruct (findRequestData _ _ _) as [[b q]|]; reflexivity.
  - by rewrite app_nil_r.
Qed.

Lemma routeAt_keys fuel node found :
  routeAt prog findRequestData fuel node [] = Some found ->
  map (fun r => (method r, path r)) found
  = option_list (isHonoRouteCall prog node).
Proof.
  unfold routeAt. destruct (isHonoRouteCall prog node) as [[m p]|]; simpl.
  - destruct (handlerParts _) as [bodyNode paramName].
    destruct (findResponses _ _ _ _) as [foundList|]; simpl; [|discriminate].
    destruct (findRequestData _ _ _) as [[b q]|]; simpl; [|discriminate].
    by intros [= <-].
  - by intros [= <-].
Qed.

Lemma analyzeSource_mapM fuel sourceFile :
  analyzeSource prog findRequestData fuel sourceFile
  = @List.concat _ <$> mapM (fun n => routeAt prog findRequestData fuel n [])
                 (preorder sourceFile).
Proof.
  unfold analyzeSource. rewrite walk_preorder.
  rewrite (foldl_handler_ext _
             (guarded (fun n acc =>
                         x ← routeAt prog findRequestData fuel n [];
                         Some (acc ++ x)))).
  - by rewrite foldl_guarded_append.
  - intros n [s|]; simpl; [apply routeAt_append | reflexivity].
Qed.

End AnalyzerFacts.

(* ===================================================================== *)
(** ** The response extractor *)
(* ===================================================================== *)

Lemma lastUpdate_cons init u us :
  lastUpdate init (u :: us)
  = lastUpdate (match u with Some v => Some v | None => init end) us.
Proof.
  unfold lastUpdate. destruct u as [v|]; [|reflexivity].
  replace (omap id (Some v :: us)) with (v :: omap id us) by reflexivity.
  rewrite last_cons. by destruct (last (omap id us)).
Qed.

Lemma foldl_guarded_update (g : Node -> option (option string)) l :
  forall init,
    foldl (fun s m =>
             guarded (fun n found =>
                        u ← g n;
                        Some (match u with Some v => Some v | None => found end))
                     m s)
      (Some init) l
    = lastUpdate init <$> mapM g l.
Proof.
  induction l as [|n l IH]; intros init; simpl; [reflexivity|].
  destruct (g n) as [u|]; simpl.
  - rewrite IH. destruct (mapM g l) as [us|]; simpl; [|reflexivity].
    by rewrite lastUpdate_cons.
  - apply foldl_guarded_None.
Qed.

Section ResponseFacts.

Variable prog : Program.

Lemma contentTypeAt_update fuel p node found :
  contentTypeAt prog fuel p node found
  = (u ← contentTypeAt prog fuel p node None;
     Some (match u with Some v => Some v | None => found end)).
Proof.
  unfold contentTypeAt.
  destruct node as [| | | | | |? callee ? args| | | | | | | | | | | | | | |];
    try reflexivity.
  destruct callee; try reflexivity.
  destruct args as [|k [|v rest]]; try reflexivity.
  destruct (_ && isParamIdentifier _ _); [|reflexivity].
  destruct (isStringLiteralLike k); [|reflexivity].
  destruct (resolveToStringLiteralText prog fuel true v) as [[val|]|]; simpl;
    try reflexivity.
  - destruct (_ && _); reflexivity.
  - by rewrite andb_false_r.
Qed.

(** The header calls the scan accepts, and the value each sets. *)
Lemma contentTypeAt_accepts fuel p node v :
  contentTypeAt prog fuel p node None = Some (Some v) <->
  exists i j base name typeArgs key value rest keyText,
    node = CallExpression i (PropertyAccessExpression j base name) typeArgs
             (key :: value :: rest)
    /\ getText prog name = "header"
    /\ isParamIdentifier p base = true
    /\ isStringLiteralLike key = Some keyText
    /\ Str.toLowerCase keyText = "content-type"
    /\ resolveToStringLiteralText prog fuel true value = Some (Some v)
    /\ Str.isEmpty v = false.
Proof.
  split.
  - unfold contentTypeAt.
    destruct node as [| | | | | |i callee targs args| | | | | | | | | | | | | | |];
      try discriminate.
    destruct callee as [| | | | |j base name| | | | | | | | | | | | | | | |];
      try discriminate.
    destruct args as [|key [|value rest]]; try discriminate.
    destruct (String.eqb_spec (getText prog name) "header") as [Hname|];
      [|discriminate].
    destruct (isParamIdentifier p base) eqn:Hparam; [|discriminate].
    cbn [andb].
    destruct (isStringLiteralLike key) as [keyText|] eqn:Hkey;
      [|discriminate].
    destruct (resolveToStringLiteralText prog fuel true value) as [[val|]|]
      eqn:Hval; cbn [mbind option_bind]; try discriminate.
    + destruct (String.eqb_spec (Str.toLowerCase keyText) "content-type")
        as [Hct|]; [|discriminate].
      cbn [andb falsyStr].
      destruct (Str.isEmpty val) eqn:Hempty; [discriminate|].
      cbn [negb]. intros [= <-].
      by exists i, j, base, name, targs, key, value, rest, keyText.
    + by rewrite andb_false_r.
  - intros (i & j & base & name & targs & key & value & rest & keyText
            & -> & Hname & Hparam & Hkey & Hct & Hval & Hempty).
    unfold contentTypeAt. rewrite Hname, Hparam, Hkey, Hval, Hct.
    cbn. by rewrite Hempty.
Qed.

Lemma findExplicitContentType_last fuel cb p :
  findExplicitContentType prog fuel cb p
  = lastUpdate None
      <$> mapM (fun n => contentTypeAt prog fuel p n None) (descendants cb).
Proof.
  unfold findExplicitContentType. rewrite walkChildren_descendants.
  rewrite <- foldl_guarded_update. apply foldl_handler_ext.
  intros n [found|]; simpl; [apply contentTypeAt_update | reflexivity].
Qed.

Lemma contentTypeAt_nonempty fuel p node v :
  contentTypeAt prog fuel p node None = Some (Some v) ->
  Str.isEmpty v = false.
Proof.
  unfold contentTypeAt.
  destruct node as [| | | | | |? callee ? args| | | | | | | | | | | | | | |];
    try discriminate.
  destruct callee; try discriminate.
  destruct args as [|k [|w rest]]; try discriminate.
  destruct (_ && isParamIdentifier _ _); [|discriminate].
  destruct (isStringLiteralLike k); [|discriminate].
  destruct (resolveToStringLiteralText prog fuel true w) as [[val|]|]; simpl;
    try discriminate.
  - destruct (_ =? _)%string; simpl; [|discriminate].
    destruct (Str.isEmpty val) eqn:E; simpl; [discriminate|].
    by intros [= <-].
  - by rewrite andb_false_r.
Qed.

Lemma lastUpdate_nonempty us v :
  Forall (fun u => forall w, u = Some w -> Str.isEmpty w = false) us ->
  lastUpdate None us = Some v -> Str.isEmpty v = false.
Proof.
  unfold lastUpdate. intros Hall H.
  destruct (last (omap id us)) as [w|] eqn:E; [|discriminate].
  injection H as <-.
  apply last_Some_elem_of in E. apply list_elem_of_omap in E as (u & Hin & Hu).
  rewrite Forall_forall in Hall. apply (Hall u Hin). exact Hu.
Qed.

Lemma findExplicitContentType_nonempty fuel cb p v :
  findExplicitContentType prog fuel cb p = Some (Some v) ->
  Str.isEmpty v = false.
Proof.
  rewrite findExplicitContentType_last.
  destruct (mapM _ _) as [us|] eqn:E; simpl; [|discriminate].
  intros [= H]. apply (lastUpdate_nonempty us); [|exact H].
  apply mapM_Some in E. apply Forall_forall. intros u Hin w ->.
  apply list_elem_of_lookup in Hin as [i Hi].
  destruct (Forall2_lookup_r _ _ _ _ _ E Hi) as (n & _ & Hn).
  by apply contentTypeAt_nonempty in Hn.
Qed.

Lemma findResponses_mapM fuel cb p :
  findResponses prog fuel (Some cb) p
  = (ect ← findExplicitContentType prog fuel cb p;
     @List.concat _ <$> mapM (responsesAt prog fuel ect p) (descendants cb)).
Proof.
  unfold findResponses.
  destruct (findExplicitContentType prog fuel cb p) as [ect|]; simpl;
    [|reflexivity].
  rewrite walkChildren_descendants.
  apply (foldl_guarded_append (responsesAt prog fuel ect p) _ []).
Qed.

End ResponseFacts.

Section Totality.

Variable prog : Program.
Variable fuel : nat.
Hypothesis schemas :
  forall t, is_Some (typeToSchema (getTypeChecker prog) fuel t ∅).
Hypothesis resolves :
  forall withChecker e,
    is_Some (resolveToStringLiteralText prog fuel withChecker e).
Hypothesis binaries : forall t, is_Some (isBinaryLikeType prog fuel t).

Ltac total_step :=
  match goal with
  | |- is_Some (Some _) => eexists; reflexivity
  | |- context [resolveToStringLiteralText prog fuel ?b ?e] =>
      destruct (resolves b e) as [? ->]; simpl
  | |- context [isBinaryLikeType prog fuel ?t] =>
      destruct (binaries t) as [? ->]; simpl
  | |- context [typeToSchema (getTypeChecker prog) fuel ?t ∅] =>
      destruct (schemas t) as [[? ?] ->]; simpl
  | |- context [match ?x with _ => _ end] => destruct x; simpl
  end.

Lemma contentTypeAt_total p node found :
  is_Some (contentTypeAt prog fuel p node found).
Proof. unfold contentTypeAt. repeat total_step. Qed.

Lemma mediaTypeOfOptions_total props :
  is_Some (mediaTypeOfOptions prog fuel props).
Proof.
  induction props as [|prop rest IH]; simpl; [by eexists|].
  repeat first [ exact IH | total_step ].
Qed.

Lemma inferMediaTypeFromExpression_total expr :
  is_Some (inferMediaTypeFromExpression prog fuel expr).
Proof.
  unfold inferMediaTypeFromExpression.
  repeat first [ apply mediaTypeOfOptions_total | total_step ].
Qed.

Lemma contentTypeOfHeaders_total hs :
  is_Some (contentTypeOfHeaders prog fuel hs).
Proof.
  induction hs as [|h rest IH]; simpl; [by eexists|].
  repeat first [ exact IH | total_step ].
Qed.

Lemma mediaTypeOfInitProps_total props :
  is_Some (mediaTypeOfInitProps prog fuel props).
Proof.
  induction props as [|prop rest IH]; simpl; [by eexists|].
  repeat first
    [ exact IH
    | match goal with
      | |- context [contentTypeOfHeaders prog fuel ?hs] =>
          destruct (contentTypeOfHeaders_total hs) as [? ->]; simpl
      end
    | total_step ].
Qed.

Lemma inferMediaTypeFromResponseInit_total init :
  is_Some (inferMediaTypeFromResponseInit prog fuel init).
Proof.
  unfold inferMediaTypeFromResponseInit.
  repeat first [ apply mediaTypeOfInitProps_total | total_step ].
Qed.

Ltac total_call :=
  match goal with
  | |- context [inferMediaTypeFromExpression prog fuel ?e] =>
      destruct (inferMediaTypeFromExpression_total e) as [? ->]; simpl
  | |- context [inferMediaTypeFromResponseInit prog fuel ?e] =>
      destruct (inferMediaTypeFromResponseInit_total e) as [? ->]; simpl
  | |- context [mediaTypeOfOptions prog fuel ?ps] =>
      destruct (mediaTypeOfOptions_total ps) as [? ->]; simpl
  | |- context [mediaTypeOfInitProps prog fuel ?ps] =>
      destruct (mediaTypeOfInitProps_total ps) as [? ->]; simpl
  end.

Lemma ctxCallResponses_total ect callName a0 statuses :
  is_Some (ctxCallResponses prog fuel ect callName a0 statuses).
Proof.
  unfold ctxCallResponses, schemaOf.
  repeat first [ total_call | total_step ].
Qed.

Lemma newResponseResponses_total ect args :
  is_Some (newResponseResponses prog fuel ect args).
Proof.
  unfold newResponseResponses.
  repeat first [ total_call | total_step ].
Qed.

Lemma responsesAt_total ect p node :
  is_Some (responsesAt prog fuel ect p node).
Proof.
  unfold responsesAt.
  repeat first
    [ apply ctxCallResponses_total | apply newResponseResponses_total
    | total_step ].
Qed.

Lemma findExplicitContentType_total cb p :
  is_Some (findExplicitContentType prog fuel cb p).
Proof.
  rewrite findExplicitContentType_last. apply fmap_is_Some, mapM_is_Some_2.
  apply Forall_forall. intros n _. apply contentTypeAt_total.
Qed.

Lemma findResponses_total cb p : is_Some (findResponses prog fuel cb p).
Proof.
  destruct cb as [cb|]; [|by eexists].
  rewrite findResponses_mapM.
  destruct (findExplicitContentType_total cb p) as [ect ->]. simpl.
  apply fmap_is_Some, mapM_is_Some_2.
  apply Forall_forall. intros n _. apply responsesAt_total.
Qed.

End Totality.

(* ===================================================================== *)
(** ** The assembler *)
(* ===================================================================== *)

(** [String(n)] tells integers apart. *)
Lemma ofNumber_inj a b : Str.ofNumber a = Str.ofNumber b -> a = b.
Proof.
  unfold Str.ofNumber. intros H. apply to_int_inj.
  assert (forall z, NilZero.int_of_string (NilZero.string_of_int (Z.to_int z))
                    = Some (Z.to_int z)) as Hrt.
  { intros z. apply NilZero.isi; destruct z; simpl; try discriminate.
    - intros [= Hp]. by apply Unsigned.to_uint_nonnil in Hp.
    - intros [= Hp]. by apply Unsigned.to_uint_nonnil in Hp. }
  pose proof (Hrt a) as Ha. rewrite H, Hrt in Ha. by injection Ha.
Qed.

Section AssemblerFacts.

Variable typeTextToSchema : option string -> JsValue.

Lemma collectResponses_snoc collected item :
  collectResponses (collected ++ [item])
  = <[responseCode item := renderResponse item]> (collectResponses collected).
Proof. unfold collectResponses. by rewrite foldl_snoc. Qed.

(** The entry of a code is the rendering of the last record filed
    under it. *)
Lemma collectResponses_last before item after :
  Forall (fun x => responseCode x <> responseCode item) after ->
  collectResponses (before ++ item :: after) !! responseCode item
  = Some (renderResponse item).
Proof.
  induction after as [|x after IH] using rev_ind; intros Hafter.
  - rewrite collectResponses_snoc. apply lookup_insert_eq.
  - apply Forall_app in Hafter as [Hafter Hx%Forall_inv].
    replace (before ++ item :: after ++ [x])
      with ((before ++ item :: after) ++ [x])
      by (rewrite <- app_assoc; reflexivity).
    rewrite collectResponses_snoc, lookup_insert_ne by done.
    by apply IH.
Qed.

Lemma collectResponses_lookup collected code ro :
  collectResponses collected !! code = Some ro ->
  exists item, item ∈ collected /\ responseCode item = code
               /\ ro = renderResponse item.
Proof.
  induction collected as [|x collected IH] using rev_ind.
  - unfold collectResponses. simpl. by rewrite lookup_empty.
  - rewrite collectResponses_snoc.
    destruct (decide (responseCode x = code)) as [<-|Hne].
    + rewrite lookup_insert_eq. intros [= <-]. exists x.
      split; [apply elem_of_app; right; apply list_elem_of_here | done].
    + rewrite lookup_insert_ne by done. intros H.
      destruct (IH H) as (item & Hin & Hc & Hr). exists item.
      split; [apply elem_of_app; by left | done].
Qed.

Lemma collectResponses_member collected item :
  item ∈ collected ->
  is_Some (collectResponses collected !! responseCode item).
Proof.
  induction collected as [|x collected IH] using rev_ind; [by intros ?%elem_of_nil|].
  rewrite collectResponses_snoc. intros Hin.
  destruct (decide (responseCode x = responseCode item)) as [->|Hne].
  - rewrite lookup_insert_eq. by eexists.
  - rewrite lookup_insert_ne by done. apply IH.
    apply elem_of_app in Hin as [Hin|Hin]; [done|].
    apply list_elem_of_singleton in Hin. by subst.
Qed.

Lemma collectResponses_nonempty x collected :
  collectResponses (x :: collected) <> ∅.
Proof.
  destruct (exists_last (l := x :: collected)) as (front & final & ->);
    [done|].
  rewrite collectResponses_snoc. apply insert_non_empty.
Qed.

Lemma operationOf_responses_nonempty r :
  opResponses (operationOf typeTextToSchema r) <> ∅.
Proof.
  unfold operationOf. simpl.
  destruct (responses r) as [[|x collected]|]; simpl.
  - apply insert_non_empty.
  - apply collectResponses_nonempty.
  - apply insert_non_empty.
Qed.

Lemma addOperation_ops routes :
  forall (start : gmap string (gmap string Operation)) key byMethod meth op,
    foldl (addOperation typeTextToSchema) start routes !! key = Some byMethod ->
    byMethod !! meth = Some op ->
    (exists r, r ∈ routes /\ op = operationOf typeTextToSchema r)
    \/ (exists byMethod0, start !! key = Some byMethod0
                          /\ byMethod0 !! meth = Some op).
Proof.
  induction routes as [|r routes IH] using rev_ind;
    intros start key byMethod meth op Hpath Hop.
  - right. exists byMethod. done.
  - rewrite foldl_snoc in Hpath. unfold addOperation at 1 in Hpath.
    destruct (decide (toOpenApiPath (path r) = key)) as [<-|Hne].
    + rewrite lookup_insert_eq in Hpath. injection Hpath as <-.
      destruct (decide (method r = meth)) as [<-|Hm].
      * rewrite lookup_insert_eq in Hop. injection Hop as <-.
        left. exists r.
        split; [apply elem_of_app; right; apply list_elem_of_here | done].
      * rewrite lookup_insert_ne in Hop by done.
        destruct (foldl _ start routes !! toOpenApiPath (path r))
          as [prev|] eqn:Eprev; simpl in Hop.
        -- destruct (IH _ _ _ _ _ Eprev Hop) as [(r' & Hin & ->)|Hstart].
           ++ left. exists r'. split; [apply elem_of_app; by left | done].
           ++ by right.
        -- by rewrite lookup_empty in Hop.
    + rewrite lookup_insert_ne in Hpath by done.
      destruct (IH _ _ _ _ _ Hpath Hop) as [(r' & Hin & ->)|Hstart].
      * left. exists r'. split; [apply elem_of_app; by left | done].
      * by right.
Qed.

End AssemblerFacts.

(* ===================================================================== *)
(** ** Facts on the analysis of a file *)
(* ===================================================================== *)

Lemma elem_of_concat {A : Type} (x : A) (ls : list (list A)) :
  x ∈ List.concat ls <-> exists l, l ∈ ls /\ x ∈ l.
Proof.
  rewrite list_elem_of_In, in_concat. split.
  - intros (l & Hl & Hx). exists l. by rewrite !list_elem_of_In.
  - intros (l & Hl & Hx). exists l. by rewrite <- !list_elem_of_In.
Qed.

Lemma Forall2_elem_of_r {A B : Type} (P : A -> B -> Prop) l k y :
  Forall2 P l k -> y ∈ k -> exists x, x ∈ l /\ P x y.
Proof.
  intros HF Hin. apply list_elem_of_lookup in Hin as [i Hi].
  destruct (Forall2_lookup_r _ _ _ _ _ HF Hi) as (x & Hx & HP).
  exists x. split; [|exact HP]. apply list_elem_of_lookup. by exists i.
Qed.

Lemma concat_two_positions {A : Type} (ls : list (list A)) i j fs1 fs2 :
  (i < j)%nat -> ls !! i = Some fs1 -> ls !! j = Some fs2 ->
  exists l1 l2 l3, List.concat ls = l1 ++ fs1 ++ l2 ++ fs2 ++ l3.
Proof.
  intros Hij Hi Hj.
  rewrite <- (take_drop_middle ls i fs1 Hi).
  assert (drop (S i) ls !! (j - S i)%nat = Some fs2) as Hj'.
  { rewrite lookup_drop. rewrite <- Hj. f_equal. lia. }
  rewrite <- (take_drop_middle _ _ _ Hj').
  exists (List.concat (take i ls)),
         (List.concat (take (j - S i) (drop (S i) ls))),
         (List.concat (drop (S (j - S i)) (drop (S i) ls))).
  rewrite concat_app. simpl. rewrite concat_app. simpl. reflexivity.
Qed.

Lemma findResponses_shape prog fuel bodyNode paramName foundList :
  findResponses prog fuel bodyNode paramName = Some foundList ->
  match bodyNode with
  | Some cb =>
      exists ect perNode,
        findExplicitContentType prog fuel cb paramName = Some ect
        /\ mapM (responsesAt prog fuel ect paramName) (descendants cb)
           = Some perNode
        /\ foundList = List.concat perNode
  | None => foundList = []
  end.
Proof.
  destruct bodyNode as [cb|]; [|simpl; by intros [= <-]].
  rewrite findResponses_mapM. intros H.
  destruct (findExplicitContentType prog fuel cb paramName) as [ect|];
    simpl in H; [|discriminate].
  destruct (mapM (responsesAt prog fuel ect paramName) (descendants cb))
    as [perNode|] eqn:E; simpl in H; [|discriminate].
  injection H as <-. by exists ect, perNode.
Qed.

Lemma analyzeSource_total prog findRequestData fuel sourceFile :
  Converges prog findRequestData fuel ->
  is_Some (analyzeSource prog findRequestData fuel sourceFile).
Proof.
  intros (Hschema & Hresolve & Hbinary & Hrequest).
  rewrite analyzeSource_mapM. apply fmap_is_Some, mapM_is_Some_2.
  apply Forall_forall. intros node _. unfold compose, routeAt.
  destruct (isHonoRouteCall prog node) as [[m p]|]; [|by eexists].
  destruct (handlerParts _) as [bodyNode paramName].
  destruct (findResponses_total prog fuel Hschema Hresolve Hbinary
              bodyNode paramName) as [foundList ->].
  destruct (Hrequest bodyNode paramName) as [[b q] ->].
  by eexists.
Qed.

Lemma analyzeSource_records
  (prog : Program)
  (findRequestData : nat -> option Node -> option string -> option (JsValue * JsValue))
  (fuel : nat) (sourceFile : Node) (routes : list RouteInfo) :
  analyzeSource prog findRequestData fuel sourceFile = Some routes ->
  Forall (fun r =>
            exists node bodyNode paramName,
              node ∈ preorder sourceFile
              /\ isHonoRouteCall prog node = Some (method r, path r)
              /\ handlerParts (callArguments node) = (bodyNode, paramName)
              /\ RecordsResponses prog fuel bodyNode paramName r)
    routes.
Proof.
  rewrite analyzeSource_mapM.
  destruct (mapM _ _) as [perRoute|] eqn:E; simpl; [|discriminate].
  intros [= <-]. apply mapM_Some in E.
  apply Forall_forall. intros r Hr.
  apply elem_of_concat in Hr as (found & Hfound & Hr).
  destruct (Forall2_elem_of_r _ _ _ _ E Hfound) as (node & Hnode & Hat).
  exists node. unfold routeAt in Hat.
  destruct (isHonoRouteCall prog node) as [[m p]|] eqn:Hroute;
    [|injection Hat as <-; by apply elem_of_nil in Hr].
  destruct (handlerParts (callArguments node)) as [bodyNode paramName].
  exists bodyNode, paramName.
  destruct (findResponses prog fuel bodyNode paramName) as [foundList|] eqn:Hf;
    simpl in Hat; [|discriminate].
  destruct (findRequestData fuel bodyNode paramName) as [[b q]|];
    simpl in Hat; [|discriminate].
  injection Hat as <-. apply list_elem_of_singleton in Hr as ->. simpl.
  repeat split; [assumption|].
  exists foundList. split; [assumption|].
  split; [by apply findResponses_shape|].
  split; [reflexivity|]. split; [reflexivity|].
  split; [by intros ->|].
  eexists. split; [reflexivity|].
  apply Forall2_fmap_r, Forall_Forall2_diag, Forall_forall.
  intros f _. simpl. repeat split. by intros ->.
Qed.

Lemma elem_of_pushPerStatus statuses record f :
  f ∈ pushPerStatus statuses record -> exists s, f = record s.
Proof.
  unfold pushPerStatus. destruct statuses as [|s0 rest].
  - intros ->%list_elem_of_singleton. by eexists.
  - intros (s & -> & _)%list_elem_of_fmap. by eexists.
Qed.

Lemma orDefault_Some v d : Str.isEmpty v = false -> orDefault (Some v) d = v.
Proof. unfold orDefault. by intros ->. Qed.

Lemma orStr_Some v b : Str.isEmpty v = false -> orStr (Some v) b = Some v.
Proof. unfold orStr, falsyStr. by intros ->. Qed.

Lemma responsesAt_ctxCall prog fuel ect p node name args :
  CtxCall prog p node name args ->
  responsesAt prog fuel ect p node
  = ctxCallResponses prog fuel ect name (args !! 0%nat)
      match args !! 1%nat with
      | Some statusArg => extractStatuses prog statusArg
      | None => []
      end.
Proof.
  intros (i & j & receiver & member & typeArgs & -> & <- & Hctx).
  simpl. by rewrite Hctx.
Qed.

Lemma ctxCallResponses_mediaType prog fuel ect callName a0 statuses fs f :
  ctxCallResponses prog fuel ect callName a0 statuses = Some fs ->
  f ∈ fs ->
  (callName = "json" ->
   foundMediaType f = Some (orDefault ect "application/json"))
  /\ (callName = "text" -> foundMediaType f = Some (orDefault ect "text/plain"))
  /\ (callName = "html" -> foundMediaType f = Some (orDefault ect "text/html"))
  /\ (callName = "body" ->
      forall v, ect = Some v -> Str.isEmpty v = false ->
                foundMediaType f = Some v).
Proof.
  unfold ctxCallResponses. intros Hfs Hf.
  repeat split; intros ->; simpl in Hfs.
  - destruct a0 as [a0|]; [|injection Hfs as <-; by apply elem_of_nil in Hf].
    destruct (schemaOf prog fuel _) as [s|]; simpl in Hfs; [|discriminate].
    injection Hfs as <-. by apply elem_of_pushPerStatus in Hf as [s' ->].
  - injection Hfs as <-. by apply elem_of_pushPerStatus in Hf as [s' ->].
  - injection Hfs as <-. by apply elem_of_pushPerStatus in Hf as [s' ->].
  - intros v -> Hv. simpl in Hfs. unfold falsyStr in Hfs. rewrite Hv in Hfs.
    simpl in Hfs. rewrite !orStr_Some, !orDefault_Some in Hfs by done.
    destruct a0 as [a0|].
    + destruct (isStringType _ _).
      * simpl in Hfs. injection Hfs as <-.
        by apply elem_of_pushPerStatus in Hf as [s' ->].
      * destruct (isBinaryLikeType prog fuel _) as [[|]|]; simpl in Hfs;
          try discriminate; injection Hfs as <-;
          by apply elem_of_pushPerStatus in Hf as [s' ->].
    + simpl in Hfs. injection Hfs as <-.
      by apply elem_of_pushPerStatus in Hf as [s' ->].
Qed.

Lemma ctxCallResponses_no_mediaType prog fuel ect callName a0 statuses fs f :
  ctxCallResponses prog fuel ect callName a0 statuses = Some fs ->
  f ∈ fs ->
  callName = "notFound" \/ callName = "redirect" ->
  foundMediaType f = None.
Proof.
  unfold ctxCallResponses.
  intros Hfs Hf [->| ->]; simpl in Hfs; injection Hfs as <-;
    by apply list_elem_of_fmap in Hf as (s & -> & _).
Qed.

Lemma dedupFirst_NoDup vs :
  forall seen, NoDup vs -> (forall x, x ∈ vs -> x ∉ seen) ->
               dedupFirst vs seen = vs.
Proof.
  induction vs as [|v vs IH]; intros seen Hnd Hfresh; simpl; [reflexivity|].
  apply NoDup_cons in Hnd as [Hv Hnd].
  destruct (existsb (Z.eqb v) seen) eqn:E.
  - apply existsb_exists in E as (x & Hx & Heq%Z.eqb_eq). subst x.
    exfalso. apply (Hfresh v); [apply list_elem_of_here|].
    by apply list_elem_of_In.
  - f_equal. apply IH; [assumption|].
    intros x Hx [->|Hin]%elem_of_cons; [done|].
    apply (Hfresh x); [by apply list_elem_of_further | assumption].
Qed.

Lemma extractStatuses_literal prog statusArg k v :
  stripParensAndCasts statusArg = NumericLiteral k v ->
  extractStatuses prog statusArg = [v].
Proof. unfold extractStatuses. by intros ->. Qed.

Lemma extractStatuses_narrowed prog statusArg vs :
  ResolvedByType prog statusArg -> NarrowedTo prog statusArg vs ->
  extractStatuses prog statusArg = vs.
Proof.
  unfold ResolvedByType, NarrowedTo, extractStatuses.
  intros Hres (Hunion & Hmembers & Hnd).
  assert (numbersFromType prog
            (getTypeAtLocation prog (stripParensAndCasts statusArg)) = vs)
    as Hnums.
  { unfold numbersFromType. rewrite Hunion.
    match goal with
    | |- dedupFirst (foldl ?f [] _) [] = _ =>
        assert (forall acc, foldl f acc
                  (unionTypes (getTypeChecker prog)
                     (getTypeAtLocation prog (stripParensAndCasts statusArg)))
                = acc ++ vs) as Hfold
    end.
    { induction Hmembers as [|m v ms vs' [Hflag Hval] _ IH]; intros acc; simpl.
      - by rewrite app_nil_r.
      - apply NoDup_cons in Hnd as [_ Hnd].
        rewrite Hflag, Hval, (IH Hnd), <- app_assoc. reflexivity. }
    rewrite Hfold. simpl. apply dedupFirst_NoDup; [assumption|].
    intros x _. apply not_elem_of_nil. }
  destruct (stripParensAndCasts statusArg); try done.
  by rewrite Hres.
Qed.

Section MultiStatus.

Variable prog : Program.
Variable typeTextToSchema : option string -> JsValue.
Variable fuel : nat.

Lemma responsesAt_json prog' ect p node a0 statusArg rest fs :
  CtxCall prog' p node "json" (a0 :: statusArg :: rest) ->
  responsesAt prog' fuel ect p node = Some fs ->
  map foundStatus fs
  = match extractStatuses prog' statusArg with
    | [] => [None]
    | statuses => map Some statuses
    end.
Proof.
  intros Hcall. rewrite (responsesAt_ctxCall _ _ _ _ _ _ _ Hcall). simpl.
  unfold ctxCallResponses. simpl.
  destruct (schemaOf prog' fuel _) as [s|]; simpl; [|discriminate].
  intros [= <-]. unfold pushPerStatus.
  destruct (extractStatuses prog' statusArg); simpl; [reflexivity|].
  f_equal. rewrite <- list_fmap_compose. reflexivity.
Qed.

Lemma operation_has_code (r : RouteInfo) found f v :
  responses r = Some (map toResponseItem found) ->
  f ∈ found -> foundStatus f = Some v -> v <> 0 ->
  is_Some (opResponses (operationOf typeTextToSchema r) !! Str.ofNumber v).
Proof.
  intros Hr Hf Hv Hnz. unfold operationOf. simpl. rewrite Hr.
  assert (toResponseItem f ∈ map toResponseItem found) as Hitem
      by (by apply list_elem_of_fmap_2).
  assert (responseCode (toResponseItem f) = Str.ofNumber v) as <-.
  { unfold responseCode, toResponseItem. simpl. rewrite Hv. simpl.
    by destruct (Z.eqb_spec v 0). }
  destruct (map toResponseItem found) as [|x xs] eqn:E;
    [by apply elem_of_nil in Hitem|].
  by apply collectResponses_member.
Qed.

End MultiStatus.

Lemma responseCode_nonzero a :
  status a <> 0 -> responseCode a = Str.ofNumber (status a).
Proof. unfold responseCode. by destruct (Z.eqb_spec (status a) 0). Qed.

(* ===================================================================== *)
(** ** Facts on the synthesizer *)
(* ===================================================================== *)

Lemma lookup_assign_eq props k v : Js.lookup (Js.assign props k v) k = v.
Proof.
  induction props as [|[k' v'] props IH]; cbn [Js.assign Js.lookup].
  - by rewrite String.eqb_refl.
  - destruct (String.eqb_spec k' k) as [->|Hne]; cbn [Js.lookup].
    + by rewrite String.eqb_refl.
    + destruct (String.eqb_spec k' k); [done|exact IH].
Qed.

Lemma lookup_assign_ne props k k' v :
  k <> k' -> Js.lookup (Js.assign props k v) k' = Js.lookup props k'.
Proof.
  intros Hne. induction props as [|[k0 v0] props IH]; cbn [Js.assign Js.lookup].
  - by destruct (String.eqb_spec k k').
  - destruct (String.eqb_spec k0 k) as [->|Hne0]; cbn [Js.lookup].
    + by destruct (String.eqb_spec k k').
    + destruct (String.eqb_spec k0 k'); [reflexivity|exact IH].
Qed.

Section SynthesizerFacts.

Variable checker : TypeChecker.

(** The union case of one step. *)
Lemma typeToSchema_union fuel type seen :
  isUnion checker type = true ->
  typeToSchema checker (S fuel) type seen
  = let parts := unionTypes checker type in
    let nullish := existsb (isNullishType checker) parts in
    let nonNullish :=
      List.filter (fun t => negb (isNullishType checker t)) parts in
    match nonNullish with
    | [only] =>
        '(s, seen1) ← typeToSchema checker fuel only seen;
        Some (if nullish && Js.truthy s
              then Js.setProp s "nullable" (JsBool true) else s, seen1)
    | _ =>
        '(anyOfRaw, seen1) ←
          synthAll (typeToSchema checker fuel) nonNullish seen;
        Some (JsObject [("anyOf", JsArray (uniqueByKey anyOfRaw ∅ []));
                        ("nullable",
                         if nullish then JsBool true else JsUndefined)],
              seen1)
    end.
Proof. intros H. simpl. by rewrite H. Qed.

(** The synthesizer returns objects. *)
Lemma typeToSchema_object fuel :
  forall type seen s seen',
    typeToSchema checker fuel type seen = Some (s, seen') ->
    exists props, s = JsObject props.
Proof.
  induction fuel as [|fuel IH]; intros type seen s seen'; [discriminate|].
  simpl.
  destruct (isUnion checker type).
  - destruct (List.filter _ _) as [|only [|other rest]].
    + simpl. intros [= <- <-]. by eexists.
    + destruct (typeToSchema checker fuel only seen) as [[s0 seen0]|] eqn:E;
        simpl; [|discriminate].
      intros [= <- <-]. destruct (IH _ _ _ _ E) as [props ->].
      destruct (_ && _); simpl; by eexists.
    + destruct (synthAll _ _ _) as [[raw seen0]|]; simpl; [|discriminate].
      intros [= <- <-]. by eexists.
  - destruct (isStringType checker type); [intros [= <- <-]; by eexists|].
    destruct (isNumberType checker type); [intros [= <- <-]; by eexists|].
    destruct (isBooleanType checker type); [intros [= <- <-]; by eexists|].
    destruct (getIndexTypeOfType checker type) as [arrayType|].
    + destruct (typeToSchema checker fuel arrayType seen) as [[s0 seen0]|];
        simpl; [|discriminate].
      intros [= <- <-]. by eexists.
    + destruct (hasFlags checker type TypeFlags.Object);
        [|intros [= <- <-]; by eexists].
      destruct (decide (type ∈ seen)); [intros [= <- <-]; by eexists|].
      destruct (synthProps _ _ _ _ _) as [[[ps req] seen0]|]; simpl;
        [|discriminate].
      intros [= <- <-]. destruct req; simpl; by eexists.
Qed.

(** Re-entering an object type of the [seen] set gives the marker. *)
Lemma typeToSchema_seen_object fuel type seen :
  isUnion checker type = false ->
  isStringType checker type = false ->
  isNumberType checker type = false ->
  isBooleanType checker type = false ->
  getIndexTypeOfType checker type = None ->
  hasFlags checker type TypeFlags.Object = true ->
  type ∈ seen ->
  typeToSchema checker (S fuel) type seen = Some (recursiveMarker, seen).
Proof.
  intros Hu Hs Hn Hb Hi Ho Hin. simpl.
  rewrite Hu, Hs, Hn, Hb, Hi, Ho. by rewrite decide_True.
Qed.

(** What the de-duplication loop keeps: the first variant of each
    serialization, in order. *)
Lemma uniqueByKey_spec raw :
  forall seenKeys uniq,
    (forall k, k ∈ seenKeys <-> k ∈ map Js.stringify uniq) ->
    NoDup (map Js.stringify uniq) ->
    exists kept,
      uniqueByKey raw seenKeys uniq = uniq ++ kept
      /\ sublist kept raw
      /\ NoDup (map Js.stringify (uniq ++ kept))
      /\ (forall s, s ∈ raw ->
                    Js.stringify s ∈ map Js.stringify (uniq ++ kept)).
Proof.
  induction raw as [|s raw IH]; intros seenKeys uniq Hkeys Hnd; simpl.
  - exists []. rewrite app_nil_r. repeat split; try done.
    by intros s ?%elem_of_nil.
  - destruct (decide (Js.stringify s ∈ seenKeys)) as [Hin|Hnin].
    + destruct (IH seenKeys uniq Hkeys Hnd) as (kept & Heq & Hsub & Hnd' & Hall).
      exists kept. repeat split; try done.
      * by apply sublist_cons.
      * intros s' [->|Hs']%elem_of_cons; [|by apply Hall].
        rewrite map_app. apply elem_of_app. left. by apply Hkeys.
    + destruct (IH ({[Js.stringify s]} ∪ seenKeys) (uniq ++ [s]))
        as (kept & Heq & Hsub & Hnd' & Hall).
      * intros k. rewrite map_app, elem_of_app, elem_of_union,
          elem_of_singleton. simpl. rewrite list_elem_of_singleton, Hkeys.
        tauto.
      * rewrite map_app. simpl. apply NoDup_app. repeat split; try done.
        -- intros k Hk ->%list_elem_of_singleton. apply Hnin. by apply Hkeys.
        -- apply NoDup_singleton.
      * exists (s :: kept). rewrite <- app_assoc in Heq, Hnd', Hall.
        repeat split; try done.
        -- by apply sublist_skip.
        -- intros s' [->|Hs']%elem_of_cons; [|by apply Hall].
           rewrite map_app. apply elem_of_app. right. simpl.
           apply list_elem_of_here.
Qed.

Lemma filter_nonNullish parts :
  Forall (fun t => isNullishType checker t = false)
    (List.filter (fun t => negb (isNullishType checker t)) parts).
Proof.
  apply Forall_forall. intros t Hin. apply list_elem_of_In in Hin.
  apply filter_In in Hin as [_ H]. by apply negb_true_iff in H.
Qed.

End SynthesizerFacts.

(** The array case of one step. *)
Lemma typeToSchema_array checker fuel type seen arrayType :
  isUnion checker type = false ->
  isStringType checker type = false ->
  isNumberType checker type = false ->
  isBooleanType checker type = false ->
  getIndexTypeOfType checker type = Some arrayType ->
  typeToSchema checker (S fuel) type seen
  = ('(items, seen1) ← typeToSchema checker fuel arrayType seen;
     Some (JsObject [("type", JsString "array"); ("items", items)], seen1)).
Proof. intros Hu Hs Hn Hb Hi. simpl. by rewrite Hu, Hs, Hn, Hb, Hi. Qed.

Lemma jsonTypes_no_result fuel :
  forall seen,
    typeToSchema jsonTypes fuel 0%nat seen = None
    /\ typeToSchema jsonTypes fuel 2%nat seen = None.
Proof.
  induction fuel as [|fuel IH]; intros seen; [split; reflexivity|]. split.
  - rewrite typeToSchema_union by (vm_compute; reflexivity). cbv zeta.
    replace (List.filter (fun t => negb (isNullishType jsonTypes t))
               (unionTypes jsonTypes 0%nat))
      with [1%nat; 2%nat] by (vm_compute; reflexivity).
    cbn [synthAll].
    destruct (typeToSchema jsonTypes fuel 1%nat seen) as [[s seen1]|];
      [|reflexivity].
    cbn [mbind option_bind]. by rewrite (proj2 (IH seen1)).
  - rewrite (typeToSchema_array jsonTypes fuel 2%nat seen 0%nat)
      by (vm_compute; reflexivity).
    by rewrite (proj1 (IH seen)).
Qed.

Section FuelFacts.

Variable checker : TypeChecker.




End FuelFacts.

(** ** Termination on guarded type graphs

    The [seen] set cuts the cycles that pass through the object case. When
    the other two recursive cases, union member and array element, descend
    along a bounded rank, and the object types are finitely many, the
    synthesizer returns. *)
Section GuardedTermination.

Variable checker : TypeChecker.
Variable rank : TsType -> nat.
Variable bound : nat.
Variable objects : gset TsType.

Hypothesis rank_bounded : forall t, (rank t <= bound)%nat.

Hypothesis union_descends :
forall t c,
  isUnion checker t = true ->
  In c (unionTypes checker t) -> isNullishType checker c = false ->
  (rank c < rank t)%nat.

Hypothesis array_descends :
forall t elem,
  isUnion checker t = false ->
  getIndexTypeOfType checker t = Some elem ->
  (rank elem < rank t)%nat.

Hypothesis objects_listed :
forall t,
  isUnion checker t = false ->
  getIndexTypeOfType checker t = None ->
  hasFlags checker t TypeFlags.Object = true ->
  t ∈ objects.

Local Abbreviation fuelNeeded := (fuelFor rank bound objects).

Lemma unseen_mono (seen seen1 : gset TsType) :
seen ⊆ seen1 -> (size (objects ∖ seen1) <= size (objects ∖ seen))%nat.
Proof.
intros Hsub. apply subseteq_size.
intros x [Hx Hnot]%elem_of_difference. apply elem_of_difference.
split; [exact Hx|]. intros Hin. apply Hnot, Hsub, Hin.
Qed.

Lemma unseen_add (seen : gset TsType) t :
t ∈ objects -> t ∉ seen ->
(size (objects ∖ ({[t]} ∪ seen)) < size (objects ∖ seen))%nat.
Proof.
intros Hin Hnot. apply subset_size. split.
- intros x [Hx Hn]%elem_of_difference. apply elem_of_difference.
  split; [exact Hx|]. intros Hs. apply Hn, elem_of_union. by right.
- intros Hsub. assert (t ∈ objects ∖ ({[t]} ∪ seen)) as Ht.
  { apply Hsub, elem_of_difference. by split. }
  apply elem_of_difference in Ht as [_ Ht]. apply Ht, elem_of_union.
  left. by apply elem_of_singleton.
Qed.

Lemma synthAll_total rec ts seen0 :
(forall c seen1,
    In c ts -> seen0 ⊆ seen1 ->
    exists s seen', rec c seen1 = Some (s, seen') /\ seen1 ⊆ seen') ->
forall seen,
  seen0 ⊆ seen ->
  exists raw seen', synthAll rec ts seen = Some (raw, seen') /\ seen ⊆ seen'.
Proof.
induction ts as [|c ts IH]; intros Hrec seen Hsub; simpl.
- by exists [], seen.
- destruct (Hrec c seen) as (s & seen1 & -> & Hsub1); [by left | done |].
  cbn [mbind option_bind].
  destruct (IH (fun c' seen' Hin => Hrec c' seen' (or_intror Hin)) seen1)
    as (raw & seen2 & -> & Hsub2); [by etrans|].
  cbn [mbind option_bind]. exists (s :: raw), seen2.
  split; [done | by etrans].
Qed.

Lemma synthProps_total rec props seen0 :
(forall sym seen1,
    In sym props -> seen0 ⊆ seen1 ->
    exists s seen', rec (symType sym) seen1 = Some (s, seen') /\ seen1 ⊆ seen') ->
forall properties required seen,
  seen0 ⊆ seen ->
  exists ps req seen',
    synthProps rec props properties required seen = Some (ps, req, seen')
    /\ seen ⊆ seen'.
Proof.
induction props as [|sym props IH]; intros Hrec properties required seen Hsub;
  simpl.
- by exists properties, required, seen.
- destruct (Hrec sym seen) as (s & seen1 & -> & Hsub1); [by left | done |].
  cbn [mbind option_bind].
  destruct (IH (fun sym' seen' Hin => Hrec sym' seen' (or_intror Hin))
              (Js.assign properties (symName sym) s)
              (if symOptional sym then required else required ++ [symName sym])
              seen1)
    as (ps & req & seen2 & -> & Hsub2); [by etrans|].
  exists ps, req, seen2. split; [done | by etrans].
Qed.

Theorem typeToSchema_terminates_when_guarded fuel :
forall t seen,
  (fuelNeeded seen t < fuel)%nat ->
  exists s seen', typeToSchema checker fuel t seen = Some (s, seen')
                  /\ seen ⊆ seen'.
Proof.
induction fuel as [|fuel IH]; intros t seen Hfuel; [lia|].
unfold fuelFor in Hfuel. cbn [typeToSchema].
destruct (isUnion checker t) eqn:Hunion.
- assert (forall c seen1,
            In c (List.filter (fun t => negb (isNullishType checker t))
                    (unionTypes checker t)) ->
            seen ⊆ seen1 ->
            exists s seen', typeToSchema checker fuel c seen1 = Some (s, seen')
                            /\ seen1 ⊆ seen') as Hmembers.
  { intros c seen1 Hc Hsub. apply IH. unfold fuelFor.
    apply filter_In in Hc as [Hc Hnn]. apply negb_true_iff in Hnn.
    pose proof (union_descends t c Hunion Hc Hnn).
    pose proof (unseen_mono seen seen1 Hsub). nia. }
  destruct (List.filter _ _) as [|only [|other rest]] eqn:E.
  + cbn. by exists (JsObject
                      [("anyOf", JsArray []);
                       ("nullable",
                        if existsb (isNullishType checker)
                             (unionTypes checker t)
                        then JsBool true else JsUndefined)]), seen.
  + destruct (Hmembers only seen) as (s & seen1 & -> & Hsub);
      [by left | done |].
    cbn [mbind option_bind]. by eexists _, seen1.
  + destruct (synthAll_total (typeToSchema checker fuel)
                (only :: other :: rest) seen Hmembers seen)
      as (raw & seen1 & -> & Hsub); [done|].
    cbn [mbind option_bind]. by eexists _, seen1.
- destruct (isStringType checker t); [by eexists _, seen|].
  destruct (isNumberType checker t); [by eexists _, seen|].
  destruct (isBooleanType checker t); [by eexists _, seen|].
  destruct (getIndexTypeOfType checker t) as [elem|] eqn:Hindex.
  + destruct (IH elem seen) as (s & seen1 & -> & Hsub).
    { unfold fuelFor. pose proof (array_descends t elem Hunion Hindex). lia. }
    cbn [mbind option_bind]. by eexists _, seen1.
  + destruct (hasFlags checker t TypeFlags.Object) eqn:Hobject;
      [|by eexists _, seen].
    destruct (decide (t ∈ seen)) as [Hseen|Hseen]; [by eexists _, seen|].
    pose proof (objects_listed t Hunion Hindex Hobject) as Hin.
    destruct (synthProps_total (typeToSchema checker fuel)
                (getPropertiesOfType checker t) ({[t]} ∪ seen))
      with (properties := @nil (string * JsValue))
           (required := @nil string) (seen := {[t]} ∪ seen)
      as (ps & req & seen1 & -> & Hsub); [|done|].
    { intros sym seen1 _ Hsub. apply IH. unfold fuelFor.
      pose proof (unseen_mono _ _ Hsub).
      pose proof (unseen_add seen t Hin Hseen).
      pose proof (rank_bounded (symType sym)). nia. }
    cbn [mbind option_bind]. eexists _, seen1. split; [done|].
    etrans; [|exact Hsub]. apply union_subseteq_r.
Qed.


End GuardedTermination.

(** On [type List = { value: number; next: List }] the conditions hold
    with the object type 0 listed and every rank 0. *)
Example linked_list_is_guarded :
  exists s seen', typeToSchema linkedListTypes 3 0%nat ∅ = Some (s, seen').
Proof.
  destruct (typeToSchema_terminates_when_guarded linkedListTypes
              (fun _ => 0%nat) 0 {[0%nat]}) with (fuel := 3%nat) (t := 0%nat)
                                                 (seen := (∅ : gset TsType))
    as (s & seen' & H & _).
  - done.
  - intros t c Hu. do 3 (destruct t as [|t]; [vm_compute in Hu; discriminate|]).
    vm_compute in Hu. discriminate.
  - intros t elem _ Hi.
    do 3 (destruct t as [|t]; [vm_compute in Hi; discriminate|]).
    vm_compute in Hi. discriminate.
  - intros t _ _ Ho. destruct t as [|t]; [by apply elem_of_singleton|].
    do 2 (destruct t as [|t]; [vm_compute in Ho; discriminate|]).
    vm_compute in Ho. discriminate.
  - vm_compute. lia.
  - by exists s, seen'.
Qed.


(* ===================================================================== *)
(** ** Facts on the folder conventions *)
(* ===================================================================== *)

Lemma append_assoc (a b c : string) : (a +:+ b) +:+ c = a +:+ (b +:+ c).
Proof.
  induction a as [|ch a IH]; [reflexivity|].
  change (String ch ((a +:+ b) +:+ c) = String ch (a +:+ (b +:+ c))).
  by rewrite IH.
Qed.

Lemma filterBoolean_snoc xs x :
  Str.isEmpty x = false ->
  Str.filterBoolean (xs ++ [x]) = Str.filterBoolean xs ++ [x].
Proof.
  intros Hx. unfold Str.filterBoolean. rewrite List.filter_app. simpl.
  by rewrite Hx.
Qed.

Lemma join_snoc sep xs x :
  exists front, Str.join sep (xs ++ [x]) = front +:+ x
                /\ (xs = [] -> front = EmptyString)
                /\ (xs <> [] -> front = Str.join sep xs +:+ sep).
Proof.
  induction xs as [|y xs IH]; simpl.
  - exists EmptyString. done.
  - destruct IH as (front & Heq & Hnil & Hcons).
    destruct xs as [|z xs].
    + exists (y +:+ sep). simpl. repeat split; try done.
      by rewrite append_assoc.
    + exists (y +:+ sep +:+ front). repeat split; try done.
      * unfold Str.join in *. simpl in *. rewrite Heq.
        by rewrite !append_assoc.
      * intros _. rewrite Hcons by done. unfold Str.join. simpl.
        by rewrite !append_assoc.
Qed.

Lemma isMethodFile_nonempty base lower :
  isMethodFile base = Some lower -> Str.isEmpty lower = false.
Proof.
  unfold isMethodFile.
  destruct (existsb _ httpMethods) eqn:E; [|discriminate].
  intros [= <-]. apply existsb_exists in E as (m & Hin & Heq).
  apply String.eqb_eq in Heq. rewrite Heq.
  simpl in Hin. by repeat destruct Hin as [<-|Hin].
Qed.

Lemma walkUp_collects fuel fs rootDirAbs stop :
  forall cur scopes,
    walkUp fuel fs rootDirAbs stop cur scopes
    = (fun dirs => scopes ++ scopesOf fs rootDirAbs dirs)
        <$> walkedDirectories fuel fs stop cur.
Proof.
  unfold scopesOf.
  induction fuel as [|fuel IH]; intros cur scopes; [reflexivity|].
  cbn [walkUp walkedDirectories].
  assert (forall tail,
            (if existsSync fs (join fs cur "middleware.ts")
             then scopes ++ [scopePrefix fs rootDirAbs cur] else scopes)
            ++ map (scopePrefix fs rootDirAbs)
                 (List.filter (fun d => existsSync fs (join fs d "middleware.ts"))
                    tail)
            = scopes ++ map (scopePrefix fs rootDirAbs)
                          (List.filter
                             (fun d => existsSync fs (join fs d "middleware.ts"))
                             (cur :: tail))) as Hstep.
  { intros tail. cbn [List.filter].
    destruct (existsSync fs (join fs cur "middleware.ts")); [|reflexivity].
    by rewrite <- app_assoc. }
  destruct (String.eqb cur stop).
  { cbn [fmap option_fmap option_map]. by rewrite <- (Hstep []), app_nil_r. }
  destruct (String.eqb (dirname fs cur) cur).
  { cbn [fmap option_fmap option_map]. by rewrite <- (Hstep []), app_nil_r. }
  destruct (Str.startsWith _ _).
  { cbn [fmap option_fmap option_map]. by rewrite <- (Hstep []), app_nil_r. }
  rewrite IH.
  destruct (walkedDirectories fuel fs stop (dirname fs cur)) as [dirs|];
    cbn [fmap option_fmap option_map]; [|reflexivity].
  by rewrite Hstep.
Qed.

Lemma insertByKey_Permutation key x sorted :
  insertByKey key x sorted ≡ₚ x :: sorted.
Proof.
  induction sorted as [|y rest IH]; simpl; [reflexivity|].
  destruct (key x <? key y)%nat; [reflexivity|].
  rewrite IH. apply Permutation_swap.
Qed.

Lemma sortByKey_Permutation key xs : sortByKey key xs ≡ₚ xs.
Proof.
  unfold sortByKey.
  assert (forall acc, foldl (fun sorted x => insertByKey key x sorted) acc xs
                      ≡ₚ acc ++ xs) as H.
  { induction xs as [|x xs IH]; intros acc; simpl.
    - by rewrite app_nil_r.
    - rewrite IH, insertByKey_Permutation. simpl.
      apply Permutation_middle. }
  apply (H []).
Qed.

Lemma insertByKey_sorted key x sorted :
  StronglySorted (fun a b => (key a <= key b)%nat) sorted ->
  StronglySorted (fun a b => (key a <= key b)%nat) (insertByKey key x sorted).
Proof.
  induction 1 as [|y rest Hsorted IH Hall]; simpl.
  - repeat constructor.
  - destruct (Nat.ltb_spec (key x) (key y)).
    + constructor; [by constructor|].
      constructor; [lia|]. eapply Forall_impl; [exact Hall|].
      simpl. intros z Hz. lia.
    + constructor; [exact IH|].
      rewrite insertByKey_Permutation. by constructor.
Qed.

Lemma sortByKey_sorted key xs :
  StronglySorted (fun a b => (key a <= key b)%nat) (sortByKey key xs).
Proof.
  unfold sortByKey.
  assert (forall acc,
            StronglySorted (fun a b => (key a <= key b)%nat) acc ->
            StronglySorted (fun a b => (key a <= key b)%nat)
              (foldl (fun sorted x => insertByKey key x sorted) acc xs)) as H.
  { induction xs as [|x xs IH]; intros acc Hacc; simpl; [exact Hacc|].
    by apply IH, insertByKey_sorted. }
  apply H. constructor.
Qed.

(** What [findMiddlewareScopes] returns: the scopes of the directories of
    the walk that hold a middleware file, ordered by their number of
    slash-separated parts. *)
Lemma findMiddlewareScopes_scopes fuel fs filePath rootDirAbs scopes :
  findMiddlewareScopes fuel fs filePath rootDirAbs = Some scopes ->
  exists dirs,
    walkedDirectories fuel fs (resolve fs rootDirAbs) (dirname fs filePath)
    = Some dirs
    /\ scopes ≡ₚ scopesOf fs rootDirAbs dirs
    /\ StronglySorted (fun a b => (slashParts a <= slashParts b)%nat) scopes.
Proof.
  unfold findMiddlewareScopes. rewrite walkUp_collects.
  destruct (walkedDirectories _ _ _ _) as [dirs|]; simpl; [|discriminate].
  intros [= <-]. exists dirs. split; [reflexivity|]. split.
  - apply sortByKey_Permutation.
  - apply sortByKey_sorted.
Qed.

(* ===================================================================== *)
(** ** The sample programs *)
(* ===================================================================== *)

Lemma sample_converges : Converges Sample.program Sample.noRequestData 3.
Proof.
  repeat split.
  - intros t. do 10 (destruct t as [|t]; [vm_compute; by eexists|]).
    vm_compute. by eexists.
  - intros withChecker e. unfold resolveToStringLiteralText.
    destruct (stripParensAndCasts e), withChecker; by eexists.
  - intros t. do 10 (destruct t as [|t]; [vm_compute; by eexists|]).
    vm_compute. by eexists.
  - intros cb p. by eexists.
Qed.

(* ===================================================================== *)
(** ** Properties of the specification *)
(* ===================================================================== *)

(** C1. A node is recognized as a route registration exactly when it is a
    call whose callee is a property access with a member name among get,
    post, put, patch, delete, options, head and whose first argument is a
    string literal. The nodes of the file are visited once each, depth
    first, a node before its children; when the analysis returns, the
    method and path of its records are those of the recognized nodes, one
    record per node, in that order; and it does return once the oracles
    answer. *)
Theorem analyzeSource_route_per_registration
  (prog : Program)
  (findRequestData : nat -> option Node -> option string -> option (JsValue * JsValue))
  (sourceFile : Node) :
  (forall node m p,
      isHonoRouteCall prog node = Some (m, p) <->
      exists i j receiver name typeArgs firstArg rest,
        node = CallExpression i (PropertyAccessExpression j receiver name)
                 typeArgs (firstArg :: rest)
        /\ getText prog name = m
        /\ In m ["get"; "post"; "put"; "patch"; "delete"; "options"; "head"]
        /\ isStringLiteralLike firstArg = Some p)
  /\ (forall node, preorder node = node :: flat_map preorder (childrenOf node))
  /\ (forall fuel routes,
        analyzeSource prog findRequestData fuel sourceFile = Some routes ->
        map (fun r => (method r, path r)) routes
        = omap (isHonoRouteCall prog) (preorder sourceFile))
  /\ (forall fuel,
        Converges prog findRequestData fuel ->
        is_Some (analyzeSource prog findRequestData fuel sourceFile)).
Proof.
  split; [apply isHonoRouteCall_iff|].
  split; [apply preorder_unfold|].
  split; [|intros fuel; apply analyzeSource_total].
  intros fuel routes. rewrite analyzeSource_mapM.
  destruct (mapM _ _) as [perNode|] eqn:E; simpl; [|discriminate].
  intros [= <-]. apply mapM_Some in E.
  rewrite omap_concat_option_list.
  induction E as [|node found nodes perNode Hnode _ IH]; simpl; [reflexivity|].
  rewrite map_app, IH. f_equal.
  by apply (routeAt_keys prog findRequestData fuel).
Qed.

Lemma analyzeSource_route_per_registration_witness :
  exists routes,
    analyzeSource Sample.program Sample.noRequestData 3 Sample.sourceFile
    = Some routes
    /\ map (fun r => (method r, path r)) routes
       = [("post", "/users/:id"); ("get", "/ping")].
Proof.
  destruct (analyzeSource_route_per_registration Sample.program
              Sample.noRequestData Sample.sourceFile)
    as (_ & _ & Hkeys & Htotal).
  destruct (Htotal 3%nat sample_converges) as [routes Hroutes].
  exists routes. split; [exact Hroutes|].
  rewrite (Hkeys 3%nat routes Hroutes). vm_compute. reflexivity.
Defined.

(** C2, at the failing input [type Json = string | Json[]]: whatever the
    fuel, the synthesizer returns nothing on it. The cycle runs through the
    union and the array case only, which never consult the [seen] set. *)
Theorem typeToSchema_diverges_on_recursive_array :
  forall fuel seen, typeToSchema jsonTypes fuel 0%nat seen = None.
Proof. intros fuel seen. apply jsonTypes_no_result. Qed.

(** For comparison, a cycle through an object type is cut: on
    [type List = { value: number; next: List }] the branch [next] is the
    marker. *)
Example self_reference_gives_marker :
  typeToSchema linkedListTypes 3 0%nat ∅
  = Some (JsObject
            [("type", JsString "object");
             ("properties",
              JsObject [("value", schemaOfType "number");
                        ("next", recursiveMarker)]);
             ("required", JsArray [JsString "value"; JsString "next"])],
          {[0%nat]}).
Proof. vm_compute. reflexivity. Qed.

(** The marker also appears without any cycle: in
    [{ a: Point; b: Point }] the second use of [Point] meets the object
    already in the [seen] set, which is never shrunk. *)
Example shared_type_gives_marker_without_cycle :
  fst <$> typeToSchema sharedTypes 4 0%nat ∅
  = Some (JsObject
            [("type", JsString "object");
             ("properties",
              JsObject
                [("a", JsObject
                         [("type", JsString "object");
                          ("properties",
                           JsObject [("x", schemaOfType "number")]);
                          ("required", JsArray [JsString "x"])]);
                 ("b", recursiveMarker)]);
             ("required", JsArray [JsString "a"; JsString "b"])]).
Proof. vm_compute. reflexivity. Qed.

(** C3. For a union with a null or undefined member, the members passed on
    to synthesis are the others. When exactly one is left and its synthesis
    returns [s], the union's returns [s] with its [nullable] property set
    to [true] and every other property as in [s]. When several are left
    (or none) and their syntheses return [raw], the union's returns
    [{ anyOf: uniq, nullable: true }], where [uniq] keeps from [raw], in
    order, the first variant of each serialization: no two variants of
    [uniq] serialize alike and every variant of [raw] serializes like one of
    [uniq]. *)
Theorem nullable_union_collapse
  (checker : TypeChecker) (fuel : nat) (type : TsType) (seen : gset TsType) :
  isUnion checker type = true ->
  existsb (isNullishType checker) (unionTypes checker type) = true ->
  let nonNullish :=
    List.filter (fun t => negb (isNullishType checker t))
      (unionTypes checker type) in
  Forall (fun t => isNullishType checker t = false) nonNullish
  /\ (forall only s seen',
        nonNullish = [only] ->
        typeToSchema checker fuel only seen = Some (s, seen') ->
        typeToSchema checker (S fuel) type seen
        = Some (Js.setProp s "nullable" (JsBool true), seen')
        /\ Js.getProp (Js.setProp s "nullable" (JsBool true)) "nullable"
           = JsBool true
        /\ (forall k, k <> "nullable" ->
                      Js.getProp (Js.setProp s "nullable" (JsBool true)) k
                      = Js.getProp s k))
  /\ (forall raw seen',
        List.length nonNullish <> 1%nat ->
        synthAll (typeToSchema checker fuel) nonNullish seen = Some (raw, seen') ->
        exists uniq,
          typeToSchema checker (S fuel) type seen
          = Some (JsObject [("anyOf", JsArray uniq); ("nullable", JsBool true)],
                  seen')
          /\ sublist uniq raw
          /\ NoDup (map Js.stringify uniq)
          /\ (forall s, s ∈ raw -> Js.stringify s ∈ map Js.stringify uniq)).
Proof.
  intros Hunion Hnullish nonNullish.
  split; [apply filter_nonNullish|]. split.
  - intros only s seen' Hone Hs.
    destruct (typeToSchema_object checker fuel _ _ _ _ Hs) as [props ->].
    split; [|split].
    + rewrite (typeToSchema_union checker fuel type seen Hunion). simpl.
      fold nonNullish. rewrite Hone, Hs, Hnullish. reflexivity.
    + apply lookup_assign_eq.
    + intros k Hk. apply lookup_assign_ne. congruence.
  - intros raw seen' Hlen Hraw.
    destruct (uniqueByKey_spec raw ∅ []) as (uniq & Heq & Hsub & Hnd & Hall).
    + intros k. simpl. rewrite elem_of_empty, elem_of_nil. tauto.
    + apply NoDup_nil_2.
    + exists uniq. simpl in Heq, Hnd, Hall. repeat split; try done.
      rewrite (typeToSchema_union checker fuel type seen Hunion). simpl.
      fold nonNullish. rewrite Hnullish.
      destruct nonNullish as [|only [|other rest]] eqn:E.
      * rewrite Hraw. simpl. by rewrite Heq.
      * done.
      * rewrite Hraw. simpl. by rewrite Heq.
Qed.

(** [string | undefined] gives [{ type: 'string', nullable: true }]. *)
Lemma nullable_union_collapse_witness :
  typeToSchema optionalStringTypes 2 0%nat ∅
  = Some (JsObject [("type", JsString "string"); ("nullable", JsBool true)], ∅).
Proof.
  destruct (nullable_union_collapse optionalStringTypes 1 0%nat ∅)
    as (_ & Hone & _); [vm_compute; reflexivity | vm_compute; reflexivity |].
  destruct (Hone 1%nat (schemaOfType "string") ∅) as (H & _);
    [vm_compute; reflexivity | vm_compute; reflexivity |].
  exact H.
Defined.

(** C4, against the claim as stated. The file [blog/[id].ts] is named
    neither after the index marker nor after a method, and the path
    composed for it is [/blog/:id]: its base name went through the segment
    transformation, and the path does not end with [[id]]. *)
Lemma bracketed_base_name_is_transformed :
  let fs := Posix.fileSystem [] in
  parse fs (relative fs "/app/routes" "/app/routes/blog/[id].ts")
  = mkParsedPath "blog" "[id]"
  /\ isMethodFile "[id]" = None
  /\ String.eqb "[id]" "index" = false
  /\ computeAutorouterPath fs "/app/routes" "/app/routes/blog/[id].ts"
     = Some "/blog/:id"
  /\ Str.endsWith "/blog/:id" "[id]" = false.
Proof. repeat split; vm_compute; reflexivity. Qed.

(** C4, amended. For a file under the root whose base name is neither
    [index] nor a method name (in any letter case), the base name is
    appended to the directory segments and transformed with them: the path
    is the slash-joined list of the transformed, non-empty segments, the
    transformed base name last. A non-empty base name that is not of the
    bracketed form is left as it is by the transformation, and the path
    ends with it. A file named [index] or after a method adds no segment. *)
Theorem autorouter_base_name_segment
  (fs : FileSystem) (rootDirAbs fileAbs : string) :
  let rel := relative fs rootDirAbs fileAbs in
  let base := parsedName (parse fs rel) in
  let dirs := map convertSegment (segmentsOf fs (parsedDir (parse fs rel))) in
  Str.startsWith rel ".." = false ->
  (isMethodFile base = None -> base <> "index" ->
   computeAutorouterPath fs rootDirAbs fileAbs
   = Some ("/" +:+ Str.join "/"
                     (Str.filterBoolean (dirs ++ [convertSegment base])))
   /\ (Str.startsWith base "[" && Str.endsWith base "]" = false ->
       Str.isEmpty base = false ->
       convertSegment base = base
       /\ exists front,
            computeAutorouterPath fs rootDirAbs fileAbs
            = Some (front +:+ "/" +:+ base)))
  /\ (is_Some (isMethodFile base) \/ base = "index" ->
      computeAutorouterPath fs rootDirAbs fileAbs
      = Some ("/" +:+ Str.join "/" (Str.filterBoolean dirs))).
Proof.
  intros rel base dirs Hrel. unfold computeAutorouterPath.
  fold rel. rewrite Hrel. fold base. split.
  - intros Hmethod Hindex. rewrite Hmethod. simpl falsyStr.
    destruct (String.eqb_spec base "index") as [|_]; [done|]. simpl andb.
    cbv iota. rewrite map_app. simpl map. fold dirs.
    split; [reflexivity|].
    intros Hplain Hne.
    assert (convertSegment base = base) as Hconv
        by (unfold convertSegment; by rewrite Hplain).
    split; [exact Hconv|]. rewrite Hconv, filterBoolean_snoc by done.
    destruct (join_snoc "/" (Str.filterBoolean dirs) base)
      as (front & Heq & Hnil & Hcons).
    rewrite Heq. destruct (Str.filterBoolean dirs) as [|d ds] eqn:E.
    + exists EmptyString. by rewrite Hnil.
    + exists ("/" +:+ Str.join "/" (d :: ds)). rewrite Hcons by done.
      by rewrite !append_assoc.
  - intros Hno.
    assert (falsyStr (isMethodFile base) && negb (String.eqb base "index")
            = false) as ->.
    { destruct Hno as [[lower Hlower]| ->].
      - rewrite Hlower. simpl. by rewrite (isMethodFile_nonempty _ _ Hlower).
      - by rewrite andb_false_r. }
    reflexivity.
Qed.

Lemma autorouter_base_name_segment_witness :
  computeAutorouterPath (Posix.fileSystem []) "/app/routes"
    "/app/routes/blog/[id]/list.ts"
  = Some ("/" +:+ Str.join "/" (Str.filterBoolean ([ "blog"; ":id" ] ++ ["list"]))).
Proof.
  apply (autorouter_base_name_segment (Posix.fileSystem []) "/app/routes"
           "/app/routes/blog/[id]/list.ts").
  - vm_compute. reflexivity.
  - vm_compute. reflexivity.
  - vm_compute. discriminate.
Defined.

(** C5, at the failing input: a route file in [users/] under the root,
    with a middleware file both in the root and in [users/]. The scopes
    come out deepest first, [/users] before [/]: the sort compares the
    numbers of slash-separated parts, and [/] has as many as [/users]. *)
Theorem root_scope_sorted_after_first_level :
  let fs := Posix.fileSystem ["/app/routes/middleware.ts";
                              "/app/routes/users/middleware.ts"] in
  findMiddlewareScopes 3 fs "/app/routes/users/route.ts" "/app/routes"
  = Some ["/users"; "/"]
  /\ slashParts "/" = slashParts "/users".
Proof. split; vm_compute; reflexivity. Qed.

(** C6, against the claim as stated. In the body
    [{ c.header('content-type', 'text/csv');
       c.header('content-type', 'application/xml'); return c.text('x') }]
    the first header call is on the context parameter and resolves to
    [text/csv], the text call comes later in the body (they are nodes 1
    and 15 of the body in document order), and yet the media type recorded
    for it is [application/xml]. And in
    [{ c.header('content-type', 'text/csv'); return c.redirect('/x') }]
    the record of the redirect call, which follows the header call, has no
    media type at all. *)
Lemma later_response_ignores_earlier_header :
  contentTypeAt Sample.program 3 (Some "c") Sample.csvHeader None
  = Some (Some "text/csv")
  /\ descendants Sample.twoHeadersBody !! 1%nat = Some Sample.csvHeader
  /\ descendants Sample.twoHeadersBody !! 15%nat = Some Sample.textCall
  /\ findResponses Sample.program 3 (Some Sample.twoHeadersBody) (Some "c")
     = Some [mkFound None (schemaOfType "string") None
               (Some "application/xml") JsUndefined]
  /\ findExplicitContentType Sample.program 3 Sample.redirectBody (Some "c")
     = Some (Some "text/csv")
  /\ findResponses Sample.program 3 (Some Sample.redirectBody) (Some "c")
     = Some [mkFound None JsUndefined (Some 302) None locationHeaders].
Proof. repeat split; vm_compute; reflexivity. Qed.

(** C6, amended. The media type override of a handler body is the value of
    the last [header('content-type', v)] call the scan of the whole body
    accepts (none when it accepts none); it accepts a call whose receiver
    is the context parameter identifier (any receiver when the handler
    names no parameter), whose first argument is a string literal equal to
    content-type up to letter case, and whose second argument resolves to
    a non-empty string [v]. Every record of a [json], [text],
    [html] or [body] call on the context, wherever the call stands relative
    to the header calls, carries that value; with no override the records of
    [json], [text] and [html] calls carry [application/json], [text/plain]
    and [text/html]. The records of [notFound] and [redirect] calls carry
    no media type. *)
Theorem explicit_content_type_covers_whole_body
  (prog : Program) (fuel : nat) (cb : Node) (p : option string)
  (found : list FoundResponse) :
  findResponses prog fuel (Some cb) p = Some found ->
  exists updates ect perNode,
    mapM (fun n => contentTypeAt prog fuel p n None) (descendants cb)
    = Some updates
    /\ (forall node v,
          contentTypeAt prog fuel p node None = Some (Some v) <->
          exists i j base name typeArgs key value rest keyText,
            node = CallExpression i (PropertyAccessExpression j base name)
                     typeArgs (key :: value :: rest)
            /\ getText prog name = "header"
            /\ isParamIdentifier p base = true
            /\ isStringLiteralLike key = Some keyText
            /\ Str.toLowerCase keyText = "content-type"
            /\ resolveToStringLiteralText prog fuel true value
               = Some (Some v)
            /\ Str.isEmpty v = false)
    /\ ect = lastUpdate None updates
    /\ findExplicitContentType prog fuel cb p = Some ect
    /\ mapM (responsesAt prog fuel ect p) (descendants cb) = Some perNode
    /\ found = List.concat perNode
    /\ Forall2
         (fun node fs =>
            forall name args f,
              CtxCall prog p node name args -> f ∈ fs ->
              (name = "notFound" \/ name = "redirect" ->
               foundMediaType f = None)
              /\ match ect with
                 | Some v =>
                     In name ["json"; "text"; "html"; "body"] ->
                     foundMediaType f = Some v
                 | None =>
                     (name = "json" ->
                      foundMediaType f = Some "application/json")
                     /\ (name = "text" -> foundMediaType f = Some "text/plain")
                     /\ (name = "html" -> foundMediaType f = Some "text/html")
                 end)
         (descendants cb) perNode.
Proof.
  intros Hfound.
  destruct (findResponses_shape _ _ _ _ _ Hfound)
    as (ect & perNode & Hect & HperNode & ->).
  pose proof Hect as Hlast. rewrite findExplicitContentType_last in Hlast.
  destruct (mapM (fun n => contentTypeAt prog fuel p n None) (descendants cb))
    as [updates|] eqn:Hupdates; simpl in Hlast; [|discriminate].
  injection Hlast as Hlast.
  exists updates, ect, perNode.
  split; [reflexivity|]. split; [intros node v; apply contentTypeAt_accepts|].
  repeat split; try done.
  apply mapM_Some in HperNode.
  eapply Forall2_impl; [exact HperNode|].
  intros node fs Hat name args f Hcall Hf. simpl in Hat.
  rewrite (responsesAt_ctxCall _ _ _ _ _ _ _ Hcall) in Hat.
  split; [by apply (ctxCallResponses_no_mediaType _ _ _ _ _ _ _ _ Hat Hf)|].
  destruct (ctxCallResponses_mediaType _ _ _ _ _ _ _ _ Hat Hf)
    as (Hjson & Htext & Hhtml & Hbody).
  destruct ect as [v|].
  - assert (Str.isEmpty v = false) as Hv
        by (by apply (findExplicitContentType_nonempty prog fuel cb p)).
    intros [<-|[<-|[<-|[<-|[]]]]].
    + by rewrite Hjson, orDefault_Some.
    + by rewrite Htext, orDefault_Some.
    + by rewrite Hhtml, orDefault_Some.
    + by apply Hbody.
  - repeat split; intros ->; auto.
Qed.

Lemma explicit_content_type_covers_whole_body_witness :
  findExplicitContentType Sample.program 3 Sample.twoHeadersBody (Some "c")
  = Some (Some "application/xml")
  /\ exists perNode,
       mapM (responsesAt Sample.program 3 (Some "application/xml") (Some "c"))
         (descendants Sample.twoHeadersBody) = Some perNode
       /\ [mkFound None (schemaOfType "string") None
             (Some "application/xml") JsUndefined]
          = List.concat perNode.
Proof.
  destruct (explicit_content_type_covers_whole_body Sample.program 3
              Sample.twoHeadersBody (Some "c")
              [mkFound None (schemaOfType "string") None
                 (Some "application/xml") JsUndefined])
    as (updates & ect & perNode & Hup & _ & Hlast & Hect & Hper & Hcat & _).
  - vm_compute. reflexivity.
  - assert (ect = Some "application/xml") as ->.
    { assert (findExplicitContentType Sample.program 3 Sample.twoHeadersBody
                (Some "c") = Some (Some "application/xml")) as Hval
          by (vm_compute; reflexivity).
      rewrite Hval in Hect. by injection Hect. }
    split; [exact Hect|]. by exists perNode.
Defined.

(** C7, at the failing input [app.get('/fail', (c) => c.json(err, status))]
    with [status] of type [400 | 422]. The body of the handler is the call
    itself; the walk of the extractor starts at the children of the body,
    so the call is never visited: the record has no response and the
    assembled operation only the default entry 200. The same call in a
    block body, [(c) => { return c.json(err, status) }], gives the two
    records, of statuses 400 and 422. *)
Theorem expression_body_call_yields_no_record :
  NarrowedTo Sample.program (Identifier 77 "status") [400; 422]
  /\ (map responses
        <$> analyzeSource Sample.program Sample.noRequestData 3
              (Sample.failRouteFile Sample.narrowedCall))
     = Some [Some []]
  /\ (map (fun r => opResponses (operationOf Sample.noTypeText r))
        <$> analyzeSource Sample.program Sample.noRequestData 3
              (Sample.failRouteFile Sample.narrowedCall))
     = Some [{[ "200" := mkResponseObject "OK" JsUndefined None ]}]
  /\ (map (fun r => map status <$> responses r)
        <$> analyzeSource Sample.program Sample.noRequestData 3
              (Sample.failRouteFile Sample.narrowedBody))
     = Some [Some [400; 422]].
Proof.
  split.
  { split; [vm_compute; reflexivity|]. split.
    - repeat constructor.
    - repeat constructor; intros H; repeat (apply elem_of_cons in H as [H|H]);
        try discriminate; by apply elem_of_nil in H. }
  repeat split; vm_compute; reflexivity.
Qed.

(** What does hold of the calls the extractor visits, the nodes below the
    handler body. Once the oracles answer, the extractor returns, and of
    the list it returns: a call [ctx.json(x, n)] with a numeric
    literal [n] contributes exactly one record, of status [n]; of two such
    calls, the record of the one met first in document order comes first;
    with calls of statuses 200 and 422 the assembled operation has entries
    under both keys, 200 and 422; and a [json] call whose status argument
    is resolved through its type, a union of distinct numeric literal
    types, contributes one record per member, in the order of the members. *)
Theorem multi_status_responses
  (prog : Program) (typeTextToSchema : option string -> JsValue)
  (fuel : nat) (cb : Node) (p : option string) :
  (forall t, is_Some (typeToSchema (getTypeChecker prog) fuel t ∅)) ->
  (forall withChecker e,
      is_Some (resolveToStringLiteralText prog fuel withChecker e)) ->
  (forall t, is_Some (isBinaryLikeType prog fuel t)) ->
  exists found perNode,
    findResponses prog fuel (Some cb) p = Some found
    /\ found = List.concat perNode
    /\ Forall2
         (fun node fs =>
            (forall v, JsonCallWithStatus prog p node v ->
                       exists f, fs = [f] /\ foundStatus f = Some v)
            /\ (forall a0 statusArg rest vs,
                   CtxCall prog p node "json" (a0 :: statusArg :: rest) ->
                   ResolvedByType prog statusArg ->
                   NarrowedTo prog statusArg vs -> vs <> [] ->
                   map foundStatus fs = map Some vs))
         (descendants cb) perNode
    /\ (forall i j first second v w,
           (i < j)%nat ->
           descendants cb !! i = Some first ->
           descendants cb !! j = Some second ->
           JsonCallWithStatus prog p first v ->
           JsonCallWithStatus prog p second w ->
           exists l1 f1 l2 f2 l3,
             found = l1 ++ f1 :: l2 ++ f2 :: l3
             /\ foundStatus f1 = Some v /\ foundStatus f2 = Some w)
    /\ (forall okCall errCall r,
           okCall ∈ descendants cb -> errCall ∈ descendants cb ->
           JsonCallWithStatus prog p okCall 200 ->
           JsonCallWithStatus prog p errCall 422 ->
           responses r = Some (map toResponseItem found) ->
           is_Some (opResponses (operationOf typeTextToSchema r) !! "200")
           /\ is_Some (opResponses (operationOf typeTextToSchema r) !! "422")).
Proof.
  intros Hschema Hresolve Hbinary.
  destruct (findResponses_total prog fuel Hschema Hresolve Hbinary (Some cb) p)
    as [found Hfound].
  destruct (findResponses_shape _ _ _ _ _ Hfound)
    as (ect & perNode & Hect & HperNode & ->).
  apply mapM_Some in HperNode.
  assert (Forall2
            (fun node fs =>
               (forall v, JsonCallWithStatus prog p node v ->
                          exists f, fs = [f] /\ foundStatus f = Some v)
               /\ (forall a0 statusArg rest vs,
                      CtxCall prog p node "json" (a0 :: statusArg :: rest) ->
                      ResolvedByType prog statusArg ->
                      NarrowedTo prog statusArg vs -> vs <> [] ->
                      map foundStatus fs = map Some vs))
            (descendants cb) perNode) as Hper.
  { eapply Forall2_impl; [exact HperNode|].
    intros node fs Hat. simpl in Hat. split.
    - intros v (a0 & statusArg & rest & k & Hcall & Hlit).
      pose proof (responsesAt_json fuel prog ect p node a0 statusArg rest fs
                    Hcall Hat) as Hst.
      rewrite (extractStatuses_literal _ _ _ _ Hlit) in Hst. simpl in Hst.
      destruct fs as [|f [|f' fs']]; try discriminate.
      injection Hst as Hst. by exists f.
    - intros a0 statusArg rest vs Hcall Hres Hnarrow Hne.
      rewrite (responsesAt_json fuel prog ect p node a0 statusArg rest fs
                 Hcall Hat).
      rewrite (extractStatuses_narrowed _ _ _ Hres Hnarrow).
      by destruct vs. }
  exists (List.concat perNode), perNode.
  split; [assumption|]. split; [reflexivity|]. split; [exact Hper|].
  assert (forall node v, node ∈ descendants cb ->
            JsonCallWithStatus prog p node v ->
            exists f, f ∈ List.concat perNode /\ foundStatus f = Some v)
    as Hmember.
  { intros node v [i Hi]%list_elem_of_lookup Hcall.
    destruct (Forall2_lookup_l _ _ _ _ _ Hper Hi) as (fs & Hfs & Hone & _).
    destruct (Hone v Hcall) as (f & -> & Hv). exists f. split; [|exact Hv].
    apply elem_of_concat. exists [f].
    split; [apply list_elem_of_lookup; by exists i | apply list_elem_of_here]. }
  split.
  - intros i j first second v w Hij Hi Hj Hv Hw.
    destruct (Forall2_lookup_l _ _ _ _ _ Hper Hi) as (fs1 & Hfs1 & Hone1 & _).
    destruct (Forall2_lookup_l _ _ _ _ _ Hper Hj) as (fs2 & Hfs2 & Hone2 & _).
    destruct (Hone1 v Hv) as (f1 & -> & Hf1).
    destruct (Hone2 w Hw) as (f2 & -> & Hf2).
    destruct (concat_two_positions perNode i j [f1] [f2] Hij Hfs1 Hfs2)
      as (l1 & l2 & l3 & Heq).
    exists l1, f1, l2, f2, l3. by rewrite Heq.
  - intros okCall errCall r Hok Herr Hok200 Herr422 Hr.
    destruct (Hmember okCall 200 Hok Hok200) as (f1 & Hin1 & Hf1).
    destruct (Hmember errCall 422 Herr Herr422) as (f2 & Hin2 & Hf2).
    split.
    + by apply (operation_has_code typeTextToSchema r _ f1 200 Hr Hin1 Hf1).
    + by apply (operation_has_code typeTextToSchema r _ f2 422 Hr Hin2 Hf2).
Qed.

Lemma multi_status_responses_witness :
  exists found,
    findResponses Sample.program 3 (Some Sample.twoStatusBody) (Some "c")
    = Some found
    /\ (exists l1 f1 l2 f2 l3,
          found = l1 ++ f1 :: l2 ++ f2 :: l3
          /\ foundStatus f1 = Some 422 /\ foundStatus f2 = Some 200)
    /\ (forall r,
          responses r = Some (map toResponseItem found) ->
          is_Some (opResponses (operationOf Sample.noTypeText r) !! "200")
          /\ is_Some (opResponses (operationOf Sample.noTypeText r) !! "422")).
Proof.
  assert (JsonCallWithStatus Sample.program (Some "c") Sample.errorCall 422)
    as Herr.
  { exists (Identifier 57 "err"), (NumericLiteral 58 422), [], 58%nat.
    split; [|reflexivity].
    exists 53%nat, 54%nat, (Identifier 55 "c"), (Identifier 56 "json"), [].
    repeat split; reflexivity. }
  assert (JsonCallWithStatus Sample.program (Some "c") Sample.okCall 200)
    as Hok.
  { exists (Identifier 65 "ok"), (NumericLiteral 66 200), [], 66%nat.
    split; [|reflexivity].
    exists 61%nat, 62%nat, (Identifier 63 "c"), (Identifier 64 "json"), [].
    repeat split; reflexivity. }
  destruct sample_converges as (Hschema & Hresolve & Hbinary & _).
  destruct (multi_status_responses Sample.program Sample.noTypeText 3
              Sample.twoStatusBody (Some "c") Hschema Hresolve Hbinary)
    as (found & perNode & Hfound & _ & _ & Horder & Hkeys).
  exists found. split; [exact Hfound|]. split.
  - apply (Horder 3%nat 10%nat Sample.errorCall Sample.okCall 422 200);
      [lia | vm_compute; reflexivity | vm_compute; reflexivity
      | exact Herr | exact Hok].
  - intros r Hr.
    apply (Hkeys Sample.okCall Sample.errorCall r); try assumption.
    + apply list_elem_of_lookup. exists 10%nat. vm_compute. reflexivity.
    + apply list_elem_of_lookup. exists 3%nat. vm_compute. reflexivity.
Defined.

(** A status argument narrowed to [400 | 422]: one record for each. *)
Example narrowed_status_gives_two_records :
  ResolvedByType Sample.program (Identifier 77 "status")
  /\ NarrowedTo Sample.program (Identifier 77 "status") [400; 422]
  /\ (map foundStatus
        <$> findResponses Sample.program 3 (Some Sample.narrowedBody)
              (Some "c"))
     = Some [Some 400; Some 422].
Proof.
  split; [exact I|]. split; [|vm_compute; reflexivity].
  split; [vm_compute; reflexivity|]. split.
  - repeat constructor.
  - repeat constructor; intros H; repeat (apply elem_of_cons in H as [H|H]);
      try discriminate; by apply elem_of_nil in H.
Qed.

(** The handler shape of the README, [(c) => c.json(ok)]: nothing is
    found. *)
Example expression_body_call_is_not_visited :
  findResponses Sample.program 3
    (Some (Sample.callOn 88 "c" "json" [Identifier 92 "ok"])) (Some "c")
  = Some [].
Proof. vm_compute. reflexivity. Qed.

(** C8. Assembling no record gives an empty [paths] map. Whatever records
    are assembled, every operation of the document is the operation built
    from one of them and its [responses] map is not empty. When a record's
    response list is absent or empty, the operation's [responses] is the
    single entry 200 with description OK, whose content is the legacy
    schema under application/json when that schema is present, and which
    has nothing else. *)
Theorem responses_never_empty
  (typeTextToSchema : option string -> JsValue) :
  paths (routesToOpenAPI typeTextToSchema []) = ∅
  /\ (forall routes key byMethod meth op,
        paths (routesToOpenAPI typeTextToSchema routes) !! key = Some byMethod ->
        byMethod !! meth = Some op ->
        opResponses op <> ∅
        /\ exists r, r ∈ routes /\ op = operationOf typeTextToSchema r)
  /\ (forall r,
        responses r = None \/ responses r = Some [] ->
        opResponses (operationOf typeTextToSchema r)
        = {[ "200" :=
               {| roDescription := "OK";
                  roHeaders := JsUndefined;
                  roContent :=
                    if Js.truthy (legacySchema typeTextToSchema r)
                    then Some ("application/json",
                               legacySchema typeTextToSchema r)
                    else None |} ]}).
Proof.
  split; [reflexivity|]. split.
  - intros routes key byMethod meth op Hkey Hop. simpl in Hkey.
    destruct (addOperation_ops typeTextToSchema routes ∅ key byMethod meth op
                Hkey Hop) as [(r & Hr & ->)|(m0 & Hm0 & _)].
    + split; [apply operationOf_responses_nonempty | by exists r].
    + by rewrite lookup_empty in Hm0.
  - intros r [Hr|Hr]; unfold operationOf; simpl; by rewrite Hr.
Qed.

Lemma responses_never_empty_witness :
  opResponses
    (operationOf Sample.noTypeText
       (mkRouteInfo "get" "/ping" None JsUndefined JsUndefined JsUndefined
          (Some []) (Some []) None))
  = {[ "200" := mkResponseObject "OK" JsUndefined None ]}.
Proof.
  apply (responses_never_empty Sample.noTypeText).
  right. reflexivity.
Defined.

(** C9. The entry the assembled operation has for a status code is the
    rendering of the last record of the response list filed under that
    code: the records before it under the same code leave no trace there.
    A record is filed under the decimal of its status (of 200 when its
    status is 0), so that records of non-zero status share a code exactly
    when they share the status. The response list of a record the analysis
    produces is the list of responses found in the handler body, each call
    contributing its records in document order, none merged or dropped. *)
Theorem same_status_last_wins
  (typeTextToSchema : option string -> JsValue) :
  (forall r before item after,
      responses r = Some (before ++ item :: after) ->
      Forall (fun x => responseCode x <> responseCode item) after ->
      opResponses (operationOf typeTextToSchema r) !! responseCode item
      = Some (renderResponse item))
  /\ (forall a b,
        status a <> 0 -> status b <> 0 ->
        (responseCode a = responseCode b <-> status a = status b))
  /\ (forall prog findRequestData fuel sourceFile routes,
        analyzeSource prog findRequestData fuel sourceFile = Some routes ->
        Forall (fun r =>
                  exists node bodyNode paramName foundList,
                    node ∈ preorder sourceFile
                    /\ handlerParts (callArguments node) = (bodyNode, paramName)
                    /\ findResponses prog fuel bodyNode paramName
                       = Some foundList
                    /\ responses r = Some (map toResponseItem foundList)
                    /\ match bodyNode with
                       | Some cb =>
                           exists ect perNode,
                             mapM (responsesAt prog fuel ect paramName)
                               (descendants cb) = Some perNode
                             /\ foundList = List.concat perNode
                       | None => foundList = []
                       end)
          routes).
Proof.
  split; [|split].
  - intros r before item after Hr Hafter. unfold operationOf. simpl.
    rewrite Hr. destruct (before ++ item :: after) as [|x xs] eqn:E.
    + by destruct before.
    + rewrite <- E. by apply collectResponses_last.
  - intros a b Ha Hb. rewrite !responseCode_nonzero by done. split.
    + apply ofNumber_inj.
    + by intros ->.
  - intros prog findRequestData fuel sourceFile routes Hroutes.
    pose proof (analyzeSource_records _ _ _ _ _ Hroutes) as Hall.
    eapply Forall_impl; [exact Hall|]. simpl.
    intros r (node & bodyNode & paramName & Hnode & _ & Hparts & Hrec).
    destruct Hrec as (foundList & Hfound & Hshape & _ & _ & _ & Hitems).
    exists node, bodyNode, paramName, foundList.
    repeat split; try assumption.
    + destruct Hitems as (items & Hresp & Hall2). rewrite Hresp. f_equal.
      clear -Hall2. induction Hall2 as [|f item fs items (Hs & _ & Hsch & Hmt & Hh) _ IH];
        [reflexivity|].
      simpl. rewrite <- IH. f_equal. destruct item. simpl in *.
      unfold toResponseItem. by subst.
    + destruct bodyNode as [cb|]; [|assumption].
      destruct Hshape as (ect & perNode & _ & HperNode & ->).
      by exists ect, perNode.
Qed.

Lemma same_status_last_wins_witness :
  opResponses (operationOf Sample.noTypeText Sample.twiceNotFound) !! "404"
  = Some (renderResponse Sample.jsonNotFound).
Proof.
  destruct (same_status_last_wins Sample.noTypeText) as (Hlast & _ & _).
  apply (Hlast Sample.twiceNotFound [Sample.plainNotFound] Sample.jsonNotFound []).
  - reflexivity.
  - constructor.
Defined.

(** Two calls that give the same record give two records. *)
Example identical_records_are_kept :
  findResponses Sample.program 3 (Some Sample.twoTextsBody) (Some "c")
  = Some [mkFound None (schemaOfType "string") None (Some "text/plain")
            JsUndefined;
          mkFound None (schemaOfType "string") None (Some "text/plain")
            JsUndefined].
Proof. vm_compute. reflexivity. Qed.

(** C10. Of every record the analysis produces: its legacy type text and
    schema are those of the first response found in its handler body, in
    document order, and are absent when none is found; and each element of
    its response list carries a status, which is 200 where the response
    found had none. *)
Theorem analyzeSource_legacy_fields
  (prog : Program)
  (findRequestData : nat -> option Node -> option string -> option (JsValue * JsValue))
  (fuel : nat) (sourceFile : Node) (routes : list RouteInfo) :
  analyzeSource prog findRequestData fuel sourceFile = Some routes ->
  Forall (fun r =>
            exists node bodyNode paramName,
              node ∈ preorder sourceFile
              /\ isHonoRouteCall prog node = Some (method r, path r)
              /\ handlerParts (callArguments node) = (bodyNode, paramName)
              /\ RecordsResponses prog fuel bodyNode paramName r)
    routes.
Proof. apply analyzeSource_records. Qed.

Lemma analyzeSource_legacy_fields_witness :
  exists routes,
    analyzeSource Sample.program Sample.noRequestData 3 Sample.sourceFile
    = Some routes
    /\ Forall (fun r =>
                 exists node bodyNode paramName,
                   node ∈ preorder Sample.sourceFile
                   /\ isHonoRouteCall Sample.program node
                      = Some (method r, path r)
                   /\ handlerParts (callArguments node) = (bodyNode, paramName)
                   /\ RecordsResponses Sample.program 3 bodyNode paramName r)
         routes.
Proof.
  eexists. split; [vm_compute; reflexivity|].
  apply (analyzeSource_legacy_fields Sample.program Sample.noRequestData 3
           Sample.sourceFile).
  vm_compute. reflexivity.
Defined.

(* ===================================================================== *)
(** ** Path parameters *)
(* ===================================================================== *)

Lemma append_cons c (a b : string) : String c a +:+ b = String c (a +:+ b).
Proof. reflexivity. Qed.

Lemma append_nil_l (b : string) : EmptyString +:+ b = b.
Proof. reflexivity. Qed.

Lemma pathOfSegments_endsName render segs : endsName (pathOfSegments render segs).
Proof. destruct segs; simpl; [exact I | reflexivity]. Qed.

Lemma toOpenApiPathFrom_close rest :
  endsName rest ->
  toOpenApiPathFrom rest true = "}" +:+ toOpenApiPathFrom rest false.
Proof.
  destruct rest as [|c rest]; simpl; [reflexivity|].
  intros ->. reflexivity.
Qed.

Lemma toOpenApiPathFrom_name name rest :
  forallb Str.isWordChar (list_ascii_of_string name) = true ->
  endsName rest ->
  toOpenApiPathFrom (name +:+ rest) true
  = name +:+ "}" +:+ toOpenApiPathFrom rest false.
Proof.
  intros Hname Hrest. induction name as [|c name IH].
  - by apply toOpenApiPathFrom_close.
  - simpl in Hname. apply andb_prop in Hname as [Hc Hname].
    rewrite !append_cons. cbn [toOpenApiPathFrom]. rewrite Hc. cbn [andb].
    by rewrite IH.
Qed.

Lemma contains_head c text : Str.contains (String c text) (String c EmptyString) = true.
Proof.
  cbn [Str.contains String.prefix].
  destruct (ascii_dec c c) as [_|Hne]; [by destruct text | by destruct Hne].
Qed.

Lemma contains_cons_false c text p :
  Str.contains (String c text) p = false -> Str.contains text p = false.
Proof. simpl. by intros [_ ?]%orb_false_elim. Qed.

Lemma toOpenApiPathFrom_static text rest :
  Str.contains text ":" = false ->
  toOpenApiPathFrom (text +:+ rest) false
  = text +:+ toOpenApiPathFrom rest false.
Proof.
  induction text as [|c text IH]; intros Hno; [reflexivity|].
  pose proof (contains_cons_false _ _ _ Hno) as Hrest.
  rewrite !append_cons. cbn [toOpenApiPathFrom andb].
  destruct (Ascii.eqb_spec c ":") as [->|_].
  - by rewrite contains_head in Hno.
  - cbn [andb]. rewrite IH by done. reflexivity.
Qed.

Lemma startsWord_name name rest :
  negb (Str.isEmpty name) = true ->
  forallb Str.isWordChar (list_ascii_of_string name) = true ->
  startsWord (name +:+ rest) = true.
Proof.
  destruct name as [|c name]; [discriminate|]. rewrite append_cons. simpl.
  by intros _ [? _]%andb_prop.
Qed.

Lemma takeWord_name name rest :
  forallb Str.isWordChar (list_ascii_of_string name) = true ->
  endsName rest ->
  takeWord (name +:+ rest) = name.
Proof.
  intros Hname Hrest. induction name as [|c name IH].
  - rewrite append_nil_l.
    destruct rest as [|c rest]; [reflexivity|]. simpl in *. by rewrite Hrest.
  - simpl in Hname. apply andb_prop in Hname as [Hc Hname].
    rewrite append_cons. cbn [takeWord]. rewrite Hc. by rewrite IH.
Qed.

Lemma extractPathParamsFrom_close rest :
  endsName rest ->
  extractPathParamsFrom rest true = extractPathParamsFrom rest false.
Proof.
  destruct rest as [|c rest]; simpl; [reflexivity|].
  intros ->. reflexivity.
Qed.

Lemma extractPathParamsFrom_name name rest :
  forallb Str.isWordChar (list_ascii_of_string name) = true ->
  endsName rest ->
  extractPathParamsFrom (name +:+ rest) true = extractPathParamsFrom rest false.
Proof.
  intros Hname Hrest. induction name as [|c name IH].
  - by apply extractPathParamsFrom_close.
  - simpl in Hname. apply andb_prop in Hname as [Hc Hname].
    rewrite append_cons. cbn [extractPathParamsFrom]. rewrite Hc. cbn [andb].
    by rewrite IH.
Qed.

Lemma extractPathParamsFrom_static text rest :
  Str.contains text ":" = false ->
  extractPathParamsFrom (text +:+ rest) false
  = extractPathParamsFrom rest false.
Proof.
  induction text as [|c text IH]; intros Hno; [reflexivity|].
  pose proof (contains_cons_false _ _ _ Hno) as Hrest.
  rewrite append_cons. cbn [extractPathParamsFrom andb].
  destruct (Ascii.eqb_spec c ":") as [->|_].
  - by rewrite contains_head in Hno.
  - cbn [andb]. by rewrite IH.
Qed.

Lemma path_of_segments (segs : list PathSegment) :
  forallb segmentOk segs = true ->
  toOpenApiPath (pathOfSegments honoSegment segs)
  = pathOfSegments openApiSegment segs
  /\ extractPathParams (pathOfSegments honoSegment segs) = paramNames segs.
Proof.
  unfold toOpenApiPath, extractPathParams.
  induction segs as [|seg segs IH]; intros Hok; [by split|].
  simpl in Hok. apply andb_prop in Hok as [Hseg Hok].
  destruct (IH Hok) as [IHpath IHparams].
  pose proof (pathOfSegments_endsName honoSegment segs) as Hends.
  assert (forall rest, toOpenApiPathFrom (String "/" rest) false
                       = String "/" (toOpenApiPathFrom rest false)) as Hslash.
  { intros rest. cbn [toOpenApiPathFrom andb]. reflexivity. }
  assert (forall rest, extractPathParamsFrom (String "/" rest) false
                       = extractPathParamsFrom rest false) as Hslash'.
  { intros rest. cbn [extractPathParamsFrom andb]. reflexivity. }
  cbn [pathOfSegments]. rewrite !append_cons, !append_nil_l, Hslash, Hslash'.
  destruct seg as [text|name]; simpl in Hseg.
  - apply negb_true_iff in Hseg. cbn [honoSegment openApiSegment paramNames omap].
    rewrite toOpenApiPathFrom_static, extractPathParamsFrom_static by done.
    by rewrite IHpath, IHparams.
  - apply andb_prop in Hseg as [Hne Hword].
    cbn [honoSegment openApiSegment paramNames omap].
    rewrite !append_cons, !append_nil_l.
    cbn [toOpenApiPathFrom extractPathParamsFrom andb].
    change (Ascii.eqb ":" ":") with true. cbn [andb].
    rewrite startsWord_name by done. cbn [append].
    rewrite toOpenApiPathFrom_name, takeWord_name,
      extractPathParamsFrom_name by done.
    rewrite IHpath, IHparams. split; [|reflexivity].
    by rewrite !append_assoc, !append_cons, !append_nil_l.
Qed.

(** For a path written segment by segment, static texts without colon and
    parameters [:name] with a word for name: the OpenAPI path has [{name}]
    for each parameter segment and every other segment as it is, and the
    parameters extracted are the names, in the order of the path. *)
Theorem path_parameters_by_segment (segs : list PathSegment) :
  forallb segmentOk segs = true ->
  toOpenApiPath (pathOfSegments honoSegment segs)
  = pathOfSegments openApiSegment segs
  /\ extractPathParams (pathOfSegments honoSegment segs) = paramNames segs.
Proof. apply path_of_segments. Qed.

Lemma path_parameters_by_segment_witness :
  toOpenApiPath "/users/:id/posts/:post_id" = "/users/{id}/posts/{post_id}"
  /\ extractPathParams "/users/:id/posts/:post_id" = ["id"; "post_id"].
Proof.
  apply (path_parameters_by_segment
           [StaticSegment "users"; ParamSegment "id";
            StaticSegment "posts"; ParamSegment "post_id"]).
  vm_compute. reflexivity.
Defined.

(* ===================================================================== *)
(** ** Strings *)
(* ===================================================================== *)

Lemma append_nil_r (a : string) : a +:+ EmptyString = a.
Proof. induction a as [|c a IH]; [reflexivity|]. by rewrite append_cons, IH. Qed.

Lemma length_append (a b : string) :
  String.length (a +:+ b) = (String.length a + String.length b)%nat.
Proof. induction a as [|c a IH]; [reflexivity|]. rewrite append_cons. simpl. by rewrite IH. Qed.

Lemma prefix_cons c (p s : string) :
  String.prefix (String c p) (String c s) = String.prefix p s.
Proof. cbn [String.prefix]. destruct (ascii_dec c c) as [_|Hne]; [reflexivity | by destruct Hne]. Qed.

Lemma prefix_append (p s : string) : String.prefix p (p +:+ s) = true.
Proof.
  induction p as [|c p IH]; [by destruct s|].
  by rewrite append_cons, prefix_cons.
Qed.

Lemma prefix_cons_ne c d (p s : string) :
  c <> d -> String.prefix (String c p) (String d s) = false.
Proof. intros Hne. cbn [String.prefix]. by destruct (ascii_dec c d). Qed.

Lemma substring_prefix (a b : string) :
  String.substring 0 (String.length a) (a +:+ b) = a.
Proof.
  induction a as [|c a IH]; [by destruct b|].
  rewrite append_cons. simpl. by rewrite IH.
Qed.

Lemma substring_whole (a : string) : String.substring 0 (String.length a) a = a.
Proof. rewrite <- (append_nil_r a) at 2. apply substring_prefix. Qed.

Lemma substring_skip (a b : string) n :
  String.substring (String.length a) n (a +:+ b) = String.substring 0 n b.
Proof. induction a as [|c a IH]; [reflexivity|]. rewrite append_cons. simpl. exact IH. Qed.

Lemma revApp_append (s acc : string) :
  Str.revApp s acc = Str.revApp s EmptyString +:+ acc.
Proof.
  revert acc. induction s as [|c s IH]; intros acc; [reflexivity|].
  cbn [Str.revApp]. rewrite (IH (String c acc)), (IH (String c EmptyString)).
  by rewrite append_assoc.
Qed.

Lemma reverse_cons c (s : string) :
  Str.reverse (String c s) = Str.reverse s +:+ String c EmptyString.
Proof. unfold Str.reverse. cbn [Str.revApp]. apply revApp_append. Qed.

Lemma reverse_append (a b : string) :
  Str.reverse (a +:+ b) = Str.reverse b +:+ Str.reverse a.
Proof.
  induction a as [|c a IH].
  - by rewrite append_nil_l, append_nil_r.
  - by rewrite append_cons, !reverse_cons, IH, append_assoc.
Qed.

(** [s.endsWith(c)] for a one-character [c] looks at the last character. *)
Lemma endsWith_append_char (s : string) c :
  Str.endsWith (s +:+ String c EmptyString) (String c EmptyString) = true.
Proof.
  unfold Str.endsWith. rewrite reverse_append.
  change (Str.reverse (String c EmptyString)) with (String c EmptyString).
  apply prefix_append.
Qed.

Lemma endsWith_append_other (s : string) c d :
  c <> d ->
  Str.endsWith (s +:+ String c EmptyString) (String d EmptyString) = false.
Proof.
  intros Hne. unfold Str.endsWith. rewrite reverse_append.
  change (Str.reverse (String c EmptyString)) with (String c EmptyString).
  change (Str.reverse (String d EmptyString)) with (String d EmptyString).
  rewrite append_cons. apply prefix_cons_ne. congruence.
Qed.

Lemma endsWith_cons (s : string) c d :
  Str.isEmpty s = false ->
  Str.endsWith (String c s) (String d EmptyString)
  = Str.endsWith s (String d EmptyString).
Proof.
  intros Hs. unfold Str.endsWith.
  change (Str.reverse (String d EmptyString)) with (String d EmptyString).
  rewrite reverse_cons.
  destruct (Str.reverse s) as [|x r] eqn:E.
  - destruct s as [|y s]; [discriminate|].
    rewrite reverse_cons in E. by destruct (Str.reverse s).
  - rewrite append_cons. cbn [String.prefix].
    destruct (ascii_dec d x); [|reflexivity]. by destruct r.
Qed.

Lemma slice_inner (n : string) c d :
  Str.slice (String c (n +:+ String d EmptyString)) 1 (-1) = n.
Proof.
  unfold Str.slice. cbn [String.length]. rewrite length_append. simpl String.length.
  replace (Z.of_nat (S (String.length n + 1))) with (Z.of_nat (String.length n) + 2) by lia.
  cbn [Z.ltb Z.compare]. 
  replace (Z.min 1 (Z.of_nat (String.length n) + 2)) with 1 by lia.
  replace (Z.max (Z.of_nat (String.length n) + 2 + -1) 0)
    with (Z.of_nat (String.length n) + 1) by lia.
  replace (Z.of_nat (String.length n) + 1 - 1) with (Z.of_nat (String.length n)) by lia.
  rewrite Nat2Z.id. change (Z.to_nat 1) with 1%nat. cbn [String.substring].
  apply substring_prefix.
Qed.

Lemma sliceFrom_skip (a b : string) :
  Str.sliceFrom (a +:+ b) (Z.of_nat (String.length a)) = b.
Proof.
  unfold Str.sliceFrom, Str.slice. rewrite length_append.
  destruct (Z.ltb_spec (Z.of_nat (String.length a)) 0) as [?|_]; [lia|].
  destruct (Z.ltb_spec (Z.of_nat (String.length a + String.length b)) 0) as [?|_]; [lia|].
  rewrite Z.min_l, Z.min_l by lia.
  rewrite Nat2Z.id.
  replace (Z.to_nat (Z.of_nat (String.length a + String.length b) - Z.of_nat (String.length a)))
    with (String.length b) by lia.
  rewrite substring_skip. apply substring_whole.
Qed.

(* ===================================================================== *)
(** ** Folder conventions *)
(* ===================================================================== *)

Lemma startsWith_append (p s : string) : Str.startsWith (p +:+ s) p = true.
Proof. apply prefix_append. Qed.

(** The segment transformation of the folder router, form by form: [[n]]
    gives [:n]; [[...n]] gives [:n]; a doubly bracketed [[[n]]] gives [:n]
    with [n] as it is, so that [[[...slug]]] gives [:...slug], dots
    included; any text that is not bracketed is left as it is. *)
Theorem convertSegment_forms (n : string) :
  (Str.startsWith n "..." = false ->
   Str.startsWith n "[" && Str.endsWith n "]" = false ->
   convertSegment ("[" +:+ n +:+ "]") = ":" +:+ n)
  /\ (Str.startsWith n "[" && Str.endsWith n "]" = false ->
      convertSegment ("[..." +:+ n +:+ "]") = ":" +:+ n)
  /\ convertSegment ("[[" +:+ n +:+ "]]") = ":" +:+ n
  /\ (Str.startsWith n "[" && Str.endsWith n "]" = false ->
      convertSegment n = n).
Proof.
  assert (forall m, Str.startsWith ("[" +:+ m +:+ "]") "[" = true) as Hopen.
  { intros m. apply (startsWith_append "[" (m +:+ "]")). }
  assert (forall m, Str.endsWith ("[" +:+ m +:+ "]") "]" = true) as Hclose.
  { intros m. rewrite <- append_assoc. apply endsWith_append_char. }
  assert (forall m, Str.slice ("[" +:+ m +:+ "]") 1 (-1) = m) as Hinner.
  { intros m. apply slice_inner. }
  split; [|split; [|split]].
  - intros Hdots Hplain. unfold convertSegment.
    rewrite Hopen, Hclose, Hinner. cbn [andb]. by rewrite Hdots, Hplain.
  - intros Hplain. unfold convertSegment.
    change ("[..." +:+ n +:+ "]") with ("[" +:+ ("..." +:+ n) +:+ "]").
    rewrite Hopen, Hclose, Hinner. cbn [andb].
    rewrite startsWith_append.
    change 3 with (Z.of_nat (String.length "...")).
    rewrite (sliceFrom_skip "..." n). by rewrite Hplain.
  - unfold convertSegment.
    assert ("[[" +:+ n +:+ "]]" = "[" +:+ ("[" +:+ n +:+ "]") +:+ "]") as ->.
    { rewrite !append_cons, !append_nil_l, append_assoc. reflexivity. }
    rewrite (Hopen ("[" +:+ n +:+ "]")), (Hclose ("[" +:+ n +:+ "]")).
    cbn [andb]. rewrite (Hinner ("[" +:+ n +:+ "]")).
    assert (Str.startsWith ("[" +:+ n +:+ "]") "..." = false) as ->
        by reflexivity.
    by rewrite Hopen, Hclose, Hinner.
  - intros Hplain. unfold convertSegment. by rewrite Hplain.
Qed.

Lemma convertSegment_forms_witness :
  convertSegment "[id]" = ":id"
  /\ convertSegment "[...slug]" = ":slug"
  /\ convertSegment "[[...slug]]" = ":...slug"
  /\ convertSegment "users" = "users".
Proof.
  split; [|split; [|split]].
  - apply (convertSegment_forms "id"); reflexivity.
  - apply (convertSegment_forms "slug"); reflexivity.
  - apply (convertSegment_forms "...slug").
  - apply (convertSegment_forms "users"); reflexivity.
Defined.

Lemma stripTrailingSlashes_snoc (p : string) :
  stripTrailingSlashes (p +:+ "/") = stripTrailingSlashes p.
Proof.
  induction p as [|c p IH]; [reflexivity|].
  rewrite append_cons. cbn [stripTrailingSlashes]. by rewrite IH.
Qed.

Lemma stripLeadingSlashes_no_slash (l : string) :
  Str.startsWith (stripLeadingSlashes l) "/" = false.
Proof.
  induction l as [|c l IH]; [reflexivity|].
  cbn [stripLeadingSlashes]. destruct (Ascii.eqb_spec c "/") as [->|Hne]; [exact IH|].
  unfold Str.startsWith. apply prefix_cons_ne. congruence.
Qed.

Lemma stripLeadingSlashes_id (l : string) :
  Str.startsWith l "/" = false -> stripLeadingSlashes l = l.
Proof.
  destruct l as [|c l]; [reflexivity|]. cbn [stripLeadingSlashes].
  destruct (Ascii.eqb_spec c "/") as [->|Hne]; [|reflexivity].
  unfold Str.startsWith. rewrite prefix_cons. by destruct l.
Qed.

Lemma endsWith_single c d :
  Str.endsWith (String c EmptyString) (String d EmptyString)
  = if ascii_dec d c then true else false.
Proof. unfold Str.endsWith. cbn. by destruct (ascii_dec d c). Qed.

Lemma stripTrailingSlashes_no_slash (p : string) :
  Str.endsWith (stripTrailingSlashes p) "/" = false.
Proof.
  induction p as [|c p IH]; [reflexivity|].
  cbn [stripTrailingSlashes].
  destruct (Ascii.eqb_spec c "/") as [->|Hne].
  - destruct (stripTrailingSlashes p) as [|x r] eqn:E; [reflexivity|].
    cbn [andb Str.isEmpty]. by rewrite endsWith_cons.
  - cbn [andb]. destruct (stripTrailingSlashes p) as [|x r] eqn:E.
    + rewrite endsWith_single. destruct (ascii_dec "/" c); [congruence|done].
    + by rewrite endsWith_cons.
Qed.

Lemma stripTrailingSlashes_id (p : string) :
  Str.endsWith p "/" = false -> stripTrailingSlashes p = p.
Proof.
  induction p as [|c p IH]; [reflexivity|]. intros Hend.
  cbn [stripTrailingSlashes]. destruct p as [|x r].
  - cbn. rewrite endsWith_single in Hend.
    destruct (Ascii.eqb_spec c "/") as [->|Hne]; [|reflexivity].
    by destruct (ascii_dec "/" "/").
  - rewrite endsWith_cons in Hend by done. rewrite IH by done.
    cbn [Str.isEmpty]. by rewrite andb_false_r.
Qed.

Lemma normalizeLocal_slash (local : string) :
  Str.startsWith (normalizeLocal local) "/" = true.
Proof.
  unfold normalizeLocal. destruct local as [|c l]; [reflexivity|].
  cbn [Str.isEmpty]. destruct (Str.startsWith (String c l) "/") eqn:E; [exact E|].
  reflexivity.
Qed.

Lemma eqb_slash_false (l : string) :
  Str.startsWith l "/" = false -> String.eqb l "/" = false.
Proof.
  intros H. destruct (String.eqb_spec l "/") as [->|]; [discriminate|reflexivity].
Qed.

Lemma joinRoutePaths_unfold (q loc : string) :
  Str.isEmpty (stripTrailingSlashes q) = false ->
  joinRoutePaths (Some q) loc
  = (if Str.isEmpty (stripLeadingSlashes loc)
     then stripTrailingSlashes q
     else stripTrailingSlashes q +:+ "/" +:+ stripLeadingSlashes loc).
Proof.
  intros Hq. unfold joinRoutePaths.
  assert (Str.isEmpty q || String.eqb q "/" = false) as ->.
  { destruct q as [|c q]; [discriminate|]. cbn [Str.isEmpty orb].
    destruct (String.eqb_spec (String c q) "/") as [E|]; [|reflexivity].
    by rewrite E in Hq. }
  rewrite (eqb_slash_false _ (stripLeadingSlashes_no_slash loc)).
  by rewrite orb_false_r.
Qed.

(** Joining a folder prefix and a local path. Without a prefix, or under
    the root prefix, the local path is taken with a leading slash. Under
    any other prefix the two are joined by exactly one slash, whatever
    slashes end the prefix or start the local path, and a local path of
    slashes only adds nothing. *)
Theorem joinRoutePaths_junction (prefix local : string) :
  (joinRoutePaths None local = normalizeLocal local
   /\ joinRoutePaths (Some "/") local = normalizeLocal local
   /\ Str.startsWith (normalizeLocal local) "/" = true)
  /\ (Str.isEmpty (stripTrailingSlashes prefix) = false ->
      let p := stripTrailingSlashes prefix in
      let l := stripLeadingSlashes local in
      joinRoutePaths (Some prefix) local
      = (if Str.isEmpty l then p else p +:+ "/" +:+ l)
      /\ Str.endsWith p "/" = false
      /\ Str.startsWith l "/" = false
      /\ joinRoutePaths (Some (prefix +:+ "/")) local
         = joinRoutePaths (Some prefix) local
      /\ joinRoutePaths (Some prefix) ("/" +:+ local)
         = joinRoutePaths (Some prefix) local).
Proof.
  split; [repeat split; apply normalizeLocal_slash|].
  intros Hp p l.
  split; [by apply joinRoutePaths_unfold|].
  split; [apply stripTrailingSlashes_no_slash|].
  split; [apply stripLeadingSlashes_no_slash|].
  split.
  - rewrite !joinRoutePaths_unfold; rewrite ?stripTrailingSlashes_snoc; done.
  - rewrite !joinRoutePaths_unfold by done. reflexivity.
Qed.

Lemma joinRoutePaths_junction_witness :
  joinRoutePaths (Some "/users/") "//:id" = "/users/:id"
  /\ joinRoutePaths (Some "/users") "/" = "/users".
Proof.
  split.
  - destruct (joinRoutePaths_junction "/users/" "//:id") as [_ H].
    destruct (H eq_refl) as (-> & _). reflexivity.
  - destruct (joinRoutePaths_junction "/users" "/") as [_ H].
    destruct (H eq_refl) as (-> & _). reflexivity.
Defined.

Lemma contains_startsWith (t p : string) :
  Str.contains t p = false -> Str.startsWith t p = false.
Proof. destruct t; simpl; by intros [? _]%orb_false_elim. Qed.

Lemma contains_endsWith (t : string) d :
  Str.contains t (String d EmptyString) = false ->
  Str.endsWith t (String d EmptyString) = false.
Proof.
  induction t as [|c t IH]; [reflexivity|]. intros Hno.
  pose proof (contains_cons_false _ _ _ Hno) as Hrest.
  destruct t as [|x r].
  - rewrite endsWith_single. destruct (ascii_dec d c) as [->|]; [|reflexivity].
    by rewrite contains_head in Hno.
  - rewrite endsWith_cons by done. by apply IH.
Qed.

Lemma word_contains_no_slash (n : string) :
  forallb Str.isWordChar (list_ascii_of_string n) = true ->
  Str.contains n "/" = false.
Proof.
  induction n as [|c n IH]; [reflexivity|]. simpl list_ascii_of_string.
  cbn [forallb]. intros [Hc Hn]%andb_prop. cbn [Str.contains].
  rewrite (IH Hn), orb_false_r.
  destruct (ascii_dec c "/") as [->|Hne]; [discriminate|].
  apply prefix_cons_ne. congruence.
Qed.

Lemma endsWith_append (a b : string) d :
  Str.isEmpty b = false ->
  Str.endsWith (a +:+ b) (String d EmptyString)
  = Str.endsWith b (String d EmptyString).
Proof.
  intros Hb. induction a as [|c a IH]; [reflexivity|].
  rewrite append_cons, endsWith_cons; [exact IH|].
  destruct a; [by rewrite append_nil_l | reflexivity].
Qed.

(** What a clean segment is written as: not empty, with no slash at
    either end. *)
Lemma honoSegment_clean seg :
  segmentClean seg = true ->
  Str.isEmpty (honoSegment seg) = false
  /\ Str.startsWith (honoSegment seg) "/" = false
  /\ Str.endsWith (honoSegment seg) "/" = false.
Proof.
  unfold segmentClean. intros [Hok Hclean]%andb_prop.
  destruct seg as [text|name]; cbn [honoSegment segmentOk] in *.
  - apply andb_prop in Hclean as [Hne Hslash].
    apply negb_true_iff in Hne, Hslash.
    split; [exact Hne|]. split.
    + by apply contains_startsWith.
    + by apply contains_endsWith.
  - apply andb_prop in Hok as [Hne Hword]. apply negb_true_iff in Hne.
    split; [reflexivity|]. split; [reflexivity|].
    rewrite append_cons, append_nil_l, endsWith_cons by done.
    apply contains_endsWith. by apply word_contains_no_slash.
Qed.

Lemma pathOfSegments_app render (a b : list PathSegment) :
  pathOfSegments render (a ++ b)
  = pathOfSegments render a +:+ pathOfSegments render b.
Proof.
  induction a as [|seg a IH]; [reflexivity|].
  cbn [pathOfSegments app]. by rewrite IH, !append_assoc.
Qed.

Lemma pathOfSegments_no_trailing_slash (segs : list PathSegment) :
  forallb segmentClean segs = true ->
  Str.endsWith (pathOfSegments honoSegment segs) "/" = false.
Proof.
  induction segs as [|seg segs IH]; [reflexivity|].
  cbn [forallb]. intros [Hseg Hsegs]%andb_prop.
  destruct (honoSegment_clean seg Hseg) as (Hne & _ & Hend).
  change (pathOfSegments honoSegment (seg :: segs))
    with (String "/" (honoSegment seg +:+ pathOfSegments honoSegment segs)).
  rewrite endsWith_cons by (by destruct (honoSegment seg)).
  destruct segs as [|seg' segs'].
  - cbn [pathOfSegments]. by rewrite append_nil_r.
  - rewrite endsWith_append; [by apply IH | reflexivity].
Qed.

Lemma stripLeadingSlashes_path seg (segs : list PathSegment) :
  segmentClean seg = true ->
  stripLeadingSlashes (pathOfSegments honoSegment (seg :: segs))
  = honoSegment seg +:+ pathOfSegments honoSegment segs.
Proof.
  intros Hseg. destruct (honoSegment_clean seg Hseg) as (Hne & Hstart & _).
  cbn [pathOfSegments]. rewrite append_cons, append_nil_l.
  cbn [stripLeadingSlashes]. change (Ascii.eqb "/" "/") with true. cbv iota.
  apply stripLeadingSlashes_id.
  destruct (honoSegment seg) as [|c r]; [discriminate|].
  rewrite append_cons. unfold Str.startsWith in *.
  cbn [String.prefix] in *. destruct (ascii_dec "/" c); [|reflexivity].
  by destruct r.
Qed.

Lemma joinRoutePaths_segments (bsegs lsegs : list PathSegment) :
  bsegs <> [] ->
  forallb segmentClean (bsegs ++ lsegs) = true ->
  joinRoutePaths (Some (pathOfSegments honoSegment bsegs))
    (pathOfSegments honoSegment lsegs)
  = pathOfSegments honoSegment (bsegs ++ lsegs)
  /\ joinRoutePaths (Some (pathOfSegments honoSegment bsegs)) "/"
     = pathOfSegments honoSegment bsegs.
Proof.
  intros Hne Hclean. rewrite forallb_app in Hclean.
  apply andb_prop in Hclean as [Hb Hl].
  assert (stripTrailingSlashes (pathOfSegments honoSegment bsegs)
          = pathOfSegments honoSegment bsegs) as Hstrip
      by (apply stripTrailingSlashes_id; by apply pathOfSegments_no_trailing_slash).
  assert (Str.isEmpty (pathOfSegments honoSegment bsegs) = false) as Hbase
      by (by destruct bsegs).
  rewrite !joinRoutePaths_unfold by (by rewrite Hstrip).
  rewrite Hstrip. split; [|reflexivity].
  destruct lsegs as [|seg lsegs].
  - by rewrite app_nil_r.
  - cbn [forallb] in Hl. apply andb_prop in Hl as [Hseg Hl].
    rewrite stripLeadingSlashes_path by done.
    destruct (honoSegment_clean seg Hseg) as (Hsegne & _ & _).
    assert (Str.isEmpty (honoSegment seg +:+ pathOfSegments honoSegment lsegs)
            = false) as ->.
    { destruct (honoSegment seg); [discriminate|reflexivity]. }
    rewrite pathOfSegments_app. reflexivity.
Qed.

Lemma paramNames_app (a b : list PathSegment) :
  paramNames (a ++ b) = paramNames a ++ paramNames b.
Proof. unfold paramNames. apply omap_app. Qed.

Lemma forallb_clean_ok (segs : list PathSegment) :
  forallb segmentClean segs = true -> forallb segmentOk segs = true.
Proof.
  induction segs as [|seg segs IH]; [reflexivity|]. cbn [forallb].
  intros [Hseg Hsegs]%andb_prop. rewrite IH by done.
  unfold segmentClean in Hseg. apply andb_prop in Hseg as [-> _]. reflexivity.
Qed.

(** Under a folder router root, a record gets the folder path as prefix
    and nothing else of it changes: the parameters of the record stay
    those of the local path. With the folder path [bsegs] and the local
    path [lsegs] (or the local path [/]), the OpenAPI path of the record
    has a placeholder for every parameter of both, while the operation
    declares the parameters of the local path only. *)
Theorem folder_parameters_are_not_declared
  (fs : FileSystem) (root f : string) (r : RouteInfo)
  (bsegs lsegs : list PathSegment) :
  Str.isEmpty root = false ->
  computeAutorouterPath fs root f = Some (pathOfSegments honoSegment bsegs) ->
  bsegs <> [] ->
  forallb segmentClean (bsegs ++ lsegs) = true ->
  path r = pathOfSegments honoSegment lsegs \/ (path r = "/" /\ lsegs = []) ->
  pathParams r = Some (extractPathParams (path r)) ->
  exists r',
    applyAutorouter fs root f [r] = [r']
    /\ toOpenApiPath (path r') = pathOfSegments openApiSegment (bsegs ++ lsegs)
    /\ extractPathParams (path r') = paramNames bsegs ++ paramNames lsegs
    /\ pathParams r' = Some (paramNames lsegs)
    /\ forall typeTextToSchema,
         opParameters (operationOf typeTextToSchema r')
         = opParameters (operationOf typeTextToSchema r).
Proof.
  intros Hroot Hbase Hne Hclean Hpath Hparams.
  destruct (joinRoutePaths_segments bsegs lsegs Hne Hclean) as [Hjoin Hslash].
  destruct (path_of_segments (bsegs ++ lsegs) (forallb_clean_ok _ Hclean))
    as [Hopen Hextract].
  assert (joinRoutePaths (Some (pathOfSegments honoSegment bsegs)) (path r)
          = pathOfSegments honoSegment (bsegs ++ lsegs)) as Hjoined.
  { destruct Hpath as [->|[-> ->]]; [exact Hjoin|].
    by rewrite Hslash, app_nil_r. }
  assert (extractPathParams (path r) = paramNames lsegs) as Hlocal.
  { destruct Hpath as [->|[-> ->]]; [|reflexivity].
    rewrite forallb_app in Hclean. apply andb_prop in Hclean as [_ Hl].
    by apply (path_of_segments lsegs), forallb_clean_ok. }
  eexists. split.
  - unfold applyAutorouter. rewrite Hroot, Hbase. cbn [negb].
    assert (Str.isEmpty (pathOfSegments honoSegment bsegs) = false) as ->
        by (by destruct bsegs).
    reflexivity.
  - cbn [path withPath pathParams]. rewrite Hjoined.
    split; [exact Hopen|]. split; [by rewrite Hextract, paramNames_app|].
    split; [by rewrite Hparams, Hlocal|]. reflexivity.
Qed.

(** The example [blog/[id]/index.ts] of the repository, with a handler
    registered at [/comments]. *)
Lemma folder_parameters_are_not_declared_witness :
  exists r',
    applyAutorouter (Posix.fileSystem []) "/app/routes"
      "/app/routes/blog/[id]/index.ts"
      [mkRouteInfo "get" "/comments" None JsUndefined JsUndefined JsUndefined
         (Some []) (Some []) None]
    = [r']
    /\ toOpenApiPath (path r') = "/blog/{id}/comments"
    /\ pathParams r' = Some [].
Proof.
  destruct (folder_parameters_are_not_declared (Posix.fileSystem [])
              "/app/routes" "/app/routes/blog/[id]/index.ts"
              (mkRouteInfo "get" "/comments" None JsUndefined JsUndefined
                 JsUndefined (Some []) (Some []) None)
              [StaticSegment "blog"; ParamSegment "id"]
              [StaticSegment "comments"])
    as (r' & Hr' & Hopen & _ & Hparams & _);
    [reflexivity | vm_compute; reflexivity | discriminate
    | vm_compute; reflexivity | left; reflexivity | reflexivity |].
  exists r'. split; [exact Hr'|]. split; [exact Hopen | exact Hparams].
Defined.

Lemma walkedDirectories_head fuel fs stop cur dirs :
  walkedDirectories fuel fs stop cur = Some dirs -> head dirs = Some cur.
Proof.
  destruct fuel as [|fuel]; [discriminate|]. cbn [walkedDirectories].
  destruct (String.eqb cur stop); [by intros [= <-]|].
  destruct (String.eqb (dirname fs cur) cur); [by intros [= <-]|].
  destruct (Str.startsWith _ ".."); [by intros [= <-]|].
  destruct (walkedDirectories fuel fs stop (dirname fs cur)); [|discriminate].
  by intros [= <-].
Qed.

Lemma scopePrefix_slash fs rootDirAbs cur :
  Str.startsWith (scopePrefix fs rootDirAbs cur) "/" = true.
Proof.
  unfold scopePrefix. destruct (Str.isEmpty _); [reflexivity|].
  apply startsWith_append.
Qed.

Lemma computeAutoroutePrefix_scope fs filePath rootDirAbs prefix :
  computeAutoroutePrefix fs filePath rootDirAbs = Some prefix ->
  prefix = scopePrefix fs rootDirAbs (dirname fs filePath).
Proof.
  unfold computeAutoroutePrefix, scopePrefix.
  destruct (Str.startsWith _ ".."); [discriminate|].
  destruct (Str.isEmpty _); by intros [= <-].
Qed.

(** The scopes of a route file are the prefixes of the directories of the
    upward walk, first of them the file's own, that hold a middleware
    file, each once per directory; they come ordered by their number of
    slash-separated parts and each starts with a slash. The folder prefix
    of the route file is the scope of its own directory, and is among the
    scopes when that directory holds a middleware file. *)
Theorem middleware_scopes_of_walk
  (fuel : nat) (fs : FileSystem) (filePath rootDirAbs : string)
  (scopes : list string) :
  findMiddlewareScopes fuel fs filePath rootDirAbs = Some scopes ->
  (exists dirs,
     walkedDirectories fuel fs (resolve fs rootDirAbs) (dirname fs filePath)
     = Some dirs
     /\ head dirs = Some (dirname fs filePath)
     /\ scopes ≡ₚ scopesOf fs rootDirAbs dirs
     /\ StronglySorted (fun a b => (slashParts a <= slashParts b)%nat) scopes)
  /\ Forall (fun s => Str.startsWith s "/" = true) scopes
  /\ (forall prefix,
        computeAutoroutePrefix fs filePath rootDirAbs = Some prefix ->
        prefix = scopePrefix fs rootDirAbs (dirname fs filePath)
        /\ (existsSync fs (join fs (dirname fs filePath) "middleware.ts") = true ->
            prefix ∈ scopes)).
Proof.
  intros Hscopes.
  destruct (findMiddlewareScopes_scopes _ _ _ _ _ Hscopes)
    as (dirs & Hdirs & Hperm & Hsorted).
  pose proof (walkedDirectories_head _ _ _ _ _ Hdirs) as Hhead.
  split; [by exists dirs|]. split.
  - rewrite Hperm. unfold scopesOf. apply Forall_fmap, Forall_forall.
    intros d _. apply scopePrefix_slash.
  - intros prefix Hprefix.
    pose proof (computeAutoroutePrefix_scope _ _ _ _ Hprefix) as ->.
    split; [reflexivity|]. intros Hmid. rewrite Hperm.
    destruct dirs as [|d dirs]; [discriminate|]. injection Hhead as ->.
    unfold scopesOf. cbn [List.filter]. rewrite Hmid. apply list_elem_of_here.
Qed.

Lemma middleware_scopes_of_walk_witness :
  let fs := Posix.fileSystem ["/app/routes/middleware.ts";
                              "/app/routes/users/admin/middleware.ts"] in
  Forall (fun s => Str.startsWith s "/" = true) ["/"; "/users/admin"]
  /\ "/users/admin" ∈ ["/"; "/users/admin"].
Proof.
  intros fs.
  destruct (middleware_scopes_of_walk 4 fs "/app/routes/users/admin/route.ts"
              "/app/routes" ["/"; "/users/admin"])
    as (_ & Hslash & Hown); [vm_compute; reflexivity|].
  split; [exact Hslash|].
  apply (Hown "/users/admin"); vm_compute; reflexivity.
Defined.



Lemma computeAutoroutePrefix_nonempty fs f root prefix :
  computeAutoroutePrefix fs f root = Some prefix -> Str.isEmpty prefix = false.
Proof.
  intros ->%computeAutoroutePrefix_scope.
  pose proof (scopePrefix_slash fs root (dirname fs f)) as H.
  by destruct (scopePrefix fs root (dirname fs f)).
Qed.

(** Under a grouped routes root, the records of a route file get the
    folder prefix joined to their path and the scopes of the file, which
    the assembled operation shows as tags and in its description; with no
    scope the operation has neither. The records of any other file, or of
    a file outside the root, are left as they are. *)
Theorem autoroutes_prefix_and_tags
  (fuel : nat) (fs : FileSystem) (basename : string -> string)
  (root f : string) (rs rs' : list RouteInfo) :
  applyAutoroutes fuel fs basename root f rs = Some rs' ->
  (Str.isEmpty root = true \/ isRouteFile basename f = false
   \/ computeAutoroutePrefix fs f root = None -> rs' = rs)
  /\ (forall prefix,
        Str.isEmpty root = false -> isRouteFile basename f = true ->
        computeAutoroutePrefix fs f root = Some prefix ->
        exists scopes,
          findMiddlewareScopes fuel fs f root = Some scopes
          /\ rs' = map (fun r =>
                          withPathAndScopes r
                            (joinRoutePaths (Some prefix) (path r)) scopes) rs
          /\ forall typeTextToSchema r',
               r' ∈ rs' ->
               opTags (operationOf typeTextToSchema r')
               = match scopes with [] => None | _ => Some scopes end
               /\ opDescription (operationOf typeTextToSchema r')
                  = match scopes with
                    | [] => None
                    | _ => Some ("Middleware applied from: "
                                 +:+ Str.join ", " scopes)
                    end).
Proof.
  unfold applyAutoroutes. intros Happly. split.
  - intros [Hroot|[Hfile|Hprefix]].
    + rewrite Hroot in Happly. by injection Happly.
    + rewrite Hfile, andb_false_r in Happly. by injection Happly.
    + rewrite Hprefix in Happly. destruct (_ && _); by injection Happly.
  - intros prefix Hroot Hfile Hprefix.
    rewrite Hroot, Hfile, Hprefix in Happly. cbn [negb andb] in Happly.
    rewrite (computeAutoroutePrefix_nonempty _ _ _ _ Hprefix) in Happly.
    destruct (findMiddlewareScopes fuel fs f root) as [scopes|];
      [|discriminate].
    cbn [mbind option_bind] in Happly. injection Happly as <-.
    exists scopes. split; [reflexivity|]. split; [reflexivity|].
    intros tts r' (r & -> & _)%list_elem_of_fmap.
    unfold operationOf. cbn [opTags opDescription middlewareScopes withPathAndScopes].
    by destruct scopes.
Qed.

Lemma autoroutes_prefix_and_tags_witness :
  let fs := Posix.fileSystem ["/app/routes/users/middleware.ts"] in
  let r := mkRouteInfo "get" "/:id" None JsUndefined JsUndefined JsUndefined
             (Some ["id"]) (Some []) None in
  exists r',
    applyAutoroutes 3 fs posixBasename "/app/routes"
      "/app/routes/users/route.ts" [r] = Some [r']
    /\ path r' = "/users/:id"
    /\ opTags (operationOf Sample.noTypeText r') = Some ["/users"].
Proof.
  intros fs r.
  destruct (autoroutes_prefix_and_tags 3 fs posixBasename "/app/routes"
              "/app/routes/users/route.ts" [r]
              [withPathAndScopes r "/users/:id" ["/users"]])
    as [_ H]; [vm_compute; reflexivity|].
  destruct (H "/users") as (scopes & Hscopes & _ & Htags);
    [reflexivity | vm_compute; reflexivity | vm_compute; reflexivity|].
  assert (scopes = ["/users"]) as ->.
  { assert (findMiddlewareScopes 3 fs "/app/routes/users/route.ts" "/app/routes"
            = Some ["/users"]) as E by (vm_compute; reflexivity).
    rewrite E in Hscopes. by injection Hscopes. }
  eexists. split; [vm_compute; reflexivity|]. split; [reflexivity|].
  apply (Htags Sample.noTypeText). apply list_elem_of_here.
Defined.

(* ===================================================================== *)
(** ** Command line arguments *)
(* ===================================================================== *)

Lemma split_no_separator sep (k : string) :
  Str.contains k (String sep EmptyString) = false ->
  Str.split sep k = [k].
Proof.
  induction k as [|c k IH]; [reflexivity|]. intros Hno.
  pose proof (contains_cons_false _ _ _ Hno) as Hrest.
  cbn [Str.split]. destruct (Ascii.eqb_spec c sep) as [->|_].
  - by rewrite contains_head in Hno.
  - by rewrite IH.
Qed.

Lemma split_at_separator sep (k text : string) :
  Str.contains k (String sep EmptyString) = false ->
  Str.split sep (k +:+ String sep text) = k :: Str.split sep text.
Proof.
  induction k as [|c k IH]; intros Hno.
  - rewrite append_nil_l. cbn [Str.split]. by rewrite Ascii.eqb_refl.
  - pose proof (contains_cons_false _ _ _ Hno) as Hrest.
    rewrite append_cons. cbn [Str.split].
    destruct (Ascii.eqb_spec c sep) as [->|_].
    + by rewrite contains_head in Hno.
    + by rewrite IH.
Qed.

Lemma split_head sep (text : string) : exists v rest, Str.split sep text = v :: rest.
Proof.
  induction text as [|c text (v & rest & IH)]; [by eexists _, _|].
  cbn [Str.split]. destruct (Ascii.eqb c sep); [by eexists _, _|].
  rewrite IH. by eexists _, _.
Qed.

Lemma option_key (k : string) :
  Str.startsWith ("--" +:+ k) "--" = true
  /\ Str.sliceFrom ("--" +:+ k) 2 = k.
Proof. split; [apply startsWith_append | apply (sliceFrom_skip "--" k)]. Qed.

Lemma contains_option_key (k : string) :
  Str.contains k "=" = false -> Str.contains ("--" +:+ k) "=" = false.
Proof. intros Hk. rewrite !append_cons, append_nil_l. cbn. exact Hk. Qed.

Lemma parseArgsFrom_unfold a rest args kRaw more :
  Str.startsWith a "--" = true ->
  Str.split "=" a = kRaw :: more ->
  parseArgsFrom (a :: rest) args
  = let k := Str.sliceFrom kRaw 2 in
    match more with
    | vRaw :: _ => parseArgsFrom rest (<[k := ArgString vRaw]> args)
    | [] =>
        match rest with
        | next :: rest' =>
            if negb (Str.startsWith next "--")
            then parseArgsFrom rest' (<[k := ArgString next]> args)
            else parseArgsFrom rest (<[k := ArgTrue]> args)
        | [] => <[k := ArgTrue]> args
        end
    end.
Proof.
  intros Ha Hsplit. cbn [parseArgsFrom]. rewrite Ha, Hsplit.
  destruct more as [|vRaw more]; [|reflexivity].
  by destruct rest.
Qed.

Lemma parseArgsFrom_option (k : string) (rest : list string)
  (args : gmap string ArgValue) :
  Str.contains k "=" = false ->
  (forall v,
      Str.contains v "=" = false ->
      parseArgsFrom (("--" +:+ k +:+ "=" +:+ v) :: rest) args
      = parseArgsFrom rest (<[k := ArgString v]> args)
      /\ forall w,
           parseArgsFrom (("--" +:+ k +:+ "=" +:+ v +:+ "=" +:+ w) :: rest) args
           = parseArgsFrom rest (<[k := ArgString v]> args))
  /\ (forall next,
        Str.startsWith next "--" = false ->
        parseArgsFrom (("--" +:+ k) :: next :: rest) args
        = parseArgsFrom rest (<[k := ArgString next]> args))
  /\ (forall next,
        Str.startsWith next "--" = true ->
        parseArgsFrom (("--" +:+ k) :: next :: rest) args
        = parseArgsFrom (next :: rest) (<[k := ArgTrue]> args))
  /\ parseArgsFrom [("--" +:+ k)] args = <[k := ArgTrue]> args
  /\ (forall a,
        Str.startsWith a "--" = false ->
        parseArgsFrom (a :: rest) args = parseArgsFrom rest args)
  /\ (forall a0 a1, parseArgs (a0 :: a1 :: rest) = parseArgsFrom rest ∅).
Proof.
  intros Hk. destruct (option_key k) as [Hstart Hslice].
  pose proof (contains_option_key k Hk) as Hkey.
  assert (forall text,
            Str.split "=" ("--" +:+ k +:+ "=" +:+ text)
            = ("--" +:+ k) :: Str.split "=" text) as Hsplit.
  { intros text. rewrite <- (append_assoc "--" k ("=" +:+ text)).
    change ("=" +:+ text) with (String "=" text).
    by rewrite (split_at_separator "=" ("--" +:+ k) text). }
  assert (forall text, Str.startsWith ("--" +:+ k +:+ text) "--" = true) as Hopt.
  { intros text. apply startsWith_append. }
  split; [|split; [|split; [|split; [|split]]]].
  - intros v Hv. split; [|intros w].
    + rewrite (parseArgsFrom_unfold _ _ _ ("--" +:+ k) [v]);
        [by rewrite Hslice | apply Hopt |].
      by rewrite Hsplit, (split_no_separator "=" v Hv).
    + destruct (split_head "=" w) as (w1 & ws & Hw).
      rewrite (parseArgsFrom_unfold _ _ _ ("--" +:+ k) (v :: w1 :: ws));
        [by rewrite Hslice | apply Hopt |].
      rewrite Hsplit. change ("=" +:+ w) with (String "=" w).
      by rewrite (split_at_separator "=" v w Hv), Hw.
  - intros next Hnext.
    rewrite (parseArgsFrom_unfold _ _ _ ("--" +:+ k) []); [|done|].
    + by rewrite Hslice, Hnext.
    + by apply split_no_separator.
  - intros next Hnext.
    rewrite (parseArgsFrom_unfold _ _ _ ("--" +:+ k) []); [|done|].
    + by rewrite Hslice, Hnext.
    + by apply split_no_separator.
  - rewrite (parseArgsFrom_unfold _ _ _ ("--" +:+ k) []); [|done|].
    + by rewrite Hslice.
    + by apply split_no_separator.
  - intros a Ha. cbn [parseArgsFrom]. by rewrite Ha.
  - reflexivity.
Qed.

(** How [parseArgs] reads the argument list, option by option. The two
    first arguments are skipped. [--k=v] sets [k] to [v], to the text up
    to the next equals sign when [v] contains one. [--k] followed by an
    argument that does not start with two dashes sets [k] to that
    argument, whole, and consumes it; [--k] otherwise sets [k] to [true].
    Any other argument is ignored. *)
Theorem parseArgs_by_option (k : string) (rest : list string)
  (args : gmap string ArgValue) :
  Str.contains k "=" = false ->
  (forall v,
      Str.contains v "=" = false ->
      parseArgsFrom (("--" +:+ k +:+ "=" +:+ v) :: rest) args
      = parseArgsFrom rest (<[k := ArgString v]> args)
      /\ forall w,
           parseArgsFrom (("--" +:+ k +:+ "=" +:+ v +:+ "=" +:+ w) :: rest) args
           = parseArgsFrom rest (<[k := ArgString v]> args))
  /\ (forall next,
        Str.startsWith next "--" = false ->
        parseArgsFrom (("--" +:+ k) :: next :: rest) args
        = parseArgsFrom rest (<[k := ArgString next]> args))
  /\ (forall next,
        Str.startsWith next "--" = true ->
        parseArgsFrom (("--" +:+ k) :: next :: rest) args
        = parseArgsFrom (next :: rest) (<[k := ArgTrue]> args))
  /\ parseArgsFrom [("--" +:+ k)] args = <[k := ArgTrue]> args
  /\ (forall a,
        Str.startsWith a "--" = false ->
        parseArgsFrom (a :: rest) args = parseArgsFrom rest args)
  /\ (forall a0 a1, parseArgs (a0 :: a1 :: rest) = parseArgsFrom rest ∅).
Proof. apply parseArgsFrom_option. Qed.

Lemma parseArgs_by_option_witness :
  parseArgs ["node"; "cli.js"; "--entries=a=b"; "--out"; "api=v1.json"; "--dry"]
  = <["dry" := ArgTrue]>
      (<["out" := ArgString "api=v1.json"]>
         (<["entries" := ArgString "a"]> ∅)).
Proof.
  destruct (parseArgs_by_option "entries"
              ["--out"; "api=v1.json"; "--dry"] ∅ eq_refl)
    as (Heq & _).
  destruct (Heq "a" eq_refl) as [_ Hcut].
  destruct (parseArgs_by_option "out" ["--dry"]
              (<["entries" := ArgString "a"]> ∅) eq_refl)
    as (_ & Hnext & _).
  destruct (parseArgs_by_option "dry" []
              (<["out" := ArgString "api=v1.json"]>
                 (<["entries" := ArgString "a"]> ∅)) eq_refl)
    as (_ & _ & _ & Hflag & _).
  unfold parseArgs. cbn [drop].
  etrans; [exact (Hcut "b")|].
  etrans; [exact (Hnext "api=v1.json" eq_refl)|].
  exact Hflag.
Defined.

(** The settings read from [--root]: written [--root=r] or [--root r], a
    root [r] gives the same settings, with the files to read those named
    [route.ts] anywhere under [r]; written without a value, the root is
    [true] and the files are looked for under a directory of that name.
    With no option at all, every [.ts] file under [src] is read and the
    document is written to [openapi.json]. *)
Theorem cli_root_settings (node script r : string) :
  Str.isEmpty r = false ->
  Str.contains r "=" = false ->
  Str.startsWith r "--" = false ->
  cliSettings (parseArgs [node; script; "--root=" +:+ r])
  = cliSettings (parseArgs [node; script; "--root"; r])
  /\ cliSettings (parseArgs [node; script; "--root"; r])
     = mkCliSettings (ArgString (r +:+ "/**/route.ts"))
         (ArgString "openapi.json") (ArgString r)
  /\ cliSettings (parseArgs [node; script; "--root"])
     = mkCliSettings (ArgString "true/**/route.ts")
         (ArgString "openapi.json") ArgTrue
  /\ cliSettings (parseArgs [node; script])
     = mkCliSettings (ArgString "src/**/*.ts")
         (ArgString "openapi.json") (ArgString EmptyString).
Proof.
  intros Hne Hr Hdash.
  destruct (parseArgsFrom_option "root" [] ∅ eq_refl) as (Heq & Hnext & _ & Hflag & _).
  assert (parseArgs [node; script; "--root=" +:+ r] = <["root" := ArgString r]> ∅)
    as ->.
  { unfold parseArgs. cbn [drop]. destruct (Heq r Hr) as [H _]. exact H. }
  assert (parseArgs [node; script; "--root"; r] = <["root" := ArgString r]> ∅)
    as ->.
  { unfold parseArgs. cbn [drop]. exact (Hnext r Hdash). }
  assert (parseArgs [node; script; "--root"] = <["root" := ArgTrue]> ∅) as ->.
  { unfold parseArgs. cbn [drop]. exact Hflag. }
  split; [reflexivity|].
  unfold cliSettings.
  rewrite !lookup_insert_eq, !lookup_insert_ne, !lookup_empty by done.
  change (parseArgs [node; script]) with (∅ : gmap string ArgValue).
  rewrite !lookup_empty.
  unfold argOr, argTruthy, argText. cbv beta iota. rewrite !Hne.
  split; [reflexivity|]. split; reflexivity.
Qed.

Lemma cli_root_settings_witness :
  cliSettings (parseArgs ["node"; "cli.js"; "--root=src/routes"])
  = mkCliSettings (ArgString "src/routes/**/route.ts")
      (ArgString "openapi.json") (ArgString "src/routes").
Proof.
  destruct (cli_root_settings "node" "cli.js" "src/routes")
    as (Hsame & Hroot & _); [reflexivity..|].
  etrans; [exact Hsame | exact Hroot].
Defined.

(* ===================================================================== *)
(** ** The documentation page *)
(* ===================================================================== *)

Lemma nat_of_ascii_inj c d : nat_of_ascii c = nat_of_ascii d -> c = d.
Proof.
  intros H. rewrite <- (ascii_nat_embedding c), <- (ascii_nat_embedding d).
  by rewrite H.
Qed.

Lemma escapeHtmlChar_plain c :
  htmlSpecial c = false -> escapeHtmlChar c = String c EmptyString.
Proof.
  unfold htmlSpecial, escapeHtmlChar. cbv zeta.
  intros H. repeat (apply orb_false_elim in H as [H ?]).
  by repeat match goal with E : _ = false |- _ => rewrite E; clear E end.
Qed.

Lemma escapeHtmlChar_special c :
  htmlSpecial c = true ->
  exists x rest,
    escapeHtmlChar c = String "&" (String x rest)
    /\ In (x, rest, nat_of_ascii c) htmlEntities.
Proof.
  unfold htmlSpecial, escapeHtmlChar, htmlEntities. cbv zeta. intros H.
  destruct (Nat.eqb_spec (nat_of_ascii c) 38) as [->|];
    [eexists _, _; split; [reflexivity|]; by left|].
  destruct (Nat.eqb_spec (nat_of_ascii c) 60) as [->|];
    [eexists _, _; split; [reflexivity|]; right; by left|].
  destruct (Nat.eqb_spec (nat_of_ascii c) 62) as [->|];
    [eexists _, _; split; [reflexivity|]; do 2 right; by left|].
  destruct (Nat.eqb_spec (nat_of_ascii c) 34) as [->|];
    [eexists _, _; split; [reflexivity|]; do 3 right; by left|].
  destruct (Nat.eqb_spec (nat_of_ascii c) 39) as [->|];
    [eexists _, _; split; [reflexivity|]; do 4 right; by left|].
  discriminate.
Qed.

Lemma append_inv_l (p a b : string) : p +:+ a = p +:+ b -> a = b.
Proof.
  induction p as [|c p IH]; [done|]. rewrite !append_cons. intros [= H]. auto.
Qed.

Lemma escapeHtmlChar_inj c d (a b : string) :
  escapeHtmlChar c +:+ a = escapeHtmlChar d +:+ b -> c = d /\ a = b.
Proof.
  destruct (htmlSpecial c) eqn:Hc, (htmlSpecial d) eqn:Hd.
  - destruct (escapeHtmlChar_special c Hc) as (x & rx & -> & Hx).
    destruct (escapeHtmlChar_special d Hd) as (y & ry & -> & Hy).
    rewrite !append_cons. intros [= -> H].
    assert (rx = ry /\ nat_of_ascii c = nat_of_ascii d) as [-> Hcd].
    { unfold htmlEntities in Hx, Hy.
      destruct Hx as [Hx|[Hx|[Hx|[Hx|[Hx|[]]]]]];
        destruct Hy as [Hy|[Hy|[Hy|[Hy|[Hy|[]]]]]];
        simplify_eq; split; congruence. }
    split; [by apply nat_of_ascii_inj|]. by apply append_inv_l in H.
  - destruct (escapeHtmlChar_special c Hc) as (x & rx & -> & _).
    rewrite (escapeHtmlChar_plain d Hd), !append_cons. intros [= <- _].
    discriminate.
  - destruct (escapeHtmlChar_special d Hd) as (y & ry & -> & _).
    rewrite (escapeHtmlChar_plain c Hc), !append_cons. intros [= -> _].
    discriminate.
  - rewrite (escapeHtmlChar_plain c Hc), (escapeHtmlChar_plain d Hd).
    rewrite !append_cons, !append_nil_l. by intros [= -> ->].
Qed.

Lemma escapeHtmlChar_nonempty c : exists x rest, escapeHtmlChar c = String x rest.
Proof.
  destruct (htmlSpecial c) eqn:Hc.
  - destruct (escapeHtmlChar_special c Hc) as (x & rx & -> & _). by eexists _, _.
  - rewrite (escapeHtmlChar_plain c Hc). by eexists _, _.
Qed.

Lemma list_ascii_append (a b : string) :
  list_ascii_of_string (a +:+ b)
  = list_ascii_of_string a ++ list_ascii_of_string b.
Proof.
  induction a as [|c a IH]; [reflexivity|]. rewrite append_cons. simpl.
  by rewrite IH.
Qed.

Lemma escapeHtml_safe_and_faithful_lemma (s : string) :
  (forall c, In c (list_ascii_of_string (escapeHtml s)) ->
             c <> "<"%char /\ c <> ">"%char /\ c <> Js.doubleQuote
             /\ c <> "'"%char)
  /\ (forall t, escapeHtml s = escapeHtml t -> s = t)
  /\ (forallb (fun c => negb (htmlSpecial c)) (list_ascii_of_string s) = true ->
      escapeHtml s = s).
Proof.
  split; [|split].
  - induction s as [|c s IH]; [intros ? []|].
    intros x. cbn [escapeHtml]. rewrite list_ascii_append.
    intros [Hx|Hx]%in_app_or; [|by apply IH].
    destruct (htmlSpecial c) eqn:Hc.
    + destruct (escapeHtmlChar_special c Hc) as (y & ry & E & Hy).
      rewrite E in Hx. unfold htmlEntities in Hy.
      destruct Hy as [Hy|[Hy|[Hy|[Hy|[Hy|[]]]]]]; simplify_eq;
        cbn [list_ascii_of_string In] in Hx;
        decompose [or] Hx; subst; try done; repeat split; discriminate.
    + rewrite (escapeHtmlChar_plain c Hc) in Hx. destruct Hx as [<-|[]].
      repeat split; intros ->; vm_compute in Hc; discriminate.
  - induction s as [|c s IH]; intros [|d t]; cbn [escapeHtml]; [done|..].
    + destruct (escapeHtmlChar_nonempty d) as (x & r & ->). discriminate.
    + destruct (escapeHtmlChar_nonempty c) as (x & r & ->). discriminate.
    + intros [-> Heq]%escapeHtmlChar_inj. by rewrite (IH t Heq).
  - induction s as [|c s IH]; [reflexivity|]. simpl list_ascii_of_string.
    cbn [forallb escapeHtml]. intros [Hc Hs]%andb_prop.
    apply negb_true_iff in Hc.
    by rewrite (escapeHtmlChar_plain c Hc), IH.
Qed.

(** What [escapeHtml] gives holds no angle bracket and no quote of either
    kind; two texts that differ are escaped to texts that differ; and a
    text with none of the five characters is left as it is. *)
Theorem escapeHtml_safe_and_faithful (s : string) :
  (forall c, In c (list_ascii_of_string (escapeHtml s)) ->
             c <> "<"%char /\ c <> ">"%char /\ c <> Js.doubleQuote
             /\ c <> "'"%char)
  /\ (forall t, escapeHtml s = escapeHtml t -> s = t)
  /\ (forallb (fun c => negb (htmlSpecial c)) (list_ascii_of_string s) = true ->
      escapeHtml s = s).
Proof. apply escapeHtml_safe_and_faithful_lemma. Qed.

Lemma escapeHtml_safe_and_faithful_witness :
  escapeHtml "API Docs" = "API Docs"
  /\ escapeHtml "<b>Tom & Jerry's</b>"
     = "&lt;b&gt;Tom &amp; Jerry&#39;s&lt;/b&gt;".
Proof.
  split; [|reflexivity].
  apply (escapeHtml_safe_and_faithful "API Docs"). reflexivity.
Defined.
(* ===================================================================== *)
(** ** Status codes *)
(* ===================================================================== *)







(** A status argument that names an enum member is resolved from the
    first enum member declaration of the name: its numeric initializer, or
    the negation of one, is the status; when the name has no symbol, or
    the member no initializer, the status comes from the type of the
    expression. *)
Theorem enum_member_status
  (prog : Program) (e : Node) (i : nat) (obj name : Node) (j : nat) (n : Node)
  (rest : list Node) :
  stripParensAndCasts e = PropertyAccessExpression i obj name ->
  (forall k v,
      declarationsAtLocation prog name
      = Some (EnumMember j n (Some (NumericLiteral k v)) :: rest) ->
      extractStatuses prog e = [v])
  /\ (forall k l v,
        declarationsAtLocation prog name
        = Some (EnumMember j n
                  (Some (PrefixUnaryExpression k true (NumericLiteral l v)))
                  :: rest) ->
        extractStatuses prog e = [- v])
  /\ (declarationsAtLocation prog name = None
      \/ declarationsAtLocation prog name = Some (EnumMember j n None :: rest) ->
      extractStatuses prog e
      = numbersFromType prog
          (getTypeAtLocation prog (PropertyAccessExpression i obj name))).
Proof.
  intros Hstrip. unfold extractStatuses. rewrite Hstrip.
  unfold tryGetEnumMemberValue. split; [|split].
  - intros k v ->. reflexivity.
  - intros k l v ->. reflexivity.
  - intros [->| ->]; reflexivity.
Qed.

(** [enum S { Created = 201 }] and the status argument [S.Created]. *)
Lemma enum_member_status_witness :
  let member := Identifier 3 "Created" in
  let prog :=
    {| getTypeChecker := Sample.types;
       getTypeAtLocation _ := 0%nat;
       getText n := match n with Identifier _ t => t | _ => EmptyString end;
       firstDeclaration _ := None;
       declarationsAtLocation n :=
         match n with
         | Identifier _ "Created" =>
             Some [EnumMember 10 (Identifier 11 "Created")
                     (Some (NumericLiteral 12 201))]
         | _ => None
         end |} in
  extractStatuses prog (PropertyAccessExpression 1 (Identifier 2 "S") member)
  = [201].
Proof.
  intros member prog.
  destruct (enum_member_status prog
              (PropertyAccessExpression 1 (Identifier 2 "S") member)
              1 (Identifier 2 "S") member 10 (Identifier 11 "Created") [])
    as (Hlit & _); [reflexivity|].
  apply (Hlit 12%nat 201). reflexivity.
Defined.

(* ===================================================================== *)
(** ** Response shapes *)
(* ===================================================================== *)

Lemma Forall_pushPerStatus (P : FoundResponse -> Prop) statuses record :
  (forall s, P (record s)) -> Forall P (pushPerStatus statuses record).
Proof.
  intros H. apply Forall_forall. intros f [s ->]%elem_of_pushPerStatus. apply H.
Qed.

(** The responses without a body. A [redirect] call on the context is
    recorded under the statuses of its second argument, under 302 when it
    has none or none is resolved, and a [notFound] call likewise under
    404; the response assembled from such a record has the description
    OK and no content, and for [redirect] the [Location] header. *)
Theorem bodiless_responses
  (prog : Program) (fuel : nat) (ect p : option string) (node : Node)
  (args : list Node) (fs : list FoundResponse) :
  responsesAt prog fuel ect p node = Some fs ->
  let statuses :=
    match args !! 1%nat with
    | Some statusArg => extractStatuses prog statusArg
    | None => []
    end in
  (CtxCall prog p node "redirect" args ->
   map foundStatus fs = map Some (statusesOr statuses 302)
   /\ Forall (fun f =>
                renderResponse (toResponseItem f)
                = mkResponseObject "OK" locationHeaders None) fs)
  /\ (CtxCall prog p node "notFound" args ->
      map foundStatus fs = map Some (statusesOr statuses 404)
      /\ Forall (fun f =>
                   renderResponse (toResponseItem f)
                   = mkResponseObject "OK" JsUndefined None) fs).
Proof.
  intros Hfs statuses. split; intros Hcall;
    rewrite (responsesAt_ctxCall _ _ _ _ _ _ _ Hcall) in Hfs;
    fold statuses in Hfs; unfold ctxCallResponses in Hfs; simpl in Hfs;
    injection Hfs as <-.
  - split; [by rewrite map_map|].
    apply Forall_forall. intros f (s & -> & _)%list_elem_of_fmap. reflexivity.
  - split; [by rewrite map_map|].
    apply Forall_forall. intros f (s & -> & _)%list_elem_of_fmap. reflexivity.
Qed.

Lemma bodiless_responses_witness :
  map foundStatus
    [mkFound None JsUndefined (Some 302) None locationHeaders]
  = [Some 302]
  /\ Forall (fun f =>
               renderResponse (toResponseItem f)
               = mkResponseObject "OK" locationHeaders None)
       [mkFound None JsUndefined (Some 302) None locationHeaders].
Proof.
  destruct (bodiless_responses Sample.program 3 None (Some "c")
              Sample.redirectCall [StringLiteral 116 "/x"]
              [mkFound None JsUndefined (Some 302) None locationHeaders])
    as [Hredirect _]; [vm_compute; reflexivity|].
  apply Hredirect.
  exists 112%nat, 113%nat, (Identifier 114 "c"), (Identifier 115 "redirect"), [].
  repeat split; reflexivity.
Defined.

Lemma orDefault_nonempty a d :
  Str.isEmpty d = false -> Str.isEmpty (orDefault a d) = false.
Proof.
  intros Hd. unfold orDefault. destruct a as [s|]; [|exact Hd].
  by destruct (Str.isEmpty s) eqn:E.
Qed.

Lemma orDefault_again ect inferred d :
  Str.isEmpty d = false ->
  orDefault (orStr ect (Some (orDefault (orStr ect inferred) d))) d
  = orDefault (orStr ect inferred) d.
Proof.
  intros Hd. unfold orStr. destruct (falsyStr ect) eqn:E; [|reflexivity].
  cbv iota. unfold orDefault at 1.
  by rewrite (orDefault_nonempty inferred d Hd).
Qed.

(** A [body] call on the context. When the type of its argument is a
    string type, it is recorded as a string with the media type of the
    header override, else [text/plain]. In every other case, argument or
    not, it is recorded as binary, with the media type of the header
    override, else the one inferred from a [Blob] or [File] construction,
    else [application/octet-stream]: whether the type is among the binary
    ones makes no difference to the record. *)
Theorem body_call_responses
  (prog : Program) (fuel : nat) (ect p : option string) (node : Node)
  (args : list Node) (fs : list FoundResponse) :
  CtxCall prog p node "body" args ->
  responsesAt prog fuel ect p node = Some fs ->
  (forall a0,
      args !! 0%nat = Some a0 ->
      isStringType (getTypeChecker prog) (getTypeAtLocation prog a0) = true ->
      Forall (fun f =>
                foundSchema f = schemaOfType "string"
                /\ foundMediaType f = Some (orDefault ect "text/plain")) fs)
  /\ ((forall a0,
          args !! 0%nat = Some a0 ->
          isStringType (getTypeChecker prog) (getTypeAtLocation prog a0) = false) ->
      exists inferred,
        (if falsyStr ect
         then inferMediaTypeFromExpression prog fuel (args !! 0%nat)
         else Some None) = Some inferred
        /\ Forall (fun f =>
                     foundSchema f = schemaBinary
                     /\ foundMediaType f
                        = Some (orDefault (orStr ect inferred)
                                  "application/octet-stream")) fs).
Proof.
  intros Hcall Hfs.
  rewrite (responsesAt_ctxCall _ _ _ _ _ _ _ Hcall) in Hfs.
  unfold ctxCallResponses in Hfs. simpl in Hfs.
  destruct (if falsyStr ect then _ else _) as [inferred|] eqn:Einf;
    simpl in Hfs; [|discriminate].
  split.
  - intros a0 Ha0 Hstring. rewrite Ha0 in Hfs. rewrite Hstring in Hfs.
    simpl in Hfs. injection Hfs as <-. by apply Forall_pushPerStatus.
  - intros Hother. exists inferred. split; [reflexivity|].
    destruct (args !! 0%nat) as [a0|].
    + rewrite (Hother a0 eq_refl) in Hfs.
      destruct (isBinaryLikeType prog fuel _) as [[|]|]; simpl in Hfs;
        [| |discriminate]; injection Hfs as <-;
        apply Forall_pushPerStatus; intros s; simpl;
        (split; [reflexivity|]).
      * by rewrite orDefault_again.
      * reflexivity.
    + simpl in Hfs. injection Hfs as <-. by apply Forall_pushPerStatus.
Qed.

Lemma body_call_responses_witness :
  Forall (fun f =>
            foundSchema f = schemaBinary
            /\ foundMediaType f = Some "application/octet-stream")
    [mkFound None schemaBinary None (Some "application/octet-stream") JsUndefined].
Proof.
  destruct (body_call_responses Sample.program 3 None (Some "c")
              (Sample.callOn 200 "c" "body" [Identifier 204 "ok"])
              [Identifier 204 "ok"]
              [mkFound None schemaBinary None (Some "application/octet-stream")
                 JsUndefined])
    as [_ Hbinary].
  - exists 200%nat, 201%nat, (Identifier 202 "c"), (Identifier 203 "body"), [].
    repeat split; reflexivity.
  - vm_compute. reflexivity.
  - destruct Hbinary as (inferred & Hinf & Hall).
    + intros a0 [= <-]. reflexivity.
    + injection Hinf as <-. exact Hall.
Defined.

(** A returned [new Response(body, init)]. It is recorded under the
    statuses of the [status] property of [init], under 200 when there is
    none; its media type is the content type of the [headers] of [init]
    when one is found there, and only otherwise the header override of the
    handler body; it has no type text and no headers. With no body
    argument the record has no schema; with a body of a string type the
    schema is the string schema. *)
Theorem new_response_records
  (prog : Program) (fuel : nat) (ect p : option string) (i j : nat)
  (callee : Node) (typeArgs : list Node) (args : option (list Node))
  (fs : list FoundResponse) :
  getText prog callee = "Response" ->
  responsesAt prog fuel ect p
    (ReturnStatement i (Some (NewExpression j callee typeArgs args))) = Some fs ->
  let a0 := args ≫= fun args => args !! 0%nat in
  let init := args ≫= fun args => args !! 1%nat in
  exists fromInit,
    inferMediaTypeFromResponseInit prog fuel init = Some fromInit
    /\ map foundStatus fs
       = map Some (statusesOr (extractStatusFromResponseInit prog init) 200)
    /\ Forall (fun f =>
                 foundMediaType f = orStr fromInit ect
                 /\ foundText f = None /\ foundHeaders f = JsUndefined) fs
    /\ (a0 = None -> Forall (fun f => foundSchema f = JsUndefined) fs)
    /\ (forall a,
          a0 = Some a ->
          isStringType (getTypeChecker prog) (getTypeAtLocation prog a) = true ->
          Forall (fun f => foundSchema f = schemaOfType "string") fs).
Proof.
  intros Hcallee Hfs a0 init. cbn [responsesAt] in Hfs.
  rewrite Hcallee in Hfs. cbn [String.eqb Ascii.eqb Bool.eqb andb] in Hfs.
  unfold newResponseResponses in Hfs. fold a0 init in Hfs.
  destruct (inferMediaTypeFromResponseInit prog fuel init) as [fromInit|];
    cbn [mbind option_bind] in Hfs; [|discriminate].
  exists fromInit. split; [reflexivity|].
  destruct (match a0 with Some _ => _ | None => _ end) as [sch|] eqn:Esch;
    cbn [mbind option_bind] in Hfs; [|discriminate].
  injection Hfs as <-.
  split; [by rewrite map_map|]. split.
  { apply Forall_forall. by intros f (s & -> & _)%list_elem_of_fmap. }
  split.
  - intros Ha0. rewrite Ha0 in Esch. injection Esch as <-.
    apply Forall_forall. by intros f (s & -> & _)%list_elem_of_fmap.
  - intros a Ha0 Hstring. rewrite Ha0, Hstring in Esch. injection Esch as <-.
    apply Forall_forall. by intros f (s & -> & _)%list_elem_of_fmap.
Qed.
Lemma new_response_records_witness :
  Forall (fun f => foundMediaType f = Some "application/xml")
    [mkFound None (schemaOfType "string") (Some 201) (Some "application/xml")
       JsUndefined].
Proof.
  destruct (new_response_records Sample.program 3 (Some "text/csv") (Some "c")
              300 301 (Identifier 302 "Response") []
              (Some [StringLiteral 303 "<x/>";
                     ObjectLiteralExpression 304
                       [PropertyAssignment 305 (Identifier 306 "status")
                          (NumericLiteral 307 201);
                        PropertyAssignment 308 (Identifier 309 "headers")
                          (ObjectLiteralExpression 310
                             [PropertyAssignment 311
                                (StringLiteral 312 "Content-Type")
                                (StringLiteral 313 "application/xml")])]])
              [mkFound None (schemaOfType "string") (Some 201)
                 (Some "application/xml") JsUndefined])
    as (fromInit & Hinit & _ & Hall & _);
    [reflexivity | vm_compute; reflexivity|].
  assert (fromInit = Some "application/xml") as ->.
  { vm_compute in Hinit. by injection Hinit. }
  eapply Forall_impl; [exact Hall|]. by intros f (-> & _).
Defined.

(* ===================================================================== *)
(** ** Termination *)
(* ===================================================================== *)


Lemma resolveLoop_total prog (ids : gset nat) withChecker :
  (forall e init,
      resolveIdentifierToInit prog e = Some init ->
      nodeId (stripParensAndCasts init) ∈ ids) ->
  forall fuel e seen,
    nodeId e ∈ ids -> (size (ids ∖ seen) < fuel)%nat ->
    is_Some (resolveLoop prog fuel withChecker e seen).
Proof.
  intros Hids. induction fuel as [|fuel IH]; intros e seen He Hfuel; [lia|].
  cbn [resolveLoop]. destruct (decide (nodeId e ∈ seen)) as [|Hnew]; [by eexists|].
  pose proof (unseen_add ids seen (nodeId e) He Hnew) as Hless.
  destruct e; try by eexists.
  match goal with
  | |- context [resolveIdentifierToInit prog ?x] =>
      destruct (resolveIdentifierToInit prog x) as [init|] eqn:Einit
  end.
  - apply IH; [by eapply Hids|]. cbn [nodeId] in *.
    eapply Nat.lt_le_trans; [exact Hless|].
    exact (proj1 (Nat.lt_succ_r _ _) Hfuel).
  - destruct withChecker; by eexists.
Qed.

(** The initializer chase of the string resolver ends on every program
    with finitely many initializers, cyclic declarations included: when
    the initializers the identifiers resolve to are among finitely many
    nodes, the resolver returns on every expression, with one and the
    same fuel. *)
Theorem string_resolution_terminates
  (prog : Program) (ids : gset nat) (withChecker : bool) (expr : Node) :
  (forall e init,
      resolveIdentifierToInit prog e = Some init ->
      nodeId (stripParensAndCasts init) ∈ ids) ->
  is_Some (resolveToStringLiteralText prog (size ids + 2) withChecker expr).
Proof.
  intros Hids. unfold resolveToStringLiteralText.
  replace (size ids + 2)%nat with (S (S (size ids))) by lia.
  remember (S (size ids)) as k eqn:Hk.
  cbn [resolveLoop]. rewrite decide_False by set_solver.
  destruct (stripParensAndCasts expr) eqn:E; try by eexists.
  match goal with
  | |- context [resolveIdentifierToInit prog ?x] =>
      destruct (resolveIdentifierToInit prog x) as [init|] eqn:Einit
  end.
  - apply (resolveLoop_total prog ids withChecker Hids); [by eapply Hids|].
    subst k. apply Nat.lt_succ_r, subseteq_size.
    intros x [Hx _]%elem_of_difference. exact Hx.
  - destruct withChecker; by eexists.
Qed.

(** [const a = b; const b = a]: the chase from [a] ends without a text. *)
Lemma string_resolution_terminates_witness :
  resolveToStringLiteralText Cases.cyclicConstants 4 true (Identifier 1 "a")
  = Some None.
Proof.
  destruct (string_resolution_terminates Cases.cyclicConstants
              {[1%nat; 2%nat]} true (Identifier 1 "a")) as [r Hr].
  - intros e init. unfold resolveIdentifierToInit.
    destruct (stripParensAndCasts e) as [i text| | | | | | | | | | | | | | | | | | | | |];
      try discriminate.
    cbn [Cases.cyclicConstants firstDeclaration].
    destruct (String.eqb_spec text "a") as [->|Ha].
    + intros [= <-]. set_solver.
    + destruct (String.eqb_spec text "b") as [->|Hb].
      * intros [= <-]. set_solver.
      * intros H. exfalso. revert H.
        repeat (match goal with
                | |- context [match ?t with EmptyString => _ | String _ _ => _ end] =>
                    destruct t
                | |- context [match ?c with Ascii _ _ _ _ _ _ _ _ => _ end] =>
                    destruct c
                | |- context [if ?b then _ else _] => destruct b
                end; try discriminate; try congruence).
  - assert (size ({[1%nat; 2%nat]} : gset nat) + 2 = 4)%nat as Hfuel
        by (vm_compute; reflexivity).
    rewrite Hfuel in Hr. rewrite Hr. vm_compute in Hr. by rewrite Hr.
Defined.
(* ===================================================================== *)
(** ** Object schemas *)
(* ===================================================================== *)

Lemma assign_keys props k v :
  map fst (Js.assign props k v)
  = map fst props ++ (if decide (k ∈ map fst props) then [] else [k]).
Proof.
  induction props as [|[k' v'] props IH]; [reflexivity|].
  cbn [Js.assign]. destruct (String.eqb_spec k' k) as [->|Hne].
  - cbn [map fst]. rewrite decide_True by apply list_elem_of_here.
    by rewrite app_nil_r.
  - cbn [map fst]. rewrite IH. f_equal.
    destruct (decide (k ∈ map fst props)) as [Hin|Hout].
    + rewrite decide_True; [reflexivity|]. by apply list_elem_of_further.
    + rewrite decide_False; [reflexivity|].
      intros [?|?]%elem_of_cons; [congruence|done].
Qed.

Lemma assign_keys_NoDup props k v :
  NoDup (map fst props) -> NoDup (map fst (Js.assign props k v)).
Proof.
  intros Hnd. rewrite assign_keys.
  destruct (decide (k ∈ map fst props)) as [Hin|Hout].
  - by rewrite app_nil_r.
  - apply NoDup_app. split; [exact Hnd|]. split; [|apply NoDup_singleton].
    intros x Hx ->%list_elem_of_singleton. done.
Qed.

Lemma assign_keys_elem props k v name :
  name ∈ map fst (Js.assign props k v) <-> name ∈ map fst props \/ name = k.
Proof.
  rewrite assign_keys, elem_of_app.
  destruct (decide (k ∈ map fst props)) as [Hin|Hout].
  - split; [intros [?|[]%elem_of_nil]; by left|].
    intros [?| ->]; by left.
  - by rewrite list_elem_of_singleton.
Qed.

Lemma synthProps_spec rec props :
  forall properties required seen ps req seen',
    synthProps rec props properties required seen = Some (ps, req, seen') ->
    req = required
          ++ map symName (List.filter (fun sym => negb (symOptional sym)) props)
    /\ (forall name,
          name ∈ map fst ps
          <-> name ∈ map fst properties \/ name ∈ map symName props)
    /\ (NoDup (map fst properties) -> NoDup (map fst ps)).
Proof.
  induction props as [|sym props IH];
    intros properties required seen ps req seen'.
  - intros [= <- <- <-]. rewrite app_nil_r. split; [reflexivity|].
    split; [|done]. intros name. split; [by left|].
    by intros [?|[]%elem_of_nil].
  - cbn [synthProps]. destruct (rec (symType sym) seen) as [[s seen1]|];
      cbn [mbind option_bind]; [|discriminate].
    intros Hrest. destruct (IH _ _ _ _ _ _ Hrest) as (Hreq & Hkeys & Hnd).
    split; [|split].
    + rewrite Hreq. cbn [List.filter]. destruct (symOptional sym); cbn [negb].
      * reflexivity.
      * by rewrite <- app_assoc.
    + intros name. rewrite Hkeys, assign_keys_elem. cbn [map].
      rewrite elem_of_cons. tauto.
    + intros H. by apply Hnd, assign_keys_NoDup.
Qed.

Lemma synthAll_grows rec ts :
  (forall t seen r seen', rec t seen = Some (r, seen') -> seen ⊆ seen') ->
  forall seen rs seen',
    synthAll rec ts seen = Some (rs, seen') -> seen ⊆ seen'.
Proof.
  intros Hrec. induction ts as [|t ts IH]; intros seen rs seen'.
  - by intros [= <- <-].
  - cbn [synthAll]. destruct (rec t seen) as [[s seen1]|] eqn:E;
      cbn [mbind option_bind]; [|discriminate].
    destruct (synthAll rec ts seen1) as [[ss seen2]|] eqn:E2;
      cbn [mbind option_bind]; [|discriminate].
    intros [= <- <-]. etrans; [by eapply Hrec | by eapply IH].
Qed.

Lemma synthProps_grows rec props :
  (forall t seen r seen', rec t seen = Some (r, seen') -> seen ⊆ seen') ->
  forall properties required seen ps req seen',
    synthProps rec props properties required seen = Some (ps, req, seen') ->
    seen ⊆ seen'.
Proof.
  intros Hrec. induction props as [|sym props IH];
    intros properties required seen ps req seen'.
  - by intros [= <- <- <-].
  - cbn [synthProps]. destruct (rec (symType sym) seen) as [[s seen1]|] eqn:E;
      cbn [mbind option_bind]; [|discriminate].
    intros Hrest. etrans; [by eapply Hrec | by eapply IH].
Qed.

(** The set of seen types is only ever added to. *)
Lemma typeToSchema_seen_grows checker fuel :
  forall t seen s seen',
    typeToSchema checker fuel t seen = Some (s, seen') -> seen ⊆ seen'.
Proof.
  induction fuel as [|fuel IH]; intros t seen s seen'; [discriminate|].
  cbn [typeToSchema].
  destruct (isUnion checker t).
  - destruct (List.filter _ _) as [|only [|other rest]] eqn:Efilter.
    + cbn. by intros [= <- <-].
    + destruct (typeToSchema checker fuel only seen) as [[s0 seen0]|] eqn:E;
        cbn [mbind option_bind]; [|discriminate].
      intros [= <- <-]. by eapply IH.
    + destruct (synthAll _ _ _) as [[raw seen0]|] eqn:E;
        cbn [mbind option_bind]; [|discriminate].
      intros [= <- <-]. by eapply (synthAll_grows _ _ IH).
  - destruct (isStringType checker t); [by intros [= <- <-]|].
    destruct (isNumberType checker t); [by intros [= <- <-]|].
    destruct (isBooleanType checker t); [by intros [= <- <-]|].
    destruct (getIndexTypeOfType checker t) as [arrayType|].
    + destruct (typeToSchema checker fuel arrayType seen) as [[s0 seen0]|] eqn:E;
        cbn [mbind option_bind]; [|discriminate].
      intros [= <- <-]. by eapply IH.
    + destruct (hasFlags checker t TypeFlags.Object); [|by intros [= <- <-]].
      destruct (decide (t ∈ seen)); [by intros [= <- <-]|].
      destruct (synthProps _ _ _ _ _) as [[[ps req] seen0]|] eqn:E;
        cbn [mbind option_bind]; [|discriminate].
      intros [= <- <-]. etrans; [|by eapply (synthProps_grows _ _ IH)].
      apply union_subseteq_r.
Qed.

(** The schema of an object type met for the first time: it is of type
    [object]; its [properties] has one key per property name of the type;
    its [required] lists the names of the properties that are not
    optional, in the order of the properties, and is absent when all are
    optional; and the type is among the seen types afterwards. *)
Theorem object_schema_properties
  (checker : TypeChecker) (fuel : nat) (type : TsType) (seen : gset TsType)
  (s : JsValue) (seen' : gset TsType) :
  isUnion checker type = false ->
  isStringType checker type = false ->
  isNumberType checker type = false ->
  isBooleanType checker type = false ->
  getIndexTypeOfType checker type = None ->
  hasFlags checker type TypeFlags.Object = true ->
  type ∉ seen ->
  typeToSchema checker (S fuel) type seen = Some (s, seen') ->
  let props := getPropertiesOfType checker type in
  let required :=
    map symName (List.filter (fun sym => negb (symOptional sym)) props) in
  Js.getProp s "type" = JsString "object"
  /\ (exists ps,
        Js.getProp s "properties" = JsObject ps
        /\ NoDup (map fst ps)
        /\ forall name, name ∈ map fst ps <-> name ∈ map symName props)
  /\ Js.getProp s "required"
     = match required with
       | [] => JsUndefined
       | _ => JsArray (map JsString required)
       end
  /\ type ∈ seen'.
Proof.
  intros Hu Hs Hn Hb Hi Ho Hnew. cbn [typeToSchema].
  rewrite Hu, Hs, Hn, Hb, Hi, Ho, decide_False by done.
  destruct (synthProps _ _ _ _ _) as [[[ps req] seen1]|] eqn:E;
    cbn [mbind option_bind]; [|discriminate].
  intros [= <- <-].
  destruct (synthProps_spec _ _ _ _ _ _ _ _ E) as (Hreq & Hkeys & Hnd).
  cbn [app] in Hreq. subst req.
  assert (type ∈ seen1) as Hseen.
  { eapply (synthProps_grows _ _ (typeToSchema_seen_grows checker fuel));
      [exact E|]. apply elem_of_union. left. by apply elem_of_singleton. }
  destruct (map symName _) as [|r0 rs].
  - split; [reflexivity|]. split; [|by split].
    exists ps. split; [reflexivity|]. split; [apply Hnd, NoDup_nil_2|].
    intros name. rewrite Hkeys. cbn [map]. rewrite elem_of_nil. tauto.
  - split; [reflexivity|]. split; [|by split].
    exists ps. split; [reflexivity|]. split; [apply Hnd, NoDup_nil_2|].
    intros name. rewrite Hkeys. cbn [map]. rewrite elem_of_nil. tauto.
Qed.

(** [type B = { a?: A }] of the sample: no property is required. *)
Lemma object_schema_properties_witness :
  exists s seen',
    typeToSchema Cases.mutualTypes 4 1%nat ∅ = Some (s, seen')
    /\ Js.getProp s "required" = JsUndefined /\ 1%nat ∈ seen'.
Proof.
  assert (exists s seen', typeToSchema Cases.mutualTypes 4 1%nat ∅ = Some (s, seen'))
    as (s & seen' & Hs) by (vm_compute; by eexists _, _).
  exists s, seen'. split; [exact Hs|].
  destruct (object_schema_properties Cases.mutualTypes 3 1%nat ∅ s seen')
    as (_ & _ & Hreq & Hseen); try reflexivity; [set_solver | exact Hs |].
  split; [exact Hreq | exact Hseen].
Defined.
(* ===================================================================== *)
(** ** Records and documents *)
(* ===================================================================== *)

(** Every record of the analysis, field by field. *)
Lemma analyzeSource_fields
  (prog : Program)
  (findRequestData : nat -> option Node -> option string -> option (JsValue * JsValue))
  (fuel : nat) (sourceFile : Node) (routes : list RouteInfo) :
  analyzeSource prog findRequestData fuel sourceFile = Some routes ->
  Forall (fun r =>
            exists node bodyNode paramName foundList,
              node ∈ preorder sourceFile
              /\ isHonoRouteCall prog node = Some (method r, path r)
              /\ handlerParts (callArguments node) = (bodyNode, paramName)
              /\ findResponses prog fuel bodyNode paramName = Some foundList
              /\ findRequestData fuel bodyNode paramName
                 = Some (requestBodySchema r, querySchema r)
              /\ pathParams r = Some (extractPathParams (path r))
              /\ responses r = Some (map toResponseItem foundList)
              /\ middlewareScopes r = None)
    routes.
Proof.
  rewrite analyzeSource_mapM.
  destruct (mapM _ _) as [perRoute|] eqn:E; simpl; [|discriminate].
  intros [= <-]. apply mapM_Some in E.
  apply Forall_forall. intros r Hr.
  apply elem_of_concat in Hr as (found & Hfound & Hr).
  destruct (Forall2_elem_of_r _ _ _ _ E Hfound) as (node & Hnode & Hat).
  exists node. unfold routeAt in Hat.
  destruct (isHonoRouteCall prog node) as [[m p]|] eqn:Hroute;
    [|injection Hat as <-; by apply elem_of_nil in Hr].
  destruct (handlerParts (callArguments node)) as [bodyNode paramName].
  exists bodyNode, paramName.
  destruct (findResponses prog fuel bodyNode paramName) as [foundList|] eqn:Hf;
    simpl in Hat; [|discriminate].
  destruct (findRequestData fuel bodyNode paramName) as [[b q]|] eqn:Hq;
    simpl in Hat; [|discriminate].
  injection Hat as <-. apply list_elem_of_singleton in Hr as ->.
  exists foundList. by repeat split.
Qed.

Lemma default_parameters {A : Type} (l : list A) :
  default [] (match l with [] => None | _ => Some l end) = l.
Proof. by destruct l. Qed.

(** What the analysis records besides the responses, and what the
    assembler makes of it: the parameters of a record are those extracted
    from its path, its request schemas are what the request extractor
    found in the handler, and it has no middleware scope. The operation
    assembled from the record declares first one required string path
    parameter per extracted name, in order, then the query parameters, of
    which there are none when the record has no query schema; and it has
    no tag. *)
Theorem analysis_declares_path_parameters
  (prog : Program)
  (findRequestData : nat -> option Node -> option string -> option (JsValue * JsValue))
  (typeTextToSchema : option string -> JsValue)
  (fuel : nat) (sourceFile : Node) (routes : list RouteInfo) :
  analyzeSource prog findRequestData fuel sourceFile = Some routes ->
  Forall (fun r =>
            pathParams r = Some (extractPathParams (path r))
            /\ middlewareScopes r = None
            /\ (exists node bodyNode paramName,
                  node ∈ preorder sourceFile
                  /\ isHonoRouteCall prog node = Some (method r, path r)
                  /\ handlerParts (callArguments node) = (bodyNode, paramName)
                  /\ findRequestData fuel bodyNode paramName
                     = Some (requestBodySchema r, querySchema r))
            /\ (exists queryParameters,
                  default [] (opParameters (operationOf typeTextToSchema r))
                  = map (fun p => mkParameterObject p "path" true
                                    (schemaOfType "string"))
                      (extractPathParams (path r))
                    ++ queryParameters
                  /\ (Js.truthy (querySchema r) = false ->
                      queryParameters = []))
            /\ opTags (operationOf typeTextToSchema r) = None)
    routes.
Proof.
  intros Hroutes. eapply Forall_impl; [by eapply analyzeSource_fields|].
  cbv beta.
  intros r (node & bodyNode & paramName & foundList & Hnode & Hroute & Hparts
            & _ & Hreq & Hparams & _ & Hscopes).
  split; [exact Hparams|]. split; [exact Hscopes|].
  split; [by exists node, bodyNode, paramName|].
  unfold operationOf. cbn [opParameters opTags]. rewrite Hparams, Hscopes.
  split; [|reflexivity].
  eexists. split; [by rewrite default_parameters|].
  intros Hq. by rewrite Hq.
Qed.

Lemma analysis_declares_path_parameters_witness :
  exists routes,
    analyzeSource Sample.program Sample.noRequestData 3 Sample.sourceFile
    = Some routes
    /\ Forall (fun r =>
                 pathParams r = Some (extractPathParams (path r))
                 /\ opTags (operationOf Sample.noTypeText r) = None) routes.
Proof.
  assert (exists routes,
             analyzeSource Sample.program Sample.noRequestData 3
               Sample.sourceFile = Some routes) as [routes Hroutes]
      by (vm_compute; by eexists).
  exists routes. split; [exact Hroutes|].
  eapply Forall_impl;
    [exact (analysis_declares_path_parameters Sample.program
              Sample.noRequestData Sample.noTypeText 3 Sample.sourceFile
              routes Hroutes)|].
  cbv beta. by intros r (Hparams & _ & _ & _ & Htags).
Defined.
Lemma addOperation_keeps typeTextToSchema paths r key byMethod meth op :
  paths !! key = Some byMethod ->
  byMethod !! meth = Some op ->
  toOpenApiPath (path r) <> key \/ method r <> meth ->
  exists byMethod',
    addOperation typeTextToSchema paths r !! key = Some byMethod'
    /\ byMethod' !! meth = Some op.
Proof.
  intros Hkey Hmeth Hother. unfold addOperation.
  destruct (decide (toOpenApiPath (path r) = key)) as [Heq|Hne].
  - destruct Hother as [?|Hm]; [done|]. subst key.
    rewrite lookup_insert_eq, Hkey. eexists. split; [reflexivity|].
    cbn [default]. by rewrite lookup_insert_ne.
  - rewrite lookup_insert_ne by done. by exists byMethod.
Qed.

Lemma foldl_addOperation_keeps typeTextToSchema after :
  forall paths key byMethod meth op,
    paths !! key = Some byMethod ->
    byMethod !! meth = Some op ->
    Forall (fun r' => toOpenApiPath (path r') <> key \/ method r' <> meth)
      after ->
    exists byMethod',
      foldl (addOperation typeTextToSchema) paths after !! key = Some byMethod'
      /\ byMethod' !! meth = Some op.
Proof.
  induction after as [|r' after IH]; intros paths key byMethod meth op Hkey Hm Hall.
  - by exists byMethod.
  - apply Forall_cons in Hall as [Hr' Hall]. cbn [foldl].
    destruct (addOperation_keeps typeTextToSchema paths r' key byMethod meth op
                Hkey Hm Hr') as (bm & Hbm & Hop).
    by apply (IH _ _ bm).
Qed.

(** The document holds, for a path and a method, the operation of the
    last record registered under them: a record after which no record has
    both the same OpenAPI path and the same method is in the document,
    under that path and method, whatever came before it. *)
Theorem document_holds_last_registration
  (typeTextToSchema : option string -> JsValue)
  (before after : list RouteInfo) (r : RouteInfo) :
  Forall (fun r' =>
            toOpenApiPath (path r') <> toOpenApiPath (path r)
            \/ method r' <> method r) after ->
  exists byMethod,
    paths (routesToOpenAPI typeTextToSchema (before ++ r :: after))
      !! toOpenApiPath (path r) = Some byMethod
    /\ byMethod !! method r = Some (operationOf typeTextToSchema r).
Proof.
  intros Hafter. cbn [routesToOpenAPI paths].
  rewrite foldl_app. cbn [foldl].
  eapply foldl_addOperation_keeps; [| |exact Hafter].
  - unfold addOperation. by rewrite lookup_insert_eq.
  - by rewrite lookup_insert_eq.
Qed.

(** Two records for [GET /items/:id]: the second is the one documented. *)
Lemma document_holds_last_registration_witness :
  let second :=
    mkRouteInfo "get" "/items/:id" None JsUndefined JsUndefined JsUndefined
      (Some ["id"]) None None in
  exists byMethod,
    paths (routesToOpenAPI Sample.noTypeText [Sample.twiceNotFound; second])
      !! "/items/{id}" = Some byMethod
    /\ byMethod !! "get" = Some (operationOf Sample.noTypeText second).
Proof.
  intros second.
  apply (document_holds_last_registration Sample.noTypeText
           [Sample.twiceNotFound] [] second).
  constructor.
Defined.

(** The two entry points agree when no root is given, and a matched file
    the program has no source file for contributes nothing. *)
Theorem analyzeToOpenAPI_without_roots
  (prog : Program)
  (findRequestData : nat -> option Node -> option string -> option (JsValue * JsValue))
  (typeTextToSchema : option string -> JsValue) (fs : FileSystem)
  (basename : string -> string) (getSourceFile : string -> option Node)
  (fuel : nat) (files : list string) :
  analyzeToOpenAPI prog findRequestData typeTextToSchema fs basename
    getSourceFile fuel EmptyString EmptyString files
  = analyzeFilesToOpenAPI prog findRequestData typeTextToSchema getSourceFile
      fuel files
  /\ (forall rootAbsAutoroutes rootAbsAutorouter f,
        getSourceFile f = None ->
        analyzeToOpenAPI prog findRequestData typeTextToSchema fs basename
          getSourceFile fuel rootAbsAutoroutes rootAbsAutorouter (f :: files)
        = analyzeToOpenAPI prog findRequestData typeTextToSchema fs basename
            getSourceFile fuel rootAbsAutoroutes rootAbsAutorouter files).
Proof.
  split.
  - unfold analyzeToOpenAPI, analyzeFilesToOpenAPI.
    rewrite (mapM_ext _ (fun file =>
                           match getSourceFile file with
                           | Some sf => analyzeSource prog findRequestData fuel sf
                           | None => Some []
                           end)); [reflexivity|].
    intros f. unfold routesOfFile. destruct (getSourceFile f); [|reflexivity].
    destruct (analyzeSource _ _ _ _); reflexivity.
  - intros r1 r2 f Hf. unfold analyzeToOpenAPI.
    change (mapM ?g (f :: files)) with (x ← g f; r ← mapM g files; mret (x :: r)).
    assert (routesOfFile prog findRequestData fs basename getSourceFile fuel
              r1 r2 f = Some []) as ->
      by (unfold routesOfFile; by rewrite Hf).
    destruct (mapM _ files); reflexivity.
Qed.

(** A pattern that matched one file, which the program does not hold. *)
Lemma analyzeToOpenAPI_without_roots_witness :
  analyzeToOpenAPI Sample.program Sample.noRequestData Sample.noTypeText
    (Posix.fileSystem []) posixBasename (fun _ => None) 3
    EmptyString EmptyString ["/app/gone.ts"]
  = analyzeFilesToOpenAPI Sample.program Sample.noRequestData
      Sample.noTypeText (fun _ => None) 3 [].
Proof.
  destruct (analyzeToOpenAPI_without_roots Sample.program Sample.noRequestData
              Sample.noTypeText (Posix.fileSystem []) posixBasename
              (fun _ => None) 3 []) as [Hsame Hskip].
  rewrite <- Hsame. apply Hskip. reflexivity.
Defined.
(* ===================================================================== *)
(** ** The Zod reader *)
(* ===================================================================== *)

Lemma preorder_child_lt c n :
  c ∈ childrenOf n -> (List.length (preorder c) < List.length (preorder n))%nat.
Proof.
  intros Hc. rewrite (preorder_unfold n). cbn [List.length].
  apply Nat.lt_succ_r.
  induction (childrenOf n) as [|x l IH]; [by apply elem_of_nil in Hc|].
  cbn [flat_map]. rewrite length_app.
  apply elem_of_cons in Hc as [->|Hc]; [lia|].
  specialize (IH Hc). lia.
Qed.

Lemma stripParensAndCasts_size e :
  (List.length (preorder (stripParensAndCasts e)) <= List.length (preorder e))%nat.
Proof.
  induction e; cbn [stripParensAndCasts]; try lia;
    match goal with
    | IH : (List.length (preorder (stripParensAndCasts ?x)) <= _)%nat
      |- (_ <= List.length (preorder ?n))%nat =>
        assert (List.length (preorder x) < List.length (preorder n))%nat
          by (apply preorder_child_lt; cbn [childrenOf]; set_solver);
        lia
    end.
Qed.

Section ZodFacts.

Variable prog : Program.

Lemma callee_receiver_lt i j e name targs args :
  (List.length (preorder e)
   < List.length (preorder (CallExpression i (PropertyAccessExpression j e name)
                         targs args)))%nat.
Proof.
  etrans; [|apply (preorder_child_lt (PropertyAccessExpression j e name))].
  - apply preorder_child_lt. cbn [childrenOf]. set_solver.
  - cbn [childrenOf]. set_solver.
Qed.

Lemma unwrapOptional_flag cur :
  forall optional,
    unwrapOptional prog cur optional
    = (fst (unwrapOptional prog cur false),
       optional || snd (unwrapOptional prog cur false)).
Proof.
  remember (List.length (preorder cur)) as n eqn:Hn. revert cur Hn.
  induction n as [n IH] using lt_wf_ind. intros cur Hn optional.
  destruct cur; cbn [unwrapOptional]; try by rewrite orb_false_r.
  match goal with
  | |- context [match ?c with Identifier _ _ => _ | _ => _ end] =>
      destruct c; cbn [unwrapOptional]; try by rewrite orb_false_r
  end.
  destruct (String.eqb _ "optional"); [|by rewrite orb_false_r].
  match goal with
  | |- unwrapOptional prog ?e true = _ =>
      rewrite (IH (List.length (preorder e))
                 ltac:(subst n; apply callee_receiver_lt) e eq_refl true)
  end.
  cbn [fst snd]. by rewrite orb_true_r.
Qed.

Lemma unwrapOptional_size cur :
  forall optional,
    (List.length (preorder (fst (unwrapOptional prog cur optional)))
     <= List.length (preorder cur))%nat.
Proof.
  remember (List.length (preorder cur)) as n eqn:Hn. revert cur Hn.
  induction n as [n IH] using lt_wf_ind. intros cur Hn optional.
  destruct cur; cbn [unwrapOptional fst]; try lia.
  match goal with
  | |- context [match ?c with Identifier _ _ => _ | _ => _ end] =>
      destruct c; cbn [unwrapOptional fst]; try lia
  end.
  destruct (String.eqb _ "optional"); cbn [fst]; [|lia].
  match goal with
  | |- (List.length (preorder (fst (unwrapOptional prog ?e true))) <= _)%nat =>
      pose proof (IH (List.length (preorder e))
                    ltac:(subst n; apply callee_receiver_lt) e eq_refl true)
  end.
  match type of Hn with
  | _ = List.length (preorder (CallExpression ?i (PropertyAccessExpression ?j ?e ?nm) ?t ?a)) =>
      pose proof (callee_receiver_lt i j e nm t a)
  end.
  lia.
Qed.


Lemma zodTypeExprToSchema_flag fuel e s o :
  zodTypeExprToSchema prog fuel e = Some (s, o) ->
  o = snd (unwrapOptional prog e false).
Proof.
  destruct fuel as [|fuel]; [done|]. cbn [zodTypeExprToSchema].
  destruct (unwrapOptional prog e false) as [cur opt]. cbn [snd].
  intros H. repeat case_match; simplify_option_eq; done.
Qed.

Lemma zodProps_spec rec flag props :
  (forall init s o, rec init = Some (s, o) -> o = flag init) ->
  forall properties required ps req,
    zodProps rec props properties required = Some (ps, req) ->
    (NoDup (map fst properties) -> NoDup (map fst ps))
    /\ (forall k, k ∈ map fst ps
                  <-> k ∈ map fst properties \/ k ∈ map fst (zodFields props))
    /\ req = required
             ++ map fst (List.filter (fun f => negb (flag (snd f)))
                           (zodFields props)).
Proof.
  intros Hflag. induction props as [|p props IH]; intros properties required ps req.
  - cbn. intros [= <- <-]. rewrite app_nil_r.
    split; [done|]. split; [|done]. intros k. cbn [zodFields omap map].
    split; [by left|]. intros [?|Hk]; [done|]. by apply elem_of_nil in Hk.
  - assert (zodProps rec props properties required = Some (ps, req) ->
            zodFields (p :: props) = zodFields props ->
            (NoDup (map fst properties) -> NoDup (map fst ps))
            /\ (forall k, k ∈ map fst ps
                  <-> k ∈ map fst properties
                      \/ k ∈ map fst (zodFields (p :: props)))
            /\ req = required
                     ++ map fst (List.filter (fun f => negb (flag (snd f)))
                                   (zodFields (p :: props)))) as Hskip.
    { intros H ->. by apply IH. }
    destruct p; try (intros H; apply Hskip; [exact H|reflexivity]).
    match goal with
    | |- context [PropertyAssignment _ ?nm _] =>
        destruct nm; try (intros H; apply Hskip; [exact H|reflexivity])
    end.
    clear Hskip. cbn [zodProps].
    destruct (rec _) as [[schema optional]|] eqn:Hrec; [|done].
    cbn [mbind option_bind]. intros H.
    apply Hflag in Hrec as ->.
    apply IH in H as (Hnd & Hkeys & ->).
    match goal with
    | |- context [zodFields (PropertyAssignment ?i (Identifier ?j ?k) ?init :: props)] =>
        change (zodFields (PropertyAssignment i (Identifier j k) init :: props))
          with ((k, init) :: zodFields props)
    end.
    cbn [List.filter snd map fst].
    split; [|split].
    + intros Hp. by apply Hnd, assign_keys_NoDup.
    + intros k. rewrite Hkeys, assign_keys_elem, elem_of_cons. tauto.
    + destruct (flag _); cbn [negb map fst]; [reflexivity|].
      by rewrite <- app_assoc.
Qed.

Lemma zodProps_total rec props :
  (forall i j key init,
      PropertyAssignment i (Identifier j key) init ∈ props ->
      is_Some (rec init)) ->
  forall properties required,
    is_Some (zodProps rec props properties required).
Proof.
  induction props as [|p props IH]; intros Hrec properties required; [by eexists|].
  assert (is_Some (zodProps rec props properties required)
          /\ forall ps req, is_Some (zodProps rec props ps req)) as [Hskip Hany].
  { split; [|intros ps req]; apply IH; intros; eapply Hrec;
      apply list_elem_of_further; eassumption. }
  destruct p; try exact Hskip.
  match goal with
  | |- context [PropertyAssignment _ ?nm _] => destruct nm; try exact Hskip
  end.
  cbn [zodProps].
  match goal with
  | |- context [rec ?init] =>
      destruct (Hrec _ _ _ init ltac:(apply list_elem_of_here)) as [[s o] ->]
  end.
  cbn [mbind option_bind]. apply Hany.
Qed.

Lemma zodTypeExprToSchema_total fuel :
  forall e,
    (List.length (preorder e) <= fuel)%nat ->
    is_Some (zodTypeExprToSchema prog fuel e).
Proof.
  induction fuel as [|fuel IH]; intros e He.
  - rewrite preorder_unfold in He. cbn in He. lia.
  - cbn [zodTypeExprToSchema].
    pose proof (unwrapOptional_size e false) as Hu.
    destruct (unwrapOptional prog e false) as [cur opt]. cbn [fst] in Hu.
    pose proof (stripParensAndCasts_size cur) as Hs.
    destruct (stripParensAndCasts cur) eqn:Hcur; try by eexists.
    match goal with
    | |- context [match ?c with Identifier _ _ => _ | _ => _ end] =>
        destruct c; try by eexists
    end.
    repeat (case_match; try by eexists).
    + (* array *)
      match goal with
      | H : ?args !! 0%nat = Some ?inner |- _ =>
          destruct (IH inner) as [[s o] ->]; [|by eexists];
          match type of Hs with
          | (List.length (preorder ?call) <= _)%nat =>
              pose proof (preorder_child_lt inner call) as Hlt
          end;
          cbn [childrenOf] in Hlt;
          specialize (Hlt ltac:(apply elem_of_cons; right; apply elem_of_app;
                                right; by eapply list_elem_of_lookup_2))
      end.
      lia.
    + (* object *)
      unfold zodObjectWith. cbn [callArguments].
      destruct (_ !! 0%nat) as [arg|] eqn:Harg; [|by eexists].
      destruct arg; try by eexists.
      match goal with
      | |- context [zodProps ?r ?ps [] []] =>
          destruct (zodProps_total r ps) with (properties := @nil (string * JsValue))
            (required := @nil string) as [[ps' req] ->]
      end; [|by eexists].
      intros i j key init Hin. apply IH.
      match goal with
      | Hin : PropertyAssignment ?i ?nm ?init ∈ ?props,
        Harg : ?args !! 0%nat = Some (ObjectLiteralExpression ?k ?props) |- _ =>
          pose proof (preorder_child_lt init (PropertyAssignment i nm init)
                        ltac:(cbn [childrenOf]; set_solver));
          pose proof (preorder_child_lt (PropertyAssignment i nm init)
                        (ObjectLiteralExpression k props)
                        ltac:(cbn [childrenOf]; exact Hin));
          match type of Hs with
          | (List.length (preorder ?call) <= _)%nat =>
              pose proof (preorder_child_lt (ObjectLiteralExpression k props)
                            call) as Hlt
          end
      end.
      cbn [childrenOf] in Hlt.
      specialize (Hlt ltac:(apply elem_of_cons; right; apply elem_of_app; right;
                            by eapply list_elem_of_lookup_2)).
      lia.
Qed.

End ZodFacts.
(** The reader of one Zod type returns on every expression, given fuel
    for the nodes of the expression, and its schema is an object. A
    chained [.optional()] sets the flag and leaves the schema as it is;
    an expression in parentheses is never read as optional, and an
    [.optional()] call inside them, on a receiver other than [z], is read
    as an unparsed schema. *)
Theorem zod_optional_marks_only
  (prog : Program) (fuel : nat) (i j : nat) (e name : Node)
  (targs args : list Node) :
  getText prog name = "optional" ->
  (List.length (preorder e) <= fuel)%nat ->
  let call := CallExpression i (PropertyAccessExpression j e name) targs args in
  (exists s ps,
      zodTypeExprToSchema prog fuel e
      = Some (s, snd (unwrapOptional prog e false))
      /\ zodTypeExprToSchema prog fuel call = Some (s, true)
      /\ s = JsObject ps)
  /\ (forall k s o,
        zodTypeExprToSchema prog fuel (ParenthesizedExpression k e) = Some (s, o) ->
        o = false)
  /\ (forall k,
        getText prog e <> "z" ->
        zodTypeExprToSchema prog (S fuel) (ParenthesizedExpression k call)
        = Some (unparsedZod, false)).
Proof.
  intros Hname Hfuel call.
  split; [|split].
  - destruct (zodTypeExprToSchema_total prog fuel e Hfuel) as [[s o] He].
    pose proof (zodTypeExprToSchema_flag _ _ _ _ _ He) as ->.
    destruct fuel as [|fuel]; [done|].
    assert (exists ps, s = JsObject ps) as [ps ->].
    { clear -He. cbn [zodTypeExprToSchema] in He.
      destruct (unwrapOptional prog e false) as [cur opt].
      unfold unparsedZod, schemaDescription, schemaOfType, coalesce,
        zodObjectWith in He.
      repeat case_match; simplify_option_eq; eauto.
      destruct (nullish _); [eauto|].
      repeat case_match; simplify_eq; eauto. }
    exists (JsObject ps), ps. split; [exact He|]. split; [|reflexivity].
    revert He. subst call. cbn [zodTypeExprToSchema unwrapOptional].
    rewrite Hname. cbn [String.eqb Ascii.eqb Bool.eqb].
    rewrite (unwrapOptional_flag prog e true).
    destruct (unwrapOptional prog e false) as [cur opt]. cbn [fst snd orb].
    intros He. repeat case_match; simplify_option_eq; congruence.
  - intros k s o H. apply zodTypeExprToSchema_flag in H. exact H.
  - intros k Hrecv. cbn [zodTypeExprToSchema unwrapOptional stripParensAndCasts].
    subst call. cbn [stripParensAndCasts].
    destruct (String.eqb_spec (getText prog e) "z") as [|_]; [done|reflexivity].
Qed.

(** [z.string().optional()] and [(z.string().optional())]. *)
Lemma zod_optional_marks_only_witness :
  zodTypeExprToSchema Sample.program 4
    (Cases.optionalCall 1 (Cases.zodCall 10 "string" []))
  = Some (schemaOfType "string", true)
  /\ zodTypeExprToSchema Sample.program 5
       (ParenthesizedExpression 0
          (Cases.optionalCall 1 (Cases.zodCall 10 "string" [])))
     = Some (unparsedZod, false).
Proof.
  pose proof (zod_optional_marks_only Sample.program 4 1 2
                (Cases.zodCall 10 "string" []) (Identifier 3 "optional") [] []
                eq_refl ltac:(vm_compute; lia)) as (Hsome & _ & Hparen).
  split.
  - destruct Hsome as (s & ps & Hs & Hcall & _).
    vm_compute in Hs. injection Hs as <-. exact Hcall.
  - apply (Hparen 0%nat). vm_compute. discriminate.
Defined.

(** The schema read from [z.object({ ... })]: it is of type [object]; its
    [properties] has one key per property assignment named by an
    identifier; its [required] lists, in order, the keys whose value is
    not a chain ending in [.optional()], and is absent when there is none.
    The reader returns, given fuel for the nodes of the call. *)
Theorem zod_object_schema
  (prog : Program) (fuel : nat) (call : Node) (i : nat) (props : list Node) :
  (List.length (preorder call) <= fuel)%nat ->
  callArguments call !! 0%nat = Some (ObjectLiteralExpression i props) ->
  let fields := zodFields props in
  let required :=
    map fst (List.filter
               (fun f => negb (snd (unwrapOptional prog (snd f) false)))
               fields) in
  exists s ps,
    zodObjectCallToSchema prog fuel call = Some s
    /\ Js.getProp s "type" = JsString "object"
    /\ Js.getProp s "properties" = JsObject ps
    /\ NoDup (map fst ps)
    /\ (forall k, k ∈ map fst ps <-> k ∈ map fst fields)
    /\ Js.getProp s "required"
       = match required with
         | [] => JsUndefined
         | _ => JsArray (map JsString required)
         end.
Proof.
  intros Hfuel Harg fields required.
  unfold zodObjectCallToSchema, zodObjectWith. rewrite Harg.
  destruct (zodProps_total (zodTypeExprToSchema prog fuel) props)
    with (properties := @nil (string * JsValue)) (required := @nil string)
    as [[ps req] Hps].
  { intros k j key init Hin. apply zodTypeExprToSchema_total.
    assert (ObjectLiteralExpression i props ∈ childrenOf call) as Hchild.
    { destruct call; try done. cbn [callArguments] in Harg. cbn [childrenOf].
      apply elem_of_cons. right. apply elem_of_app. right.
      by eapply list_elem_of_lookup_2. }
    pose proof (preorder_child_lt _ _ Hchild).
    pose proof (preorder_child_lt (PropertyAssignment k (Identifier j key) init)
                  (ObjectLiteralExpression i props) Hin).
    pose proof (preorder_child_lt init
                  (PropertyAssignment k (Identifier j key) init)
                  ltac:(cbn [childrenOf]; set_solver)).
    lia. }
  rewrite Hps. cbn [mbind option_bind].
  apply (zodProps_spec _ (fun init => snd (unwrapOptional prog init false)))
    in Hps as (Hnd & Hkeys & Hreq);
    [|intros init s o; apply zodTypeExprToSchema_flag].
  cbn [app] in Hreq. fold fields in Hreq, Hkeys. fold required in Hreq.
  subst req.
  eexists _, ps. split; [reflexivity|].
  assert (forall k, k ∈ map fst ps <-> k ∈ map fst fields) as Hk.
  { intros k. rewrite Hkeys. cbn [map]. split; [|by right].
    intros [Hin|?]; [by apply elem_of_nil in Hin|done]. }
  clearbody required. specialize (Hnd (NoDup_nil_2 (A:=string))).
  destruct required; (split; [reflexivity|]; split; [reflexivity|];
                      split; [exact Hnd|]; split; [exact Hk|reflexivity]).
Qed.

(** [z.object({ name: z.string(), age: z.number().optional() })] *)
Lemma zod_object_schema_witness :
  zodObjectCallToSchema Sample.program 20 Cases.userSchema
  = Some (JsObject
            [("type", JsString "object");
             ("properties",
              JsObject [("name", schemaOfType "string");
                        ("age", schemaOfType "number")]);
             ("required", JsArray [JsString "name"])]).
Proof.
  pose proof (zod_object_schema Sample.program 20 Cases.userSchema 404 _
                ltac:(vm_compute; lia) eq_refl) as (s & ps & Hs & _).
  rewrite Hs. vm_compute in Hs. symmetry. exact Hs.
Defined.
(* ===================================================================== *)
(** ** Request data *)
(* ===================================================================== *)

Lemma schemaOf_truthy prog fuel t s :
  schemaOf prog fuel t = Some s -> Js.truthy s = true.
Proof.
  unfold schemaOf. intros H.
  destruct (typeToSchema _ _ _ _) as [[s' seen']|] eqn:Hs; [|done].
  cbn in H. injection H as <-.
  by apply typeToSchema_object in Hs as [ps ->].
Qed.

Lemma foldl_guarded_split {S : Type} (f : Node -> S -> option S) l1 l2 s s' :
  foldl (fun s n => guarded f n s) (Some s) (l1 ++ l2) = Some s' ->
  exists s1,
    foldl (fun s n => guarded f n s) (Some s) l1 = Some s1
    /\ foldl (fun s n => guarded f n s) (Some s1) l2 = Some s'.
Proof.
  rewrite foldl_app.
  destruct (foldl _ (Some s) l1) as [s1|]; [by exists s1|].
  by rewrite foldl_guarded_None.
Qed.

Lemma foldl_guarded_invariant {S : Type} (f : Node -> S -> option S)
  (I : S -> Prop) (ok : Node -> Prop) l :
  (forall n s s', ok n -> I s -> f n s = Some s' -> I s') ->
  Forall ok l ->
  forall s s',
    I s -> foldl (fun s n => guarded f n s) (Some s) l = Some s' -> I s'.
Proof.
  intros Hstep. induction 1 as [|n l Hn _ IH]; intros s s' Hs; cbn [foldl].
  - by intros [= <-].
  - unfold guarded at 2. cbn [mbind option_bind].
    destruct (f n s) as [s1|] eqn:Hf; [|by rewrite foldl_guarded_None].
    apply IH. by eapply Hstep.
Qed.

Lemma foldl_assign_keys (es : list (string * JsValue)) :
  forall props k,
    k ∈ map fst props ->
    k ∈ map fst (foldl (fun ps '(k, v) => Js.assign ps k v) props es).
Proof.
  induction es as [|[k' v'] es IH]; intros props k Hk; [exact Hk|].
  cbn [foldl]. apply IH, assign_keys_elem. by left.
Qed.

Section RequestFacts.

Variable prog : Program.
Variable getTypeFromTypeNode : Node -> TsType.


Lemma isReqCall_json_not_query p call :
  isReqCall prog p call "json" = true -> isReqCall prog p call "query" = false.
Proof.
  destruct call; try done. unfold isReqCall.
  match goal with
  | |- context [match ?c with Identifier _ _ => _ | _ => _ end] =>
      destruct c; try done
  end.
  intros [->%String.eqb_eq _]%andb_true_iff. reflexivity.
Qed.

Lemma findRequestData_fold fuel cb p b q :
  findRequestData prog getTypeFromTypeNode fuel (Some cb) p = Some (b, q) ->
  exists st,
    foldl (fun s n => guarded (requestAt prog getTypeFromTypeNode fuel p) n s)
      (Some (mkRequestState JsUndefined [] [])) (descendants cb) = Some st
    /\ b = bodySchema st /\ q = querySchemaOf st.
Proof.
  unfold findRequestData. rewrite walkChildren_descendants.
  destruct (foldl _ _ _) as [st|]; [|done].
  cbn. intros [= <- <-]. by exists st.
Qed.

(** What one step of [visit] does to the state, statement by statement. *)
Lemma declarationAt_cases fuel p node st st' :
  declarationAt prog getTypeFromTypeNode fuel p node st = Some st' ->
  (queryProps st' = queryProps st /\ requiredQuery st' = requiredQuery st
   /\ (bodySchema st' = bodySchema st
       \/ readsBody prog p node = true
          /\ Js.truthy (bodySchema st) = false
          /\ Js.truthy (bodySchema st') = true))
  \/ (isTypedDeclaration node = true
      /\ bodySchema st' = bodySchema st
      /\ exists typed,
          (queryProps st', requiredQuery st')
          = mergeQuerySchemaFromObjectSchema (queryProps st)
              (requiredQuery st) typed).
Proof.
  unfold declarationAt.
  destruct node; try (intros [= <-]; left; by auto).
  match goal with
  | |- context [match ?o with Some _ => _ | None => Some st end] =>
      destruct o as [initializer|]; [|intros [= <-]; left; by auto]
  end.
  cbn [readsBody isTypedDeclaration].
  destruct (awaitedCall _) as [call|]; [|intros [= <-]; left; by auto].
  destruct (isReqCall prog p call "json") eqn:Hjson.
  - rewrite (isReqCall_json_not_query _ _ Hjson).
    destruct (Js.truthy (bodySchema st)) eqn:Hb.
    + cbn. intros [= <-]. left. by auto.
    + unfold considerTyped.
      match goal with
      | |- context [match ?ty with Some _ => _ | None => Some JsUndefined end] =>
          destruct ty as [ty|]
      end.
      * destruct (schemaOf prog fuel (getTypeFromTypeNode _))
          as [typed|] eqn:Htyped; cbn [mbind option_bind]; [|done].
        rewrite (schemaOf_truthy _ _ _ _ Htyped). cbn [mbind option_bind].
        intros [= <-]. left. cbn. split; [done|]. split; [done|]. right.
        split; [done|]. split; [done|]. by eapply schemaOf_truthy.
      * cbn [mbind option_bind Js.truthy].
        destruct (schemaOf prog fuel _) as [s|] eqn:Hs;
          cbn [fmap option_fmap option_map mbind option_bind]; [|done].
        intros [= <-]. left. cbn. split; [done|]. split; [done|]. right.
        split; [done|]. split; [done|]. by eapply schemaOf_truthy.
  - cbn [mbind option_bind].
    destruct (isReqCall prog p call "query"); [|intros [= <-]; left; by auto].
    unfold considerTyped.
    match goal with
    | |- context [match ?ty with Some _ => _ | None => Some JsUndefined end] =>
        destruct ty as [ty|]
    end; [|cbn; intros [= <-]; left; by auto].
    destruct (schemaOf prog fuel _) as [typed|]; cbn [mbind option_bind];
      [|done].
    destruct (Js.truthy typed); [|intros [= <-]; left; by auto].
    destruct (mergeQuerySchemaFromObjectSchema _ _ typed) as [props req] eqn:Hm.
    intros [= <-]. right. cbn. split; [done|]. split; [done|].
    exists typed. by rewrite Hm.
Qed.

Lemma callAt_call fuel p i j e name targs args st st' :
  let node := CallExpression i (PropertyAccessExpression j e name) targs args in
  callAt prog fuel p node st = Some st' ->
  requiredQuery st' = requiredQuery st
  /\ (bodySchema st' = bodySchema st
      \/ readsBody prog p node = true
         /\ Js.truthy (bodySchema st) = false
         /\ Js.truthy (bodySchema st') = true)
  /\ (queryProps st' = queryProps st
      \/ exists k,
          QueryCall prog p node k
          /\ queryProps st'
             = Js.assign (queryProps st) k (schemaOfType "string")).
Proof.
  intros node. subst node. cbn [callAt readsBody].
  match goal with
  | |- (?step ≫= _) = _ -> _ =>
      assert (forall st1, step = Some st1 ->
                requiredQuery st1 = requiredQuery st
                /\ queryProps st1 = queryProps st
                /\ (bodySchema st1 = bodySchema st
                    \/ (getText prog name =? "parse")%string = true
                       /\ Js.truthy (bodySchema st) = false
                       /\ Js.truthy (bodySchema st1) = true)) as Hstep;
      [|destruct step as [st1|]; [|done];
        destruct (Hstep st1 eq_refl) as (Hr1 & Hq1 & Hb1); clear Hstep]
  end.
  { intros st1.
    destruct (getText prog name =? "parse")%string; [|intros [= <-]; by auto].
    repeat (case_match; try (intros [= <-]; by auto)).
    destruct (zodObjectCallToSchema _ _ _) as [s|]; [|done].
    cbn [mbind option_bind].
    destruct (Js.truthy s) eqn:Hs; cbn [andb]; [|intros [= <-]; by auto].
    destruct (Js.truthy (bodySchema st)) eqn:Hb; cbn [negb];
      intros [= <-]; [by auto|].
    split; [done|]. split; [done|]. right. split; [done|]. split; [done|].
    exact Hs. }
  cbn [mbind option_bind].
  destruct (_ && _) eqn:Hquery.
  - destruct (args !! 0%nat) as [a0|] eqn:Ha0; cbn [mbind option_bind];
      [|intros [= <-]; split; [done|]; split; [done|]; by left].
    destruct (isStringLiteralLike a0) as [k|] eqn:Hk;
      [|intros [= <-]; split; [done|]; split; [done|]; by left].
    intros [= <-]. cbn [requiredQuery bodySchema queryProps].
    split; [done|]. split; [done|]. right.
    exists k. rewrite Hq1. split; [|done].
    apply andb_true_iff in Hquery as [Hn%String.eqb_eq Hctx].
    destruct args as [|a0' rest]; [done|]. cbn in Ha0. injection Ha0 as ->.
    unfold QueryCall. by eexists _, _, _, _, _, _, _.
  - intros [= <-]. split; [done|]. split; [done|]. by left.
Qed.

Lemma callAt_cases fuel p node st st' :
  callAt prog fuel p node st = Some st' ->
  requiredQuery st' = requiredQuery st
  /\ (bodySchema st' = bodySchema st
      \/ readsBody prog p node = true
         /\ Js.truthy (bodySchema st) = false
         /\ Js.truthy (bodySchema st') = true)
  /\ (queryProps st' = queryProps st
      \/ exists k,
          QueryCall prog p node k
          /\ queryProps st'
             = Js.assign (queryProps st) k (schemaOfType "string")).
Proof.
  destruct node; try (intros [= <-]; by auto).
  match goal with
  | |- context [CallExpression _ ?c _ _] =>
      destruct c; try (intros [= <-]; by auto)
  end.
  apply callAt_call.
Qed.

Lemma requestAt_steps fuel p node st st' :
  requestAt prog getTypeFromTypeNode fuel p node st = Some st' ->
  exists st1,
    declarationAt prog getTypeFromTypeNode fuel p node st = Some st1
    /\ callAt prog fuel p node st1 = Some st'.
Proof.
  unfold requestAt. destruct (declarationAt _ _ _ _ _ _) as [st1|]; [|done].
  by exists st1.
Qed.

Lemma merge_keys props required typed props' required' k :
  (props', required') = mergeQuerySchemaFromObjectSchema props required typed ->
  k ∈ map fst props -> k ∈ map fst props'.
Proof.
  unfold mergeQuerySchemaFromObjectSchema.
  destruct (_ || _); intros [= -> _]; [done|]. apply foldl_assign_keys.
Qed.

Lemma requestAt_keys fuel p node st st' k :
  requestAt prog getTypeFromTypeNode fuel p node st = Some st' ->
  k ∈ map fst (queryProps st) -> k ∈ map fst (queryProps st').
Proof.
  intros (st1 & Hd & Hc)%requestAt_steps Hk.
  assert (k ∈ map fst (queryProps st1)) as Hk1.
  { apply declarationAt_cases in Hd as [(-> & _)|(_ & _ & typed & Hm)]; [done|].
    by eapply merge_keys. }
  apply callAt_cases in Hc as (_ & _ & [->|(k' & _ & ->)]); [done|].
  apply assign_keys_elem. by left.
Qed.


Lemma assign_Forall (P : string * JsValue -> Prop) props k v :
  Forall P props -> P (k, v) -> Forall P (Js.assign props k v).
Proof.
  intros Hall Hkv. induction Hall as [|[k' v'] props Hx Hall IH]; cbn [Js.assign].
  - by constructor.
  - destruct (String.eqb k' k); by constructor.
Qed.

Lemma requestAt_untyped fuel p node st st' :
  requestAt prog getTypeFromTypeNode fuel p node st = Some st' ->
  isTypedDeclaration node = false ->
  requiredQuery st = []
  /\ Forall (fun kv => snd kv = schemaOfType "string") (queryProps st) ->
  requiredQuery st' = []
  /\ Forall (fun kv => snd kv = schemaOfType "string") (queryProps st').
Proof.
  intros (st1 & Hd & Hc)%requestAt_steps Hty [Hreq Hall].
  assert (requiredQuery st1 = []
          /\ Forall (fun kv => snd kv = schemaOfType "string") (queryProps st1))
    as [Hreq1 Hall1].
  { apply declarationAt_cases in Hd as [(-> & -> & _)|(Ht & _)]; [done|].
    congruence. }
  apply callAt_cases in Hc as (-> & _ & [->|(k' & _ & ->)]); [done|].
  split; [done|]. by apply assign_Forall.
Qed.

Lemma requestAt_query_call fuel p node k st st' :
  QueryCall prog p node k ->
  requestAt prog getTypeFromTypeNode fuel p node st = Some st' ->
  k ∈ map fst (queryProps st').
Proof.
  intros (i & j & e & name & targs & a0 & rest & -> & Hname & Hctx & Hk).
  unfold requestAt. cbn [declarationAt mbind option_bind callAt].
  rewrite Hname, Hctx. cbn [String.eqb Ascii.eqb Bool.eqb andb lookup list_lookup
                             mbind option_bind].
  rewrite Hk. intros [= <-]. cbn [queryProps].
  apply assign_keys_elem. by right.
Qed.

End RequestFacts.

Lemma query_parameters (typeTextToSchema : option string -> JsValue)
  (r : RouteInfo) ps req :
  querySchema r
  = JsObject [("type", JsString "object"); ("properties", JsObject ps);
              ("required", JsArray (map JsString req))] ->
  default [] (opParameters (operationOf typeTextToSchema r))
  = map (fun p => mkParameterObject p "path" true (schemaOfType "string"))
      (default [] (pathParams r))
    ++ map (fun '(name, s) =>
              mkParameterObject name "query"
                (isRequired (map JsString req) name) s) ps.
Proof.
  intros Hq. unfold operationOf. cbn [opParameters]. rewrite Hq.
  cbn [Js.truthy Js.getProp Js.lookup String.eqb Ascii.eqb Bool.eqb andb
         entries requiredNames].
  rewrite default_parameters. by destruct (pathParams r).
Qed.

(** A call [ctx.req.query('k')] anywhere in the handler body documents a
    query parameter [k]: the query schema is an object schema with [k]
    among its properties, and the operation assembled for a record with
    that query schema has a parameter [k] in [query]. When no declaration
    of the body carries a type annotation, the parameter is an optional
    string. *)
Theorem query_call_documents_parameter
  (prog : Program) (getTypeFromTypeNode : Node -> TsType) (fuel : nat)
  (cb : Node) (p : option string) (node : Node) (k : string) (b q : JsValue) :
  findRequestData prog getTypeFromTypeNode fuel (Some cb) p = Some (b, q) ->
  node ∈ descendants cb ->
  QueryCall prog p node k ->
  exists ps req,
    q = JsObject [("type", JsString "object"); ("properties", JsObject ps);
                  ("required", JsArray (map JsString req))]
    /\ k ∈ map fst ps
    /\ forall typeTextToSchema r,
        querySchema r = q ->
        exists params,
          opParameters (operationOf typeTextToSchema r) = Some params
          /\ (exists required s, mkParameterObject k "query" required s ∈ params)
          /\ (Forall (fun n => isTypedDeclaration n = false) (descendants cb) ->
              mkParameterObject k "query" false (schemaOfType "string")
              ∈ params).
Proof.
  intros (st & Hfold & -> & ->)%findRequestData_fold Hnode Hcall.
  apply list_elem_of_split in Hnode as (before & after & Hsplit).
  assert (k ∈ map fst (queryProps st)) as Hk.
  { rewrite Hsplit in Hfold.
    apply foldl_guarded_split in Hfold as (st1 & _ & Hrest).
    cbn [foldl] in Hrest. unfold guarded at 2 in Hrest.
    cbn [mbind option_bind] in Hrest.
    destruct (requestAt _ _ _ _ _ st1) as [st2|] eqn:Hat;
      [|by rewrite foldl_guarded_None in Hrest].
    pose proof (requestAt_query_call _ _ _ _ _ _ _ _ Hcall Hat) as Hk2.
    refine (foldl_guarded_invariant _ (fun s => k ∈ map fst (queryProps s))
              (fun _ => True) after _ _ st2 st Hk2 Hrest);
      [|by apply Forall_forall].
    intros n s s' _ Hs Hn. by eapply requestAt_keys. }
  exists (queryProps st), (requiredQuery st).
  assert (querySchemaOf st
          = JsObject [("type", JsString "object");
                      ("properties", JsObject (queryProps st));
                      ("required", JsArray (map JsString (requiredQuery st)))])
    as Hq.
  { unfold querySchemaOf. destruct (queryProps st); [|reflexivity].
    by apply elem_of_nil in Hk. }
  split; [exact Hq|]. split; [exact Hk|].
  intros tts r Hr. rewrite Hq in Hr.
  pose proof (query_parameters tts r _ _ Hr) as Hparams.
  apply list_elem_of_fmap in Hk as ([k' s] & -> & Hin). cbn [fst].
  assert (mkParameterObject k' "query"
            (isRequired (map JsString (requiredQuery st)) k') s
          ∈ default [] (opParameters (operationOf tts r))) as Hmem.
  { rewrite Hparams. apply elem_of_app. right.
    apply list_elem_of_fmap. by exists (k', s). }
  destruct (opParameters (operationOf tts r)) as [params|];
    [|by apply elem_of_nil in Hmem].
  cbn [default] in Hmem. exists params. split; [reflexivity|].
  split; [by eexists _, _|].
  intros Huntyped.
  assert (requiredQuery st = []
          /\ Forall (fun kv => snd kv = schemaOfType "string") (queryProps st))
    as [Hreq Hall].
  { refine (foldl_guarded_invariant _
              (fun s => requiredQuery s = []
                        /\ Forall (fun kv => snd kv = schemaOfType "string")
                             (queryProps s))
              (fun n => isTypedDeclaration n = false) (descendants cb)
              _ Huntyped _ st _ Hfold); [|by split].
    intros n s0 s0' Hn Hs Hat. by eapply requestAt_untyped. }
  rewrite Hreq in Hmem. cbn [map isRequired existsb] in Hmem.
  rewrite Forall_forall in Hall. specialize (Hall _ Hin). cbn [snd] in Hall.
  by rewrite <- Hall.
Qed.
(** The handler body of the sample reads the query parameter [page]. *)
Lemma query_call_documents_parameter_witness :
  exists b q params,
    findRequestData Cases.requestProgram (fun _ => 0%nat) 20
      (Some Cases.requestBody) (Some "c") = Some (b, q)
    /\ opParameters
         (operationOf Sample.noTypeText
            (mkRouteInfo "get" "/search" None JsUndefined b q (Some [])
               None None)) = Some params
    /\ mkParameterObject "page" "query" false (schemaOfType "string") ∈ params.
Proof.
  destruct (findRequestData Cases.requestProgram (fun _ => 0%nat) 20
              (Some Cases.requestBody) (Some "c")) as [[b q]|] eqn:Hfind;
    [|vm_compute in Hfind; discriminate].
  exists b, q.
  destruct (query_call_documents_parameter _ _ _ _ _ Cases.pageQuery "page"
              b q Hfind) as (ps & req & Hq & Hk & Hops).
  - apply list_elem_of_In. vm_compute.
    repeat first [left; reflexivity | right].
  - unfold QueryCall, Cases.pageQuery, Cases.reqCall.
    eexists _, _, _, _, _, _, _. split; [reflexivity|].
    split; [reflexivity|]. split; reflexivity.
  - destruct (Hops Sample.noTypeText
                (mkRouteInfo "get" "/search" None JsUndefined b q (Some [])
                   None None) eq_refl) as (params & Hparams & _ & Huntyped).
    exists params. split; [reflexivity|]. split; [exact Hparams|].
    apply Huntyped. apply Forall_forall. intros n Hn%list_elem_of_In.
    vm_compute in Hn.
    repeat match type of Hn with
           | _ \/ _ => destruct Hn as [<-|Hn]; [reflexivity|]
           end.
    destruct Hn.
Defined.

Section BodyFacts.

Variable prog : Program.
Variable getTypeFromTypeNode : Node -> TsType.



End BodyFacts.


(* ===================================================================== *)
(** ** The textual synthesizer *)
(* ===================================================================== *)

Lemma trimStart_length (s : string) :
  (String.length (trimStart s) <= String.length s)%nat.
Proof.
  induction s as [|c s IH]; cbn [trimStart String.length]; [lia|].
  destruct (isWhiteSpace c); cbn [String.length]; lia.
Qed.

Lemma trimEnd_length (s : string) :
  (String.length (trimEnd s) <= String.length s)%nat.
Proof.
  induction s as [|c s IH]; cbn [trimEnd String.length]; [lia|].
  destruct (_ && _); cbn [String.length]; lia.
Qed.

Lemma trim_length (s : string) :
  (String.length (trim s) <= String.length s)%nat.
Proof.
  unfold trim. pose proof (trimEnd_length (trimStart s)).
  pose proof (trimStart_length s). lia.
Qed.

Lemma substring_length (s : string) :
  forall n m,
    (String.length (String.substring n m s) <= m)%nat
    /\ (String.length (String.substring n m s) <= String.length s - n)%nat.
Proof.
  induction s as [|c s IH]; intros n m.
  - destruct n, m; cbn; lia.
  - destruct n as [|n].
    + destruct m as [|m]; cbn [String.substring String.length]; [lia|].
      destruct (IH 0%nat m). lia.
    + cbn [String.substring String.length]. destruct (IH n m). lia.
Qed.

Lemma slice_shorter (t : string) a b :
  t <> EmptyString -> (b < 0)%Z ->
  (String.length (Str.slice t a b) < String.length t)%nat.
Proof.
  intros Ht Hb. unfold Str.slice. cbv zeta beta.
  assert (0 < String.length t)%nat by (destruct t; [done|cbn; lia]).
  match goal with
  | |- (String.length (String.substring ?n ?m t) < _)%nat =>
      destruct (substring_length t n m) as [Hm _];
      assert (m <= String.length t - 1)%nat; [|lia]
  end.
  rewrite (proj2 (Z.ltb_lt b 0) Hb).
  destruct (Z.ltb_spec a 0); lia.
Qed.

Lemma sliceFrom_length (s : string) n :
  (String.length (Str.sliceFrom s n) <= String.length s)%nat.
Proof.
  unfold Str.sliceFrom, Str.slice. cbv zeta beta.
  match goal with
  | |- (String.length (String.substring ?a ?m s) <= _)%nat =>
      destruct (substring_length s a m) as [_ Hm]
  end.
  lia.
Qed.

Lemma sliceFrom_shorter (s : string) n :
  s <> EmptyString -> (0 < n)%Z ->
  (String.length (Str.sliceFrom s n) < String.length s)%nat.
Proof.
  intros Hs Hn. unfold Str.sliceFrom, Str.slice. cbv zeta beta.
  assert (0 < String.length s)%nat by (destruct s; [done|cbn; lia]).
  match goal with
  | |- (String.length (String.substring ?a ?m s) < _)%nat =>
      destruct (substring_length s a m) as [_ Hm];
      assert (1 <= a)%nat; [|lia]
  end.
  rewrite (proj2 (Z.ltb_ge n 0)) by lia. lia.
Qed.

Lemma startsWith_nonempty (t : string) c p :
  Str.startsWith t (String c p) = true -> t <> EmptyString.
Proof. by intros H ->. Qed.

Lemma endsWith_nonempty (t : string) c p :
  Str.endsWith t (p +:+ String c EmptyString) = true -> t <> EmptyString.
Proof.
  intros H ->. unfold Str.endsWith in H. rewrite reverse_append in H.
  change (Str.reverse (String c EmptyString)) with (String c EmptyString) in H.
  by rewrite append_cons in H.
Qed.

Lemma lastChar_nonempty (x : string) c :
  lastChar x = Some c -> (1 <= String.length x)%nat.
Proof. destruct x; [done|]. cbn [String.length]. lia. Qed.

Lemma matchSpacesThenText_length (x g : string) :
  matchSpacesThenText x = Some g -> (String.length g <= String.length x)%nat.
Proof.
  unfold matchSpacesThenText.
  destruct (Str.isEmpty (trimStart x)); cbn [negb].
  - destruct (lastChar x) as [c|] eqn:Hlast; [|done].
    destruct (Str.isLineTerminator c); [done|]. intros [= <-].
    by apply lastChar_nonempty in Hlast.
  - destruct (Str.noLineTerminator _); [|done]. intros [= <-].
    apply trimStart_length.
Qed.

Lemma matchArraySuffix_shorter (t g : string) :
  matchArraySuffix t = Some g -> (String.length g < String.length t)%nat.
Proof.
  unfold matchArraySuffix.
  destruct (Str.endsWith t "[]") eqn:Hends; [|done].
  destruct (Str.noLineTerminator _); [|done]. intros [= <-].
  apply slice_shorter; [|lia].
  by apply (endsWith_nonempty t "]" "[").
Qed.

Lemma matchArrayGeneric_shorter (t g : string) :
  matchArrayGeneric t = Some g -> (String.length g < String.length t)%nat.
Proof.
  unfold matchArrayGeneric.
  destruct (Str.startsWith t "Array<") eqn:Hstarts; [|done].
  destruct (_ && _); [|done]. intros [= <-].
  apply slice_shorter; [|lia]. by eapply startsWith_nonempty.
Qed.

Lemma stripPrefix_length (p s rest : string) :
  stripPrefix p s = Some rest -> (String.length rest <= String.length s)%nat.
Proof.
  unfold stripPrefix. destruct (Str.startsWith s p); [|done].
  intros [= <-]. apply sliceFrom_length.
Qed.

Lemma matchRecordGeneric_shorter (t g : string) :
  matchRecordGeneric t = Some g -> (String.length g < String.length t)%nat.
Proof.
  unfold matchRecordGeneric.
  destruct (stripPrefix "Record<" t) as [r1|] eqn:H1; [|done].
  cbn [mbind option_bind].
  destruct (stripPrefix "string" (trimStart r1)) as [r2|] eqn:H2; [|done].
  cbn [mbind option_bind].
  destruct (stripPrefix "," (trimStart r2)) as [r3|] eqn:H3; [|done].
  cbn [mbind option_bind].
  destruct (Str.endsWith r3 ">"); [|done]. intros Hg.
  apply matchSpacesThenText_length in Hg.
  assert (String.length (Str.slice r3 0 (-1)) <= String.length r3)%nat.
  { destruct r3; [vm_compute; lia|].
    apply Nat.lt_le_incl, slice_shorter; [done|lia]. }
  apply stripPrefix_length in H3, H2.
  pose proof (trimStart_length r2). pose proof (trimStart_length r1).
  assert (String.length r1 < String.length t)%nat; [|lia].
  unfold stripPrefix in H1.
  destruct (Str.startsWith t "Record<") eqn:Hs; [|done].
  injection H1 as <-. apply sliceFrom_shorter; [|cbn; lia].
  by eapply startsWith_nonempty.
Qed.

Lemma splitFields_length (s : string) :
  forall skip part,
    part ∈ splitFields skip s -> (String.length part <= String.length s)%nat.
Proof.
  induction s as [|c s IH]; intros skip part; cbn [splitFields String.length].
  - intros ->%list_elem_of_singleton. cbn. lia.
  - destruct (skip && isWhiteSpace c).
    { intros H%IH. lia. }
    destruct (isFieldSeparator c).
    { intros [->|H%IH]%elem_of_cons; [cbn; lia|lia]. }
    destruct (splitFields false s) as [|h t] eqn:Hsplit.
    + intros ->%list_elem_of_singleton. cbn. lia.
    + intros [->|H]%elem_of_cons.
      * cbn [String.length]. specialize (IH false h).
        rewrite Hsplit in IH. specialize (IH ltac:(apply list_elem_of_here)). lia.
      * specialize (IH false part). rewrite Hsplit in IH.
        specialize (IH ltac:(by apply list_elem_of_further)). lia.
Qed.

Lemma spanWord_length (s w rest : string) :
  spanWord s = (w, rest) ->
  String.length s = (String.length w + String.length rest)%nat.
Proof.
  revert w rest. induction s as [|c s IH]; intros w rest; cbn [spanWord].
  - by intros [= <- <-].
  - destruct (Str.isWordChar c); [|by intros [= <- <-]].
    destruct (spanWord s) as [w' rest'].
    intros [= <- <-]. cbn [String.length]. by rewrite (IH w' rest').
Qed.

Lemma matchField_shorter (part name vtype : string) opt :
  matchField part = Some (name, opt, vtype) ->
  (String.length vtype < String.length part)%nat.
Proof.
  unfold matchField. destruct (spanWord part) as [w rest] eqn:Hspan.
  apply spanWord_length in Hspan.
  destruct (Str.isEmpty w); [done|].
  assert (forall rest',
             (String.length rest' < String.length rest)%nat ->
             (matchSpacesThenText rest' ≫= fun vtype =>
                Some (w, opt, vtype)) = Some (name, opt, vtype) ->
             (String.length vtype < String.length part)%nat) as Hrest.
  { intros rest' Hlt.
    destruct (matchSpacesThenText rest') as [g|] eqn:Hg; [|done].
    intros [= _ <-]. apply matchSpacesThenText_length in Hg. lia. }
  repeat case_match; simplify_eq; cbn [mbind option_bind]; try done;
    intros H;
    match type of H with
    | (matchSpacesThenText ?r ≫= _) = _ =>
        destruct (matchSpacesThenText r) as [g|] eqn:Hg; [|done];
        cbn in H; injection H as <- <- <-;
        apply matchSpacesThenText_length in Hg; cbn [String.length] in *; lia
    end.
Qed.

Lemma fieldsOfParts_total rec parts :
  (forall part name opt vtype,
      part ∈ parts -> matchField part = Some (name, opt, vtype) ->
      is_Some (rec (Some vtype))) ->
  forall props required, is_Some (fieldsOfParts rec parts props required).
Proof.
  induction parts as [|part parts IH]; intros Hrec props required; [by eexists|].
  cbn [fieldsOfParts].
  assert (forall ps req, is_Some (fieldsOfParts rec parts ps req)) as Hany.
  { intros ps req. apply IH. intros. eapply Hrec; [|eassumption].
    by apply list_elem_of_further. }
  destruct (matchField part) as [[[name opt] vtype]|] eqn:Hm; [|apply Hany].
  destruct (Hrec part name opt vtype ltac:(apply list_elem_of_here) Hm) as [s ->].
  cbn [mbind option_bind]. apply Hany.
Qed.

Lemma filterBoolean_elem (xs : list string) x :
  x ∈ Str.filterBoolean xs -> x ∈ xs.
Proof.
  unfold Str.filterBoolean. rewrite !list_elem_of_In, filter_In.
  by intros [? _].
Qed.

Lemma primitiveSchema_object t s :
  primitiveSchema t = Some s -> exists ps, s = JsObject ps.
Proof.
  unfold primitiveSchema, schemaOfType.
  repeat match goal with
         | |- context [if ?b then _ else _] => destruct b
         end; intros [= <-]; eauto.
Qed.

Lemma typeTextToSchema_returns fuel :
  forall typeText,
    (String.length (default EmptyString typeText) < fuel)%nat ->
    exists s,
      typeTextToSchema fuel typeText = Some s
      /\ (falsyStr typeText = true -> s = JsUndefined)
      /\ (falsyStr typeText = false -> exists ps, s = JsObject ps).
Proof.
  induction fuel as [|fuel IH]; intros typeText Hlen; [lia|].
  cbn [typeTextToSchema].
  destruct (falsyStr typeText) eqn:Hfalsy; [by eexists|].
  set (t := trim (default EmptyString typeText)).
  assert (String.length t < S fuel)%nat as Ht.
  { subst t. pose proof (trim_length (default EmptyString typeText)). lia. }
  clearbody t.
  destruct (primitiveSchema t) as [s|] eqn:Hprim.
  { exists s. split; [reflexivity|]. split; [done|]. intros _.
    by eapply primitiveSchema_object. }
  assert (forall key group type,
             (String.length group < String.length t)%nat ->
             exists s,
               containerSchema (typeTextToSchema fuel) key group type = Some s
               /\ (false = true -> s = JsUndefined)
               /\ (false = false -> exists ps, s = JsObject ps)) as Hcontainer.
  { intros key group type Hg. unfold containerSchema.
    destruct (IH (Some (trim group))) as (items & -> & _).
    { change (default EmptyString (Some (trim group))) with (trim group).
      pose proof (trim_length group). lia. }
    cbn [mbind option_bind]. eexists. split; [reflexivity|]. split; [done|eauto]. }
  assert (exists s,
             objectLiteralSchema (typeTextToSchema fuel) t = Some s
             /\ (false = true -> s = JsUndefined)
             /\ (false = false -> exists ps, s = JsObject ps)) as Hobject.
  { unfold objectLiteralSchema.
    destruct (fieldsOfParts_total (typeTextToSchema fuel)
                (Str.filterBoolean
                   (splitFields false (trim (Str.slice t 1 (-1))))))
      with (props := @nil (string * JsValue)) (required := @nil string)
      as [[props required] ->].
    - intros part name opt vtype Hpart%filterBoolean_elem Hm.
      destruct (IH (Some vtype)) as (s & Hs & _); [|by rewrite Hs].
      change (default EmptyString (Some vtype)) with vtype.
      apply matchField_shorter in Hm. apply splitFields_length in Hpart.
      pose proof (trim_length (Str.slice t 1 (-1))).
      assert (String.length (Str.slice t 1 (-1)) <= String.length t)%nat.
      { destruct t; [vm_compute; lia|].
        apply Nat.lt_le_incl, slice_shorter; [done|lia]. }
      lia.
    - cbn [mbind option_bind]. eexists. split; [reflexivity|].
      split; [done|]. intros _. destruct required; cbn [Js.setProp]; eauto. }
  unfold compositeSchema.
  destruct (matchArraySuffix t) as [[|c1 g1]|] eqn:H1;
    try (apply Hcontainer; by apply matchArraySuffix_shorter).
  all: destruct (matchArrayGeneric t) as [[|c2 g2]|] eqn:H2;
    try (apply Hcontainer; by apply matchArrayGeneric_shorter).
  all: destruct (matchRecordGeneric t) as [[|c3 g3]|] eqn:H3;
    try (apply Hcontainer; by apply matchRecordGeneric_shorter).
  all: destruct (_ && _); [exact Hobject|].
  all: eexists; (split; [reflexivity|]); (split; [done|]); intros _;
    unfold schemaDescription; by eauto.
Qed.

Lemma typeTextSchema_spec (typeText : option string) :
  typeTextToSchema (S (String.length (default EmptyString typeText))) typeText
  = Some (typeTextSchema typeText)
  /\ (falsyStr typeText = true -> typeTextSchema typeText = JsUndefined)
  /\ (falsyStr typeText = false ->
      exists ps, typeTextSchema typeText = JsObject ps).
Proof.
  unfold typeTextSchema.
  destruct (typeTextToSchema_returns
              (S (String.length (default EmptyString typeText))) typeText)
    as (s & -> & Hs); [lia|]. by split.
Qed.

(** The textual synthesizer returns on every text, with fuel above the
    length of the text; its result is [undefined] for a missing or empty
    text only, and an object otherwise. So a record that has no
    collected responses and no response schema is documented with one
    response, 200, whose content is the [application/json] schema of its
    type text, and which has no content when it has no type text. *)
Theorem legacy_response_of_type_text (r : RouteInfo) :
  match responses r with Some (_ :: _) => False | _ => True end ->
  nullish (responseSchema r) = true ->
  exists s,
    typeTextToSchema
      (S (String.length (default EmptyString (responseTypeText r))))
      (responseTypeText r) = Some s
    /\ (s = JsUndefined <-> falsyStr (responseTypeText r) = true)
    /\ (falsyStr (responseTypeText r) = false -> exists ps, s = JsObject ps)
    /\ opResponses (operationOf typeTextSchema r)
       = {[ "200" :=
              mkResponseObject "OK" JsUndefined
                (if falsyStr (responseTypeText r) then None
                 else Some ("application/json", s)) ]}.
Proof.
  intros Hresponses Hschema.
  destruct (typeTextSchema_spec (responseTypeText r)) as (Hs & Hundef & Hobj).
  exists (typeTextSchema (responseTypeText r)).
  split; [exact Hs|]. split; [|split; [exact Hobj|]].
  - split; [|exact Hundef]. intros Hu.
    destruct (falsyStr (responseTypeText r)); [reflexivity|].
    destruct (Hobj eq_refl) as [ps Hps]. congruence.
  - unfold operationOf. cbn [opResponses].
    assert (defaultResponses (legacySchema typeTextSchema r)
            = {[ "200" :=
                   mkResponseObject "OK" JsUndefined
                     (if falsyStr (responseTypeText r) then None
                      else Some ("application/json",
                                 typeTextSchema (responseTypeText r))) ]})
      as Hdefault.
    { unfold defaultResponses, legacySchema, coalesce. rewrite Hschema.
      destruct (falsyStr (responseTypeText r)).
      - by rewrite (Hundef eq_refl).
      - destruct (Hobj eq_refl) as [ps ->]. reflexivity. }
    destruct (responses r) as [[|item items]|]; [exact Hdefault|done|exact Hdefault].
Qed.

(** A record with the type text [{ id: number; }] only. *)
Lemma legacy_response_of_type_text_witness :
  opResponses
    (operationOf typeTextSchema
       (mkRouteInfo "get" "/items" (Some "{ id: number; }") JsUndefined
          JsUndefined JsUndefined None None None))
  = {[ "200" :=
         mkResponseObject "OK" JsUndefined
           (Some ("application/json",
                  JsObject [("type", JsString "object");
                            ("properties",
                             JsObject [("id", schemaOfType "number")]);
                            ("required", JsArray [JsString "id"])])) ]}.
Proof.
  destruct (legacy_response_of_type_text
              (mkRouteInfo "get" "/items" (Some "{ id: number; }") JsUndefined
                 JsUndefined JsUndefined None None None) I eq_refl)
    as (s & Hs & _ & _ & ->).
  vm_compute in Hs. injection Hs as <-. reflexivity.
Defined.
Lemma isEmpty_append (a b : string) :
  Str.isEmpty (a +:+ b) = Str.isEmpty a && Str.isEmpty b.
Proof. destruct a; [by rewrite append_nil_l|by rewrite append_cons]. Qed.

Lemma isEmpty_false (s : string) : s <> EmptyString -> Str.isEmpty s = false.
Proof. by destruct s. Qed.

Lemma trimStart_append (a b : string) :
  trimStart a <> EmptyString -> trimStart (a +:+ b) = trimStart a +:+ b.
Proof.
  induction a as [|c a IH]; [done|].
  rewrite append_cons. cbn [trimStart].
  destruct (isWhiteSpace c); [exact IH|]. by rewrite append_cons.
Qed.

Lemma trimEnd_append (a b : string) :
  trimEnd b <> EmptyString -> trimEnd (a +:+ b) = a +:+ trimEnd b.
Proof.
  intros Hb. induction a as [|c a IH]; [by rewrite !append_nil_l|].
  rewrite !append_cons. cbn [trimEnd]. rewrite IH, isEmpty_append.
  by rewrite (isEmpty_false _ Hb), !andb_false_r.
Qed.

Lemma trimStart_idem (s : string) : trimStart (trimStart s) = trimStart s.
Proof.
  induction s as [|c s IH]; [reflexivity|]. cbn [trimStart].
  destruct (isWhiteSpace c) eqn:Hc; [exact IH|]. cbn [trimStart]. by rewrite Hc.
Qed.

Lemma trim_trimStart (s : string) : trim (trimStart s) = trim s.
Proof. unfold trim. by rewrite trimStart_idem. Qed.

Lemma trim_nonempty_start (s : string) :
  trim s <> EmptyString -> trimStart s <> EmptyString.
Proof. unfold trim. intros H E. by rewrite E in H. Qed.

Lemma noLineTerminator_trimStart (s : string) :
  Str.noLineTerminator s = true -> Str.noLineTerminator (trimStart s) = true.
Proof.
  induction s as [|c s IH]; [done|]. cbn [trimStart Str.noLineTerminator].
  intros [Hc Hs]%andb_true_iff.
  destruct (isWhiteSpace c); [by apply IH|].
  cbn [Str.noLineTerminator]. by rewrite Hc, Hs.
Qed.

Lemma slice_middle (a b c : string) :
  c <> EmptyString ->
  Str.slice (a +:+ b +:+ c) (Z.of_nat (String.length a))
    (- Z.of_nat (String.length c)) = b.
Proof.
  intros Hc. unfold Str.slice. cbv zeta beta.
  assert (0 < String.length c)%nat by (destruct c; [done|cbn; lia]).
  rewrite !length_append.
  rewrite (proj2 (Z.ltb_ge (Z.of_nat (String.length a)) 0)) by lia.
  rewrite (proj2 (Z.ltb_lt (- Z.of_nat (String.length c)) 0)) by lia.
  replace (Z.to_nat (Z.min _ _)) with (String.length a) by lia.
  match goal with
  | |- String.substring _ ?m _ = _ =>
      replace m with (String.length b) by lia
  end.
  by rewrite substring_skip, substring_prefix.
Qed.

Lemma endsWith_suffix (a p : string) : Str.endsWith (a +:+ p) p = true.
Proof. unfold Str.endsWith. rewrite reverse_append. apply prefix_append. Qed.

Lemma endsWith_other_last (a : string) c d p :
  c <> d ->
  Str.endsWith (a +:+ String c EmptyString) (p +:+ String d EmptyString) = false.
Proof.
  intros Hcd. unfold Str.endsWith. rewrite !reverse_append.
  change (Str.reverse (String c EmptyString)) with (String c EmptyString).
  change (Str.reverse (String d EmptyString)) with (String d EmptyString).
  rewrite !append_cons, !append_nil_l. by apply prefix_cons_ne.
Qed.

(** A text that ends with a bracket or a brace is no primitive. *)
Lemma primitiveSchema_none (a : string) c :
  c = "]"%char \/ c = ">"%char \/ c = "}"%char ->
  primitiveSchema (a +:+ String c EmptyString) = None.
Proof.
  intros Hc. unfold primitiveSchema.
  assert (forall lit d,
             lastChar lit = Some d -> d <> c ->
             String.eqb (a +:+ String c EmptyString) lit = false) as Hne.
  { intros lit d Hlast Hd. apply String.eqb_neq. intros E.
    assert (lastChar (a +:+ String c EmptyString) = Some c) as Hl.
    { clear. induction a as [|x a IH]; [reflexivity|].
      rewrite append_cons. cbn [lastChar]. rewrite IH.
      destruct a; [by rewrite append_nil_l|by rewrite append_cons]. }
    rewrite E, Hlast in Hl. congruence. }
  repeat match goal with
         | |- context [String.eqb (a +:+ String c EmptyString) ?lit] =>
             rewrite (Hne lit _ eq_refl)
               by (destruct Hc as [-> | [-> | ->]]; discriminate)
         end.
  reflexivity.
Qed.

Lemma stripPrefix_append (p s : string) : stripPrefix p (p +:+ s) = Some s.
Proof. unfold stripPrefix. by rewrite startsWith_append, sliceFrom_skip. Qed.

Section Containers.

Variable fuel : nat.
Variable T : string.
Hypothesis noLine : Str.noLineTerminator T = true.
Hypothesis nonEmpty : trim T <> EmptyString.

Lemma trimStart_T : exists c g, trimStart T = String c g.
Proof.
  pose proof (trim_nonempty_start _ nonEmpty).
  destruct (trimStart T) as [|c g]; [done|]. by eexists _, _.
Qed.

Lemma typeText_step (text t : string) c :
  text <> EmptyString ->
  trim text = t +:+ String c EmptyString ->
  c = "]"%char \/ c = ">"%char \/ c = "}"%char ->
  typeTextToSchema (S fuel) (Some text)
  = compositeSchema (typeTextToSchema fuel) (t +:+ String c EmptyString).
Proof.
  intros Htext Htrim Hc. cbn [typeTextToSchema falsyStr].
  change (default EmptyString (Some text)) with text.
  rewrite (isEmpty_false _ Htext), Htrim.
  by rewrite (primitiveSchema_none _ _ Hc).
Qed.

Lemma array_suffix_text :
  typeTextToSchema (S fuel) (Some (T +:+ "[]"))
  = containerSchema (typeTextToSchema fuel) "items" (trimStart T) "array".
Proof.
  destruct trimStart_T as (c & g & Hstart).
  assert (trim (T +:+ "[]") = (trimStart T +:+ "[") +:+ "]") as Htrim.
  { unfold trim. rewrite trimStart_append by by rewrite Hstart.
    rewrite trimEnd_append by done. by rewrite append_assoc. }
  assert (T +:+ "[]" <> EmptyString) as Htext.
  { destruct T; [done|by rewrite append_cons]. }
  rewrite (typeText_step _ _ _ Htext Htrim ltac:(by left)).
  unfold compositeSchema, matchArraySuffix.
  rewrite append_assoc.
  change ("[" +:+ "]") with "[]".
  rewrite endsWith_suffix.
  assert (Str.slice (trimStart T +:+ "[]") 0 (-2) = trimStart T) as ->.
  { pose proof (slice_middle EmptyString (trimStart T) "[]" ltac:(done)) as H.
    by rewrite append_nil_l in H. }
  rewrite (noLineTerminator_trimStart _ noLine). cbn [andb].
  by rewrite Hstart.
Qed.

Lemma array_generic_text :
  typeTextToSchema (S fuel) (Some ("Array<" +:+ T +:+ ">"))
  = containerSchema (typeTextToSchema fuel) "items" T "array".
Proof.
  assert (T <> EmptyString) as HT by (intros E; by rewrite E in nonEmpty).
  assert (trim ("Array<" +:+ T +:+ ">") = ("Array<" +:+ T) +:+ ">") as Htrim.
  { unfold trim. rewrite (trimStart_append "Array<") by done.
    change (trimStart "Array<") with "Array<".
    rewrite <- append_assoc. by rewrite trimEnd_append. }
  assert ("Array<" +:+ T +:+ ">" <> EmptyString) as Htext
    by by rewrite append_cons.
  rewrite (typeText_step _ _ _ Htext Htrim ltac:(right; by left)).
  unfold compositeSchema, matchArraySuffix, matchArrayGeneric.
  rewrite (endsWith_other_last _ ">" "]" "[") by done. cbn [andb].
  rewrite append_assoc, startsWith_append.
  rewrite <- append_assoc, endsWith_suffix, append_assoc.
  pose proof (slice_middle "Array<" T ">" ltac:(done)) as Hslice.
  change (Z.of_nat (String.length "Array<")) with 6%Z in Hslice.
  change (- Z.of_nat (String.length ">"))%Z with (-1)%Z in Hslice.
  rewrite Hslice, noLine.
  assert ((8 <=? String.length ("Array<" +:+ T +:+ ">"))%nat = true) as ->.
  { apply Nat.leb_le. rewrite !length_append.
    destruct T; [done|]. cbn [String.length]. lia. }
  cbn [andb]. by destruct T.
Qed.

Lemma record_generic_text :
  typeTextToSchema (S fuel) (Some ("Record<string, " +:+ T +:+ ">"))
  = containerSchema (typeTextToSchema fuel) "additionalProperties" (trimStart T) "object".
Proof.
  destruct trimStart_T as (c & g & Hstart).
  assert (trim ("Record<string, " +:+ T +:+ ">")
          = ("Record<string, " +:+ T) +:+ ">") as Htrim.
  { unfold trim. rewrite (trimStart_append "Record<string, ") by done.
    change (trimStart "Record<string, ") with "Record<string, ".
    rewrite <- append_assoc. by rewrite trimEnd_append. }
  assert ("Record<string, " +:+ T +:+ ">" <> EmptyString) as Htext
    by by rewrite append_cons.
  rewrite (typeText_step _ _ _ Htext Htrim ltac:(right; by left)).
  unfold compositeSchema, matchArraySuffix, matchArrayGeneric.
  rewrite (endsWith_other_last _ ">" "]" "[") by done. cbn [andb].
  assert (Str.startsWith (("Record<string, " +:+ T) +:+ ">") "Array<" = false)
    as ->.
  { rewrite append_assoc. unfold Str.startsWith.
    rewrite append_cons. by apply prefix_cons_ne. }
  cbn [andb]. unfold matchRecordGeneric.
  rewrite append_assoc.
  change ("Record<string, " +:+ T +:+ ">")
    with ("Record<" +:+ ("string, " +:+ T +:+ ">")).
  rewrite stripPrefix_append. cbn [mbind option_bind].
  rewrite (trimStart_append "string, ") by done.
  change (trimStart "string, " +:+ T +:+ ">")
    with ("string" +:+ (", " +:+ T +:+ ">")).
  rewrite stripPrefix_append. cbn [mbind option_bind].
  rewrite (trimStart_append ", ") by done.
  change (trimStart ", " +:+ T +:+ ">") with ("," +:+ (" " +:+ T +:+ ">")).
  rewrite stripPrefix_append. cbn [mbind option_bind].
  rewrite <- append_assoc, endsWith_suffix.
  pose proof (slice_middle EmptyString (" " +:+ T) ">" ltac:(done)) as Hslice.
  rewrite append_nil_l in Hslice.
  change (Z.of_nat (String.length EmptyString)) with 0%Z in Hslice.
  change (- Z.of_nat (String.length ">"))%Z with (-1)%Z in Hslice.
  rewrite Hslice. unfold matchSpacesThenText.
  rewrite append_cons, append_nil_l. cbn [trimStart].
  change (isWhiteSpace " ") with true. cbv iota.
  rewrite Hstart. cbn [Str.isEmpty negb].
  rewrite <- Hstart, (noLineTerminator_trimStart _ noLine). by rewrite Hstart.
Qed.

End Containers.

(** The array and record texts: [T[]] and [Array<T>] are read as the same
    array schema, with the schema of [T] as items, and [Record<string, T>]
    as an object schema with the schema of [T] for its additional
    properties; [T] is any text without line terminator that is not all
    white space, trimmed before it is read. *)
Theorem array_and_record_texts (fuel : nat) (T : string) :
  Str.noLineTerminator T = true ->
  trim T <> EmptyString ->
  (String.length T < fuel)%nat ->
  exists ps,
    typeTextToSchema fuel (Some (trim T)) = Some (JsObject ps)
    /\ typeTextToSchema (S fuel) (Some (T +:+ "[]"))
       = Some (JsObject [("type", JsString "array"); ("items", JsObject ps)])
    /\ typeTextToSchema (S fuel) (Some ("Array<" +:+ T +:+ ">"))
       = Some (JsObject [("type", JsString "array"); ("items", JsObject ps)])
    /\ typeTextToSchema (S fuel) (Some ("Record<string, " +:+ T +:+ ">"))
       = Some (JsObject [("type", JsString "object");
                         ("additionalProperties", JsObject ps)]).
Proof.
  intros Hline Hne Hfuel.
  destruct (typeTextToSchema_returns fuel (Some (trim T)))
    as (s & Hs & _ & Hobj).
  { change (default EmptyString (Some (trim T))) with (trim T).
    pose proof (trim_length T). lia. }
  destruct Hobj as [ps ->]; [by apply isEmpty_false|].
  exists ps. split; [exact Hs|].
  rewrite (array_suffix_text fuel T Hline Hne),
    (array_generic_text fuel T Hline Hne),
    (record_generic_text fuel T Hline Hne).
  unfold containerSchema. rewrite trim_trimStart, Hs. by cbn.
Qed.

(** [string[]], [Array<string>] and [Record<string, string>] *)
Lemma array_and_record_texts_witness :
  typeTextToSchema 8 (Some "string[]")
  = Some (JsObject [("type", JsString "array");
                    ("items", schemaOfType "string")])
  /\ typeTextToSchema 8 (Some "Array<string>")
     = typeTextToSchema 8 (Some "string[]")
  /\ typeTextToSchema 8 (Some "Record<string, string>")
     = Some (JsObject [("type", JsString "object");
                       ("additionalProperties", schemaOfType "string")]).
Proof.
  destruct (array_and_record_texts 7 "string" eq_refl ltac:(done)
              ltac:(cbn; lia)) as (ps & Hps & Ha & Hg & Hr).
  vm_compute in Hps. injection Hps as <-.
  split; [exact Ha|]. split; [|exact Hr].
  etrans; [exact Hg|]. symmetry. exact Ha.
Defined.
Lemma isWordChar_plain c :
  Str.isWordChar c = true ->
  isWhiteSpace c = false /\ isFieldSeparator c = false
  /\ c <> "?"%char /\ c <> ":"%char.
Proof.
  destruct c as [[] [] [] [] [] [] [] []]; vm_compute; intros H;
    first [discriminate H | repeat split; discriminate].
Qed.

Lemma spanWord_name (name : string) c rest :
  forallb Str.isWordChar (list_ascii_of_string name) = true ->
  Str.isWordChar c = false ->
  spanWord (name +:+ String c rest) = (name, String c rest).
Proof.
  intros Hname Hc. induction name as [|x name IH].
  - rewrite append_nil_l. cbn [spanWord]. by rewrite Hc.
  - cbn [list_ascii_of_string forallb] in Hname.
    apply andb_true_iff in Hname as [Hx Hname].
    rewrite append_cons. cbn [spanWord]. by rewrite Hx, (IH Hname).
Qed.

Lemma trimStart_nonws c (s : string) :
  isWhiteSpace c = false -> trimStart (String c s) = String c s.
Proof. intros H. cbn [trimStart]. by rewrite H. Qed.

Lemma trimEnd_nonws c (s : string) :
  isWhiteSpace c = false -> trimEnd (String c s) = String c (trimEnd s).
Proof. intros H. cbn [trimEnd]. by rewrite H. Qed.

Lemma fieldOk_parts (f : TypeField) :
  fieldOk f = true ->
  (exists c name, fieldName f = String c name /\ Str.isWordChar c = true)
  /\ forallb Str.isWordChar (list_ascii_of_string (fieldName f)) = true
  /\ (exists c type, fieldType f = String c type /\ isWhiteSpace c = false)
  /\ Str.noLineTerminator (fieldType f) = true
  /\ forallb (fun c => negb (isFieldSeparator c))
       (list_ascii_of_string (fieldType f)) = true.
Proof.
  unfold fieldOk.
  intros [[[[Hne Hword]%andb_true_iff Hty]%andb_true_iff Hline]%andb_true_iff
            Hsep]%andb_true_iff.
  split; [|split; [exact Hword|split; [|by split]]].
  - destruct (fieldName f) as [|c name]; [done|].
    cbn [list_ascii_of_string forallb] in Hword.
    apply andb_true_iff in Hword as [Hc _]. by eexists _, _.
  - destruct (fieldType f) as [|c type]; [done|].
    apply negb_true_iff in Hty. by eexists _, _.
Qed.

Lemma matchField_print (f : TypeField) :
  fieldOk f = true ->
  matchField (printField f) = Some (fieldName f, fieldOptional f, fieldType f).
Proof.
  intros Hok.
  destruct (fieldOk_parts f Hok)
    as ((x & name & Hname & _) & Hword & (c & type & Hty & Hc) & Hline & _).
  unfold matchField, printField.
  assert (matchSpacesThenText (" " +:+ fieldType f) = Some (fieldType f))
    as Hspaces.
  { unfold matchSpacesThenText. rewrite append_cons, append_nil_l.
    cbn [trimStart]. change (isWhiteSpace " ") with true. cbv iota.
    rewrite Hty, (trimStart_nonws _ _ Hc). cbn [Str.isEmpty negb].
    by rewrite <- Hty, Hline. }
  assert (Str.isEmpty (fieldName f) = false) as Hne by by rewrite Hname.
  destruct (fieldOptional f).
  - change ("?" +:+ ": " +:+ fieldType f)
      with (String "?" (String ":" (" " +:+ fieldType f))).
    rewrite (spanWord_name _ _ _ Hword) by reflexivity.
    rewrite Hne. cbn [mbind option_bind]. by rewrite Hspaces.
  - rewrite append_nil_l.
    change (": " +:+ fieldType f) with (String ":" (" " +:+ fieldType f)).
    rewrite (spanWord_name _ _ _ Hword) by reflexivity.
    rewrite Hne. cbn [mbind option_bind]. by rewrite Hspaces.
Qed.

Lemma splitFields_clean (p : string) sep rest :
  forallb (fun c => negb (isFieldSeparator c)) (list_ascii_of_string p) = true ->
  isFieldSeparator sep = true ->
  splitFields false (p +:+ String sep rest) = p :: splitFields true rest.
Proof.
  intros Hp Hsep. induction p as [|c p IH].
  - rewrite append_nil_l. cbn [splitFields andb]. by rewrite Hsep.
  - cbn [list_ascii_of_string forallb] in Hp.
    apply andb_true_iff in Hp as [Hc%negb_true_iff Hp].
    rewrite append_cons. cbn [splitFields andb]. by rewrite Hc, (IH Hp).
Qed.

Lemma forallb_list_ascii_append (P : ascii -> bool) (a b : string) :
  forallb P (list_ascii_of_string (a +:+ b))
  = forallb P (list_ascii_of_string a) && forallb P (list_ascii_of_string b).
Proof. by rewrite list_ascii_append, forallb_app. Qed.

Lemma printField_clean (f : TypeField) :
  fieldOk f = true ->
  forallb (fun c => negb (isFieldSeparator c))
    (list_ascii_of_string (printField f)) = true.
Proof.
  intros (_ & Hword & _ & _ & Hsep)%fieldOk_parts. unfold printField.
  rewrite !forallb_list_ascii_append, Hsep, andb_true_r.
  apply andb_true_iff. split; [|by destruct (fieldOptional f)].
  apply forallb_forall. intros c Hc.
  rewrite forallb_forall in Hword. specialize (Hword c Hc).
  apply isWordChar_plain in Hword as (_ & -> & _). reflexivity.
Qed.

Lemma printField_head (f : TypeField) :
  fieldOk f = true ->
  exists c s, printField f = String c s /\ isWhiteSpace c = false.
Proof.
  intros ((c & name & Hname & Hc) & _)%fieldOk_parts.
  unfold printField. rewrite Hname, append_cons.
  eexists _, _. split; [reflexivity|]. by apply isWordChar_plain in Hc as [-> _].
Qed.

Lemma printFields_head (fields : list TypeField) :
  forallb fieldOk fields = true ->
  fields = []
  \/ exists c s, printFields fields = String c s /\ isWhiteSpace c = false.
Proof.
  destruct fields as [|f rest]; [by left|]. cbn [forallb printFields].
  intros [(c & s & Hf & Hc)%printField_head _]%andb_true_iff. right.
  rewrite Hf, append_cons. by eexists _, _.
Qed.

Lemma splitFields_print (fields : list TypeField) :
  forallb fieldOk fields = true ->
  splitFields false (trimEnd (printFields fields))
  = map printField fields ++ [EmptyString].
Proof.
  induction fields as [|f rest IH]; [reflexivity|].
  cbn [forallb printFields map app]. intros [Hf Hrest]%andb_true_iff.
  specialize (IH Hrest).
  destruct (printFields_head rest Hrest) as [->|(c & s & Hhead & Hc)].
  - cbn [printFields]. rewrite append_nil_r, trimEnd_append by done.
    change (trimEnd "; ") with ";".
    by rewrite (splitFields_clean _ ";" EmptyString (printField_clean _ Hf)).
  - assert (trimEnd (printFields rest) = String c (trimEnd s)) as Htrim
        by (by rewrite Hhead, trimEnd_nonws).
    rewrite <- append_assoc, trimEnd_append by by rewrite Htrim.
    rewrite append_assoc.
    change ("; " +:+ trimEnd (printFields rest))
      with (String ";" (String " " (trimEnd (printFields rest)))).
    rewrite (splitFields_clean _ ";" _ (printField_clean _ Hf)) by done.
    f_equal. cbn [splitFields]. change (isWhiteSpace " ") with true.
    cbn [andb]. rewrite <- IH, Htrim. cbn [splitFields]. by rewrite Hc.
Qed.

Lemma filterBoolean_print (fields : list TypeField) :
  forallb fieldOk fields = true ->
  Str.filterBoolean (map printField fields ++ [EmptyString])
  = map printField fields.
Proof.
  unfold Str.filterBoolean.
  induction fields as [|f rest IH]; [reflexivity|].
  cbn [forallb map app List.filter]. intros [Hf Hrest]%andb_true_iff.
  destruct (printField_head f Hf) as (c & s & -> & _).
  cbn [Str.isEmpty negb]. by rewrite (IH Hrest).
Qed.

Lemma fieldsOfParts_print rec (fields : list TypeField) :
  forallb fieldOk fields = true ->
  forall schemas props required,
    mapM (fun f => rec (Some (fieldType f))) fields = Some schemas ->
    Forall (fun s => exists ps, s = JsObject ps) schemas ->
    fieldsOfParts rec (map printField fields) props required
    = Some (foldl (fun ps '(f, s) => Js.assign ps (fieldName f) s) props
              (zip fields schemas),
            required
            ++ map fieldName
                 (List.filter (fun f => negb (fieldOptional f)) fields)).
Proof.
  induction fields as [|f rest IH]; intros Hok schemas props required Hmap Hobj.
  - cbn in Hmap. injection Hmap as <-. cbn. by rewrite app_nil_r.
  - cbn [forallb] in Hok. apply andb_true_iff in Hok as [Hf Hrest].
    cbn [mapM] in Hmap.
    destruct (rec (Some (fieldType f))) as [s|] eqn:Hs; [|done].
    cbn [mbind option_bind] in Hmap.
    destruct (mapM _ rest) as [ss|] eqn:Hss; [|done].
    cbn in Hmap. injection Hmap as <-.
    apply Forall_cons in Hobj as [[ps ->] Hobj].
    cbn [map fieldsOfParts]. rewrite (matchField_print f Hf), Hs.
    cbn [mbind option_bind coalesce nullish].
    rewrite (IH Hrest ss _ _ eq_refl Hobj). cbn [zip zip_with foldl List.filter].
    f_equal. f_equal.
    destruct (fieldOptional f); cbn [negb map]; [reflexivity|].
    by rewrite <- app_assoc.
Qed.

(** An object type text as TypeScript prints it, [{ a: T; b?: U; }], is
    read field by field: the schema is an object schema whose properties
    are the schemas of the type texts of the fields, under their names,
    and whose [required] lists the fields printed without question mark,
    being absent when there is none. The names are words; the type texts
    hold no semicolon, comma or line terminator. *)
Theorem object_type_text_fields (fuel : nat) (fields : list TypeField) :
  forallb fieldOk fields = true ->
  Forall (fun f => (String.length (fieldType f) < fuel)%nat) fields ->
  exists schemas,
    mapM (fun f => typeTextToSchema fuel (Some (fieldType f))) fields
    = Some schemas
    /\ Forall (fun s => exists ps, s = JsObject ps) schemas
    /\ typeTextToSchema (S fuel) (Some (printObjectType fields))
       = Some
           (let properties :=
              foldl (fun ps '(f, s) => Js.assign ps (fieldName f) s) []
                (zip fields schemas) in
            let required :=
              map fieldName
                (List.filter (fun f => negb (fieldOptional f)) fields) in
            match required with
            | [] =>
                JsObject [("type", JsString "object");
                          ("properties", JsObject properties)]
            | _ =>
                JsObject [("type", JsString "object");
                          ("properties", JsObject properties);
                          ("required", JsArray (map JsString required))]
            end).
Proof.
  intros Hok Hfuel.
  assert (exists schemas,
             mapM (fun f => typeTextToSchema fuel (Some (fieldType f))) fields
             = Some schemas
             /\ Forall (fun s => exists ps, s = JsObject ps) schemas)
    as (schemas & Hmap & Hobj).
  { induction Hfuel as [|f rest Hf _ IH]; [by exists []|].
    cbn [forallb] in Hok. apply andb_true_iff in Hok as [Hokf Hrest].
    destruct (IH Hrest) as (ss & Hss & Hall).
    destruct (typeTextToSchema_returns fuel (Some (fieldType f)) Hf)
      as (s & Hs & _ & Hobj).
    destruct (fieldOk_parts f Hokf) as (_ & _ & (c & type & Hty & _) & _).
    destruct Hobj as [ps ->]; [by rewrite Hty|].
    exists (JsObject ps :: ss). cbn [mapM]. rewrite Hs, Hss.
    split; [reflexivity|]. constructor; eauto. }
  exists schemas. split; [exact Hmap|]. split; [exact Hobj|].
  unfold printObjectType.
  assert (trim ("{ " +:+ printFields fields +:+ "}")
          = ("{ " +:+ printFields fields) +:+ "}") as Htrim.
  { unfold trim. rewrite (trimStart_append "{ ") by done.
    change (trimStart "{ ") with "{ ".
    rewrite <- append_assoc. by rewrite trimEnd_append. }
  assert ("{ " +:+ printFields fields +:+ "}" <> EmptyString) as Htext
      by by rewrite append_cons.
  rewrite (typeText_step fuel _ _ _ Htext Htrim ltac:(right; by right)).
  unfold compositeSchema, matchArraySuffix, matchArrayGeneric,
    matchRecordGeneric, stripPrefix.
  rewrite (endsWith_other_last _ "}" "]" "[") by done. cbn [andb].
  assert (forall p,
             Str.startsWith (("{ " +:+ printFields fields) +:+ "}")
               (String "{" p) = Str.startsWith (" " +:+ printFields fields +:+ "}") p)
    as Hstarts.
  { intros p. rewrite append_assoc. unfold Str.startsWith.
    by rewrite append_cons, prefix_cons. }
  assert (forall x p,
             x <> "{"%char ->
             Str.startsWith (("{ " +:+ printFields fields) +:+ "}")
               (String x p) = false) as Hother.
  { intros x p Hx. rewrite append_assoc. unfold Str.startsWith.
    rewrite append_cons. by apply prefix_cons_ne. }
  rewrite !Hother by done. cbn [andb mbind option_bind].
  rewrite Hstarts. change (Str.startsWith _ EmptyString) with true at 1.
  rewrite endsWith_suffix. cbn [andb].
  unfold objectLiteralSchema.
  assert (Str.slice (("{ " +:+ printFields fields) +:+ "}") 1 (-1)
          = " " +:+ printFields fields) as ->.
  { pose proof (slice_middle "{" (" " +:+ printFields fields) "}" ltac:(done))
      as Hslice.
    by rewrite <- append_assoc in Hslice. }
  assert (trim (" " +:+ printFields fields) = trimEnd (printFields fields)) as ->.
  { unfold trim. rewrite append_cons, append_nil_l. cbn [trimStart].
    change (isWhiteSpace " ") with true. cbv iota.
    destruct (printFields_head fields Hok) as [->|(c & s & -> & Hc)];
      [reflexivity|]. by rewrite trimStart_nonws. }
  rewrite (splitFields_print fields Hok), (filterBoolean_print fields Hok).
  rewrite (fieldsOfParts_print _ fields Hok schemas [] [] Hmap Hobj).
  cbn [mbind option_bind app]. cbv zeta.
  by destruct (map fieldName _).
Qed.

(** [{ id: number; name?: string; }] *)
Lemma object_type_text_fields_witness :
  typeTextToSchema 8 (Some "{ id: number; name?: string; }")
  = Some (JsObject
            [("type", JsString "object");
             ("properties",
              JsObject [("id", schemaOfType "number");
                        ("name", schemaOfType "string")]);
             ("required", JsArray [JsString "id"])]).
Proof.
  destruct (object_type_text_fields 7
              [mkTypeField "id" false "number";
               mkTypeField "name" true "string"] eq_refl)
    as (schemas & Hmap & _ & Htext).
  - repeat constructor; cbn; lia.
  - vm_compute in Hmap. injection Hmap as <-. exact Htext.
Defined.
Lemma foldl_assign_adds (es : list (string * JsValue)) :
  forall props k,
    k ∈ map fst es ->
    k ∈ map fst (foldl (fun ps '(k, v) => Js.assign ps k v) props es).
Proof.
  induction es as [|[k' v'] es IH]; intros props k Hk;
    [by apply elem_of_nil in Hk|].
  cbn [map fst] in Hk. cbn [foldl].
  apply elem_of_cons in Hk as [->|Hk]; [|by apply IH].
  apply foldl_assign_keys, assign_keys_elem. by right.
Qed.

Lemma setAdd_elem set k x : x ∈ setAdd set k <-> x ∈ set \/ x = k.
Proof.
  unfold setAdd. destruct (existsb _ set) eqn:Hex.
  - apply existsb_exists in Hex as (y & Hy%list_elem_of_In & ->%String.eqb_eq).
    split; [by left|]. by intros [?| ->].
  - rewrite elem_of_app, list_elem_of_singleton. tauto.
Qed.

Lemma foldl_setAdd_elem (ks : list JsValue) :
  forall set x,
    x ∈ foldl (fun req k => setAdd req (stringOf k)) set ks
    <-> x ∈ set \/ x ∈ map stringOf ks.
Proof.
  induction ks as [|k ks IH]; intros set x; cbn [foldl map].
  - split; [by left|]. by intros [?|?%elem_of_nil].
  - rewrite IH, setAdd_elem, elem_of_cons. tauto.
Qed.

Lemma stringOf_strings (req : list string) :
  map stringOf (map JsString req) = req.
Proof.
  induction req as [|r req IH]; [reflexivity|]. cbn [map stringOf].
  by rewrite IH.
Qed.

Lemma merge_required props required typed props' required' k :
  (props', required') = mergeQuerySchemaFromObjectSchema props required typed ->
  k ∈ required -> k ∈ required'.
Proof.
  unfold mergeQuerySchemaFromObjectSchema.
  destruct (_ || _); intros [= _ ->]; [done|].
  destruct (Js.getProp typed "required"); try done.
  intros Hk. apply foldl_setAdd_elem. by left.
Qed.

Lemma isRequired_elem (req : list string) name :
  name ∈ req -> isRequired (map JsString req) name = true.
Proof.
  intros Hin. unfold isRequired. apply existsb_exists.
  exists (JsString name). split; [|apply String.eqb_refl].
  apply in_map. by apply list_elem_of_In.
Qed.

Section TypedQuery.

Variable prog : Program.
Variable getTypeFromTypeNode : Node -> TsType.

Lemma requestAt_required fuel p node st st' k :
  requestAt prog getTypeFromTypeNode fuel p node st = Some st' ->
  k ∈ requiredQuery st -> k ∈ requiredQuery st'.
Proof.
  intros (st1 & Hd & Hc)%requestAt_steps Hk.
  assert (k ∈ requiredQuery st1) as Hk1.
  { apply declarationAt_cases in Hd
      as [(_ & -> & _)|(_ & _ & typed & Hm)]; [done|].
    by eapply merge_required. }
  by apply callAt_cases in Hc as (-> & _).
Qed.

Lemma isReqCall_query_not_json p call :
  isReqCall prog p call "query" = true -> isReqCall prog p call "json" = false.
Proof.
  destruct call; try done. unfold isReqCall.
  match goal with
  | |- context [match ?c with Identifier _ _ => _ | _ => _ end] =>
      destruct c; try done
  end.
  intros [->%String.eqb_eq _]%andb_true_iff. reflexivity.
Qed.

(** The schema of a plain object type, read with an empty set of seen
    types. *)
Lemma schemaOf_plain_object fuel type typed :
  PlainObjectType (getTypeChecker prog) type ->
  schemaOf prog fuel type = Some typed ->
  exists ps,
    Js.getProp typed "type" = JsString "object"
    /\ Js.getProp typed "properties" = JsObject ps
    /\ (forall sym,
          sym ∈ getPropertiesOfType (getTypeChecker prog) type ->
          symName sym ∈ map fst ps)
    /\ forall sym,
        sym ∈ getPropertiesOfType (getTypeChecker prog) type ->
        symOptional sym = false ->
        exists req,
          Js.getProp typed "required" = JsArray (map JsString req)
          /\ symName sym ∈ req.
Proof.
  intros (Hu & Hs & Hn & Hb & Hi & Ho). unfold schemaOf.
  destruct fuel as [|fuel]; [done|]. cbn [typeToSchema].
  rewrite Hu, Hs, Hn, Hb, Hi, Ho.
  rewrite decide_False by apply not_elem_of_empty.
  destruct (synthProps _ _ _ _ _) as [[[ps req] seen']|] eqn:Hprops;
    cbn [mbind option_bind fmap option_fmap option_map]; [|done].
  intros [= <-].
  apply synthProps_spec in Hprops as (Hreq & Hkeys & _).
  cbn [app] in Hreq.
  assert (forall sym,
             sym ∈ getPropertiesOfType (getTypeChecker prog) type ->
             symName sym ∈ map fst ps) as Hnames.
  { intros sym Hsym. apply Hkeys. right. by apply list_elem_of_fmap_2. }
  exists ps. destruct req as [|r0 req].
  - split; [reflexivity|]. split; [reflexivity|]. split; [exact Hnames|].
    intros sym Hsym Hopt. exfalso.
    assert (symName sym ∈ @nil string) as Hin; [|by apply elem_of_nil in Hin].
    rewrite Hreq. apply list_elem_of_fmap_2, list_elem_of_In, filter_In.
    split; [by apply list_elem_of_In|by rewrite Hopt].
  - split; [reflexivity|]. split; [reflexivity|]. split; [exact Hnames|].
    intros sym Hsym Hopt. exists (r0 :: req). split; [reflexivity|].
    rewrite Hreq. apply list_elem_of_fmap_2, list_elem_of_In, filter_In.
    split; [by apply list_elem_of_In|by rewrite Hopt].
Qed.

Lemma requestAt_query_declaration fuel p node typeNode st st' :
  QueryDeclaration prog p node typeNode ->
  PlainObjectType (getTypeChecker prog) (getTypeFromTypeNode typeNode) ->
  requestAt prog getTypeFromTypeNode fuel p node st = Some st' ->
  forall sym,
    sym ∈ getPropertiesOfType (getTypeChecker prog)
            (getTypeFromTypeNode typeNode) ->
    symName sym ∈ map fst (queryProps st')
    /\ (symOptional sym = false -> symName sym ∈ requiredQuery st').
Proof.
  intros (i & name & initializer & call & -> & Hcall & Hquery) Hplain.
  unfold requestAt. cbn [declarationAt callAt]. rewrite Hcall, Hquery.
  rewrite (isReqCall_query_not_json _ _ Hquery).
  cbn [mbind option_bind considerTyped].
  destruct (schemaOf prog fuel (getTypeFromTypeNode typeNode))
    as [typed|] eqn:Htyped; cbn [mbind option_bind]; [|done].
  rewrite (schemaOf_truthy _ _ _ _ Htyped).
  destruct (schemaOf_plain_object _ _ _ Hplain Htyped)
    as (ps & Htype & Hprops & Hnames & Hrequired).
  unfold mergeQuerySchemaFromObjectSchema.
  rewrite (schemaOf_truthy _ _ _ _ Htyped), Htype, Hprops.
  cbn [negb orb String.eqb Ascii.eqb Bool.eqb Js.truthy entries].
  intros [= <-] sym Hsym. cbn [queryProps requiredQuery]. split.
  - by apply foldl_assign_adds, Hnames.
  - intros Hopt. destruct (Hrequired sym Hsym Hopt) as (req & -> & Hin).
    apply foldl_setAdd_elem. right. by rewrite stringOf_strings.
Qed.

End TypedQuery.

(** A declaration [const q: T = ctx.req.query()] with an object type [T]
    documents one query parameter per property of [T], required when the
    property is not optional: each property name is among the properties
    of the query schema, each name of a property that is not optional is
    in its [required], and the assembled operation has the parameter. *)
Theorem typed_query_declares_parameters
  (prog : Program) (getTypeFromTypeNode : Node -> TsType) (fuel : nat)
  (cb : Node) (p : option string) (node typeNode : Node) (b q : JsValue)
  (sym : PropertySymbol) :
  findRequestData prog getTypeFromTypeNode fuel (Some cb) p = Some (b, q) ->
  node ∈ descendants cb ->
  QueryDeclaration prog p node typeNode ->
  PlainObjectType (getTypeChecker prog) (getTypeFromTypeNode typeNode) ->
  sym ∈ getPropertiesOfType (getTypeChecker prog) (getTypeFromTypeNode typeNode) ->
  exists ps req,
    q = JsObject [("type", JsString "object"); ("properties", JsObject ps);
                  ("required", JsArray (map JsString req))]
    /\ symName sym ∈ map fst ps
    /\ (symOptional sym = false -> symName sym ∈ req)
    /\ forall typeTextToSchema r,
        querySchema r = q ->
        exists params s,
          opParameters (operationOf typeTextToSchema r) = Some params
          /\ mkParameterObject (symName sym) "query"
               (isRequired (map JsString req) (symName sym)) s ∈ params
          /\ (symOptional sym = false ->
              isRequired (map JsString req) (symName sym) = true).
Proof.
  intros (st & Hfold & -> & ->)%findRequestData_fold Hnode Hdecl Hplain Hsym.
  apply list_elem_of_split in Hnode as (before & after & Hsplit).
  rewrite Hsplit in Hfold.
  apply foldl_guarded_split in Hfold as (st1 & _ & Hrest).
  cbn [foldl] in Hrest. unfold guarded at 2 in Hrest.
  cbn [mbind option_bind] in Hrest.
  destruct (requestAt _ _ _ _ _ st1) as [st2|] eqn:Hat;
    [|by rewrite foldl_guarded_None in Hrest].
  destruct (requestAt_query_declaration _ _ _ _ _ _ _ _ Hdecl Hplain Hat
              sym Hsym) as [Hk2 Hr2].
  assert (symName sym ∈ map fst (queryProps st)
          /\ (symOptional sym = false -> symName sym ∈ requiredQuery st))
    as [Hk Hr].
  { refine (foldl_guarded_invariant _
              (fun s => symName sym ∈ map fst (queryProps s)
                        /\ (symOptional sym = false ->
                            symName sym ∈ requiredQuery s))
              (fun _ => True) after _ _ st2 st (conj Hk2 Hr2) Hrest);
      [|by apply Forall_forall].
    intros n s0 s0' _ [Hs Hreq] Hn.
    split; [by eapply requestAt_keys|].
    intros Hopt. eapply requestAt_required; [exact Hn|by apply Hreq]. }
  exists (queryProps st), (requiredQuery st).
  assert (querySchemaOf st
          = JsObject [("type", JsString "object");
                      ("properties", JsObject (queryProps st));
                      ("required", JsArray (map JsString (requiredQuery st)))])
    as Hq.
  { unfold querySchemaOf. destruct (queryProps st); [|reflexivity].
    by apply elem_of_nil in Hk. }
  split; [exact Hq|]. split; [exact Hk|]. split; [exact Hr|].
  intros tts r Hquery. rewrite Hq in Hquery.
  pose proof (query_parameters tts r _ _ Hquery) as Hparams.
  apply list_elem_of_fmap in Hk as ([k' s] & Hname & Hin). cbn [fst] in Hname.
  assert (mkParameterObject (symName sym) "query"
            (isRequired (map JsString (requiredQuery st)) (symName sym)) s
          ∈ default [] (opParameters (operationOf tts r))) as Hmem.
  { rewrite Hparams. apply elem_of_app. right.
    apply list_elem_of_fmap. exists (k', s). by rewrite Hname. }
  destruct (opParameters (operationOf tts r)) as [params|];
    [|by apply elem_of_nil in Hmem].
  exists params, s. split; [reflexivity|]. split; [exact Hmem|].
  intros Hopt. by apply isRequired_elem, Hr.
Qed.

(** With [Paging] the object type [{ id: number; }] of the sample types,
    the parameter [id] is required. *)
Lemma typed_query_declares_parameters_witness :
  exists b q params s,
    findRequestData Cases.requestProgram (fun _ => 3%nat) 5
      (Some Cases.typedQueryBody) (Some "c") = Some (b, q)
    /\ opParameters
         (operationOf Sample.noTypeText
            (mkRouteInfo "get" "/items" None JsUndefined b q (Some [])
               None None)) = Some params
    /\ mkParameterObject "id" "query" true s ∈ params.
Proof.
  destruct (findRequestData Cases.requestProgram (fun _ => 3%nat) 5
              (Some Cases.typedQueryBody) (Some "c")) as [[b q]|] eqn:Hfind;
    [|vm_compute in Hfind; discriminate].
  exists b, q.
  destruct (typed_query_declares_parameters _ _ _ _ _
              (VariableDeclaration 603 (Identifier 604 "q")
                 (Some (Other 605 "TypeReference" [Identifier 606 "Paging"]))
                 (Some (Cases.reqCall 610 "query" [])))
              (Other 605 "TypeReference" [Identifier 606 "Paging"])
              b q (mkPropertySymbol "id" false 2%nat) Hfind)
    as (ps & req & Hq & Hk & Hr & Hops).
  - apply list_elem_of_In. vm_compute.
    repeat first [left; reflexivity | right].
  - unfold QueryDeclaration. eexists _, _, _, _. split; [reflexivity|].
    split; reflexivity.
  - unfold PlainObjectType. repeat split; reflexivity.
  - apply list_elem_of_here.
  - destruct (Hops Sample.noTypeText
                (mkRouteInfo "get" "/items" None JsUndefined b q (Some [])
                   None None) eq_refl) as (params & s & Hparams & Hmem & Hreq).
    exists params, s. split; [reflexivity|]. split; [exact Hparams|].
    by rewrite (Hreq eq_refl) in Hmem.
Defined.
